(* ===== verification/_CoqProject ===== *)
-Q . S2P
Prelude.v
Transport.v
GoStrconv.v
GoStrings.v
GoEncoding.v
GoFlag.v
GoNet.v
Config.v
Obs.v
Dsmsg.v
DsmsgClient.v
DsmsgLink.v
DsmsgCommands.v
DsmsgCommandFacts.v
DsmsgClosed.v
DsmsgMemory.v
DsmsgLaunch.v
MockDsmsg.v
DsmsgE2E.v
DsmsgDecode.v
Proxy.v
ProxySessions.v
Rsp.v
RspSession.v
MockRsp.v
QconnFraming.v
QconnClient.v
QconnPidin.v
QconnExec.v
QconnFile.v
QconnClosed.v
QconnFileFacts.v
QconnTransfer.v
MockServer.v
MockFiles.v
MockShell.v
QconnE2E.v
Pdebug.v
MockTarget.v
PdebugFacts.v
DsmsgConnect.v
Dbgprobe.v
McpText.v
McpTypes.v
McpServer.v
McpSessions.v
McpFacts.v
McpTools.v
McpDebug.v
McpAttach.v
QconnMcp.v
Commands.v
