(* ===== verification/Prelude.v ===== *)
(** * Verification of qnx8-qconn-mcp

    The program is an MCP server, written in Go, that drives a QNX target. It
    reaches the target over three protocols, each with its own client package,
    and ships a mock of each far end:

    - [internal/qconn] speaks the text protocol of the [qconn] daemon (a telnet
      stream with prompts, switched between sub-services);
    - [internal/qnxdbg] speaks DSMSG, the framed binary protocol of QNX's
      [pdebug] agent, over TCP or a serial line, and has a scanner that
      analyses captured DSMSG traffic;
    - [internal/debug] speaks the GDB remote serial protocol (RSP);
    - [internal/mockqnx] is a test double with one server per protocol.

    The MCP tools ([internal/mcpserver]) call these clients; a client never
    calls another one. A request may dial, use and drop the one qconn client the
    tools share, and create and close debug sessions, concurrently with other
    requests. [cmd/qconn-mcp] loads the configuration ([internal/config]),
    serves requests over HTTP and closes the server on a signal; two proxies
    ([internal/proxy] with [cmd/qconn-proxy], and [cmd/dsmsg-proxy]), a probe
    ([cmd/dbgprobe]) and a program around the mock ([cmd/mock-qconn]) are
    development aids.

    ** Conventions

    A Go [byte] is [Byte.byte] and a Go [string] or [[]byte] is [list byte]
    ([str] turns a literal into one). Wider integers are [Z] with their wrap-around
    written out ([u16], [u32], [u64], [i64], ...). A method on a client is a function
    from the client's state to a result and the new state; a Go error is a
    constructor of the package's error type. A connection is a peer: a state
    type with its reaction to one [Write] ([Transport.v]; [QconnFraming.v] for
    the [bufio.Reader] of qconn, whose buffering is observable). The client
    theorems quantify over peers or over a class of peers; the mocks are
    instances of these classes, so a class is never empty.

    ** Files

    - [Prelude.v], [GoStrconv.v], [GoStrings.v]: bytes, machine integers and
      what the code uses of Go's [strconv], [fmt], [encoding/hex] and
      [strings], with the round trips between printing and parsing.
    - [GoEncoding.v], [GoFlag.v]: [encoding/hex], [encoding/base64], the [%q]
      verb, and the [flag] package with the number syntax of its values.
      [GoNet.v]: host and port texts, and the accept loop.
    - [Config.v]: [internal/config/config.go]; [Obs.v]: [internal/obs/log.go].
    - [Transport.v]: the stream connection of DSMSG and RSP.
    - [Dsmsg.v]: [internal/qnxdbg/protocol.go] (frames, checksum, stuffing).
    - [DsmsgClient.v]: [internal/qnxdbg/client.go]; record [Client] is the Go
      struct (transport, message id, collected output).
    - [DsmsgLink.v]: class [Link], the two operations the commands use, with a
      byte-level instance and a message-level one, class [DsmsgTarget] of peers
      that answer whole frames with whole frames, and the simulation between
      the two instances.
    - [DsmsgCommands.v]: every method of [internal/qnxdbg/commands.go];
      [DsmsgCommandFacts.v], [DsmsgMemory.v] and [DsmsgLaunch.v] hold its
      theorems. [DsmsgClosed.v]: what the commands keep, closed clients above
      all.
    - [DsmsgDecode.v]: [internal/qnxdbg/decode.go].
    - [MockDsmsg.v], [DsmsgE2E.v]: [internal/mockqnx/dsmsg.go] as a
      [DsmsgTarget], and whole sessions of the client on it.
    - [Rsp.v], [RspSession.v]: [internal/debug/rsp.go] and
      [internal/debug/session.go]; [MockRsp.v]: [internal/mockqnx/rsp.go],
      class [RspStub] of stubs that acknowledge as their mode asks, and whole
      sessions.
    - [QconnFraming.v], [QconnClient.v], [QconnFile.v]:
      [internal/qconn/framing.go], [client.go], and [file.go], [cntl.go] and
      the memory access of [proc.go]. [QconnFileFacts.v] and
      [QconnTransfer.v] state class [FileDaemon] (which files it opens is up to
      the daemon) and prove the file transfer over it. [QconnClosed.v]: a closed
      qconn connection stays closed, and whoever opens one of its own closes it.
    - [QconnExec.v]: [internal/qconn/launcher.go] and the queries of
      [sysinfo.go] and [proc.go], which run [pidin] on a connection of their
      own; class [LauncherDaemon]. [QconnPidin.v]: the parsers of what [pidin]
      prints.
    - [MockServer.v], [MockFiles.v], [MockShell.v], [QconnE2E.v]:
      [internal/mockqnx/server.go] and [shell.go], the proofs that the mock is
      a [FileDaemon] and a [LauncherDaemon], and the client connected to it.
    - [Pdebug.v]: [internal/debug/pdebug.go], [Connect] of
      [internal/qnxdbg/client.go] and [internal/qnxdbg/serial.go];
      [PdebugFacts.v] holds the theorems on attaching through the manager.
      [DsmsgConnect.v]: connecting, related to the message level, and class
      [DebugAgent] of agents that accept an attach to a process they admit.
    - [MockTarget.v]: the mock target as a whole, a step relation over its
      connections, the stubs its programs start and the shared table of ports.
    - [Dbgprobe.v]: [cmd/dbgprobe/main.go] over any [Link].
    - [Proxy.v]: [internal/proxy/proxy.go] and [cmd/dsmsg-proxy/main.go]; a
      session is two pumps whose reads, writes and closes interleave with the
      remote ends (step relation [session_step]). [ProxySessions.v]: its life
      from the dial to the end of [handle] (step relation [handling_step]).
    - [McpText.v]: the pure parts of the tools (string extraction, register
      decoding, printability) and the token check. [McpTypes.v]: what every
      tool takes and returns. [McpServer.v]: the state of
      [internal/mcpserver/server.go] (record [Server]; clients, debug clients
      and sessions live in heaps, a pointer is an index; connections that were
      opened and given up are kept with the state, closed or not, so that a leak
      would be seen) and every handler as a
      process [proc] of atomic steps: [run] executes a lone request, and
      [pool_step] interleaves the requests in flight.
    - [McpSessions.v]: a discipline [follows] that says what a request may hold
      (a client nobody else knows, a session number drawn, a session found or
      shut) and the invariant [inv] it preserves. [McpFacts.v] and
      [McpTools.v]: the theorems on reachable servers and on the tools.
    - [McpDebug.v]: the abstract debugger, a map from session ids to sessions
      on the message level, and the simulation of the debug tools by it.
      [McpAttach.v]: an attach and a read through all layers.
    - [QconnMcp.v]: [cmd/qconn-mcp/main.go] and the routing of [Handler]; the
      running program is the step relation [program_step].
    - [Commands.v]: the other programs under [cmd], and [Run] of the proxy.

    ** What is proved

    - Framing: a written frame or packet is read back with its payload
      ([readFrame_frame], [ReadPacket_packet], [decode_runs]); a frame is
      accepted exactly when its checksum is right, and a corrupted byte is
      on the wire is detected ([readFrame_accepts], [readFrame_detects_corruption],
      [ReadPacket_detects_corruption]); a prompt-terminated text is returned
      exactly, for every way the network cuts the stream
      ([readUntilPrompt_response]); telnet commands are removed and nothing
      else ([stripIAC_tokens]).
    - Exchanges: one request per call, increasing message ids, replies of other
      channels skipped and collected, handshake order
      ([transactSub_one_request], [readResponse_first_reply],
      [handshake_protocol], [SendPacket_wire], [Command_stub]); the tracked
      qconn service is the daemon's ([ensure_tracks]).
    - Refinement: a DSMSG command run on bytes returns what it returns on
      messages and leaves matching states ([commands_refine]), so the
      theorems on memory ([ReadMemory_exact], [WriteMemory_ReadMemory]) and
      launch ([Launch_sequence]) are proved on messages and hold on bytes.
      The same holds for the whole server: whatever requests it is sent, the
      debug tools answer as the abstract debugger does ([debug_tools_refine]),
      and an attach followed by a read returns the bytes of the process
      ([attach_then_read]).
    - Files: [WriteFile] then [ReadFile] returns the content, whatever bytes it
      has and however many chunks it takes ([WriteFile_ReadFile]).
    - Programs: [Exec] returns what the program printed ([Exec_result]), no
      command leaves a bare quote in its quoted form ([escapeArg_quoting]), and printed listings
      parse to what they list ([parsePidinThreads_listing],
      [parseMapSegments_listing]).
    - Protocol analysis: the scanner's frames do not depend on how the stream
      is cut ([Feed_chunking]), they are the frames that were sent
      ([Feed_frames]), and a request is described by its code
      ([decodeBody_requests]).
    - The server, for all interleavings of all requests: sessions stay apart
      ([sessions_isolated]), ids are never reused ([session_id_stable]), no
      debug connection is leaked, those given up while connecting included
      ([sessions_no_leak]), signal tables are well
      formed ([session_table_type]), and [Close] releases everything
      ([Close_releases]).
    - The program: a drained shutdown exits with 0 and every connection closed,
      to debug agents and to qconn, short-lived ones included, and can be reached from every serving state ([main_shutdown]); no tool runs
      without the token ([main_token]).
    - Attaching through the debug manager leaks no connection, unless the
      parser of the stop reply panics ([ManagerAttach_releases]).
    - The tools: the file tools round trip, and content is taken for text
      whatever its encoding ([file_tools_roundtrip]), the last
      signal request wins ([handle_signal_last_wins]), registers and strings
      are decoded exactly ([decodeAArch64_registers], [printableStrings_runs]).
    - Configuration and access: flags over environment over file over default
      ([Load_precedence]); the token on the command line is the one enforced
      ([command_line_token], [withAuth_exact]); sensitive attributes are not
      logged ([redact_sensitive]).
    - Development aids: the proxies deliver a prefix of what was sent, in order
      ([proxy_transparent]), and log every message once ([dsmsg_proxy_log]);
      the probe detaches or kills what it took ([probe_releases]). A session
      of a proxy ends with both connections closed ([session_released]), and the
      qconn proxy serves what it accepts, for a target only
      ([qconn_proxy_main]). The mock runs one stub per port ([mock_stub_once]).
    - Sessions on the mocks: [debug_session_mock], [Launch_mock],
      [rsp_session_mock], [dialed_agrees], [manager_attach_mock].
    - Behaviour that surprises: [Feed_ignores_checksum], [parseStop_panics],
      [writeAt_error_leaves_prompt], [reset_race], [conn_never_redialled],
      [half_close_cuts], [Load_config_late], [mock_stub_no_attach],
      [trace_needs_debug].

    ** Fuel

    Loops whose end the client's own data decides have their fuel computed in
    the definition, and it is enough: [readResponse] and the readers of frames
    consume at least one unread byte per round, so the number of unread bytes
    bounds them ([readResponse_outcome]); [DsmsgCommands.ReadMemory] and
    [WriteMemory] take at most [n / 1024 + 2] rounds or stop on a short reply
    ([ReadMemory_total], [WriteMemory_total]); the scanner shortens its buffer
    and the mocks their input in every round. A telnet reader may be kept busy
    by a peer that answers each of its refusals with another demand; the
    readers of [QconnFraming] have the unread bytes as fuel, and their theorems
    assume a peer that does not react to refusals. [QconnFile.ReadFile] and [RspSession.ListThreads]
    loop as long as the far end says there is more, so they take
    explicit fuel, and their theorems give an amount with which they return;
    the tools take it from [Platform] ([pf_chunks]).

    ** What is not modelled

    Time: a read deadline is one kind of failed read, the five seconds of the
    shutdown may pass at any moment, and timestamps in logs are left out. The
    operating system: the outcomes of dials, listens and accepts are part of
    the state or arguments, the system calls behind a serial line are
    parameters. Libraries: the MCP SDK and the HTTP server that call the
    handlers are events of [program_step], and the YAML and duration parsers
    parameters of [Load]. The layout of log records as text or JSON, the debug
    records of the clients, and allocation failure are left out too. Mount
    paths are taken without the wildcards, methods and hosts of
    [http.ServeMux]. The pause that ends [readUntilIdle] is a
    parameter: how many bytes arrive after it. In [McpServer.v] a section under
    a mutex is one atomic step, and so is work on an object nobody else can
    reach; [Close] takes no session mutex, so it could run in the middle of a
    command on that session, where the model lets it run before or after. The
    counter of sessions is a 64-bit integer that the model lets grow without
    bound. *)

From stdpp Require Import base list strings gmap countable numbers.
From Stdlib Require Import ZArith Lia.
From Stdlib Require Import Strings.Byte.

Declare Scope go_scope.
Delimit Scope go_scope with go.

(** ** Tactics and hint databases *)

Create HintDb go_arith.
Create Rewrite HintDb go_bytes.

(** Case analysis on the first [match]/[if] scrutinee of the goal or of a
    hypothesis, keeping its equation. *)
Ltac case_match_eq :=
  match goal with
  | |- context [ match ?x with _ => _ end ] => let E := fresh "E" in destruct x eqn:E
  | H : context [ match ?x with _ => _ end ] |- _ => let E := fresh "E" in destruct x eqn:E
  end.

(** A fact about every byte, checked on its 256 values. *)
Ltac byte_cases b := destruct b; vm_compute; try reflexivity; try discriminate.

(** ** Bytes

    A Go [byte] is the 256-constructor type [Byte.byte], so a [list byte] is
    exactly a Go [[]byte] (or a Go [string], which is a byte sequence) and no
    range side condition is ever needed. *)

#[export] Instance byte_eq_decision : EqDecision byte := Byte.byte_eq_dec.

#[export, refine] Instance byte_countable : Countable byte :=
  inj_countable Byte.to_N Byte.of_N _.
Proof. intros b. apply Byte.of_to_N. Defined.

Local Open Scope Z_scope.

Definition Z_of_byte (b : byte) : Z := Z.of_N (Byte.to_N b).

(** Go's conversion [byte(z)]: reduction modulo 256. *)
Definition byte_of_Z (z : Z) : byte := default x00 (Byte.of_N (Z.to_N (z `mod` 256))).

Definition byte_add (a b : byte) : byte := byte_of_Z (Z_of_byte a + Z_of_byte b).
Definition byte_sub (a b : byte) : byte := byte_of_Z (Z_of_byte a - Z_of_byte b).
Definition byte_xor (a b : byte) : byte := byte_of_Z (Z.lxor (Z_of_byte a) (Z_of_byte b)).

(** A Go string literal as its bytes. *)
Definition str (s : string) : list byte := String.list_byte_of_string s.

(** [make([]byte, n)]. *)
Definition zeros (n : nat) : list byte := replicate n x00.

Lemma Z_of_byte_range b : 0 <= Z_of_byte b < 256.
Proof. destruct b; (split; [by vm_compute | by vm_compute]). Qed.

Lemma byte_of_Z_of_byte b : byte_of_Z (Z_of_byte b) = b.
Proof. byte_cases b. Qed.

Lemma Z_of_byte_of_Z z : Z_of_byte (byte_of_Z z) = z `mod` 256.
Proof.
  unfold Z_of_byte, byte_of_Z.
  pose proof (Z.mod_pos_bound z 256 ltac:(lia)) as Hr.
  destruct (Byte.of_N (Z.to_N (z `mod` 256))) as [b|] eqn:E; simpl.
  - apply Byte.to_of_N in E. rewrite E. lia.
  - apply Byte.of_N_None_iff in E. lia.
Qed.

Lemma Z_of_byte_inj a b : Z_of_byte a = Z_of_byte b → a = b.
Proof. intros H. by rewrite <- (byte_of_Z_of_byte a), H, byte_of_Z_of_byte. Qed.

Lemma byte_of_Z_mod z : byte_of_Z (z `mod` 256) = byte_of_Z z.
Proof. apply Z_of_byte_inj. by rewrite !Z_of_byte_of_Z, Z.mod_mod by lia. Qed.

Lemma byte_xor_involutive b k : byte_xor (byte_xor b k) k = b.
Proof.
  apply Z_of_byte_inj. unfold byte_xor at 1. unfold byte_xor at 1.
  rewrite !Z_of_byte_of_Z. change 256 with (2 ^ 8).
  rewrite <- !Z.land_ones by lia.
  apply Z.bits_inj'. intros n Hn.
  rewrite !Z.land_spec, !Z.lxor_spec, !Z.land_spec, !Z.lxor_spec.
  destruct (Z.testbit (Z.ones 8) n) eqn:Ho.
  - destruct (Z.testbit (Z_of_byte b) n), (Z.testbit (Z_of_byte k) n); done.
  - assert (Z.testbit (Z_of_byte b) n = false) as ->; [|by rewrite !andb_false_r].
    pose proof (Z_of_byte_range b).
    apply Z.bits_above_log2; [lia|].
    destruct (decide (n < 8)); [|assert (Z.log2 (Z_of_byte b) < 8); [|lia]].
    + rewrite Z.ones_spec_low in Ho by lia. done.
    + destruct (decide (Z_of_byte b = 0)) as [->|]; [simpl; lia|].
      apply Z.log2_lt_pow2; lia.
Qed.

#[export] Hint Rewrite byte_of_Z_of_byte Z_of_byte_of_Z byte_of_Z_mod
  byte_xor_involutive : go_bytes.

(** ** Machine integers

    A Go integer is the [Z] it denotes; every conversion the source writes is
    one of these wrap-around functions. [int] is 64 bits wide. *)

Definition u8 (z : Z) : Z := z `mod` 2 ^ 8.
Definition u16 (z : Z) : Z := z `mod` 2 ^ 16.
Definition u32 (z : Z) : Z := z `mod` 2 ^ 32.
Definition u64 (z : Z) : Z := z `mod` 2 ^ 64.
Definition i32 (z : Z) : Z := (z + 2 ^ 31) `mod` 2 ^ 32 - 2 ^ 31.
Definition i64 (z : Z) : Z := (z + 2 ^ 63) `mod` 2 ^ 64 - 2 ^ 63.

Lemma u32_range z : 0 <= u32 z < 2 ^ 32.
Proof. apply Z.mod_pos_bound; lia. Qed.

Lemma u64_range z : 0 <= u64 z < 2 ^ 64.
Proof. apply Z.mod_pos_bound; lia. Qed.

Lemma i32_u32 z : - 2 ^ 31 <= z < 2 ^ 31 → i32 (u32 z) = z.
Proof.
  intros H. unfold i32, u32. rewrite Z.add_mod_idemp_l by lia.
  rewrite Z.mod_small; lia.
Qed.

Lemma u32_small z : 0 <= z < 2 ^ 32 → u32 z = z.
Proof. apply Z.mod_small. Qed.

Lemma u64_small z : 0 <= z < 2 ^ 64 → u64 z = z.
Proof. apply Z.mod_small. Qed.

Lemma i64_small z : - 2 ^ 63 <= z < 2 ^ 63 → i64 z = z.
Proof. intros Hz. unfold i64. rewrite Z.mod_small; lia. Qed.

Lemma u64_idemp z : u64 (u64 z) = u64 z.
Proof. unfold u64. by rewrite Z.mod_mod by lia. Qed.

Lemma u64_add_l a b : u64 (u64 a + b) = u64 (a + b).
Proof. unfold u64. by rewrite Z.add_mod_idemp_l by lia. Qed.

#[export] Hint Resolve u32_range u64_range : go_arith.

(** ** Little-endian encoding

    [encoding/binary]'s LittleEndian [PutUintN] and [UintN] on [n] bytes. *)

Fixpoint le_put (n : nat) (v : Z) : list byte :=
  match n with
  | O => []
  | S n => byte_of_Z v :: le_put n (Z.shiftr v 8)
  end.

Fixpoint le_get (l : list byte) : Z :=
  match l with
  | [] => 0
  | b :: l => Z.lor (Z_of_byte b) (Z.shiftl (le_get l) 8)
  end.

Lemma byte_land_shift b z : Z.land (Z_of_byte b) (Z.shiftl z 8) = 0.
Proof.
  apply Z.bits_inj'. intros n Hn.
  rewrite Z.land_spec, Z.shiftl_spec, Z.bits_0 by lia.
  destruct (decide (n < 8)).
  - rewrite (Z.testbit_neg_r z) by lia. apply andb_false_r.
  - pose proof (Z_of_byte_range b).
    rewrite (Z.bits_above_log2 (Z_of_byte b)); [done|lia|].
    destruct (decide (Z_of_byte b = 0)) as [->|]; [simpl; lia|].
    assert (Z.log2 (Z_of_byte b) < 8); [apply Z.log2_lt_pow2; lia | lia].
Qed.

Lemma le_get_cons b l : le_get (b :: l) = Z_of_byte b + 256 * le_get l.
Proof.
  change (le_get (b :: l)) with (Z.lor (Z_of_byte b) (Z.shiftl (le_get l) 8)).
  pose proof (Z.add_lor_land (Z_of_byte b) (Z.shiftl (le_get l) 8)) as H.
  rewrite byte_land_shift, Z.shiftl_mul_pow2 in H by lia.
  rewrite Z.shiftl_mul_pow2 by lia. lia.
Qed.

Lemma length_le_put n v : length (le_put n v) = n.
Proof. revert v. induction n; intros; simpl; auto. Qed.

Lemma le_get_put n v : le_get (le_put n v) = v `mod` 2 ^ (8 * Z.of_nat n).
Proof.
  revert v. induction n as [|n IH]; intros v.
  { simpl. by rewrite Z.mod_1_r. }
  cbn [le_put]. rewrite le_get_cons, IH, Z_of_byte_of_Z.
  rewrite Z.shiftr_div_pow2 by lia. change (2 ^ 8) with 256.
  replace (8 * Z.of_nat (S n)) with (8 + 8 * Z.of_nat n) by lia.
  rewrite Z.pow_add_r by lia. change (2 ^ 8) with 256.
  rewrite Z.rem_mul_r by lia. lia.
Qed.

Lemma le_get_range l : 0 <= le_get l < 2 ^ (8 * Z.of_nat (length l)).
Proof.
  induction l as [|b l IH]; [simpl; lia|].
  rewrite le_get_cons. pose proof (Z_of_byte_range b).
  cbn [length]. replace (8 * Z.of_nat (S (length l))) with (8 + 8 * Z.of_nat (length l)) by lia.
  rewrite Z.pow_add_r by lia. lia.
Qed.

Lemma le_put_get l : le_put (length l) (le_get l) = l.
Proof.
  induction l as [|b l IH]; [done|].
  cbn [length le_put]. rewrite le_get_cons. f_equal.
  - apply Z_of_byte_inj. rewrite Z_of_byte_of_Z, Z.mul_comm, Z_mod_plus_full.
    apply Z.mod_small, Z_of_byte_range.
  - rewrite Z.shiftr_div_pow2 by lia. change (2 ^ 8) with 256.
    rewrite Z.mul_comm, Z.div_add by lia.
    rewrite (Z.div_small (Z_of_byte b)) by apply Z_of_byte_range. exact IH.
Qed.

Lemma le_put_mod n v : le_put n (v `mod` 2 ^ (8 * Z.of_nat n)) = le_put n v.
Proof.
  rewrite <- le_get_put. rewrite <- (length_le_put n v) at 1. apply le_put_get.
Qed.

(** ** Lists *)

Lemma filter_all {A} (Q : A → Prop) `{!∀ x, Decision (Q x)} l : Forall Q l → filter Q l = l.
Proof. induction 1; [done|]. rewrite filter_cons_True by done. by f_equal. Qed.

Lemma replicate_suffix {A} n (x : A) l r : replicate n x = l ++ r → r = replicate (length r) x.
Proof.
  revert n. induction l as [|y l IH]; intros n; simpl.
  - intros <-. by rewrite length_replicate.
  - destruct n; [done|]. intros [= _ E]. by apply (IH n).
Qed.

(** ** The state-and-error monad

    A Go method that mutates its receiver and returns [(A, error)] is a
    function from the receiver's state to either an error or a value, together
    with the state it leaves behind (errors do not roll the state back). *)

Definition M (E S A : Type) : Type := S → (E + A) * S.

#[export] Instance M_ret {E S} : MRet (M E S) := λ A a s, (inr a, s).

#[export] Instance M_bind {E S} : MBind (M E S) := λ A B f m s,
  match m s with
  | (inr a, s') => f a s'
  | (inl e, s') => (inl e, s')
  end.

(** [return nil, err]. *)
Definition throw {E S A} (e : E) : M E S A := λ s, (inl e, s).

Definition get_state {E S} : M E S S := λ s, (inr s, s).
Definition modify {E S} (f : S → S) : M E S unit := λ s, (inr (), f s).

(** [v, err := m()] with [err] inspected by the caller instead of returned. *)
Definition attempt {E S A} (m : M E S A) : M E S (E + A) := λ s,
  let '(r, s') := m s in (inr r, s').

(** [if err != nil { return fmt.Errorf("...: %w", err) }]. *)
Definition wrap_err {E S A} (w : E → E) (m : M E S A) : M E S A := λ s,
  match m s with
  | (inl e, s') => (inl (w e), s')
  | r => r
  end.

(** [for _, x := range xs { if err := f(x); err != nil { return err } }]. *)
Fixpoint range_do {E S A} (f : A → M E S unit) (xs : list A) : M E S unit :=
  match xs with
  | [] => mret ()
  | x :: xs => f x ≫= λ _, range_do f xs
  end.

Section monad_lemmas.
Context {E S A B : Type}.
Implicit Types (m : M E S A) (f : A → M E S B) (s : S).

Lemma bind_ok m f s a s' : m s = (inr a, s') → (m ≫= f) s = f a s'.
Proof. intros H. unfold mbind, M_bind. by rewrite H. Qed.

Lemma bind_err m f s e s' : m s = (inl e, s') → (m ≫= f) s = (inl e, s').
Proof. intros H. unfold mbind, M_bind. by rewrite H. Qed.

Lemma bind_inv m f s b s'' :
  (m ≫= f) s = (inr b, s'') → ∃ a s', m s = (inr a, s') ∧ f a s' = (inr b, s'').
Proof. unfold mbind, M_bind. destruct (m s) as [[e|a] s'] eqn:Hm; [done|eauto]. Qed.

Lemma attempt_run m s : attempt m s = (inr (fst (m s)), snd (m s)).
Proof. unfold attempt. by destruct (m s). Qed.
End monad_lemmas.

Lemma range_do_app {E S A} (f : A → M E S unit) xs ys s :
  range_do f (xs ++ ys) s = (range_do f xs ≫= λ _, range_do f ys) s.
Proof.
  revert s. induction xs as [|x xs IH]; intros s; [done|].
  unfold mbind, M_bind in *. simpl. unfold mbind, M_bind.
  destruct (f x s) as [[e|[]] s']; [done|]. apply IH.
Qed.

(** ** Invariants of methods

    A method keeps [Q] when it leaves the receiver in [Q] on every path,
    errors included. *)

Definition keeps {E S A} (Q : S → Prop) (m : M E S A) : Prop := ∀ s, Q s → Q (snd (m s)).

Section keeps.
Context {E S : Type} (Q : S → Prop).

Lemma keeps_ret {A} (a : A) : keeps (E := E) Q (mret a).
Proof. by intros s. Qed.

Lemma keeps_throw {A} (e : E) : keeps Q (throw (A := A) e).
Proof. by intros s. Qed.

Lemma keeps_get : keeps (E := E) Q get_state.
Proof. by intros s. Qed.

Lemma keeps_modify (f : S → S) : (∀ s, Q s → Q (f s)) → keeps (E := E) Q (modify f).
Proof. intros Hf s. apply Hf. Qed.

Lemma keeps_bind {A B} (m : M E S A) (f : A → M E S B) :
  keeps Q m → (∀ a, keeps Q (f a)) → keeps Q (m ≫= f).
Proof.
  intros Hm Hf s Hs. unfold mbind, M_bind. specialize (Hm s Hs).
  destruct (m s) as [[e|a] s']; [done|]. by apply Hf.
Qed.

Lemma keeps_attempt {A} (m : M E S A) : keeps Q m → keeps Q (attempt m).
Proof. intros Hm s Hs. unfold attempt. specialize (Hm s Hs). by destruct (m s). Qed.

Lemma keeps_wrap {A} (w : E → E) (m : M E S A) : keeps Q m → keeps Q (wrap_err w m).
Proof. intros Hm s Hs. unfold wrap_err. specialize (Hm s Hs). by destruct (m s) as [[]]. Qed.

Lemma keeps_range {A} (f : A → M E S unit) xs :
  (∀ x, keeps Q (f x)) → keeps Q (range_do f xs).
Proof.
  intros Hf. induction xs as [|x xs IH]; [apply keeps_ret|].
  change (keeps Q (f x ≫= λ _, range_do f xs)). by apply keeps_bind.
Qed.
End keeps.

Create HintDb keeps.
#[export] Hint Resolve keeps_ret keeps_throw keeps_get keeps_bind keeps_attempt keeps_wrap keeps_range : keeps.

(** Methods by their structure, the parts by the hints. *)
Ltac keeps_auto :=
  repeat first
    [ solve [eauto with keeps]
    | apply keeps_bind; [|intros ?] | apply keeps_attempt | apply keeps_wrap
    | apply keeps_range; intros ?
    | match goal with |- keeps _ (match ?x with _ => _ end) => destruct x end ].

(** Run the head of a bind whose result is given by a hypothesis or lemma. *)
Ltac step_ok H := rewrite (bind_ok _ _ _ _ _ H).
Ltac step_err H := rewrite (bind_err _ _ _ _ _ H).
