(* ===== verification/Transport.v ===== *)
(** * Byte transports

    The two protocol clients ([internal/qnxdbg.Client], [internal/debug.RSP])
    own a stream connection ([net.Conn] or a raw tty) read through a
    [bufio.Reader]. The other end of the stream is not part of the client: it
    is a type [P] of peer states with the reaction of the peer to one [Write].
    A transport is the peer, the bytes it has produced that the client has not
    read yet, and the history of the client's writes.

    [ReadByte] fails exactly when the peer has produced nothing more to read:
    end of stream, a reset connection and an expired read deadline are all
    this one failure, and no client of the package distinguishes them.
    Deadlines and log output have no other effect on the modelled state. *)

From stdpp Require Import base list.
From Stdlib Require Import Strings.Byte.
From S2P Require Import Prelude.

(** The reaction of the far end to one [Write]: whether the write succeeds,
    the bytes the peer sends back (in order, before it blocks for more input)
    and its next state. *)
Class Peer (P : Type) : Type :=
  peer_write : P → list byte → bool * list byte * P.

Record transport (P : Type) : Type := Transport {
  t_peer : P;
  t_rx : list byte;          (* produced by the peer, not read yet *)
  t_tx : list (list byte);   (* history: the buffers written, oldest first *)
  t_open : bool
}.
Arguments Transport {P}.
Arguments t_peer {P}.
Arguments t_rx {P}.
Arguments t_tx {P}.
Arguments t_open {P}.

Section transport.
Context {P : Type} `{Peer P}.
Implicit Types t : transport P.

Definition t_set_rx (r : list byte) t : transport P :=
  Transport (t_peer t) r (t_tx t) (t_open t).

(** [conn.Write(b)]. *)
Definition t_write (b : list byte) t : bool * transport P :=
  if t_open t then
    let '(ok, out, p) := peer_write (t_peer t) b in
    (ok, Transport p (t_rx t ++ out) (if ok then t_tx t ++ [b] else t_tx t) true)
  else (false, t).

(** [br.ReadByte()]. *)
Definition t_read_byte t : option byte * transport P :=
  match t_rx t with
  | [] => (None, t)
  | b :: r => (Some b, t_set_rx r t)
  end.

(** [conn.Close()]: nothing can be read or written afterwards. *)
Definition t_close t : transport P := Transport (t_peer t) [] (t_tx t) false.

Lemma t_write_closed b t : t_open t = false → t_write b t = (false, t).
Proof. unfold t_write. by intros ->. Qed.

Lemma t_write_run b t ok out p :
  t_open t = true → peer_write (t_peer t) b = (ok, out, p) →
  t_write b t = (ok, Transport p (t_rx t ++ out) (if ok then t_tx t ++ [b] else t_tx t) true).
Proof. unfold t_write. by intros -> ->. Qed.

(** A write only ever adds to what can be read and to the history. *)
Lemma t_write_extends b t ok t' :
  t_write b t = (ok, t') →
  (∃ out, t_rx t' = t_rx t ++ out) ∧
  t_tx t' = (if ok then t_tx t ++ [b] else t_tx t).
Proof.
  unfold t_write. destruct (t_open t).
  - destruct (peer_write (t_peer t) b) as [[o out] p]. intros [= <- <-]. simpl. eauto.
  - intros [= <- <-]. split; [exists []; by rewrite app_nil_r | done].
Qed.
End transport.
