(* ===== verification/GoStrconv.v ===== *)
(** * Number formatting and parsing

    What the program uses of Go's [fmt] and [strconv]: the [%x], [%d] and [%#x]
    verbs, [hex.EncodeToString], and [ParseUint], [ParseInt] and [Atoi] with the
    value and the error they return, with the round trips between them. *)

From stdpp Require Import base list numbers strings.
From Stdlib Require Import ZArith Lia Strings.Byte.
From S2P Require Import Prelude.

Local Open Scope Z_scope.

(** ** Formatting *)

Definition hexdigits : list byte := str "0123456789abcdef".

Definition hexDigit (n : Z) : byte := default x00 (hexdigits !! Z.to_nat n).

(** [fmt.Sprintf("%02x", b)]. *)
Definition fmt_02x (b : byte) : list byte :=
  [hexDigit (Z_of_byte b / 16); hexDigit (Z_of_byte b `mod` 16)].

(** [fmt.Sprintf("%x", bs)] and [hex.EncodeToString(bs)]. *)
Definition hex_of_bytes (bs : list byte) : list byte := bs ≫= fmt_02x.

Fixpoint digits_loop (fuel : nat) (base n : Z) (acc : list byte) : list byte :=
  match fuel with
  | O => acc
  | S fuel =>
      let acc := hexDigit (n `mod` base) :: acc in
      if n <? base then acc else digits_loop fuel base (n / base) acc
  end.

Definition fmt_uint (base n : Z) : list byte :=
  digits_loop (S (Z.to_nat (Z.log2 n))) base n [].

(** [%x] and [%d] of a Go integer. *)
Definition fmt_int (base z : Z) : list byte :=
  if z <? 0 then x2d :: fmt_uint base (- z) else fmt_uint base z.

Definition fmt_x (z : Z) : list byte := fmt_int 16 z.
Definition fmt_d (z : Z) : list byte := fmt_int 10 z.

(** [%#x] of an unsigned integer. *)
Definition fmt_sharp_x (z : Z) : list byte := str "0x" ++ fmt_uint 16 z.

(** ** Parsing *)

Inductive num_err := ErrSyntax | ErrRange.

Definition digit_val (c : byte) : option Z :=
  let z := Z_of_byte c in
  if (48 <=? z) && (z <=? 57) then Some (z - 48)
  else if (97 <=? z) && (z <=? 102) then Some (z - 97 + 10)
  else if (65 <=? z) && (z <=? 70) then Some (z - 65 + 10)
  else None.

(** The digit loop of [ParseUint], for bases up to 16. *)
Fixpoint parse_digits (base max acc : Z) (s : list byte) : Z * option num_err :=
  match s with
  | [] => (acc, None)
  | c :: s =>
      match digit_val c with
      | Some d =>
          if d <? base then
            let n := acc * base + d in
            if max <? n then (max, Some ErrRange) else parse_digits base max n s
          else (0, Some ErrSyntax)
      | None => (0, Some ErrSyntax)
      end
  end.

Definition ParseUint (s : list byte) (base bits : Z) : Z * option num_err :=
  match s with
  | [] => (0, Some ErrSyntax)
  | _ => parse_digits base (2 ^ bits - 1) 0 s
  end.

Definition ParseInt (s : list byte) (base bits : Z) : Z * option num_err :=
  let '(neg, digits) :=
    match s with
    | x2d :: s' => (true, s')
    | x2b :: s' => (false, s')
    | _ => (false, s)
    end in
  let '(un, err) := ParseUint digits base bits in
  let cutoff := 2 ^ (bits - 1) in
  match err with
  | Some ErrSyntax => (0, Some ErrSyntax)
  | _ =>
      if negb neg && (cutoff <=? un) then (cutoff - 1, Some ErrRange)
      else if neg && (cutoff <? un) then (- cutoff, Some ErrRange)
      else (if neg then - un else un, None)
  end.

Definition Atoi (s : list byte) : Z * option num_err := ParseInt s 10 64.

(** ** Hex pairs *)

Lemma digit_val_hexDigit n : 0 <= n < 16 → digit_val (hexDigit n) = Some n.
Proof.
  intros H.
  assert (n ∈ seqZ 0 16) as Hin by (apply elem_of_seqZ; lia).
  assert (Forall (λ n, digit_val (hexDigit n) = Some n) (seqZ 0 16)) as Hall
    by (repeat constructor).
  by rewrite Forall_forall in Hall; apply Hall.
Qed.

Lemma length_hex_of_bytes bs : length (hex_of_bytes bs) = (2 * length bs)%nat.
Proof.
  induction bs as [|b bs IH]; [done|].
  change (hex_of_bytes (b :: bs)) with (fmt_02x b ++ hex_of_bytes bs).
  rewrite length_app, IH. simpl. lia.
Qed.

Lemma hex_of_bytes_app a b : hex_of_bytes (a ++ b) = hex_of_bytes a ++ hex_of_bytes b.
Proof. apply bind_app. Qed.

Lemma fmt_02x_inj a b : fmt_02x a = fmt_02x b → a = b.
Proof.
  unfold fmt_02x. intros [= H1 H2].
  pose proof (Z_of_byte_range a). pose proof (Z_of_byte_range b).
  apply (f_equal digit_val) in H1, H2.
  rewrite !digit_val_hexDigit in H1, H2
    by (split; [apply Z.div_pos | apply Z.div_lt_upper_bound]; lia) ||
       (by apply Z.mod_pos_bound).
  apply Z_of_byte_inj. injection H1 as H1. injection H2 as H2.
  rewrite (Z.div_mod (Z_of_byte a) 16), (Z.div_mod (Z_of_byte b) 16) by lia. congruence.
Qed.

(** The hex rendering of a block loses nothing. *)
Lemma hex_of_bytes_inj a b : hex_of_bytes a = hex_of_bytes b → a = b.
Proof.
  revert b. induction a as [|x a IH]; intros [|y b]; try done.
  intros E. injection E as H1 H2 H3. f_equal; [|by apply IH].
  apply fmt_02x_inj. unfold fmt_02x. congruence.
Qed.

(** ** Integer round trips *)

Section digits.
Variables (base max : Z).
Hypothesis Hbase : 2 <= base <= 16.

(** The digits of [n] in front of [acc], as [parse_digits] reads them. *)
Lemma parse_digits_loop fuel n acc :
  0 <= n <= max → (Z.to_nat (Z.log2 n) < fuel)%nat →
  parse_digits base max 0 (digits_loop fuel base n acc) = parse_digits base max n acc.
Proof.
  revert n acc. induction fuel as [|fuel IH]; intros n acc Hn Hf; [lia|].
  cbn [digits_loop].
  pose proof (Z.mod_pos_bound n base ltac:(lia)) as Hm.
  destruct (Z.ltb_spec n base).
  - cbn [parse_digits]. rewrite digit_val_hexDigit by lia.
    rewrite Z.mod_small by lia.
    destruct (Z.ltb_spec n base); [|lia].
    destruct (Z.ltb_spec max (0 * base + n)); [lia|]. done.
  - assert (0 <= n / base < n) as Hd by (split; [apply Z.div_pos|apply Z.div_lt]; lia).
    rewrite IH; [|lia|].
    + cbn [parse_digits]. rewrite digit_val_hexDigit by lia.
      destruct (Z.ltb_spec (n `mod` base) base); [|lia].
      replace (n / base * base + n `mod` base) with n
        by (rewrite (Z.div_mod n base) at 1; lia).
      destruct (Z.ltb_spec max n); [lia|]. done.
    + assert (Z.log2 (n / base) < Z.log2 n); [|pose proof (Z.log2_nonneg (n / base)); lia].
      apply (Z.le_lt_trans _ (Z.log2 (n / 2))).
      * apply Z.log2_le_mono. apply Z.div_le_compat_l; lia.
      * change 2 with (2 ^ 1). rewrite <- Z.shiftr_div_pow2 by lia.
        rewrite Z.log2_shiftr by lia. pose proof (Z.log2_pos n ltac:(lia)). lia.
Qed.

Lemma digits_loop_cons fuel n acc :
  (0 < fuel)%nat → ∃ d l, digits_loop fuel base n acc = hexDigit d :: l ∧ 0 <= d < 16.
Proof.
  revert n acc. induction fuel as [|fuel IH]; intros n acc Hf; [lia|]. cbn [digits_loop].
  pose proof (Z.mod_pos_bound n base ltac:(lia)).
  destruct (n <? base); [eexists _, _; split; [done|lia]|].
  destruct fuel as [|fuel]; [eexists _, _; split; [done|lia]|]. apply IH. lia.
Qed.

Lemma parse_fmt_uint n :
  0 <= n <= max → parse_digits base max 0 (fmt_uint base n) = (n, None).
Proof. intros Hn. unfold fmt_uint. by rewrite parse_digits_loop by lia. Qed.
End digits.

Lemma fmt_uint_cons base n :
  2 <= base <= 16 → ∃ d l, fmt_uint base n = hexDigit d :: l ∧ 0 <= d < 16.
Proof. intros Hb. unfold fmt_uint. apply digits_loop_cons; lia. Qed.

Lemma ParseUint_fmt_uint base bits n :
  2 <= base <= 16 → 0 <= n < 2 ^ bits → ParseUint (fmt_uint base n) base bits = (n, None).
Proof.
  intros Hb Hn. destruct (fmt_uint_cons base n Hb) as (d & l & E & _).
  unfold ParseUint. rewrite E, <- E. by apply parse_fmt_uint; [|lia].
Qed.

(** A formatted integer of the width parses back to itself. *)
Lemma ParseInt_fmt_int base bits z :
  2 <= base <= 16 → 0 < bits → - 2 ^ (bits - 1) <= z < 2 ^ (bits - 1) →
  ParseInt (fmt_int base z) base bits = (z, None).
Proof.
  intros Hb Hbits Hz.
  assert (2 ^ bits = 2 * 2 ^ (bits - 1)) as Hp.
  { rewrite <- Z.pow_succ_r by lia. f_equal. lia. }
  unfold fmt_int. destruct (Z.ltb_spec z 0).
  - unfold ParseInt. rewrite ParseUint_fmt_uint by lia. cbn [negb andb].
    destruct (Z.ltb_spec (2 ^ (bits - 1)) (- z)); [lia|]. f_equal. lia.
  - assert (ParseUint (fmt_uint base z) base bits = (z, None)) as Hu
      by (apply ParseUint_fmt_uint; lia).
    destruct (fmt_uint_cons base z Hb) as (d & l & E & Hd). rewrite E in *.
    assert (hexDigit d ≠ x2d ∧ hexDigit d ≠ x2b) as [H1 H2].
    { split; intros Ex; apply (f_equal digit_val) in Ex;
        rewrite digit_val_hexDigit in Ex by lia; discriminate Ex. }
    unfold ParseInt.
    assert (∀ A (a b c : A), match hexDigit d with x2d => a | x2b => b | _ => c end = c) as Hm.
    { intros A a b c'. destruct (hexDigit d); done. }
    rewrite (Hm _ (true, l) (false, l) (false, hexDigit d :: l)), Hu. cbn [negb andb].
    destruct (Z.leb_spec (2 ^ (bits - 1)) z); [lia|]. done.
Qed.

(** The bytes of a formatted number are digits. *)
Lemma fmt_uint_digits base n :
  2 <= base <= 16 → 0 <= n → Forall (λ b, is_Some (digit_val b)) (fmt_uint base n).
Proof.
  intros Hb Hn. unfold fmt_uint.
  assert (∀ fuel m acc, 0 <= m → Forall (λ b, is_Some (digit_val b)) acc →
    Forall (λ b, is_Some (digit_val b)) (digits_loop fuel base m acc)) as Hg; [|by apply Hg].
  induction fuel as [|fuel IH]; intros m acc Hm Ha; [done|]. cbn [digits_loop].
  assert (Forall (λ b, is_Some (digit_val b)) (hexDigit (m `mod` base) :: acc)).
  { constructor; [|done]. pose proof (Z.mod_pos_bound m base). rewrite digit_val_hexDigit by lia. eauto. }
  destruct (m <? base); [done|]. apply IH; [|done]. apply Z.div_pos; lia.
Qed.

Lemma digits_no_sep base n sep :
  2 <= base <= 16 → 0 <= n → digit_val sep = None → Forall (λ b, b ≠ sep) (fmt_uint base n).
Proof.
  intros Hb Hn Hs. eapply Forall_impl; [by apply fmt_uint_digits|].
  intros b [v Hv] ->. congruence.
Qed.

Lemma fmt_uint_nonempty base n : 2 <= base <= 16 → fmt_uint base n ≠ [].
Proof. intros Hb. destruct (fmt_uint_cons base n Hb) as (d & l & -> & _). done. Qed.

Lemma fmt_x_nonneg n : 0 <= n → fmt_x n = fmt_uint 16 n.
Proof. intros Hn. unfold fmt_x, fmt_int. destruct (Z.ltb_spec n 0); [lia|done]. Qed.
