(* ===== verification/GoStrings.v ===== *)
(** * Go's [strings] and [regexp] packages, on byte sequences

    The functions the sources call, for one-byte separators, and the shapes of
    regular expression they use. *)

From stdpp Require Import base list numbers strings.
From Stdlib Require Import ZArith Lia Strings.Byte.
From S2P Require Import Prelude.

(** [strings.HasPrefix(s, p)]. *)
Definition HasPrefix (s p : list byte) : bool := bool_decide (take (length p) s = p).

(** [strings.Split(s, sep)]: the pieces between separators, one at least. *)
Fixpoint split_loop (sep : byte) (cur s : list byte) : list (list byte) :=
  match s with
  | [] => [cur]
  | b :: s => if decide (b = sep) then cur :: split_loop sep [] s
              else split_loop sep (cur ++ [b]) s
  end.

Definition Split (s : list byte) (sep : byte) : list (list byte) := split_loop sep [] s.

(** [strings.Cut(s, sep)]: before and after the first separator. *)
Fixpoint Cut (s : list byte) (sep : byte) : option (list byte * list byte) :=
  match s with
  | [] => None
  | b :: s => if decide (b = sep) then Some ([], s)
              else '(k, v) ← Cut s sep; Some (b :: k, v)
  end.

(** [strings.IndexByte(s, c)], [None] for -1. *)
Fixpoint IndexByte (s : list byte) (c : byte) : option nat :=
  match s with
  | [] => None
  | b :: s => if decide (b = c) then Some 0%nat else S <$> IndexByte s c
  end.

(** [strings.TrimPrefix(s, p)]. *)
Definition TrimPrefix (s p : list byte) : list byte :=
  if HasPrefix s p then drop (length p) s else s.

(** [strings.TrimLeft(s, cutset)] and [strings.TrimRight(s, cutset)] for an
    ASCII cutset. *)
Fixpoint TrimLeft (s cutset : list byte) : list byte :=
  match s with
  | [] => []
  | b :: r => if decide (b ∈ cutset) then TrimLeft r cutset else s
  end.

Definition TrimRight (s cutset : list byte) : list byte := reverse (TrimLeft (reverse s) cutset).

(** ** White space

    The UTF-8 sequences of the code points with [unicode.IsSpace]. Each starts
    with a byte that cannot occur inside another code point, so looking for
    these sequences in the bytes is looking for the code points. *)

Definition spaceSeqs : list (list byte) :=
  [[x09]; [x0a]; [x0b]; [x0c]; [x0d]; [x20]; [xc2; x85]; [xc2; xa0]; [xe1; x9a; x80];
   [xe2; x80; x80]; [xe2; x80; x81]; [xe2; x80; x82]; [xe2; x80; x83]; [xe2; x80; x84];
   [xe2; x80; x85]; [xe2; x80; x86]; [xe2; x80; x87]; [xe2; x80; x88]; [xe2; x80; x89];
   [xe2; x80; x8a]; [xe2; x80; xa8]; [xe2; x80; xa9]; [xe2; x80; xaf]; [xe2; x81; x9f];
   [xe3; x80; x80]].

(** The length of the white space at the head of a text, zero for none. *)
Fixpoint spaceAt (seqs : list (list byte)) (s : list byte) : nat :=
  match seqs with
  | [] => 0%nat
  | q :: seqs => if HasPrefix s q then length q else spaceAt seqs s
  end.

Fixpoint trimSpaces (seqs : list (list byte)) (fuel : nat) (s : list byte) : list byte :=
  match fuel with
  | O => s
  | S fuel => match spaceAt seqs s with
              | O => s
              | n => trimSpaces seqs fuel (drop n s)
              end
  end.

(** [strings.TrimSpace(s)]. *)
Definition TrimSpace (s : list byte) : list byte :=
  let l := trimSpaces spaceSeqs (length s) s in
  reverse (trimSpaces (reverse <$> spaceSeqs) (length l) (reverse l)).

(** [strings.Fields(s)]: the maximal runs without white space. *)
Fixpoint fields_loop (fuel : nat) (cur s : list byte) : list (list byte) :=
  let flush := if decide (cur = []) then [] else [cur] in
  match fuel with
  | O => flush
  | S fuel =>
      match s with
      | [] => flush
      | b :: r =>
          match spaceAt spaceSeqs s with
          | O => fields_loop fuel (cur ++ [b]) r
          | n => flush ++ fields_loop fuel [] (drop n s)
          end
      end
  end.

Definition Fields (s : list byte) : list (list byte) := fields_loop (S (length s)) [] s.

(** [strings.Join(ss, sep)]. *)
Fixpoint Join (ss : list (list byte)) (sep : list byte) : list byte :=
  match ss with
  | [] => []
  | [s] => s
  | s :: ss => s ++ sep ++ Join ss sep
  end.

(** [strings.ReplaceAll(s, old, new)] for a one-byte [old]. *)
Definition ReplaceAll (s : list byte) (old : byte) (new : list byte) : list byte :=
  s ≫= λ b, if decide (b = old) then new else [b].

(** ** Regular expressions *)

(** The class [\s] of a regular expression. *)
Definition reSpace (b : byte) : bool := bool_decide (b ∈ [x09; x0a; x0c; x0d; x20]).

(** Regular expressions that are literals, [\s+], [\S+] and [(\d+)] in
    sequence, where the classes next to each other are disjoint: then taking the
    longest run at each step is the match. *)
Inductive re_item := ReLit (l : list byte) | ReSpaces | ReWord | ReDigits.

Fixpoint span (p : byte → bool) (s : list byte) : list byte * list byte :=
  match s with
  | [] => ([], [])
  | b :: r => if p b then let '(l, r) := span p r in (b :: l, r) else ([], s)
  end.

Definition isDigit (b : byte) : bool := ((48 <=? Z_of_byte b) && (Z_of_byte b <=? 57))%Z.

(** The runs of the items of a match at the head of the text, and the rest. *)
Fixpoint reMatch (re : list re_item) (s : list byte) : option (list (list byte) * list byte) :=
  match re with
  | [] => Some ([], s)
  | it :: re =>
      let '(l, r) :=
        match it with
        | ReLit l => if HasPrefix s l then (l, drop (length l) s) else ([], s)
        | ReSpaces => span reSpace s
        | ReWord => span (λ b, negb (reSpace b)) s
        | ReDigits => span isDigit s
        end in
      if decide (l = []) then None
      else '(ls, r) ← reMatch re r; Some (l :: ls, r)
  end.

(** The leftmost match. *)
Fixpoint reFind (re : list re_item) (s : list byte) : option (list (list byte) * list byte) :=
  match reMatch re s with
  | Some m => Some m
  | None => match s with [] => None | _ :: s => reFind re s end
  end.

(** Joining with a separator after every piece. *)
Definition terminated (sep : byte) (ps : list (list byte)) : list byte := ps ≫= λ p, p ++ [sep].

Lemma split_loop_run sep cur l s :
  Forall (λ b, b ≠ sep) l → split_loop sep cur (l ++ s) = split_loop sep (cur ++ l) s.
Proof.
  intros Hl. revert cur. induction Hl as [|b l Hb Hl IH]; intros cur; simpl.
  - by rewrite app_nil_r.
  - rewrite decide_False by done. by rewrite IH, <- app_assoc.
Qed.

Lemma Split_terminated sep ps l :
  Forall (Forall (λ b, b ≠ sep)) ps → Forall (λ b, b ≠ sep) l →
  Split (terminated sep ps ++ l) sep = ps ++ [l].
Proof.
  intros Hps Hl. unfold Split. induction Hps as [|p ps Hp Hps IH].
  - cbn. rewrite <- (app_nil_r l), split_loop_run by done. by rewrite app_nil_r.
  - change (terminated sep (p :: ps)) with ((p ++ [sep]) ++ terminated sep ps).
    rewrite <- !app_assoc, split_loop_run by done. cbn [app split_loop].
    by rewrite decide_True, IH.
Qed.

Lemma Cut_app k v sep : Forall (λ b, b ≠ sep) k → Cut (k ++ sep :: v) sep = Some (k, v).
Proof.
  induction 1 as [|b k Hb Hk IH]; simpl; [by rewrite decide_True|].
  rewrite decide_False by done. by rewrite IH.
Qed.

Lemma HasPrefix_app p s : HasPrefix (p ++ s) p = true.
Proof. unfold HasPrefix. rewrite take_app_length. by apply bool_decide_eq_true_2. Qed.

Lemma IndexByte_app k v c : Forall (λ b, b ≠ c) k → IndexByte (k ++ c :: v) c = Some (length k).
Proof.
  induction 1 as [|b k Hb Hk IH]; simpl; [by rewrite decide_True|].
  rewrite decide_False by done. by rewrite IH.
Qed.

(** ** Words and white space *)

(** Printable ASCII and the control bytes that are not white space. *)
Definition wordByte (b : byte) : bool :=
  ((Z_of_byte b <? 128) && negb (bool_decide (b ∈ [x09; x0a; x0b; x0c; x0d; x20])))%Z.

Definition isWord (w : list byte) : Prop := w ≠ [] ∧ Forall (λ b, wordByte b = true) w.

Lemma HasPrefix_cons b s c q : HasPrefix (b :: s) (c :: q) = true → b = c.
Proof. unfold HasPrefix. intros H%bool_decide_eq_true. cbn [length take] in H. by injection H. Qed.

Lemma spaceAt_none seqs b s : Forall (λ q, ∃ c r, q = c :: r ∧ b ≠ c) seqs → spaceAt seqs (b :: s) = 0%nat.
Proof.
  induction 1 as [|q seqs (c & r & -> & Hc) Hq IH]; [done|]. cbn [spaceAt].
  destruct (HasPrefix (b :: s) (c :: r)) eqn:E; [|done]. by apply HasPrefix_cons in E.
Qed.

(** No white space starts, or ends, with a word byte. *)
Lemma wordByte_seqs b :
  wordByte b = true →
  Forall (λ q, ∃ c r, q = c :: r ∧ b ≠ c) spaceSeqs ∧
  Forall (λ q, ∃ c r, q = c :: r ∧ b ≠ c) (reverse <$> spaceSeqs).
Proof.
  intros Hw. split; repeat (apply Forall_cons; split); try apply Forall_nil_2;
    (eexists _, _; split; [reflexivity|]; intros ->; discriminate Hw).
Qed.

Lemma spaceAt_word b s : wordByte b = true → spaceAt spaceSeqs (b :: s) = 0%nat.
Proof. intros Hw. apply spaceAt_none. by apply wordByte_seqs. Qed.

Lemma spaceAt_word_rev b s : wordByte b = true → spaceAt (reverse <$> spaceSeqs) (b :: s) = 0%nat.
Proof. intros Hw. apply spaceAt_none. by apply wordByte_seqs. Qed.

(** A blank is one byte of white space, from either side. *)
Definition blankByte (b : byte) : bool := bool_decide (b ∈ [x09; x0d; x20]).

Lemma spaceAt_blank b s :
  blankByte b = true →
  spaceAt spaceSeqs (b :: s) = 1%nat ∧ spaceAt (reverse <$> spaceSeqs) (b :: s) = 1%nat.
Proof. unfold blankByte. destruct b; intros Hb; try discriminate Hb; split; reflexivity. Qed.

Lemma trimSpaces_blanks seqs l s fuel :
  Forall (λ b, ∀ s, spaceAt seqs (b :: s) = 1%nat) l → (length l ≤ fuel)%nat →
  trimSpaces seqs fuel (l ++ s) = trimSpaces seqs (fuel - length l) s.
Proof.
  intros Hl. revert fuel. induction Hl as [|b l Hb Hl IH]; intros fuel Hf.
  - by rewrite Nat.sub_0_r.
  - destruct fuel as [|fuel]; simpl in Hf; [lia|]. cbn [app trimSpaces length].
    rewrite Hb. cbn [drop]. rewrite IH by lia. done.
Qed.

Lemma trimSpaces_stop seqs fuel b s : spaceAt seqs (b :: s) = 0%nat → trimSpaces seqs fuel (b :: s) = b :: s.
Proof. intros E. destruct fuel as [|fuel]; [done|]. cbn [trimSpaces]. by rewrite E. Qed.

Lemma blanks_trim l s fuel :
  Forall (λ b, blankByte b = true) l → (length l ≤ fuel)%nat →
  trimSpaces spaceSeqs fuel (l ++ s) = trimSpaces spaceSeqs (fuel - length l) s ∧
  trimSpaces (reverse <$> spaceSeqs) fuel (l ++ s) =
    trimSpaces (reverse <$> spaceSeqs) (fuel - length l) s.
Proof.
  intros Hl Hf. split; (apply trimSpaces_blanks; [|exact Hf]); apply (Forall_impl _ _ _ Hl);
    intros x Hx t; [exact (proj1 (spaceAt_blank x t Hx)) | exact (proj2 (spaceAt_blank x t Hx))].
Qed.

(** Trimming blanks around a text that starts and ends with word bytes. *)
Lemma TrimSpace_around l s r b e :
  Forall (λ b, blankByte b = true) l → Forall (λ b, blankByte b = true) r →
  head s = Some b → last s = Some e → wordByte b = true → wordByte e = true →
  TrimSpace (l ++ s ++ r) = s.
Proof.
  intros Hl Hr Hh He Hb Hwe. unfold TrimSpace.
  rewrite (proj1 (blanks_trim l (s ++ r) (length (l ++ s ++ r)) Hl ltac:(rewrite length_app; lia))).
  destruct s as [|b' s]; [done|]. injection Hh as ->.
  cbn [app]. rewrite trimSpaces_stop by (by apply spaceAt_word).
  rewrite app_comm_cons, reverse_app.
  rewrite (proj2 (blanks_trim (reverse r) _ (length ((b :: s) ++ r)) (proj2 (Forall_reverse _ _) Hr)
    ltac:(rewrite length_reverse, length_app; lia))).
  apply last_Some in He as [t ->]. rewrite reverse_snoc, trimSpaces_stop by (by apply spaceAt_word_rev).
  by rewrite <- reverse_snoc, reverse_involutive.
Qed.

(** Words on a line: [k] blanks, a word, and further words each behind at
    least one blank. *)
Definition spread (k : nat) (w : list byte) (ws : list (nat * list byte)) : list byte :=
  replicate k x20 ++ w ++ (ws ≫= λ kw, x20 :: replicate kw.1 x20 ++ kw.2).

Lemma fields_loop_word fuel cur w s :
  Forall (λ b, wordByte b = true) w → (length w < fuel)%nat →
  fields_loop fuel cur (w ++ s) = fields_loop (fuel - length w) (cur ++ w) s.
Proof.
  intros Hw. revert fuel cur. induction Hw as [|b w Hb Hw IH]; intros fuel cur Hf.
  - by rewrite app_nil_r, Nat.sub_0_r.
  - destruct fuel as [|fuel]; simpl in Hf; [lia|]. cbn [app fields_loop length].
    rewrite spaceAt_word by done. rewrite IH by lia. by rewrite <- app_assoc.
Qed.

Lemma fields_loop_spaces fuel k s :
  (k < fuel)%nat → fields_loop fuel [] (replicate k x20 ++ s) = fields_loop (fuel - k) [] s.
Proof.
  revert fuel. induction k as [|k IH]; intros fuel Hf; [by rewrite Nat.sub_0_r|].
  destruct fuel as [|fuel]; [lia|]. cbn [replicate app fields_loop].
  rewrite (proj1 (spaceAt_blank x20 (replicate k x20 ++ s) eq_refl)). cbn [drop].
  rewrite decide_True by done. cbn [app]. rewrite IH by lia. done.
Qed.

Lemma fields_loop_spread fuel k w ws :
  isWord w → Forall isWord ws.*2 → (length (spread k w ws) < fuel)%nat →
  fields_loop fuel [] (spread k w ws) = w :: ws.*2.
Proof.
  intros Hw Hws. revert fuel k w Hw. unfold spread.
  induction ws as [|[k' w'] ws IH]; intros fuel k w [Hne Hw] Hf;
    rewrite !length_app, length_replicate in Hf;
    (rewrite fields_loop_spaces by lia); (rewrite fields_loop_word by (done || lia)).
  - cbn [mbind list_bind] in *. destruct (fuel - k - length w)%nat; simpl; by rewrite decide_False.
  - cbn [mbind list_bind fst snd] in *. rewrite !length_app in Hf. cbn [length] in Hf.
    rewrite length_app, length_replicate in Hf.
    destruct (fuel - k - length w)%nat as [|f] eqn:Ef; [lia|].
    cbn [app fields_loop].
    match goal with |- context [spaceAt spaceSeqs (x20 :: ?t)] =>
      rewrite (proj1 (spaceAt_blank x20 t eq_refl)) end.
    cbn [drop]. rewrite decide_False by done. cbn [app fmap list_fmap snd]. f_equal.
    rewrite <- app_assoc. cbn [fmap list_fmap snd] in Hws. apply Forall_cons in Hws as [Hw' Hws].
    apply IH; [done|done|]. rewrite !length_app, length_replicate. lia.
Qed.

Lemma Fields_spread k w ws :
  isWord w → Forall isWord ws.*2 → Fields (spread k w ws) = w :: ws.*2.
Proof. intros Hw Hws. unfold Fields. by apply fields_loop_spread; [..|lia]. Qed.
