(* ===== verification/GoEncoding.v ===== *)
(** * Go's [encoding/hex], [encoding/base64] and string quoting

    What the MCP tools use of them: [hex.DecodeString] with its errors,
    [base64.StdEncoding] in both directions, and [strconv.Quote], which is the
    verb [%q]; with the round trips. *)

From stdpp Require Import base list numbers strings.
From Stdlib Require Import ZArith Lia Strings.Byte.
From S2P Require Import Prelude GoStrconv.

Local Open Scope Z_scope.

(** ** Hexadecimal *)

Inductive hex_err := InvalidByteError (b : byte) | ErrLength.

(** [hex.DecodeString(s)]. *)
Fixpoint hexDecodeString (s : list byte) : hex_err + list byte :=
  match s with
  | [] => inr []
  | [p] => inl (match digit_val p with Some _ => ErrLength | None => InvalidByteError p end)
  | p :: q :: s =>
      match digit_val p, digit_val q with
      | Some a, Some b =>
          match hexDecodeString s with
          | inr r => inr (byte_of_Z (a * 16 + b) :: r)
          | inl e => inl e
          end
      | Some _, None => inl (InvalidByteError q)
      | None, _ => inl (InvalidByteError p)
      end
  end.

Lemma fmt_02x_val b :
  digit_val (hexDigit (Z_of_byte b / 16)) = Some (Z_of_byte b / 16) ∧
  digit_val (hexDigit (Z_of_byte b `mod` 16)) = Some (Z_of_byte b `mod` 16).
Proof.
  pose proof (Z_of_byte_range b).
  split; apply digit_val_hexDigit;
    [split; [apply Z.div_pos|apply Z.div_lt_upper_bound]; lia | by apply Z.mod_pos_bound].
Qed.

Lemma hexDecodeString_encode b : hexDecodeString (hex_of_bytes b) = inr b.
Proof.
  induction b as [|x b IH]; [done|].
  change (hex_of_bytes (x :: b)) with (fmt_02x x ++ hex_of_bytes b).
  unfold fmt_02x. cbn [app hexDecodeString]. destruct (fmt_02x_val x) as [-> ->]. rewrite IH.
  replace (Z_of_byte x / 16 * 16 + Z_of_byte x `mod` 16) with (Z_of_byte x)
    by (rewrite (Z.div_mod (Z_of_byte x) 16) at 1; lia).
  by rewrite byte_of_Z_of_byte.
Qed.

(** ** Base 64 *)

Definition b64Alphabet : list byte :=
  str "ABCDEFGHIJKLMNOPQRSTUVWXYZabcdefghijklmnopqrstuvwxyz0123456789+/".

Definition b64Char (n : Z) : byte := default x00 (b64Alphabet !! Z.to_nat n).

Definition padChar : byte := x3d.

(** [base64.StdEncoding.EncodeToString(b)]. *)
Fixpoint base64Encode (b : list byte) : list byte :=
  match b with
  | [] => []
  | [x] =>
      let v := Z_of_byte x * 65536 in
      [b64Char (v / 262144); b64Char ((v / 4096) `mod` 64); padChar; padChar]
  | [x; y] =>
      let v := Z_of_byte x * 65536 + Z_of_byte y * 256 in
      [b64Char (v / 262144); b64Char ((v / 4096) `mod` 64); b64Char ((v / 64) `mod` 64); padChar]
  | x :: y :: z :: b =>
      let v := Z_of_byte x * 65536 + Z_of_byte y * 256 + Z_of_byte z in
      b64Char (v / 262144) :: b64Char ((v / 4096) `mod` 64) ::
      b64Char ((v / 64) `mod` 64) :: b64Char (v `mod` 64) :: base64Encode b
  end.

(** The decoding table. *)
Definition b64Val (c : byte) : option Z :=
  let z := Z_of_byte c in
  if (65 <=? z) && (z <=? 90) then Some (z - 65)
  else if (97 <=? z) && (z <=? 122) then Some (z - 97 + 26)
  else if (48 <=? z) && (z <=? 57) then Some (z - 48 + 52)
  else if z =? 43 then Some 62
  else if z =? 47 then Some 63
  else None.

(** Quanta of four characters; padding only ends the last one. *)
Fixpoint b64Quanta (s : list byte) : option (list byte) :=
  match s with
  | [] => Some []
  | a :: b :: c :: d :: s =>
      x ← b64Val a; y ← b64Val b;
      match b64Val c, b64Val d with
      | Some z, Some w =>
          let v := x * 262144 + y * 4096 + z * 64 + w in
          r ← b64Quanta s;
          Some (byte_of_Z (v / 65536) :: byte_of_Z (v / 256) :: byte_of_Z v :: r)
      | Some z, None =>
          let v := x * 262144 + y * 4096 + z * 64 in
          if decide (d = padChar ∧ s = []) then Some [byte_of_Z (v / 65536); byte_of_Z (v / 256)]
          else None
      | None, _ =>
          let v := x * 262144 + y * 4096 in
          if decide (c = padChar ∧ d = padChar ∧ s = []) then Some [byte_of_Z (v / 65536)] else None
      end
  | _ => None
  end.

(** [base64.StdEncoding.DecodeString(s)], [None] for a [CorruptInputError]:
    line ends are skipped wherever they are. *)
Definition base64Decode (s : list byte) : option (list byte) :=
  b64Quanta (filter (λ b, b ≠ x0a ∧ b ≠ x0d) s).

Lemma b64_table :
  Forall (λ n, b64Val (b64Char n) = Some n ∧ b64Char n ≠ x0a ∧ b64Char n ≠ x0d) (seqZ 0 64).
Proof. repeat (apply List.Forall_cons; [by split_and!|]). apply List.Forall_nil. Qed.

Lemma b64Val_char n : 0 <= n < 64 → b64Val (b64Char n) = Some n.
Proof. intros Hn. pose proof b64_table as H. rewrite Forall_forall in H. apply H, elem_of_seqZ. lia. Qed.

Lemma b64Char_line n : 0 <= n < 64 → b64Char n ≠ x0a ∧ b64Char n ≠ x0d.
Proof. intros Hn. pose proof b64_table as H. rewrite Forall_forall in H. apply H, elem_of_seqZ. lia. Qed.

(** The four sextets of a 24-bit group are in range, and make it up. *)
Lemma sextets v :
  0 <= v < 16777216 →
  0 <= v / 262144 < 64 ∧ 0 <= (v / 4096) `mod` 64 < 64 ∧ 0 <= (v / 64) `mod` 64 < 64 ∧ 0 <= v `mod` 64 < 64 ∧
  v / 262144 * 262144 + (v / 4096) `mod` 64 * 4096 + (v / 64) `mod` 64 * 64 + v `mod` 64 = v.
Proof.
  intros Hv. replace (v / 262144) with (v / 64 / 64 / 64) by (rewrite !Z.div_div; lia || done).
  replace (v / 4096) with (v / 64 / 64) by (rewrite !Z.div_div; lia || done).
  Z.to_euclidean_division_equations. lia.
Qed.

Lemma byte_of_group x k : byte_of_Z (Z_of_byte x + 256 * k) = x.
Proof.
  rewrite <- (byte_of_Z_of_byte x) at 2. unfold byte_of_Z. do 3 f_equal.
  by rewrite (Z.mul_comm 256), Z_mod_plus_full.
Qed.

Lemma group_bytes x y z :
  let v := Z_of_byte x * 65536 + Z_of_byte y * 256 + Z_of_byte z in
  0 <= v < 16777216 ∧ byte_of_Z (v / 65536) = x ∧ byte_of_Z (v / 256) = y ∧ byte_of_Z v = z.
Proof.
  pose proof (Z_of_byte_range x). pose proof (Z_of_byte_range y). pose proof (Z_of_byte_range z).
  intros v. split_and!; [lia..| | |].
  - replace (v / 65536) with (Z_of_byte x + 256 * 0); [apply byte_of_group|].
    unfold v. Z.to_euclidean_division_equations. lia.
  - replace (v / 256) with (Z_of_byte y + 256 * Z_of_byte x); [apply byte_of_group|].
    unfold v. Z.to_euclidean_division_equations. lia.
  - replace v with (Z_of_byte z + 256 * (Z_of_byte y + 256 * Z_of_byte x)); [apply byte_of_group|].
    unfold v. lia.
Qed.

Lemma three_ind (Q : list byte → Prop) :
  Q [] → (∀ x, Q [x]) → (∀ x y, Q [x; y]) → (∀ x y z l, Q l → Q (x :: y :: z :: l)) → ∀ l, Q l.
Proof.
  intros H0 H1 H2 H3 l. assert (Q l ∧ (∀ x, Q (x :: l)) ∧ (∀ x y, Q (x :: y :: l))) as [? _]; [|done].
  induction l as [|z l (IH1 & IH2 & IH3)]; [by split_and!|]. split_and!; [apply IH2|intros; apply IH3|]. auto.
Qed.

Lemma base64Encode_line b : Forall (λ c, c ≠ x0a ∧ c ≠ x0d) (base64Encode b).
Proof.
  induction b as [|x|x y|x y z b IH] using three_ind; cbn [base64Encode]; [constructor|..].
  1: destruct (group_bytes x x00 x00) as (Hv & _); change (Z_of_byte x00) with 0 in Hv;
     rewrite Z.mul_0_l, !Z.add_0_r in Hv.
  2: destruct (group_bytes x y x00) as (Hv & _); change (Z_of_byte x00) with 0 in Hv;
     rewrite !Z.add_0_r in Hv.
  3: destruct (group_bytes x y z) as (Hv & _).
  all: destruct (sextets _ Hv) as (H1 & H2 & H3 & H4 & _);
    repeat (apply List.Forall_cons; [first [by apply b64Char_line | done]|]);
    first [exact IH | apply List.Forall_nil].
Qed.

(** Decoding what was encoded. *)
Lemma base64_roundtrip b : base64Decode (base64Encode b) = Some b.
Proof.
  unfold base64Decode. rewrite filter_all by apply base64Encode_line.
  induction b as [|x|x y|x y z b IH] using three_ind; cbn [base64Encode]; [done|..].
  - destruct (group_bytes x x00 x00) as (Hv & E & _). change (Z_of_byte x00) with 0 in *.
    rewrite Z.mul_0_l, !Z.add_0_r in Hv, E. set (v := Z_of_byte x * 65536) in *.
    destruct (sextets v Hv) as (H1 & H2 & H3 & H4 & Hs). cbn [b64Quanta].
    rewrite !b64Val_char by done. cbn [mbind option_bind].
    change (b64Val padChar) with (@None Z). rewrite decide_True by done.
    assert (v / 262144 * 262144 + (v / 4096) `mod` 64 * 4096 = v) as ->.
    { revert Hs. unfold v. clear. intros. Z.to_euclidean_division_equations. lia. }
    by rewrite E.
  - destruct (group_bytes x y x00) as (Hv & E1 & E2 & _). change (Z_of_byte x00) with 0 in *.
    rewrite !Z.add_0_r in Hv, E1, E2. set (v := Z_of_byte x * 65536 + Z_of_byte y * 256) in *.
    destruct (sextets v Hv) as (H1 & H2 & H3 & H4 & Hs). cbn [b64Quanta].
    rewrite !b64Val_char by done. cbn [mbind option_bind].
    change (b64Val padChar) with (@None Z). rewrite decide_True by done.
    assert (v / 262144 * 262144 + (v / 4096) `mod` 64 * 4096 + (v / 64) `mod` 64 * 64 = v) as ->.
    { revert Hs. unfold v. clear. intros. Z.to_euclidean_division_equations. lia. }
    by rewrite E1, E2.
  - destruct (group_bytes x y z) as (Hv & E1 & E2 & E3).
    set (v := Z_of_byte x * 65536 + Z_of_byte y * 256 + Z_of_byte z) in *.
    destruct (sextets v Hv) as (H1 & H2 & H3 & H4 & Hs). cbn [b64Quanta].
    rewrite !b64Val_char by done. cbn [mbind option_bind]. rewrite IH, Hs. cbn [mbind option_bind].
    by rewrite E1, E2, E3.
Qed.

(** ** Quoted strings *)

Definition isCont (lo hi : Z) (b : byte) : bool := (lo <=? Z_of_byte b) && (Z_of_byte b <=? hi).

(** [utf8.DecodeRuneInString(s)]: the code point and its width, [None] for an
    invalid sequence (width 1). *)
Definition decodeRune (s : list byte) : option (Z * nat) :=
  match s with
  | [] => None
  | a :: s =>
      let x := Z_of_byte a in
      let cont b := Z_of_byte b - 128 in
      if x <? 128 then Some (x, 1%nat)
      else if (194 <=? x) && (x <=? 223) then
        match s with
        | b :: _ => if isCont 128 191 b then Some ((x - 192) * 64 + cont b, 2%nat) else None
        | _ => None
        end
      else if (224 <=? x) && (x <=? 239) then
        match s with
        | b :: c :: _ =>
            if isCont (if x =? 224 then 160 else 128) (if x =? 237 then 159 else 191) b && isCont 128 191 c
            then Some ((x - 224) * 4096 + cont b * 64 + cont c, 3%nat) else None
        | _ => None
        end
      else if (240 <=? x) && (x <=? 244) then
        match s with
        | b :: c :: d :: _ =>
            if isCont (if x =? 240 then 144 else 128) (if x =? 244 then 143 else 191) b &&
               isCont 128 191 c && isCont 128 191 d
            then Some ((x - 240) * 262144 + cont b * 4096 + cont c * 64 + cont d, 4%nat) else None
        | _ => None
        end
      else None
  end.

(** The last [n] hex digits of a code point. *)
Definition hexPad (n : nat) (r : Z) : list byte :=
  (λ i : nat, hexDigit ((r / 16 ^ Z.of_nat i) `mod` 16)) <$> reverse (seq 0 n).

Section quote.
(** [strconv.IsPrint] above Latin-1, where it is a table of the Unicode
    version Go was built with. *)
Variable isPrintTable : Z → bool.

Definition IsPrint (r : Z) : bool :=
  if r <=? 255 then ((32 <=? r) && (r <? 127)) || ((161 <=? r) && negb (r =? 173))
  else isPrintTable r.

(** [appendEscapedRune] for the double quote; [orig] is the rune in UTF-8. *)
Definition escapedRune (r : Z) (orig : list byte) : list byte :=
  if (r =? 34) || (r =? 92) then x5c :: orig
  else if IsPrint r then orig
  else if r =? 7 then [x5c; x61]
  else if r =? 8 then [x5c; x62]
  else if r =? 12 then [x5c; x66]
  else if r =? 10 then [x5c; x6e]
  else if r =? 13 then [x5c; x72]
  else if r =? 9 then [x5c; x74]
  else if r =? 11 then [x5c; x76]
  else if (r <? 32) || (r =? 127) then [x5c; x78] ++ hexPad 2 r
  else if r <? 65536 then [x5c; x75] ++ hexPad 4 r
  else [x5c; x55] ++ hexPad 8 r.

(** The loop of [strconv.Quote]; it consumes at least one byte per rune. *)
Fixpoint quote_loop (fuel : nat) (s : list byte) : list byte :=
  match fuel, s with
  | S fuel, b :: _ =>
      match decodeRune s with
      | Some (r, w) => escapedRune r (take w s) ++ quote_loop fuel (drop w s)
      | None => [x5c; x78] ++ fmt_02x b ++ quote_loop fuel (drop 1 s)
      end
  | _, _ => []
  end.

Definition Quote (s : list byte) : list byte := [x22] ++ quote_loop (length s) s ++ [x22].

(** Plain printable ASCII is quoted as it is. *)
Definition plainQuoted (b : byte) : bool :=
  (32 <=? Z_of_byte b) && (Z_of_byte b <? 127) && negb (Z_of_byte b =? 34) && negb (Z_of_byte b =? 92).

Lemma Quote_plain s : Forall (λ b, plainQuoted b = true) s → Quote s = [x22] ++ s ++ [x22].
Proof.
  intros Hs. unfold Quote. do 2 f_equal. induction Hs as [|b s Hb Hs IH]; [done|].
  cbn [length quote_loop].
  assert (decodeRune (b :: s) = Some (Z_of_byte b, 1%nat) ∧
    escapedRune (Z_of_byte b) [b] = [b]) as [-> Ee].
  { unfold plainQuoted in Hb. apply andb_true_iff in Hb as [Hb H92]. apply andb_true_iff in Hb as [Hb H34].
    apply andb_true_iff in Hb as [Hlo Hhi]. rewrite negb_true_iff in H92, H34. split.
    - unfold decodeRune. destruct (Z.ltb_spec (Z_of_byte b) 128); [done|]. lia.
    - unfold escapedRune, IsPrint. rewrite H92, H34, Hlo, Hhi.
      destruct (Z.leb_spec (Z_of_byte b) 255); [done|]. lia. }
  cbn [take drop]. by rewrite take_0, Ee, drop_0, IH.
Qed.
End quote.
