(* ===== verification/GoFlag.v ===== *)
(** * Go's [flag] package

    [FlagSet.Parse] over an arbitrary set of flags, with the values the sources
    declare: strings, integers, booleans and durations. A flag writes through
    a pointer, so a set is a map from names to updates of some state. *)

From stdpp Require Import base list numbers strings.
From Stdlib Require Import ZArith Lia Strings.Byte.
From S2P Require Import Prelude GoStrconv GoStrings.

Local Open Scope Z_scope.

(** ** Values *)

Definition lower (b : byte) : byte :=
  if (65 <=? Z_of_byte b) && (Z_of_byte b <=? 90) then byte_of_Z (Z_of_byte b + 32) else b.

(** [underscoreOK]: underscores separate digits only. The state is what was
    seen last: the start, a digit (or base prefix), an underscore, other. *)
Inductive saw := SawStart | SawDigit | SawUnderscore | SawOther.

Fixpoint underscore_loop (hex : bool) (st : saw) (s : list byte) : bool :=
  match s with
  | [] => match st with SawUnderscore => false | _ => true end
  | c :: s =>
      let digit := (48 <=? Z_of_byte c) && (Z_of_byte c <=? 57) in
      let hexd := (97 <=? Z_of_byte (lower c)) && (Z_of_byte (lower c) <=? 102) in
      if digit || (hex && hexd) then underscore_loop hex SawDigit s
      else if decide (c = x5f) then
        match st with SawDigit => underscore_loop hex SawUnderscore s | _ => false end
      else match st with SawUnderscore => false | _ => underscore_loop hex SawOther s end
  end.

(** The base prefix of a number without sign: the base, and the digits. *)
Definition basePrefix (s : list byte) : Z * list byte :=
  match s with
  | x30 :: s1 =>
      match s1 with
      | c :: _ :: _ =>
          if decide (lower c = x62) then (2, drop 1 s1)
          else if decide (lower c = x6f) then (8, drop 1 s1)
          else if decide (lower c = x78) then (16, drop 1 s1)
          else (8, s1)
      | _ => (8, s1)
      end
  | _ => (10, s)
  end.

Definition underscoreOK (s : list byte) : bool :=
  match s with
  | x30 :: c :: r =>
      if decide (lower c = x62 ∨ lower c = x6f ∨ lower c = x78)
      then underscore_loop (bool_decide (lower c = x78)) SawDigit r
      else underscore_loop false SawStart s
  | _ => underscore_loop false SawStart s
  end.

(** [strconv.ParseUint(s, 0, 64)] *)
Definition ParseUint0 (s : list byte) : Z * option num_err :=
  match s with
  | [] => (0, Some ErrSyntax)
  | _ =>
      let '(base, digits) := basePrefix s in
      match parse_digits base (2 ^ 64 - 1) 0 (filter (λ c, c ≠ x5f) digits) with
      | (n, None) =>
          if bool_decide (x5f ∈ digits) && negb (underscoreOK s) then (0, Some ErrSyntax) else (n, None)
      | r => r
      end
  end.

(** [strconv.ParseInt(s, 0, 64)]. *)
Definition ParseInt0 (s : list byte) : Z * option num_err :=
  let '(neg, digits) :=
    match s with
    | x2d :: s' => (true, s')
    | x2b :: s' => (false, s')
    | _ => (false, s)
    end in
  let '(un, err) := ParseUint0 digits in
  let cutoff := 2 ^ 63 in
  match err with
  | Some ErrSyntax => (0, Some ErrSyntax)
  | _ =>
      if negb neg && (cutoff <=? un) then (cutoff - 1, Some ErrRange)
      else if neg && (cutoff <? un) then (- cutoff, Some ErrRange)
      else (if neg then - un else un, None)
  end.

(** [strconv.ParseBool(s)]. *)
Definition ParseBool (s : list byte) : option bool :=
  if decide (s ∈ [str "1"; str "t"; str "T"; str "true"; str "TRUE"; str "True"]) then Some true
  else if decide (s ∈ [str "0"; str "f"; str "F"; str "false"; str "FALSE"; str "False"]) then Some false
  else None.

(** ** Flag sets *)

Inductive flag_err :=
  | ErrBadSyntax (arg : list byte)
  | ErrUndefined (name : list byte)
  | ErrHelp
  | ErrNeedsArgument (name : list byte)
  | ErrInvalidValue (value name : list byte).

(** One flag: is it boolean, and what setting it does; [false] is an error,
    after which the variable may have changed all the same. *)
Record flagDef (A : Type) : Type := MkFlag { fl_bool : bool; fl_set : list byte → A → A * bool }.
Arguments MkFlag {A}.
Arguments fl_bool {A}.
Arguments fl_set {A}.

(** The name and the value of [name=value]; the equals sign cannot be first. *)
Definition cutValue (name : list byte) : list byte * option (list byte) :=
  match name with
  | [] => ([], None)
  | c :: r => match Cut r x3d with
              | Some (k, v) => (c :: k, Some v)
              | None => (name, None)
              end
  end.

(** What an argument is to [parseOne]. *)
Inductive arg_class :=
  | AStop                                                   (* not a flag, or the terminator *)
  | ABad
  | AFlag (name : list byte) (value : option (list byte)).

Definition classify (s : list byte) : arg_class :=
  match s with
  | x2d :: x2d :: [] => AStop
  | x2d :: x2d :: name =>
      if decide (head name = Some x2d ∨ head name = Some x3d) then ABad
      else let '(n, v) := cutValue name in AFlag n v
  | x2d :: name =>
      match name with
      | [] => AStop
      | c :: _ => if decide (c = x3d) then ABad else let '(n, v) := cutValue name in AFlag n v
      end
  | _ => AStop
  end.

Section parse.
Context {A : Type}.
Variable formal : list byte → option (flagDef A).

Definition undefined (name : list byte) : flag_err :=
  if decide (name = str "help" ∨ name = str "h") then ErrHelp else ErrUndefined name.

Fixpoint Parse (args : list (list byte)) (a : A) : A * option flag_err :=
  match args with
  | [] => (a, None)
  | s :: args =>
      match classify s with
      | AStop => (a, None)
      | ABad => (a, Some (ErrBadSyntax s))
      | AFlag name value =>
          match formal name with
          | None => (a, Some (undefined name))
          | Some fd =>
              if fl_bool fd then
                let v := default (str "true") value in
                let '(a, ok) := fl_set fd v a in
                if ok then Parse args a else (a, Some (ErrInvalidValue v name))
              else
                match value with
                | Some v =>
                    let '(a, ok) := fl_set fd v a in
                    if ok then Parse args a else (a, Some (ErrInvalidValue v name))
                | None =>
                    match args with
                    | [] => (a, Some (ErrNeedsArgument name))
                    | v :: args =>
                        let '(a, ok) := fl_set fd v a in
                        if ok then Parse args a else (a, Some (ErrInvalidValue v name))
                    end
                end
          end
      end
  end.
End parse.

(** ** Explicit settings *)

(** A flag as one writes it: joined with its value, or value behind it. *)
Inductive form := Joined | Separate.

Definition spell (f : form) (name value : list byte) : list (list byte) :=
  match f with
  | Joined => [[x2d] ++ name ++ [x3d] ++ value]
  | Separate => [[x2d] ++ name; value]
  end.

(** A name that starts with neither dash nor equals sign and has none of the
    latter. *)
Definition flagName (name : list byte) : Prop :=
  name ≠ [] ∧ head name ≠ Some x2d ∧ Forall (λ b, b ≠ x3d) name.

Lemma Cut_none s sep : Forall (λ b, b ≠ sep) s → Cut s sep = None.
Proof. induction 1 as [|b s Hb Hs IH]; [done|]. cbn [Cut]. by rewrite decide_False, IH. Qed.

Lemma classify_name name r :
  flagName name →
  classify ([x2d] ++ name ++ r) = let '(n, v) := cutValue (name ++ r) in AFlag n v.
Proof.
  intros (Hne & Hd & He). destruct name as [|c name]; [done|]. inversion He as [|?? Hc _]; subst.
  cbn [app]. assert (c ≠ x2d) as Hcd by (intros ->; by apply Hd).
  assert (∀ (B : Type) (u v : B), match c with x2d => u | _ => v end = v) as Hm
    by (intros B u v; by destruct c).
  unfold classify at 1. destruct c; try done; rewrite decide_False by done; done.
Qed.

Lemma classify_joined name value :
  flagName name → classify ([x2d] ++ name ++ [x3d] ++ value) = AFlag name (Some value).
Proof.
  intros Hn. rewrite classify_name by done. destruct Hn as (Hne & _ & He).
  destruct name as [|c name]; [done|]. inversion He; subst. cbn [app cutValue].
  by rewrite Cut_app.
Qed.

Lemma classify_separate name : flagName name → classify ([x2d] ++ name) = AFlag name None.
Proof.
  intros Hn. rewrite <- (app_nil_r name) at 1. rewrite classify_name by done.
  rewrite app_nil_r. destruct Hn as (Hne & _ & He). destruct name as [|c name]; [done|].
  inversion He; subst. cbn [cutValue]. by rewrite Cut_none.
Qed.

(** Parsing one explicit setting. *)
Lemma Parse_spell {A} (formal : list byte → option (flagDef A)) f name value rest (a : A) fd :
  flagName name → formal name = Some fd → (fl_bool fd = true → f = Joined) →
  Parse formal (spell f name value ++ rest) a =
    let '(a', ok) := fl_set fd value a in
    if ok then Parse formal rest a' else (a', Some (ErrInvalidValue value name)).
Proof.
  intros Hn Hf Hb. destruct f.
  - change (spell Joined name value ++ rest) with (([x2d] ++ name ++ [x3d] ++ value) :: rest).
    cbn [Parse]. rewrite classify_joined, Hf by done. by destruct (fl_bool fd).
  - change (spell Separate name value ++ rest) with (([x2d] ++ name) :: value :: rest).
    cbn [Parse]. rewrite classify_separate, Hf by done. destruct (fl_bool fd); [by discriminate Hb|done].
Qed.

(** ** Programs with string flags *)

(** [flag.String] for each name, as updates of the variables. *)
Fixpoint stringFlags {A} (fs : list (list byte * (list byte → A → A))) (name : list byte) : option (flagDef A) :=
  match fs with
  | [] => None
  | (n, set) :: fs => if decide (n = name) then Some (MkFlag false (λ v a, (set v a, true))) else stringFlags fs name
  end.

(** [flag.Parse()], which exits on an error: with 0 after [-help]. *)
Definition parseOrExit {A} (formal : list byte → option (flagDef A)) (args : list (list byte)) (a : A) : Z + A :=
  match Parse formal args a with
  | (a, None) => inr a
  | (_, Some ErrHelp) => inl 0
  | (_, Some _) => inl 2
  end.

(** A flag as it is written: its form, its name and its value. *)
Record written := MkWritten { wr_form : form; wr_name : list byte; wr_value : list byte }.

Definition writtenArgs (ws : list written) : list (list byte) :=
  concat ((λ w, spell (wr_form w) (wr_name w) (wr_value w)) <$> ws).

(** What a variable holds after them: the last value written. *)
Definition lastWritten (name : list byte) (ws : list written) (dflt : list byte) : list byte :=
  foldl (λ v w, if decide (wr_name w = name) then wr_value w else v) dflt ws.

Lemma parseOrExit_written {A} (fs : list (list byte * (list byte → A → A))) ws (a : A) :
  Forall flagName (fst <$> fs) → Forall (λ w, wr_name w ∈ fst <$> fs) ws →
  parseOrExit (stringFlags fs) (writtenArgs ws) a =
    inr (foldl (λ a w, match stringFlags fs (wr_name w) with Some fd => fst (fl_set fd (wr_value w) a) | None => a end) a ws).
Proof.
  intros Hfs Hws. unfold parseOrExit. revert a. induction Hws as [|[f n v] ws Hw Hws IH]; intros a; [done|].
  simpl in Hw. assert (∃ set, stringFlags fs n = Some (MkFlag false (λ v a, (set v a, true)))) as [set Hset].
  { clear -Hw. induction fs as [|[n' set] fs IH]; [by apply elem_of_nil in Hw|]. cbn [stringFlags].
    case_decide; [by eexists|]. apply IH. rewrite fmap_cons, elem_of_cons in Hw. by destruct Hw. }
  unfold writtenArgs. rewrite fmap_cons. cbn [concat wr_form wr_name wr_value].
  rewrite (Parse_spell _ f n v _ a _ (proj1 (Forall_forall _ _) Hfs n Hw) Hset) by done.
  cbn [foldl wr_name wr_value]. rewrite Hset. apply IH.
Qed.
