(* ===== verification/GoNet.v ===== *)
(** * Go's [net] package

    The address texts the program puts together and takes apart, and the loop
    in which every server of the repository accepts its connections. *)

From stdpp Require Import base list numbers strings.
From Stdlib Require Import ZArith Lia Strings.Byte.
From S2P Require Import Prelude GoStrconv GoStrings.

Local Open Scope Z_scope.

(** ** Addresses *)

(** [net.JoinHostPort(host, port)]. *)
Definition JoinHostPort (host : list byte) (port : Z) : list byte :=
  (if bool_decide (x3a ∈ host) then str "[" ++ host ++ str "]" else host) ++ str ":" ++ fmt_d port.

(** Before and after the last separator. *)
Fixpoint CutLast (s : list byte) (sep : byte) : option (list byte * list byte) :=
  match s with
  | [] => None
  | b :: s =>
      match CutLast s sep with
      | Some (k, v) => Some (b :: k, v)
      | None => if decide (b = sep) then Some ([], s) else None
      end
  end.

Inductive addr_err := MissingPort | TooManyColons | MissingBracket | UnexpectedBracket.

(** [net.SplitHostPort(hostport)]. *)
Definition SplitHostPort (s : list byte) : addr_err + list byte * list byte :=
  match CutLast s x3a with
  | None => inl MissingPort
  | Some (pre, port) =>
      if decide (head s = Some x5b) then
        match IndexByte s x5d with
        | None => inl MissingBracket
        | Some end_ =>
            if decide (S end_ = length s) then inl MissingPort
            else if decide (S end_ = length pre) then
              if decide (x5b ∈ drop 1 s ∨ x5d ∈ drop (S end_) s) then inl UnexpectedBracket
              else inr (take (end_ - 1) (drop 1 s), port)
            else if decide (s !! S end_ = Some x3a) then inl TooManyColons else inl MissingPort
        end
      else if decide (x3a ∈ pre) then inl TooManyColons
      else if decide (x5b ∈ s ∨ x5d ∈ s) then inl UnexpectedBracket
      else inr (pre, port)
  end.

Lemma CutLast_app k v sep : sep ∉ v → CutLast (k ++ sep :: v) sep = Some (k, v).
Proof.
  intros Hv. assert (CutLast v sep = None) as Hn.
  { induction v as [|b v IH]; [done|]. apply not_elem_of_cons in Hv as [Hb Hv]. cbn [CutLast].
    by rewrite IH, decide_False. }
  induction k as [|b k IH]; cbn [app CutLast]; [by rewrite Hn, decide_True|]. by rewrite IH.
Qed.

Lemma fmt_d_no_sep z sep : digit_val sep = None → sep ≠ x2d → sep ∉ fmt_d z.
Proof.
  intros Hs Hd. unfold fmt_d, fmt_int.
  assert (∀ n, 0 <= n → sep ∉ fmt_uint 10 n) as Hn.
  { intros n Hn Hin. pose proof (fmt_uint_digits 10 n ltac:(lia) Hn) as Hf. rewrite Forall_forall in Hf.
    apply Hf in Hin as [v Hv]. congruence. }
  destruct (Z.ltb_spec z 0); [|by apply Hn]. apply not_elem_of_cons. split; [done|]. apply Hn. lia.
Qed.

(** An address taken apart again: the host, in brackets or not, and the port. *)
Lemma SplitHostPort_Join h p :
  x5b ∉ h → x5d ∉ h → SplitHostPort (JoinHostPort h p) = inr (h, fmt_d p).
Proof.
  intros Ho Hc. unfold JoinHostPort.
  pose proof (fmt_d_no_sep p x3a eq_refl ltac:(done)) as H1.
  pose proof (fmt_d_no_sep p x5b eq_refl ltac:(done)) as H2.
  pose proof (fmt_d_no_sep p x5d eq_refl ltac:(done)) as H3.
  change (str ":" ++ fmt_d p) with (x3a :: fmt_d p). case_bool_decide as Hcolon; unfold SplitHostPort.
  - rewrite CutLast_app by done. change (str "[" ++ h ++ str "]") with (x5b :: h ++ [x5d]).
    rewrite decide_True by done.
    replace ((x5b :: h ++ [x5d]) ++ x3a :: fmt_d p) with ((x5b :: h) ++ x5d :: x3a :: fmt_d p)
      by (cbn [app]; by rewrite <- app_assoc).
    rewrite IndexByte_app by (apply Forall_forall; intros b [Hb|Hb]%elem_of_cons ->; [done|by apply Hc]).
    rewrite decide_False by (rewrite length_app; simpl; lia).
    rewrite decide_True by (simpl; rewrite length_app; simpl; lia).
    rewrite decide_False.
    + f_equal. f_equal. cbn [app length drop]. rewrite Nat.sub_succ, Nat.sub_0_r. apply take_app_length.
    + cbn [app length drop]. replace (S (length h)) with (length h + 1)%nat by lia.
      rewrite drop_app_add. cbn [drop]. rewrite drop_0, !elem_of_app, !elem_of_cons. intuition discriminate.
  - rewrite CutLast_app by done.
    assert (head (h ++ x3a :: fmt_d p) ≠ Some x5b) as Hh.
    { destruct h as [|b h]; [done|]. intros [= ->]. apply Ho. by left. }
    rewrite !decide_False; [done|..|done|done].
    rewrite !elem_of_app, !elem_of_cons. intuition discriminate.
Qed.

(** ** Accept loops *)

(** [for { c, err := ln.Accept(); if err != nil { return err }; go serve(c) }]:
    what is served of the outcomes of [Accept], and the error that ended it. *)
Fixpoint acceptLoop {E C S : Type} (serve : C → S) (accepts : list (E + C)) : list S * option E :=
  match accepts with
  | [] => ([], None)
  | inl e :: _ => ([], Some e)
  | inr c :: accepts => let '(l, err) := acceptLoop serve accepts in (serve c :: l, err)
  end.

(** [net.Listen], then such a loop: nothing is served when the address cannot
    be bound. *)
Definition listenLoop {E C S : Type} (serve : C → S) (bind : option E) (accepts : list (E + C)) : list S * option E :=
  match bind with
  | Some e => ([], Some e)
  | None => acceptLoop serve accepts
  end.

(** The loop serves every connection up to its first error, in order. *)
Lemma acceptLoop_served {E C S} (serve : C → S) (cs : list C) (e : E) rest :
  acceptLoop serve ((inr <$> cs) ++ inl e :: rest) = (serve <$> cs, Some e).
Proof. induction cs as [|c cs IH]; [done|]. cbn [fmap list_fmap app acceptLoop]. by rewrite IH. Qed.
