(* ===== verification/Config.v ===== *)
(** * Configuration

    [internal/config/config.go]: defaults, YAML file, environment and
    command-line flags, and which of them wins. The file system, the
    environment, the YAML decoder and [time.ParseDuration] (floating point)
    are parameters. *)

From stdpp Require Import base list numbers strings.
From Stdlib Require Import ZArith Lia Strings.Byte.
From S2P Require Import Prelude GoStrconv GoStrings GoFlag.

Local Open Scope Z_scope.

Record Config := MkConfig {
  QconnHost : list byte;
  QconnPort : Z;
  Timeout : Z;                 (* nanoseconds *)
  BindAddr : list byte;
  Path : list byte;
  Token : list byte;
  DebugPort : Z;
  PdebugCmd : list byte;
  DebugSerial : list byte;
  DebugBaud : Z;
  LogLevel : list byte;
  LogFormat : list byte;
  Trace : bool
}.

Definition Second : Z := 1000000000.

Definition Default : Config := {|
  QconnHost := str "127.0.0.1";
  QconnPort := 8000;
  Timeout := 30 * Second;
  BindAddr := str "127.0.0.1:8077";
  Path := str "/mcp";
  Token := [];
  DebugPort := 8001;
  PdebugCmd := str "on -d pdebug %d </dev/null >/dev/null 2>&1";
  DebugSerial := [];
  DebugBaud := 115200;
  LogLevel := str "info";
  LogFormat := str "text";
  Trace := false
|}.

(** ** Fields and their values *)

Inductive field :=
  | FQconnHost | FQconnPort | FTimeout | FBindAddr | FPath | FToken | FDebugPort | FPdebugCmd
  | FDebugSerial | FDebugBaud | FLogLevel | FLogFormat | FTrace.

#[export] Instance field_eq_dec : EqDecision field.
Proof. solve_decision. Defined.

Inductive fval := VS (s : list byte) | VI (z : Z) | VB (b : bool).

Definition getField (f : field) (c : Config) : fval :=
  match f with
  | FQconnHost => VS (QconnHost c) | FQconnPort => VI (QconnPort c) | FTimeout => VI (Timeout c)
  | FBindAddr => VS (BindAddr c) | FPath => VS (Path c) | FToken => VS (Token c)
  | FDebugPort => VI (DebugPort c) | FPdebugCmd => VS (PdebugCmd c)
  | FDebugSerial => VS (DebugSerial c) | FDebugBaud => VI (DebugBaud c)
  | FLogLevel => VS (LogLevel c) | FLogFormat => VS (LogFormat c) | FTrace => VB (Trace c)
  end.

(** Assigning a value of the field's type. *)
Definition setField (f : field) (v : fval) (c : Config) : Config :=
  let '(MkConfig h p t b pa to dp pc ds db ll lf tr) := c in
  match f, v with
  | FQconnHost, VS s => MkConfig s p t b pa to dp pc ds db ll lf tr
  | FQconnPort, VI z => MkConfig h z t b pa to dp pc ds db ll lf tr
  | FTimeout, VI z => MkConfig h p z b pa to dp pc ds db ll lf tr
  | FBindAddr, VS s => MkConfig h p t s pa to dp pc ds db ll lf tr
  | FPath, VS s => MkConfig h p t b s to dp pc ds db ll lf tr
  | FToken, VS s => MkConfig h p t b pa s dp pc ds db ll lf tr
  | FDebugPort, VI z => MkConfig h p t b pa to z pc ds db ll lf tr
  | FPdebugCmd, VS s => MkConfig h p t b pa to dp s ds db ll lf tr
  | FDebugSerial, VS s => MkConfig h p t b pa to dp pc s db ll lf tr
  | FDebugBaud, VI z => MkConfig h p t b pa to dp pc ds z ll lf tr
  | FLogLevel, VS s => MkConfig h p t b pa to dp pc ds db s lf tr
  | FLogFormat, VS s => MkConfig h p t b pa to dp pc ds db ll s tr
  | FTrace, VB x => MkConfig h p t b pa to dp pc ds db ll lf x
  | _, _ => c
  end.

(** The type of a field. *)
Inductive kind := KString | KInt | KDuration | KBool.

Definition kindOf (f : field) : kind :=
  match f with
  | FQconnPort | FDebugPort | FDebugBaud => KInt
  | FTimeout => KDuration
  | FTrace => KBool
  | _ => KString
  end.

(** ** Flags *)

Definition flagOf (f : field) : list byte :=
  match f with
  | FQconnHost => str "qconn-host" | FQconnPort => str "qconn-port" | FTimeout => str "timeout"
  | FBindAddr => str "bind" | FPath => str "path" | FToken => str "token"
  | FDebugPort => str "debug-port" | FPdebugCmd => str "pdebug-cmd"
  | FDebugSerial => str "debug-serial" | FDebugBaud => str "debug-baud"
  | FLogLevel => str "log-level" | FLogFormat => str "log-format" | FTrace => str "trace"
  end.

Definition fields : list field :=
  [FQconnHost; FQconnPort; FTimeout; FBindAddr; FPath; FToken; FDebugPort; FPdebugCmd;
   FDebugSerial; FDebugBaud; FLogLevel; FLogFormat; FTrace].

Inductive load_err := LReadFile (path : list byte) | LYaml | LFlag (e : flag_err).

Section load.
Variable getenv : list byte → list byte.
Variable readFile : list byte → option (list byte).
(** [yaml.Unmarshal(b, cfg)]: the configuration it leaves, and no error. *)
Variable yamlUnmarshal : list byte → Config → Config * bool.
(** [time.ParseDuration(s)]: the value it returns, and no error. *)
Variable parseDuration : list byte → Z * bool.

(** The [Set] method of a flag's value. *)
Definition parseValue (f : field) (s : list byte) : fval * bool :=
  match kindOf f with
  | KString => (VS s, true)
  | KInt => let '(z, e) := ParseInt0 s in (VI z, bool_decide (e = None))
  | KDuration => let '(z, ok) := parseDuration s in (VI z, ok)
  | KBool => match ParseBool s with Some b => (VB b, true) | None => (VB false, false) end
  end.

Definition fieldFlag (f : field) : flagDef Config :=
  MkFlag (match kindOf f with KBool => true | _ => false end)
    (λ s c, let '(v, ok) := parseValue f s in (setField f v c, ok)).

(** The flag set of the first pass, which only knows [-config], and of the
    second, in which that flag is parsed and dropped. *)
Definition configFlag : list byte → option (flagDef (list byte)) := λ name,
  if decide (name = str "config") then Some (MkFlag false (λ s _, (s, true))) else None.

Definition allFlags : list byte → option (flagDef Config) := λ name,
  if decide (name = str "config") then Some (MkFlag false (λ _ c, (c, true)))
  else fieldFlag <$> (snd <$> list_find (λ f, flagOf f = name) fields).

Definition loadYAML (path : list byte) (cfg : Config) : Config * option load_err :=
  match readFile path with
  | None => (cfg, Some (LReadFile path))
  | Some b => let '(cfg, ok) := yamlUnmarshal b cfg in (cfg, if ok then None else Some LYaml)
  end.

(** A string and an integer variable of the environment, if they count. *)
Definition envStr (var : list byte) : option fval :=
  let v := getenv var in if decide (v = []) then None else Some (VS v).

Definition envInt (var : list byte) : option fval :=
  let v := getenv var in
  if decide (v = []) then None
  else match Atoi v with (n, None) => Some (VI n) | (_, Some _) => None end.

Definition override (f : field) (v : option fval) (c : Config) : Config :=
  match v with Some v => setField f v c | None => c end.

Definition applyEnv (c : Config) : Config :=
  let c := override FQconnHost (envStr (str "QCONN_HOST")) c in
  let c := override FQconnPort (envInt (str "QCONN_PORT")) c in
  let c := override FBindAddr (envStr (str "MCP_ADDR")) c in
  let c := override FToken (envStr (str "MCP_TOKEN")) c in
  let c := override FDebugPort (envInt (str "QCONN_DEBUG_PORT")) c in
  let c := override FLogLevel (envStr (str "LOG_LEVEL")) c in
  if decide (getenv (str "QCONN_TRACE") = str "1") then setField FTrace (VB true) c else c.

Definition Load (args : list (list byte)) : Config * option load_err :=
  let configPath := fst (Parse configFlag args (getenv (str "QCONN_CONFIG"))) in
  let '(cfg, err) :=
    if decide (configPath = []) then (Default, None) else loadYAML configPath Default in
  match err with
  | Some e => (cfg, Some e)
  | None =>
      let '(cfg, ferr) := Parse allFlags args (applyEnv cfg) in
      (cfg, LFlag <$> ferr)
  end.

(** ** What wins *)

(** The value the environment gives to a field. *)
Definition envValue (f : field) : option fval :=
  match f with
  | FQconnHost => envStr (str "QCONN_HOST")
  | FQconnPort => envInt (str "QCONN_PORT")
  | FBindAddr => envStr (str "MCP_ADDR")
  | FToken => envStr (str "MCP_TOKEN")
  | FDebugPort => envInt (str "QCONN_DEBUG_PORT")
  | FLogLevel => envStr (str "LOG_LEVEL")
  | FTrace => if decide (getenv (str "QCONN_TRACE") = str "1") then Some (VB true) else None
  | _ => None
  end.

(** An explicit flag with the value its text has. *)
Record setting := MkSetting { se_field : field; se_form : form; se_text : list byte; se_val : fval }.

Definition validSetting (a : setting) : Prop :=
  parseValue (se_field a) (se_text a) = (se_val a, true) ∧
  (kindOf (se_field a) = KBool → se_form a = Joined).

Definition flagArgs (as_ : list setting) : list (list byte) :=
  as_ ≫= λ a, spell (se_form a) (flagOf (se_field a)) (se_text a).

(** The last explicit value of a field. *)
Definition lastSetting (f : field) (as_ : list setting) : option fval :=
  se_val <$> last (filter (λ a, se_field a = f) as_).

(** What the file named on the command line or by [QCONN_CONFIG] gives. *)
Definition fileConfig (path : list byte) : Config * option load_err :=
  if decide (path = []) then (Default, None) else loadYAML path Default.
End load.

Definition typed (f : field) (v : fval) : Prop :=
  match kindOf f, v with
  | KString, VS _ | KInt, VI _ | KDuration, VI _ | KBool, VB _ => True
  | _, _ => False
  end.

Lemma get_set f v c : typed f v → getField f (setField f v c) = v.
Proof. destruct c, f, v; done. Qed.

Lemma get_set_ne f g v c : f ≠ g → getField f (setField g v c) = getField f c.
Proof. destruct c, f, g, v; done. Qed.

Lemma get_override f g v c :
  (∀ x, v = Some x → typed g x) →
  getField f (override g v c) = if decide (f = g) then default (getField f c) v else getField f c.
Proof.
  intros Ht. destruct v as [x|]; cbn [override default]; case_decide as E; subst; try done.
  - rewrite get_set by (by apply Ht). done.
  - by rewrite get_set_ne.
Qed.

Section facts.
Variable getenv : list byte → list byte.
Variable readFile : list byte → option (list byte).
Variable yamlUnmarshal : list byte → Config → Config * bool.
Variable parseDuration : list byte → Z * bool.

Lemma envStr_typed var g x : kindOf g = KString → envStr getenv var = Some x → typed g x.
Proof. unfold envStr, typed. intros ->. case_decide; [done|]. by intros [= <-]. Qed.

Lemma envInt_typed var g x : kindOf g = KInt → envInt getenv var = Some x → typed g x.
Proof.
  unfold envInt, typed. intros ->. case_decide; [done|]. destruct (Atoi _) as [n [e|]]; [done|].
  by intros [= <-].
Qed.

Lemma get_applyEnv f c :
  getField f (applyEnv getenv c) = default (getField f c) (envValue getenv f).
Proof.
  unfold applyEnv.
  assert (∀ c', getField f (if decide (getenv (str "QCONN_TRACE") = str "1")
      then setField FTrace (VB true) c' else c') =
    if decide (f = FTrace) then default (getField f c') (envValue getenv FTrace) else getField f c') as Ht.
  { intros c'. cbn [envValue]. repeat case_decide; subst; try done; by apply get_set || by apply get_set_ne. }
  rewrite Ht. clear Ht.
  rewrite !get_override by (intros x; by (apply envStr_typed || apply envInt_typed)).
  by destruct f.
Qed.

Lemma parseValue_typed f s v ok : parseValue parseDuration f s = (v, ok) → typed f v.
Proof.
  unfold parseValue, typed. destruct (kindOf f).
  - by intros [= <- _].
  - destruct (ParseInt0 s). by intros [= <- _].
  - destruct (parseDuration s). by intros [= <- _].
  - destruct (ParseBool s); by intros [= <- _].
Qed.

Lemma flagOf_name f : flagName (flagOf f).
Proof. destruct f; (split_and!; [done|done|by repeat constructor]). Qed.

Lemma allFlags_field f : allFlags parseDuration (flagOf f) = Some (fieldFlag parseDuration f).
Proof. by destruct f. Qed.

(** The second pass over explicit settings. *)
Lemma Parse_flagArgs as_ rest c :
  Forall (validSetting parseDuration) as_ →
  Parse (allFlags parseDuration) (flagArgs as_ ++ rest) c =
    Parse (allFlags parseDuration) rest (foldl (λ c a, setField (se_field a) (se_val a) c) c as_).
Proof.
  intros Has. revert c. induction Has as [|a as_ [Hv Hb] Has IH]; intros c; [done|].
  change (flagArgs (a :: as_)) with (spell (se_form a) (flagOf (se_field a)) (se_text a) ++ flagArgs as_).
  rewrite <- app_assoc.
  rewrite (Parse_spell _ _ _ _ _ _ (fieldFlag parseDuration (se_field a)));
    [|apply flagOf_name|apply allFlags_field|].
  - cbn [fieldFlag fl_set]. rewrite Hv. by rewrite IH.
  - cbn [fieldFlag fl_bool]. by destruct (kindOf (se_field a)) eqn:E; [..|auto].
Qed.

Lemma get_settings f as_ c :
  Forall (validSetting parseDuration) as_ →
  getField f (foldl (λ c a, setField (se_field a) (se_val a) c) c as_) =
    default (getField f c) (lastSetting f as_).
Proof.
  intros Has. unfold lastSetting. induction as_ as [|a as_ IH] using rev_ind; [done|].
  apply Forall_app in Has as [Has [[Hv _] _]%Forall_cons]. rewrite foldl_snoc, filter_app.
  destruct (decide (se_field a = f)) as [<-|Hne].
  - rewrite filter_cons_True by done. rewrite last_app. cbn.
    apply get_set. by eapply parseValue_typed.
  - rewrite filter_cons_False by done. rewrite app_nil_r, get_set_ne by done. by apply IH.
Qed.

(** The first pass stops at the first flag it does not know. *)
Lemma Parse_config_stops a as_ rest path :
  Parse configFlag (flagArgs (a :: as_) ++ rest) path = (path, Some (undefined (flagOf (se_field a)))).
Proof.
  change (flagArgs (a :: as_)) with (spell (se_form a) (flagOf (se_field a)) (se_text a) ++ flagArgs as_).
  assert (configFlag (flagOf (se_field a)) = None) as Hc by (by destruct (se_field a)).
  destruct (se_form a); cbn [spell app Parse].
  - change (x2d :: flagOf (se_field a) ++ x3d :: se_text a) with ([x2d] ++ flagOf (se_field a) ++ [x3d] ++ se_text a).
    rewrite classify_joined by apply flagOf_name. by rewrite Hc.
  - change (x2d :: flagOf (se_field a)) with ([x2d] ++ flagOf (se_field a)).
    rewrite classify_separate by apply flagOf_name. by rewrite Hc.
Qed.
End facts.

(** The [-config] flag, when it is given. *)
Definition configArgs (ca : option (form * list byte)) : list (list byte) :=
  match ca with Some (fm, path) => spell fm (str "config") path | None => [] end.

Lemma config_name : flagName (str "config").
Proof. split_and!; [done|done|by repeat constructor]. Qed.

Lemma Parse_config_first ca as_ path0 :
  fst (Parse configFlag (configArgs ca ++ flagArgs as_) path0) =
    match ca with Some (_, path) => path | None => path0 end.
Proof.
  assert (∀ p, fst (Parse configFlag (flagArgs as_) p) = p) as Hstop.
  { intros p. destruct as_ as [|a as_]; [done|].
    rewrite <- (app_nil_r (flagArgs (a :: as_))), Parse_config_stops. done. }
  destruct ca as [[fm path]|]; [|apply Hstop]. cbn [configArgs].
  rewrite (Parse_spell _ _ _ _ _ _ (MkFlag false (λ s _, (s, true)))); [|apply config_name|done|done].
  cbn [fl_set]. apply Hstop.
Qed.

Lemma Parse_all_config parseDuration ca rest c :
  Parse (allFlags parseDuration) (configArgs ca ++ rest) c = Parse (allFlags parseDuration) rest c.
Proof.
  destruct ca as [[fm path]|]; [|done]. cbn [configArgs].
  by rewrite (Parse_spell _ _ _ _ _ _ (MkFlag false (λ _ c, (c, true)))) by (done || apply config_name).
Qed.

(** Every field of a configuration that loads. *)
Lemma Load_fields getenv readFile yamlUnmarshal parseDuration ca (as_ : list setting) base :
  Forall (validSetting parseDuration) as_ →
  fileConfig readFile yamlUnmarshal
    (match ca with Some (_, path) => path | None => getenv (str "QCONN_CONFIG") end) = (base, None) →
  ∃ cfg, Load getenv readFile yamlUnmarshal parseDuration (configArgs ca ++ flagArgs as_) = (cfg, None) ∧
    ∀ f, getField f cfg =
      default (default (getField f base) (envValue getenv f)) (lastSetting f as_).
Proof.
  intros Has Hfile. unfold Load. rewrite Parse_config_first. unfold fileConfig in Hfile. rewrite Hfile.
  rewrite Parse_all_config. rewrite <- (app_nil_r (flagArgs as_)), (Parse_flagArgs parseDuration) by done.
  cbn [Parse]. eexists. split; [done|]. intros f.
  by rewrite (get_settings parseDuration), get_applyEnv.
Qed.

(** C19: Precedence of the configuration sources. With [-config], when given,
    in front, and the file readable, loading succeeds and every field has the
    value of its last explicit flag; without one, that of its environment
    variable, when it is set (and a number where one is expected); without
    that, the file's; and the default last. *)
Theorem Load_precedence getenv readFile yamlUnmarshal parseDuration ca (as_ : list setting) base :
  Forall (validSetting parseDuration) as_ →
  fileConfig readFile yamlUnmarshal
    (match ca with Some (_, path) => path | None => getenv (str "QCONN_CONFIG") end) = (base, None) →
  ∃ cfg, Load getenv readFile yamlUnmarshal parseDuration (configArgs ca ++ flagArgs as_) = (cfg, None) ∧
    ∀ f, getField f cfg =
      default (default (getField f base) (envValue getenv f)) (lastSetting f as_).
Proof. apply Load_fields. Qed.

Lemma Load_precedence_witness :
  ∃ cfg, Load (λ v, if decide (v = str "QCONN_PORT") then str "9000" else []) (λ _, Some (str "qconn_host: a"))
      (λ _ c, (setField FQconnHost (VS (str "a")) c, true)) (λ _, (0, false))
      (configArgs (Some (Joined, str "f.yaml")) ++
       flagArgs [MkSetting FDebugPort Separate (str "0x10") (VI 16); MkSetting FTrace Joined (str "1") (VB true)]) =
      (cfg, None) ∧
    QconnHost cfg = str "a" ∧ QconnPort cfg = 9000 ∧ DebugPort cfg = 16 ∧ Trace cfg = true ∧
    Path cfg = str "/mcp".
Proof.
  set (env := λ v, if decide (v = str "QCONN_PORT") then str "9000" else []).
  set (ss := [MkSetting FDebugPort Separate (str "0x10") (VI 16); MkSetting FTrace Joined (str "1") (VB true)]).
  destruct (Load_precedence env (λ _, Some (str "qconn_host: a"))
    (λ _ c, (setField FQconnHost (VS (str "a")) c, true)) (λ _, (0, false)) (Some (Joined, str "f.yaml")) ss
    (setField FQconnHost (VS (str "a")) Default)) as (cfg & E & Hf).
  - repeat constructor; done.
  - reflexivity.
  - exists cfg. split; [exact E|].
    assert (getField FQconnHost cfg = VS (str "a")) as [= H1] by (rewrite Hf; reflexivity).
    assert (getField FQconnPort cfg = VI 9000) as [= H2] by (rewrite Hf; reflexivity).
    assert (getField FDebugPort cfg = VI 16) as [= H3] by (rewrite Hf; reflexivity).
    assert (getField FTrace cfg = VB true) as [= H4] by (rewrite Hf; reflexivity).
    assert (getField FPath cfg = VS (str "/mcp")) as [= H5] by (rewrite Hf; reflexivity).
    split_and!; assumption.
Defined.

(** A [-config] flag behind another flag is lost. The first pass over the
    arguments stops at the first flag it does not know, so a file named later
    is never read: the result is the one without the flag, whatever the file
    holds and whether or not it exists. *)
Theorem Load_config_late getenv readFile yamlUnmarshal parseDuration fm path a (as_ : list setting) :
  Forall (validSetting parseDuration) (a :: as_) →
  Load getenv readFile yamlUnmarshal parseDuration (flagArgs (a :: as_) ++ spell fm (str "config") path) =
  Load getenv readFile yamlUnmarshal parseDuration (flagArgs (a :: as_)).
Proof.
  intros Has. unfold Load. rewrite Parse_config_stops.
  pose proof (λ p, Parse_config_stops a as_ [] p) as Hstop. pose proof (λ c, Parse_flagArgs parseDuration _ [] c Has) as Hall.
  rewrite app_nil_r in Hstop, Hall. rewrite Hstop. cbn [fst].
  destruct (if decide (_ = []) then _ else _) as [cfg [e|]]; [done|].
  rewrite (Parse_flagArgs parseDuration) by done. rewrite Hall.
  rewrite <- (app_nil_r (spell fm (str "config") path)).
  by rewrite (Parse_all_config parseDuration (Some (fm, path))).
Qed.

Lemma Load_config_late_witness :
  Load (λ _, []) (λ _, None) (λ _ c, (c, true)) (λ _, (0, false))
    ([str "-qconn-host"; str "10.0.0.2"] ++ [str "-config"; str "target.yaml"]) =
  (setField FQconnHost (VS (str "10.0.0.2")) Default, None).
Proof.
  refine (eq_trans (Load_config_late (λ _, []) (λ _, None) (λ _ c, (c, true)) (λ _, (0, false)) Separate
    (str "target.yaml") (MkSetting FQconnHost Separate (str "10.0.0.2") (VS (str "10.0.0.2"))) [] _) _);
    [repeat constructor; done | reflexivity].
Defined.
