(* ===== verification/Obs.v ===== *)
(** * Logging

    [internal/obs/log.go]: the level of the logger, the scrubbing of sensitive
    attributes and the wire trace; and of [log/slog] which records a logger
    writes. Their layout on the output, as text or JSON, is left out. *)

From stdpp Require Import base list numbers strings.
From Stdlib Require Import ZArith Lia Strings.Byte.
From S2P Require Import Prelude GoStrconv GoStrings.

Local Open Scope Z_scope.

(** [strings.ToLower(s)] as far as a comparison with an ASCII text goes: the
    ASCII capitals, and the two code points beyond ASCII whose lower case is
    an ASCII letter (U+212A, Kelvin sign, and U+0130, dotted capital i). Other
    code points beyond ASCII have no lower case in ASCII. *)
Fixpoint lowerASCII (s : list byte) : list byte :=
  match s with
  | xe2 :: x84 :: xaa :: s => x6b :: lowerASCII s
  | xc4 :: xb0 :: s => x69 :: lowerASCII s
  | b :: s =>
      (if (65 <=? Z_of_byte b) && (Z_of_byte b <=? 90) then byte_of_Z (Z_of_byte b + 32) else b)
      :: lowerASCII s
  | [] => []
  end.

Inductive Level := LevelDebug | LevelInfo | LevelWarn | LevelError.

Record Options := MkOptions { op_Level : list byte; op_Format : list byte; op_Trace : bool }.

(** The logger [Setup] installs, and the package's trace flag. *)
Record logger := MkLogger { lg_level : Level; lg_json : bool; lg_trace : bool }.

Definition levelOf (s : list byte) : Level :=
  let l := lowerASCII s in
  if decide (l = str "debug") then LevelDebug
  else if decide (l = str "warn" ∨ l = str "warning") then LevelWarn
  else if decide (l = str "error") then LevelError
  else LevelInfo.

Definition Setup (o : Options) : logger :=
  MkLogger (levelOf (op_Level o)) (bool_decide (lowerASCII (op_Format o) = str "json")) (op_Trace o).

Definition TraceEnabled (l : logger) : bool := lg_trace l.

Record Attr := MkAttr { at_key : list byte; at_value : list byte }.

Definition sensitive : list (list byte) :=
  [str "token"; str "authorization"; str "auth"; str "secret"; str "password"].

Definition redact (a : Attr) : Attr :=
  if decide (lowerASCII (at_key a) ∈ sensitive) then MkAttr (at_key a) (str "[redacted]") else a.

(** [printable]: the bytes as ASCII, dots for the others. *)
Definition printable (b : list byte) : list byte :=
  (λ c, if (0x20 <=? Z_of_byte c) && (Z_of_byte c <? 0x7f) then c else x2e) <$> b.

(** The attributes of the record [Trace] writes at debug level, if any. *)
Definition Trace (l : logger) (where_ dir b : list byte) : option (list Attr) :=
  if negb (lg_trace l) || bool_decide (b = []) then None
  else Some [MkAttr (str "where") where_; MkAttr (str "dir") dir;
             MkAttr (str "len") (fmt_d (Z.of_nat (length b)));
             MkAttr (str "ascii") (printable b); MkAttr (str "hex") (hex_of_bytes b)].

(** A record as the handler writes it. *)
Definition emitted (as_ : list Attr) : list Attr := redact <$> as_.

(** What a logger writes for one call: nothing below its level. *)
Record entry := MkEntry { en_level : Level; en_msg : list byte; en_attrs : list Attr }.

Definition levelNum (l : Level) : Z :=
  match l with LevelDebug => -4 | LevelInfo => 0 | LevelWarn => 4 | LevelError => 8 end.

Definition Enabled (l : logger) (lv : Level) : bool := levelNum (lg_level l) <=? levelNum lv.

Definition Log (l : logger) (lv : Level) (msg : list byte) (as_ : list Attr) : list entry :=
  if Enabled l lv then [MkEntry lv msg (emitted as_)] else [].

(** The records of [Trace] are at debug level: at the default level, whatever
    the trace flag says, no wire dump is written. *)
Lemma trace_needs_debug l where_ dir b as_ :
  Trace l where_ dir b = Some as_ → lg_level l ≠ LevelDebug → Log l LevelDebug (str "wire") as_ = [].
Proof. intros _ Hl. unfold Log, Enabled. by destruct (lg_level l). Qed.

(** A spelling of a key: each letter in either case. *)
Definition respells (k s : list byte) : Prop :=
  Forall2 (λ c b, b = c ∨ (97 <= Z_of_byte c <= 122 ∧ Z_of_byte b = Z_of_byte c - 32)) k s.

Lemma lowerASCII_respells k s :
  Forall (λ c, 97 <= Z_of_byte c <= 122) k → respells k s → lowerASCII s = k.
Proof.
  intros Hk Hs. induction Hs as [|c b k s Hcb _ IH]; [done|].
  inversion_clear Hk as [|?? Hc Hk']. specialize (IH Hk').
  assert (b ≠ xe2 ∧ b ≠ xc4) as [Hb1 Hb2].
  { split; intros ->; change (Z_of_byte xe2) with 226 in *; change (Z_of_byte xc4) with 196 in *;
      destruct Hcb as [<-|[_ Hcb]];
      [change (Z_of_byte xe2) with 226 in Hc; lia | change (Z_of_byte xe2) with 226 in Hcb; lia
      | change (Z_of_byte xc4) with 196 in Hc; lia | change (Z_of_byte xc4) with 196 in Hcb; lia]. }
  assert (lowerASCII (b :: s) =
    (if (65 <=? Z_of_byte b) && (Z_of_byte b <=? 90) then byte_of_Z (Z_of_byte b + 32) else b) :: lowerASCII s) as ->
    by (destruct b; done).
  rewrite IH. f_equal. destruct Hcb as [->|[_ Hb]].
  - by rewrite (proj2 (Z.leb_gt (Z_of_byte c) 90)), andb_false_r by lia.
  - rewrite (proj2 (Z.leb_le _ _)), (proj2 (Z.leb_le _ _)) by lia. simpl.
    rewrite Hb, Z.sub_add. apply byte_of_Z_of_byte.
Qed.

(** Sensitive values never reach the log. Whatever case its key is
    written in, an attribute named token, authorization, auth, secret or
    password is written with a fixed text in place of its value, and every
    other attribute of the record as it is. *)
Theorem redact_sensitive (as_ : list Attr) i a :
  as_ !! i = Some a →
  (∀ k, k ∈ sensitive → respells k (at_key a) →
     emitted as_ !! i = Some (MkAttr (at_key a) (str "[redacted]"))) ∧
  (lowerASCII (at_key a) ∉ sensitive → emitted as_ !! i = Some a).
Proof.
  intros Ha. unfold emitted. rewrite list_lookup_fmap, Ha. simpl. unfold redact. split.
  - intros k Hk Hr. rewrite (lowerASCII_respells k); [by rewrite decide_True| |done].
    revert Hk. unfold sensitive. rewrite !elem_of_cons, elem_of_nil.
    intros Hk. repeat destruct Hk as [->|Hk]; [repeat constructor; vm_compute; done..|done].
  - intros Hn. by rewrite decide_False.
Qed.

Lemma redact_sensitive_witness :
  emitted [MkAttr (str "remote") (str "10.0.0.1"); MkAttr (str "Authorization") (str "Bearer x")] !! 1%nat =
    Some (MkAttr (str "Authorization") (str "[redacted]")).
Proof.
  apply (redact_sensitive [MkAttr (str "remote") (str "10.0.0.1"); MkAttr (str "Authorization") (str "Bearer x")]
    1%nat (MkAttr (str "Authorization") (str "Bearer x")) eq_refl) with (k := str "authorization").
  - unfold sensitive. rewrite !elem_of_cons. auto.
  - apply Forall2_same_length_lookup. split; [done|]. intros i x y Hx Hy.
    do 13 (destruct i as [|i]; [vm_compute in Hx, Hy; simplify_eq; vm_compute; naive_solver|]). done.
Defined.
