(* ===== verification/Dsmsg.v ===== *)
(** * DSMSG wire format

    [internal/qnxdbg/protocol.go]: the frame alphabet, the message codes, the
    one's-complement checksum, the byte stuffing and the frame encoder, with
    the facts the reader, the scanner and the mock agent rely on. *)

From stdpp Require Import base list numbers.
From Stdlib Require Import ZArith Lia Strings.Byte.
From S2P Require Import Prelude.

Local Open Scope Z_scope.

(** ** Frame bytes *)

Definition frameChar : byte := x7e.
Definition escChar : byte := x7d.
Definition escXor : byte := x20.

(** ** Channel identifiers *)

Definition chanReset : byte := x00.
Definition chanDebug : byte := x01.
Definition chanText : byte := x02.
Definition chanNak : byte := xff.

(** ** Command codes (host to target) *)

Definition cmdConnect : byte := byte_of_Z 0.
Definition cmdDisconnect : byte := byte_of_Z 1.
Definition cmdSelect : byte := byte_of_Z 2.
Definition cmdMapinfo : byte := byte_of_Z 3.
Definition cmdLoad : byte := byte_of_Z 4.
Definition cmdAttach : byte := byte_of_Z 5.
Definition cmdDetach : byte := byte_of_Z 6.
Definition cmdKill : byte := byte_of_Z 7.
Definition cmdStop : byte := byte_of_Z 8.
Definition cmdMemrd : byte := byte_of_Z 9.
Definition cmdMemwr : byte := byte_of_Z 10.
Definition cmdRegrd : byte := byte_of_Z 11.
Definition cmdRegwr : byte := byte_of_Z 12.
Definition cmdRun : byte := byte_of_Z 13.
Definition cmdBrk : byte := byte_of_Z 14.
Definition cmdFileopen : byte := byte_of_Z 15.
Definition cmdFilerd : byte := byte_of_Z 16.
Definition cmdFilewr : byte := byte_of_Z 17.
Definition cmdFileclose : byte := byte_of_Z 18.
Definition cmdPidlist : byte := byte_of_Z 19.
Definition cmdCwd : byte := byte_of_Z 20.
Definition cmdEnv : byte := byte_of_Z 21.
Definition cmdBase : byte := byte_of_Z 22.
Definition cmdProtover : byte := byte_of_Z 23.
Definition cmdHandlesig : byte := byte_of_Z 24.
Definition cmdCPUInfo : byte := byte_of_Z 25.
Definition cmdTIDNames : byte := byte_of_Z 26.
Definition cmdProcMap : byte := byte_of_Z 27.

(** ** Response codes (target to host) *)

Definition respErr : byte := x20.
Definition respOK : byte := x21.
Definition respOKStatus : byte := x22.
Definition respOKData : byte := x23.
Definition respNotify : byte := x40.

(** ** Codec *)

(** [0xff - sum(b)], in 8-bit arithmetic. *)
Definition checksum (b : list byte) : byte := byte_sub xff (foldl byte_add x00 b).

Fixpoint escape (b : list byte) : list byte :=
  match b with
  | [] => []
  | c :: b =>
      if decide (c = frameChar ∨ c = escChar)
      then escChar :: byte_xor c escXor :: escape b
      else c :: escape b
  end.

(** An escape prefix with no byte after it is kept as it is. *)
Fixpoint unescape (b : list byte) : list byte :=
  match b with
  | [] => []
  | c :: b' =>
      if decide (c = escChar)
      then match b' with
           | [] => [c]
           | d :: b'' => byte_xor d escXor :: unescape b''
           end
      else c :: unescape b'
  end.

Definition frame (payload : list byte) : list byte :=
  [frameChar] ++ escape payload ++ escape [checksum payload] ++ [frameChar].

(** ** Stuffing *)

Lemma escape_app a b : escape (a ++ b) = escape a ++ escape b.
Proof.
  induction a as [|c a IH]; [done|]. simpl. case_decide; simpl; by rewrite IH.
Qed.

Lemma xor_special_not_frame c :
  c = frameChar ∨ c = escChar → byte_xor c escXor ≠ frameChar.
Proof. by intros [-> | ->]. Qed.

(** The delimiter never occurs inside stuffed content. *)
Lemma escape_no_frame b : Forall (λ c, c ≠ frameChar) (escape b).
Proof.
  induction b as [|c b IH]; simpl; [done|].
  case_decide as Hc; repeat constructor; auto using xor_special_not_frame.
Qed.

Lemma unescape_escape_app a b : unescape (escape a ++ b) = a ++ unescape b.
Proof.
  induction a as [|c a IH]; [done|]. simpl. case_decide as Hc; simpl.
  - by rewrite byte_xor_involutive, IH.
  - rewrite decide_False by tauto. by rewrite IH.
Qed.

Lemma unescape_escape b : unescape (escape b) = b.
Proof. rewrite <- (app_nil_r (escape b)), unescape_escape_app. apply app_nil_r. Qed.

Lemma unescape_nonempty b : b ≠ [] → unescape b ≠ [].
Proof. destruct b as [|c [|d b]]; simpl; intros; try case_decide; done. Qed.

Lemma escape_nonempty b : b ≠ [] → escape b ≠ [].
Proof. destruct b as [|c b]; simpl; intros; try case_decide; done. Qed.

Lemma length_escape b : (length b ≤ length (escape b) ≤ 2 * length b)%nat.
Proof. induction b as [|c b IH]; simpl; [lia|]. case_decide; simpl; lia. Qed.

(** What lies between the delimiters of a frame. *)
Definition content (payload : list byte) : list byte := escape (payload ++ [checksum payload]).

Lemma frame_content p : frame p = frameChar :: content p ++ [frameChar].
Proof. unfold frame, content. rewrite escape_app. simpl. by rewrite <- app_assoc. Qed.

Lemma content_nonempty p : content p ≠ [].
Proof. apply escape_nonempty. by destruct p. Qed.

Lemma content_no_frame p : Forall (λ c, c ≠ frameChar) (content p).
Proof. apply escape_no_frame. Qed.

Lemma unescape_content p : unescape (content p) = p ++ [checksum p].
Proof. apply unescape_escape. Qed.

(** ** Checksum *)

Definition byte_sum (b : list byte) : Z := foldr (λ c s, Z_of_byte c + s) 0 b.

Lemma byte_sum_app a b : byte_sum (a ++ b) = byte_sum a + byte_sum b.
Proof. induction a as [|c a IH]; simpl; lia. Qed.

Lemma foldl_byte_add s b :
  Z_of_byte (foldl byte_add s b) = (Z_of_byte s + byte_sum b) `mod` 256.
Proof.
  revert s. induction b as [|c b IH]; intros s; simpl.
  - rewrite Z.add_0_r. symmetry. apply Z.mod_small, Z_of_byte_range.
  - rewrite IH. unfold byte_add. rewrite Z_of_byte_of_Z, Z.add_mod_idemp_l by lia.
    f_equal. lia.
Qed.

Lemma checksum_spec b : Z_of_byte (checksum b) = (255 - byte_sum b) `mod` 256.
Proof.
  unfold checksum, byte_sub. rewrite Z_of_byte_of_Z, foldl_byte_add.
  change (Z_of_byte x00) with 0. change (Z_of_byte xff) with 255.
  by rewrite Z.add_0_l, Zminus_mod_idemp_r.
Qed.

(** Changing one byte of a message changes its checksum. *)
Lemma checksum_one_byte l a b r :
  checksum (l ++ a :: r) = checksum (l ++ b :: r) → a = b.
Proof.
  intros H%(f_equal Z_of_byte). rewrite !checksum_spec, !byte_sum_app in H. simpl in H.
  apply Z_of_byte_inj.
  pose proof (Z_of_byte_range a). pose proof (Z_of_byte_range b).
  pose proof (Z.div_mod (255 - (byte_sum l + (Z_of_byte a + byte_sum r))) 256 ltac:(lia)).
  pose proof (Z.div_mod (255 - (byte_sum l + (Z_of_byte b + byte_sum r))) 256 ltac:(lia)).
  lia.
Qed.

(** A message followed by its check byte sums up to 255. *)
Lemma checksum_valid p cs : checksum p = cs ↔ byte_sum (p ++ [cs]) `mod` 256 = 255.
Proof.
  rewrite byte_sum_app. simpl. rewrite Z.add_0_r. pose proof (Z_of_byte_range cs).
  assert (checksum p = cs ↔ (255 - byte_sum p) `mod` 256 = Z_of_byte cs) as ->.
  { rewrite <- checksum_spec. split; [by intros ->|apply Z_of_byte_inj]. }
  pose proof (Z.div_mod (255 - byte_sum p) 256 ltac:(lia)). pose proof (Z.mod_pos_bound (255 - byte_sum p) 256 ltac:(lia)).
  pose proof (Z.div_mod (byte_sum p + Z_of_byte cs) 256 ltac:(lia)).
  pose proof (Z.mod_pos_bound (byte_sum p + Z_of_byte cs) 256 ltac:(lia)). lia.
Qed.

(** One byte of stuffed content replaced: the sum of what it unstuffs to
    changes, unless a space takes the place of an escape byte. *)
Lemma byte_sum_replaced d x a y b :
  escape d = x ++ a :: y → a ≠ b → b ≠ escChar → (a = escChar → b ≠ x20) →
  ∃ δ, byte_sum (unescape (x ++ b :: y)) = byte_sum d + δ ∧ δ ≠ 0 ∧ -256 < δ < 256.
Proof.
  intros He Hab Hb Hsp. revert x He. induction d as [|c d IH]; intros x He; [by destruct x|].
  pose proof (Z_of_byte_range b). pose proof (Z_of_byte_range c). cbn [escape] in He. case_decide as Hc.
  - destruct x as [|x1 [|x2 x]]; cbn [app] in He; [injection He as <- <-|injection He as <- <- <-|injection He as <- <- He].
    + exists (Z_of_byte b - 32). specialize (Hsp eq_refl). cbn [app unescape].
      rewrite decide_False by done. cbn [unescape].
      rewrite decide_False by (by destruct Hc as [-> | ->]). rewrite unescape_escape. cbn [byte_sum foldr].
      assert (Z_of_byte (byte_xor c escXor) = Z_of_byte c - 32) as -> by (by destruct Hc as [-> | ->]).
      split; [unfold byte_sum; lia|]. split; [|lia]. intros E. apply Hsp, Z_of_byte_inj. change (Z_of_byte x20) with 32. lia.
    + exists (Z_of_byte (byte_xor b escXor) - Z_of_byte c). cbn [app unescape].
      rewrite decide_True, unescape_escape by done. cbn [byte_sum foldr]. split; [unfold byte_sum; lia|].
      pose proof (Z_of_byte_range (byte_xor b escXor)). split; [|lia]. intros E.
      apply Hab. rewrite <- (byte_xor_involutive b escXor). f_equal. symmetry. apply Z_of_byte_inj. lia.
    + destruct (IH x He) as (δ & E & Hδ). exists δ. split; [|done]. cbn [app unescape].
      rewrite decide_True, byte_xor_involutive by done. cbn [byte_sum foldr]. unfold byte_sum in *. lia.
  - destruct x as [|x1 x]; cbn [app] in He; [injection He as <- <-|injection He as <- He].
    + exists (Z_of_byte b - Z_of_byte c). cbn [app unescape]. rewrite decide_False, unescape_escape by done.
      cbn [byte_sum foldr]. split; [unfold byte_sum; lia|]. split; [|lia]. intros E. apply Hab, Z_of_byte_inj. lia.
    + destruct (IH x He) as (δ & E & Hδ). exists δ. split; [|done]. cbn [app unescape].
      rewrite decide_False by tauto. cbn [byte_sum foldr]. unfold byte_sum in *. lia.
Qed.
