(* ===== verification/DsmsgClient.v ===== *)
(** * The DSMSG client: framing, handshake and request/response

    [internal/qnxdbg/client.go]. The state of a [Client] is its transport, the
    message id and the program output collected from the text channel. *)

From stdpp Require Import base list numbers.
From Stdlib Require Import ZArith Lia Strings.Byte.
From S2P Require Import Prelude Transport Dsmsg.

Local Open Scope Z_scope.

(** ** Errors

    One constructor per error the package builds. [EFuel] is not an error of
    the code: it marks a loop of the model that ran out of fuel, and is shown
    never to be returned. *)

Inductive handshake_stage := HsReset | HsConnect | HsProtover.

Inductive dbg_error :=
  | EIO                                     (* a read or a write failed *)
  | EEmptyFrame
  | EBadChecksum (got want : byte)
  | EHandshake (st : handshake_stage) (e : dbg_error)
  | EAttach (pid : Z) | EDetach (pid : Z) | EKill (pid : Z)
  | ESelect (pid tid : Z)
  | EReadMemory (addr : Z) | EWriteMemory (addr : Z)
  | EReadRegisters | EWriteRegisters
  | EBreakpoint (addr : Z)
  | EEnv (sub : byte) (why : list byte)
  | ELoad (path why : list byte)
  | EMapInfo (pid : Z) (why : list byte)
  | EHandleSig (why : list byte)
  | ECPUInfo | ETIDNames | EProcInfo (pid : Z) | EPidlist
  | EFuel.

(** ** State *)

Record Client (P : Type) : Type := MkClient {
  c_conn : transport P;
  c_mid : byte;
  c_output : list byte
}.
Arguments MkClient {P}.
Arguments c_conn {P}.
Arguments c_mid {P}.
Arguments c_output {P}.

Section client.
Context {P : Type} `{Peer P}.
Implicit Types c : Client P.

(** A method of the client. *)
Definition D (A : Type) : Type := M dbg_error (Client P) A.

Definition set_conn (t : transport P) c : Client P := MkClient t (c_mid c) (c_output c).
Definition set_mid (m : byte) c : Client P := MkClient (c_conn c) m (c_output c).
Definition set_output (o : list byte) c : Client P := MkClient (c_conn c) (c_mid c) o.
Definition set_rx (r : list byte) c : Client P := set_conn (t_set_rx r (c_conn c)) c.

(** ** Frames *)

Definition writeFrame (payload : list byte) : D unit := λ c,
  let '(ok, t) := t_write (frame payload) (c_conn c) in
  (if ok then inr () else inl EIO, set_conn t c).

(** The first loop of [readFrame]: skip delimiters to the first content byte. *)
Fixpoint skipDelims (rx : list byte) : option (byte * list byte) :=
  match rx with
  | [] => None
  | b :: rx => if decide (b = frameChar) then skipDelims rx else Some (b, rx)
  end.

(** Its second loop: collect bytes up to the closing delimiter. *)
Fixpoint readContent (acc rx : list byte) : option (list byte * list byte) :=
  match rx with
  | [] => None
  | b :: rx => if decide (b = frameChar) then Some (acc, rx) else readContent (acc ++ [b]) rx
  end.

(** The part of [readFrame] after the last byte is in: strip and check. *)
Definition checkContent (cont : list byte) : dbg_error + list byte :=
  let dec := unescape cont in
  match reverse dec with
  | [] => inl EEmptyFrame
  | cs :: rpayload =>
      let payload := reverse rpayload in
      if decide (checksum payload = cs) then inr payload
      else inl (EBadChecksum cs (checksum payload))
  end.

Definition readFrame : D (list byte) := λ c,
  match skipDelims (t_rx (c_conn c)) with
  | None => (inl EIO, set_rx [] c)
  | Some (first, rx) =>
      match readContent [first] rx with
      | None => (inl EIO, set_rx [] c)
      | Some (cont, rx) => (checkContent cont, set_rx rx c)
      end
  end.

(** ** Responses *)

(** The loop of [readResponse]. Every iteration consumes a frame of at least
    two bytes, so the number of unread bytes bounds the iterations. *)
Fixpoint readResponse_loop (fuel : nat) : D (list byte) :=
  match fuel with
  | O => throw EFuel
  | S fuel =>
      p ← readFrame;
      if decide (length p < 4)%nat then readResponse_loop fuel
      else if decide (p !! 3%nat = Some chanText) then
        modify (λ c, set_output (c_output c ++ drop 4 p) c) ≫= λ _,
        readResponse_loop fuel
      else mret p
  end.

Definition readResponse : D (list byte) := λ c,
  readResponse_loop (S (length (t_rx (c_conn c)))) c.

(** [Output]: return and clear the captured program output. *)
Definition Output : D (list byte) := λ c, (inr (c_output c), set_output [] c).

(** ** Requests *)

Definition header (cmd subcmd : byte) (body : list byte) c : list byte :=
  [cmd; subcmd; c_mid c; chanDebug] ++ body.

Definition transactSub (cmd subcmd : byte) (body : list byte) : D (list byte) :=
  modify (λ c, set_mid (byte_add (c_mid c) x01) c) ≫= λ _,
  c ← get_state;
  writeFrame (header cmd subcmd body c) ≫= λ _,
  readResponse.

Definition handshake : D unit :=
  reset ← wrap_err (EHandshake HsReset) readFrame;
  writeFrame reset ≫= λ _,
  modify (set_mid x00) ≫= λ _,
  c ← get_state;
  writeFrame (header cmdConnect x00 [x00; x07; x00; x00] c) ≫= λ _,
  wrap_err (EHandshake HsConnect) readResponse ≫= λ _,
  modify (set_mid x01) ≫= λ _,
  c ← get_state;
  writeFrame (header cmdProtover x00 [x00; x07] c) ≫= λ _,
  wrap_err (EHandshake HsProtover) readResponse ≫= λ _,
  mret ().

Definition Close : D unit := modify (λ c, set_conn (t_close (c_conn c)) c).

(** [newClient]: wrap a connected transport and run the handshake, closing the
    transport when it fails. *)
Definition newClient (t : transport P) : (dbg_error + unit) * Client P :=
  match handshake (MkClient t x00 []) with
  | (inl e, c) => (inl e, set_conn (t_close (c_conn c)) c)
  | r => r
  end.
End client.

(** ** Reply fields *)

Definition respCode (p : list byte) : byte := default x00 (head p).

Definition respBody (p : list byte) : list byte :=
  if decide (length p ≤ 4)%nat then [] else drop 4 p.

Definition le16 (v : Z) : list byte := le_put 2 v.
Definition le32 (v : Z) : list byte := le_put 4 v.
Definition le64 (v : Z) : list byte := le_put 8 v.

(** ** Frame reader facts *)

Lemma skipDelims_run k b r :
  b ≠ frameChar → skipDelims (replicate k frameChar ++ b :: r) = Some (b, r).
Proof.
  intros Hb. induction k as [|k IH]; simpl; [by rewrite decide_False|].
  exact IH.
Qed.

Lemma skipDelims_Some rx b r :
  skipDelims rx = Some (b, r) →
  ∃ k, rx = replicate k frameChar ++ b :: r ∧ b ≠ frameChar.
Proof.
  induction rx as [|c rx IH]; simpl; [done|]. case_decide as Hc.
  - intros (k & -> & Hb)%IH. exists (S k). by subst.
  - intros [= <- <-]. by exists 0%nat.
Qed.

Lemma readContent_run acc l r :
  Forall (λ b, b ≠ frameChar) l →
  readContent acc (l ++ frameChar :: r) = Some (acc ++ l, r).
Proof.
  intros Hl. revert acc. induction Hl as [|b l Hb Hl IH]; intros acc; simpl.
  - by rewrite app_nil_r.
  - rewrite decide_False by done. by rewrite IH, <- app_assoc.
Qed.

Lemma readContent_Some acc rx cont r :
  readContent acc rx = Some (cont, r) →
  ∃ l, Forall (λ b, b ≠ frameChar) l ∧ rx = l ++ frameChar :: r ∧ cont = acc ++ l.
Proof.
  revert acc. induction rx as [|b rx IH]; intros acc; simpl; [done|]. case_decide as Hb.
  - intros [= <- <-]. exists []. by rewrite app_nil_r, Hb.
  - intros (l & Hl & -> & ->)%IH. exists (b :: l). rewrite <- app_assoc. auto.
Qed.

Lemma checkContent_stuffed cont p cs :
  unescape cont = p ++ [cs] →
  checkContent cont =
    if decide (checksum p = cs) then inr p else inl (EBadChecksum cs (checksum p)).
Proof.
  intros E. unfold checkContent. rewrite E, reverse_snoc. simpl.
  by rewrite reverse_involutive.
Qed.

Lemma checkContent_Some cont p :
  checkContent cont = inr p → unescape cont = p ++ [checksum p].
Proof.
  unfold checkContent. intros Hc.
  destruct (reverse (unescape cont)) as [|cs rp] eqn:E; [done|].
  case_decide as Hcs; [|done]. injection Hc as <-.
  rewrite <- (reverse_involutive (unescape cont)), E, reverse_cons. by rewrite Hcs.
Qed.

Section facts.
Context {P : Type} `{Peer P}.
Implicit Types c : Client P.

Lemma set_rx_set_rx r r' c : set_rx r (set_rx r' c) = set_rx r c.
Proof. done. Qed.

Lemma set_rx_id c : set_rx (t_rx (c_conn c)) c = c.
Proof. by destruct c as [[]]. Qed.

Lemma t_rx_set_rx r c : t_rx (c_conn (set_rx r c)) = r.
Proof. done. Qed.

(** Reading delimited content, whatever its checksum. *)
Lemma readFrame_content c k cont rest :
  cont ≠ [] → Forall (λ b, b ≠ frameChar) cont →
  readFrame (set_rx (replicate k frameChar ++ cont ++ frameChar :: rest) c) =
    (checkContent cont, set_rx rest c).
Proof.
  intros Hne Hf. destruct cont as [|b cont]; [done|].
  inversion_clear Hf. unfold readFrame. rewrite t_rx_set_rx. simpl.
  rewrite skipDelims_run by done. by rewrite readContent_run.
Qed.

(** Reading a frame behind a run of delimiters. *)
Lemma readFrame_delims c k p rest :
  readFrame (set_rx (replicate k frameChar ++ content p ++ frameChar :: rest) c) =
    (inr p, set_rx rest c).
Proof.
  rewrite readFrame_content by auto using content_nonempty, content_no_frame.
  rewrite (checkContent_stuffed _ p (checksum p)) by apply unescape_content.
  by rewrite decide_True.
Qed.

Lemma readFrame_head c p rest :
  readFrame (set_rx (frame p ++ rest) c) = (inr p, set_rx rest c).
Proof.
  rewrite frame_content. simpl. rewrite <- app_assoc. apply (readFrame_delims c 1).
Qed.

(** How a frame read ends, with the part of the stream it consumed. *)
Lemma readFrame_cases c :
  match readFrame c with
  | (inl EIO, c') => c' = set_rx [] c
  | (r, c') => ∃ k cont rest,
      t_rx (c_conn c) = replicate k frameChar ++ cont ++ frameChar :: rest ∧
      cont ≠ [] ∧ Forall (λ b, b ≠ frameChar) cont ∧
      r = checkContent cont ∧ c' = set_rx rest c
  end.
Proof.
  unfold readFrame.
  destruct (skipDelims (t_rx (c_conn c))) as [[b r]|] eqn:E1; [|done].
  destruct (readContent [b] r) as [[cont rest]|] eqn:E2; [|done].
  apply skipDelims_Some in E1 as (k & Erx & Hb).
  apply readContent_Some in E2 as (l & Hl & -> & ->).
  assert (∃ k cont rest',
      t_rx (c_conn c) = replicate k frameChar ++ cont ++ frameChar :: rest' ∧
      cont ≠ [] ∧ Forall (λ b, b ≠ frameChar) cont ∧
      checkContent ([b] ++ l) = checkContent cont ∧ set_rx rest c = set_rx rest' c) as Hex.
  { exists k, ([b] ++ l), rest. split_and!; try done. by constructor. }
  assert (checkContent ([b] ++ l) ≠ inl EIO) as Hio.
  { unfold checkContent. destruct (reverse _); [done|]. by case_decide. }
  destruct (checkContent ([b] ++ l)) as [[]|]; done.
Qed.

(** A successful read of a frame shortens the unread stream by two or more. *)
Lemma readFrame_shorter c p c' :
  readFrame c = (inr p, c') → (length (t_rx (c_conn c')) + 2 ≤ length (t_rx (c_conn c)))%nat.
Proof.
  intros Hr. pose proof (readFrame_cases c) as Hc. rewrite Hr in Hc.
  destruct Hc as (k & cont & rest & Erx & Hne & _ & _ & ->).
  rewrite Erx, t_rx_set_rx, !length_app. simpl.
  destruct cont; [done|]. simpl. lia.
Qed.
End facts.

(** C1: Reading back a frame. Whatever precedes it is a run of delimiters, the
    reader returns exactly the payload the encoder was given and leaves the
    stream just after the frame, for every payload (delimiter and escape bytes
    included) and every following bytes. *)
Theorem readFrame_frame {P} `{Peer P} (c : Client P) (k : nat) (p rest : list byte) :
  readFrame (set_rx (replicate k frameChar ++ frame p ++ rest) c) = (inr p, set_rx rest c).
Proof.
  rewrite frame_content. simpl. rewrite <- app_assoc.
  change (frameChar :: ?x) with ([frameChar] ++ x) at 1.
  rewrite app_assoc, <- replicate_S_end. apply (readFrame_delims c (S k)).
Qed.

(** What the frame reader accepts, exactly: a run of delimiters, non-empty
    content without a delimiter, the closing delimiter, where the content
    unstuffs to the returned payload followed by that payload's checksum. *)
Theorem readFrame_accepts {P} `{Peer P} (c c' : Client P) (p : list byte) :
  readFrame c = (inr p, c') ↔
  ∃ k cont rest,
    t_rx (c_conn c) = replicate k frameChar ++ cont ++ frameChar :: rest ∧
    cont ≠ [] ∧ Forall (λ b, b ≠ frameChar) cont ∧
    unescape cont = p ++ [checksum p] ∧ c' = set_rx rest c.
Proof.
  split.
  - intros Hr. pose proof (readFrame_cases c) as Hc. rewrite Hr in Hc.
    destruct Hc as (k & cont & rest & Erx & Hne & Hf & Hck & ->).
    exists k, cont, rest. split_and!; auto. by apply checkContent_Some.
  - intros (k & cont & rest & Erx & Hne & Hf & Hu & ->).
    rewrite <- (set_rx_id c) at 1. rewrite Erx, readFrame_content by done.
    rewrite (checkContent_stuffed _ p (checksum p)) by done. by rewrite decide_True.
Qed.

(** C2: A byte changed on the wire is detected. When any one byte between the
    delimiters of a frame (payload, check byte, an escape byte or the byte
    behind one) arrives as another that is neither delimiter nor escape byte,
    and not as a space in place of an escape byte, the reader reports a
    checksum error with the two checksums that differ, after consuming exactly
    that frame, so the stream stays synchronised on the next one. *)
Theorem readFrame_detects_corruption {P} `{Peer P} (c : Client P) p x a y b rest :
  content p = x ++ a :: y → a ≠ b → b ≠ frameChar → b ≠ escChar → (a = escChar → b ≠ x20) →
  ∃ got want, got ≠ want ∧
    readFrame (set_rx (frameChar :: (x ++ b :: y) ++ frameChar :: rest) c) =
      (inl (EBadChecksum got want), set_rx rest c).
Proof.
  intros Hc Hab Hf He Hsp.
  assert (Forall (λ c, c ≠ frameChar) (x ++ b :: y)) as Hfree.
  { pose proof (content_no_frame p) as Hn. rewrite Hc in Hn. apply Forall_app in Hn as [Hx Hy].
    inversion_clear Hy. apply Forall_app. split; [done|]. by constructor. }
  destruct (byte_sum_replaced _ x a y b Hc Hab He Hsp) as (δ & Hsum & Hδ & Hr).
  destruct (exists_last (l := unescape (x ++ b :: y))) as (got & cs & E);
    [apply unescape_nonempty; by destruct x|].
  assert (checksum got ≠ cs) as Hbad.
  { rewrite checksum_valid, <- E, Hsum. pose proof (proj1 (checksum_valid p (checksum p)) eq_refl) as Hv.
    intros Hv'. pose proof (Z.div_mod (byte_sum (p ++ [checksum p])) 256 ltac:(lia)).
    pose proof (Z.div_mod (byte_sum (p ++ [checksum p]) + δ) 256 ltac:(lia)). lia. }
  exists cs, (checksum got). split; [done|]. change (frameChar :: ?z) with (replicate 1 frameChar ++ z) at 1.
  rewrite readFrame_content by (done || by destruct x).
  by rewrite (checkContent_stuffed _ got cs), decide_False.
Qed.

(** The exception is real: a frame that carries the delimiter as its payload,
    with a space in place of the escape byte, is accepted as another. *)
Lemma readFrame_space_for_escape {P} `{Peer P} (c : Client P) :
  frame [frameChar] = [frameChar; escChar; x5e; x81; frameChar] ∧
  readFrame (set_rx [frameChar; x20; x5e; x81; frameChar] c) = (inr [x20; x5e], set_rx [] c).
Proof. done. Qed.

(** ** Response loop facts *)

(** The frames [readResponse] passes over. *)
Definition isControl (p : list byte) : bool := bool_decide (length p < 4)%nat.
Definition isText (p : list byte) : bool :=
  negb (isControl p) && bool_decide (p !! 3%nat = Some chanText).
Definition isReply (p : list byte) : bool := negb (isControl p) && negb (isText p).

(** The program output carried by a sequence of messages. *)
Definition textOf (ps : list (list byte)) : list byte :=
  concat ((λ p, if isText p then drop 4 p else []) <$> ps).

Definition frames (ps : list (list byte)) : list byte := concat (frame <$> ps).

Lemma frames_app ps qs : frames (ps ++ qs) = frames ps ++ frames qs.
Proof. unfold frames. by rewrite fmap_app, concat_app. Qed.

Lemma length_frame p : (3 ≤ length (frame p))%nat.
Proof.
  rewrite frame_content. simpl. rewrite length_app. simpl.
  pose proof (content_nonempty p). destruct (content p); [done|]. simpl. lia.
Qed.

Section responses.
Context {P : Type} `{Peer P}.
Implicit Types c : Client P.

(** One iteration of the loop, by the kind of the frame at the head. *)
Lemma readResponse_loop_head c fuel p rest :
  readResponse_loop (S fuel) (set_rx (frame p ++ rest) c) =
    if isReply p then (inr p, set_rx rest c)
    else readResponse_loop fuel
           (set_output (c_output c ++ textOf [p]) (set_rx rest c)).
Proof.
  unfold isReply, isText, isControl, textOf. cbn [readResponse_loop].
  step_ok (readFrame_head c p rest). simpl. rewrite app_nil_r.
  unfold isText, isControl.
  case_decide as H1; [|case_decide as H2].
  - rewrite bool_decide_eq_true_2 by done. simpl. rewrite app_nil_r. by destruct c as [[]].
  - rewrite bool_decide_eq_false_2, bool_decide_eq_true_2 by done. done.
  - by rewrite !bool_decide_eq_false_2.
Qed.

Lemma readResponse_loop_nil c fuel :
  readResponse_loop (S fuel) (set_rx [] c) = (inl EIO, set_rx [] c).
Proof. done. Qed.

Lemma readResponse_loop_frames c fuel ps p rest :
  Forall (λ q, isReply q = false) ps → isReply p = true → (length ps < fuel)%nat →
  readResponse_loop fuel (set_rx (frames ps ++ frame p ++ rest) c) =
    (inr p, set_output (c_output c ++ textOf ps) (set_rx rest c)).
Proof.
  intros Hps Hp. revert c fuel. induction Hps as [|q ps Hq Hps IH]; intros c [|fuel] Hf;
    simpl in Hf; try lia.
  - change (frames [] ++ ?x) with x. rewrite readResponse_loop_head, Hp.
    unfold textOf. simpl. rewrite app_nil_r. by destruct c as [[]].
  - change (frames (q :: ps)) with (frame q ++ frames ps).
    rewrite <- app_assoc, readResponse_loop_head, Hq.
    change (set_output ?o (set_rx ?r c)) with (set_rx r (set_output o c)).
    rewrite IH by lia. unfold textOf. simpl. rewrite app_nil_r, <- app_assoc. done.
Qed.

Lemma readResponse_loop_all_skipped c fuel ps :
  Forall (λ q, isReply q = false) ps → (length ps < fuel)%nat →
  readResponse_loop fuel (set_rx (frames ps) c) =
    (inl EIO, set_output (c_output c ++ textOf ps) (set_rx [] c)).
Proof.
  intros Hps. revert c fuel. induction Hps as [|q ps Hq Hps IH]; intros c [|fuel] Hf;
    simpl in Hf; try lia.
  - change (frames []) with (@nil byte). rewrite readResponse_loop_nil.
    unfold textOf. simpl. rewrite app_nil_r. by destruct c as [[]].
  - change (frames (q :: ps)) with (frame q ++ frames ps).
    rewrite readResponse_loop_head, Hq.
    change (set_output ?o (set_rx ?r c)) with (set_rx r (set_output o c)).
    rewrite IH by lia. unfold textOf. simpl. rewrite app_nil_r, <- app_assoc. done.
Qed.

Lemma length_frames ps : (length ps ≤ length (frames ps))%nat.
Proof.
  induction ps as [|p ps IH]; [done|]. change (frames (p :: ps)) with (frame p ++ frames ps).
  rewrite length_app. simpl. pose proof (length_frame p). lia.
Qed.

Lemma readResponse_loop_fuel c fuel :
  (length (t_rx (c_conn c)) < fuel)%nat → fst (readResponse_loop fuel c) ≠ inl EFuel.
Proof.
  revert c. induction fuel as [|fuel IH]; intros c Hf; [lia|]. cbn [readResponse_loop].
  destruct (readFrame c) as [[e|p] c'] eqn:E.
  - step_err E. simpl. intros [= ->].
    pose proof (readFrame_cases c) as Hc. rewrite E in Hc.
    destruct Hc as (? & cont & ? & _ & _ & _ & Hck & _).
    unfold checkContent in Hck. destruct (reverse _); [done|]. by case_decide.
  - step_ok E. apply readFrame_shorter in E.
    case_decide; [apply IH; lia|]. case_decide; [|done].
    unfold mbind, M_bind, modify. apply IH. simpl. lia.
Qed.
End responses.

(** C3: The response loop. Over control frames and text frames in any number
    and order, [readResponse] returns the first real reply, leaves the stream
    just behind it, and appends to the captured output exactly the text
    payloads it passed, in order; nothing of the debuggee's output can be
    taken for a debug reply. *)
Theorem readResponse_first_reply {P} `{Peer P} (c : Client P) ps p rest :
  Forall (λ q, isReply q = false) ps → isReply p = true →
  readResponse (set_rx (frames ps ++ frame p ++ rest) c) =
    (inr p, set_output (c_output c ++ textOf ps) (set_rx rest c)).
Proof.
  intros Hps Hp. unfold readResponse. apply readResponse_loop_frames; [done..|].
  rewrite t_rx_set_rx, length_app. pose proof (length_frames ps). lia.
Qed.

(** The frames read on the way from one state to another, none a reply. *)
Inductive skips {P} `{Peer P} : list (list byte) → Client P → Client P → Prop :=
  | skips_nil c : skips [] c c
  | skips_frame p ps c c1 c2 :
      readFrame c = (inr p, c1) → isReply p = false → skips ps c1 c2 → skips (p :: ps) c c2.

Lemma readFrame_output {P} `{Peer P} (c : Client P) o :
  readFrame (set_output o c) = (fst (readFrame c), set_output o (snd (readFrame c))).
Proof.
  unfold readFrame. cbn [set_output c_conn]. destruct (skipDelims _) as [[b rx]|]; [|done].
  by destruct (readContent [b] rx) as [[cont rest]|].
Qed.

(** One round of the loop, by what is read. *)
Lemma readResponse_loop_round {P} `{Peer P} (c : Client P) fuel :
  readResponse_loop (S fuel) c =
    match readFrame c with
    | (inl e, c1) => (inl e, c1)
    | (inr p, c1) =>
        if isReply p then (inr p, c1) else readResponse_loop fuel (set_output (c_output c1 ++ textOf [p]) c1)
    end.
Proof.
  cbn [readResponse_loop]. destruct (readFrame c) as [[e|p] c1] eqn:E; [by step_err E|]. step_ok E.
  unfold isReply, textOf. simpl. unfold isText, isControl. rewrite app_nil_r.
  case_decide as H1; [|case_decide as H2].
  - rewrite bool_decide_eq_true_2 by done. simpl. rewrite app_nil_r. by destruct c1.
  - by rewrite bool_decide_eq_false_2, bool_decide_eq_true_2.
  - by rewrite !bool_decide_eq_false_2.
Qed.

Lemma textOf_app ps qs : textOf (ps ++ qs) = textOf ps ++ textOf qs.
Proof. unfold textOf. by rewrite fmap_app, concat_app. Qed.

Lemma readResponse_loop_outcome {P} `{Peer P} (c : Client P) fuel :
  (length (t_rx (c_conn c)) < fuel)%nat →
  ∃ ps c1, skips ps c c1 ∧ (2 * length ps + length (t_rx (c_conn c1)) <= length (t_rx (c_conn c)))%nat ∧
    let '(r, c2) := readFrame c1 in
    (∀ p, r = inr p → isReply p = true) ∧
    ∀ o, readResponse_loop fuel (set_output o c) = (r, set_output (o ++ textOf ps) c2).
Proof.
  revert c. induction fuel as [|fuel IH]; intros c Hf; [lia|].
  destruct (readFrame c) as [r c1] eqn:E.
  assert (∀ o, readFrame (set_output o c) = (r, set_output o c1)) as Ho by (intros o; by rewrite readFrame_output, E).
  destruct (match r with inr p => isReply p | inl _ => true end) eqn:Hr.
  - exists [], c. split; [constructor|]. split; [simpl; lia|]. rewrite E. split; [by intros p ->|].
    intros o. rewrite readResponse_loop_round, Ho, app_nil_r. destruct r; by rewrite ?Hr.
  - destruct r as [e|p]; [done|]. pose proof (readFrame_shorter _ _ _ E) as Hs.
    destruct (IH c1) as (ps & c2 & Hps & Hlen & Hres); [lia|]. exists (p :: ps), c2.
    split; [by econstructor|]. split; [simpl; lia|]. destruct (readFrame c2) as [r' c3].
    destruct Hres as [Hrep Hres]. split; [done|]. intros o. rewrite readResponse_loop_round, Ho, Hr.
    change (set_output ?x (set_output o c1)) with (set_output x c1). rewrite Hres. cbn [c_output set_output].
    change (p :: ps) with ([p] ++ ps). by rewrite textOf_app, app_assoc.
Qed.

(** C35: The response loop returns, with the first frame that is a reply or
    with the error that the reader met before one. The unread stream is what
    the far end has sent so far, up to the read that fails at its end: a far end
    that sends text for ever keeps the loop going for ever. On every such stream
    there are frames, none of them a reply and at most half as many as there
    are unread bytes, after which the next read decides: what [readResponse]
    returns is what that read returns, a reply when it succeeds, the stream is
    where that read leaves it, and exactly the text of the frames passed over
    is added to the output. *)
Theorem readResponse_outcome {P} `{Peer P} (c : Client P) :
  ∃ ps c1, skips ps c c1 ∧ (2 * length ps <= length (t_rx (c_conn c)))%nat ∧
    let '(r, c2) := readFrame c1 in
    readResponse c = (r, set_output (c_output c ++ textOf ps) c2) ∧
    match r with inr p => isReply p = true | inl e => e ≠ EFuel end.
Proof.
  destruct (readResponse_loop_outcome c (S (length (t_rx (c_conn c)))) ltac:(lia)) as (ps & c1 & Hps & Hlen & Hres).
  exists ps, c1. split; [done|]. split; [lia|].
  pose proof (readResponse_loop_fuel c (S (length (t_rx (c_conn c)))) ltac:(lia)) as Hfuel.
  destruct (readFrame c1) as [r c2]. destruct Hres as [Hrep Hres]. specialize (Hres (c_output c)).
  assert (set_output (c_output c) c = c) as Ec by (by destruct c). rewrite Ec in Hres. split; [exact Hres|].
  rewrite Hres in Hfuel. destruct r; [by intros ->|by apply Hrep].
Qed.

(** ** What a client puts on the wire *)

(** The parts of the state that reading leaves alone. *)
Definition same_writes {P} (c c' : Client P) : Prop :=
  c_mid c' = c_mid c ∧ t_tx (c_conn c') = t_tx (c_conn c) ∧
  t_peer (c_conn c') = t_peer (c_conn c) ∧ t_open (c_conn c') = t_open (c_conn c).

#[export] Instance same_writes_preorder {P} : PreOrder (same_writes (P := P)).
Proof. split; unfold same_writes; [by intros c | intros ? ? ?; intuition congruence]. Qed.

Section wire.
Context {P : Type} `{Peer P}.
Implicit Types c : Client P.

Lemma readFrame_same_writes c : same_writes c (snd (readFrame c)).
Proof.
  unfold readFrame. destruct (skipDelims _) as [[b r]|]; [|done].
  by destruct (readContent [b] r) as [[]|].
Qed.

Lemma readResponse_loop_same_writes fuel c : same_writes c (snd (readResponse_loop fuel c)).
Proof.
  revert c. induction fuel as [|fuel IH]; intros c; [done|]. cbn [readResponse_loop].
  pose proof (readFrame_same_writes c) as Hs.
  destruct (readFrame c) as [[e|p] c'] eqn:E; [step_err E; done|]. step_ok E. simpl in Hs.
  etrans; [exact Hs|]. case_decide; [apply IH|]. case_decide; [|done].
  unfold mbind, M_bind, modify. etrans; [|apply IH]. done.
Qed.

Lemma readResponse_same_writes c : same_writes c (snd (readResponse c)).
Proof. apply readResponse_loop_same_writes. Qed.

(** A frame goes out whole, or the write fails and nothing is recorded. *)
Lemma writeFrame_cases p c :
  let '(r, c') := writeFrame p c in
  c_mid c' = c_mid c ∧
  match r with
  | inr _ => t_tx (c_conn c') = t_tx (c_conn c) ++ [frame p]
  | inl e => e = EIO ∧ t_tx (c_conn c') = t_tx (c_conn c)
  end.
Proof.
  unfold writeFrame. destruct (t_write (frame p) (c_conn c)) as [ok t] eqn:E.
  apply t_write_extends in E as [_ Etx]. by destruct ok.
Qed.
End wire.

(** The two messages of the connect handshake. *)
Definition connectMsg : list byte := [x00; x00; x00; x01; x00; x07; x00; x00].
Definition protoverMsg : list byte := [x17; x00; x01; x01; x00; x07].

(** One request per transaction. Against any peer, [transactSub] advances
    the 8-bit message id by one (255 wraps to 0) and writes exactly one frame,
    whose header carries that id and the debug channel; when nothing was
    written it reports the I/O error. *)
Theorem transactSub_one_request {P} `{Peer P} (c : Client P) cmd sub body :
  let '(r, c') := transactSub cmd sub body c in
  let mid := byte_of_Z (Z_of_byte (c_mid c) + 1) in
  c_mid c' = mid ∧
  (t_tx (c_conn c') = t_tx (c_conn c) ++ [frame ([cmd; sub; mid; chanDebug] ++ body)] ∨
   r = inl EIO ∧ t_tx (c_conn c') = t_tx (c_conn c)).
Proof.
  destruct (transactSub cmd sub body c) as [r c'] eqn:E.
  set (mid := byte_of_Z (Z_of_byte (c_mid c) + 1)). cbv zeta.
  set (c0 := set_mid mid c).
  change (transactSub cmd sub body c)
    with ((writeFrame ([cmd; sub; mid; chanDebug] ++ body) ≫= λ _, readResponse) c0) in E.
  pose proof (writeFrame_cases ([cmd; sub; mid; chanDebug] ++ body) c0) as Hw.
  destruct (writeFrame _ c0) as [[e|[]] c1] eqn:Ew.
  - rewrite (bind_err _ _ _ _ _ Ew) in E. injection E as <- <-.
    destruct Hw as (? & -> & ?). auto.
  - rewrite (bind_ok _ _ _ _ _ Ew) in E.
    pose proof (readResponse_same_writes c1) as Hs. rewrite E in Hs.
    destruct Hs as (Hm & Htx & _). destruct Hw as [Hwm Hwt]. simpl in *.
    rewrite Hm, Htx. auto.
Qed.

(** The connect handshake. Against any peer a successful handshake has
    read a frame, echoed it, and then sent exactly the Connect and the Protover
    message, ending with message id 1; a failed one has sent a prefix of
    those three frames. *)
Theorem handshake_protocol {P} `{Peer P} (c : Client P) :
  let '(r, c') := handshake c in
  match r with
  | inr _ => ∃ reset c1,
      readFrame c = (inr reset, c1) ∧ c_mid c' = x01 ∧
      t_tx (c_conn c') =
        t_tx (c_conn c) ++ [frame reset; frame connectMsg; frame protoverMsg]
  | inl _ => ∃ reset (k : nat), (k ≤ 3)%nat ∧
      t_tx (c_conn c') =
        t_tx (c_conn c) ++ take k [frame reset; frame connectMsg; frame protoverMsg]
  end.
Proof.
  unfold handshake, wrap_err, modify, get_state, mret, M_ret, mbind, M_bind.
  pose proof (readFrame_same_writes c) as (_ & H1 & _).
  destruct (readFrame c) as [[e|reset] c1] eqn:E1; simpl in H1.
  { exists [], 0%nat. rewrite H1. simpl. rewrite app_nil_r. auto with lia. }
  pose proof (writeFrame_cases reset c1) as H2.
  destruct (writeFrame reset c1) as [[e|[]] c2].
  { destruct H2 as (_ & _ & H2). exists [], 0%nat. rewrite H2, H1. simpl. rewrite app_nil_r. auto with lia. }
  destruct H2 as (_ & H2).
  set (c3 := set_mid x00 c2). change (header cmdConnect _ _ c3) with connectMsg.
  pose proof (writeFrame_cases connectMsg c3) as H3.
  destruct (writeFrame connectMsg c3) as [[e|[]] c4].
  { destruct H3 as (_ & _ & H3). exists reset, 1%nat. rewrite H3. simpl. rewrite H2, H1. auto with lia. }
  destruct H3 as (_ & H3).
  pose proof (readResponse_same_writes c4) as (_ & H4 & _).
  destruct (readResponse c4) as [[e|p1] c5]; simpl in H4.
  { exists reset, 2%nat. rewrite H4, H3. simpl. rewrite H2, H1, <- app_assoc. auto with lia. }
  set (c6 := set_mid x01 c5). change (header cmdProtover _ _ c6) with protoverMsg.
  pose proof (writeFrame_cases protoverMsg c6) as H5.
  destruct (writeFrame protoverMsg c6) as [[e|[]] c7].
  { destruct H5 as (_ & _ & H5). exists reset, 2%nat. rewrite H5. simpl.
    rewrite H4, H3. simpl. rewrite H2, H1, <- app_assoc. auto with lia. }
  destruct H5 as (H5m & H5).
  pose proof (readResponse_same_writes c7) as (H6m & H6 & _).
  destruct (readResponse c7) as [[e|p2] c8]; simpl in H6, H6m.
  - exists reset, 3%nat. rewrite H6, H5. simpl. rewrite H4, H3. simpl.
    rewrite H2, H1, <- !app_assoc. auto with lia.
  - exists reset, c1. rewrite H6m, H5m, H6, H5. simpl. rewrite H4, H3. simpl.
    by rewrite H2, H1, <- !app_assoc.
Qed.
