(* ===== verification/DsmsgLink.v ===== *)
(** * From bytes to messages

    The commands of [internal/qnxdbg/commands.go] use a client only through
    [transactSub] and [readResponse]; class [Link] is that interface. It has
    two implementations here: the byte-level [Client] of [DsmsgClient], and
    the message-level [session] of this file, in which the target is a function
    from request payloads to reply payloads. Class [DsmsgTarget] says when a
    peer speaks the protocol (one reaction of whole frames per whole frame),
    and the refinement below shows that over such a peer the byte-level client
    computes exactly what the message-level one does. Command theorems are then
    proved on messages and transported to bytes. *)

From stdpp Require Import base list numbers.
From Stdlib Require Import ZArith Lia Strings.Byte.
From S2P Require Import Prelude Transport Dsmsg DsmsgClient.

Local Open Scope Z_scope.

Class Link (S : Type) : Type := {
  link_transactSub : byte → byte → list byte → M dbg_error S (list byte);
  link_readResponse : M dbg_error S (list byte)
}.

(** [transact]: subcommand 0. *)
Definition transact {S} `{Link S} (cmd : byte) (body : list byte) : M dbg_error S (list byte) :=
  link_transactSub cmd x00 body.

#[export] Instance client_link {P} `{Peer P} : Link (Client P) := {
  link_transactSub := transactSub;
  link_readResponse := readResponse
}.

(** ** Targets that speak DSMSG *)

Class DsmsgTarget (P : Type) `{Peer P} : Type := {
  (** the target waits for the start of a frame *)
  tgt_ready : P → Prop;
  (** the messages it answers to one request *)
  tgt_handle : P → list byte → list (list byte) * P;
  tgt_write_frame s p :
    tgt_ready s →
    peer_write s (frame p) = (true, frames (fst (tgt_handle s p)), snd (tgt_handle s p));
  tgt_handle_ready s p : tgt_ready s → tgt_ready (snd (tgt_handle s p))
}.

(** ** The message-level client *)

Record session (P : Type) : Type := Session {
  s_peer : P;
  s_inbox : list (list byte);   (* messages received, not read yet *)
  s_sent : list (list byte);    (* history of the requests *)
  s_mid : byte;
  s_output : list byte
}.
Arguments Session {P}.
Arguments s_peer {P}.
Arguments s_inbox {P}.
Arguments s_sent {P}.
Arguments s_mid {P}.
Arguments s_output {P}.

(** The first reply of a list of messages, what follows it, and the output with
    the text before it. *)
Fixpoint recv (inbox : list (list byte)) (out : list byte)
  : option (list byte) * list (list byte) * list byte :=
  match inbox with
  | [] => (None, [], out)
  | p :: ps => if isReply p then (Some p, ps, out) else recv ps (out ++ textOf [p])
  end.

Lemma recv_reply p ps out : isReply p = true → recv (p :: ps) out = (Some p, ps, out).
Proof. simpl. by intros ->. Qed.

Lemma recv_split inbox out :
  match recv inbox out with
  | (Some p, ps, out') => ∃ skipped,
      inbox = skipped ++ p :: ps ∧ Forall (λ q, isReply q = false) skipped ∧
      isReply p = true ∧ out' = out ++ textOf skipped
  | (None, ps, out') => ps = [] ∧
      Forall (λ q, isReply q = false) inbox ∧ out' = out ++ textOf inbox
  end.
Proof.
  revert out. induction inbox as [|p inbox IH]; intros out; simpl.
  - unfold textOf. simpl. by rewrite app_nil_r.
  - destruct (isReply p) eqn:Hp.
    + exists []. unfold textOf. simpl. by rewrite app_nil_r.
    + specialize (IH (out ++ textOf [p])).
      assert (∀ l, textOf (p :: l) = textOf [p] ++ textOf l) as Hcons.
      { intros l. unfold textOf. simpl. by rewrite app_nil_r. }
      destruct (recv inbox _) as [[[q|] ps] out'].
      * destruct IH as (sk & -> & Hsk & Hq & ->). exists (p :: sk).
        rewrite (Hcons sk), app_assoc. auto.
      * destruct IH as (-> & Hall & ->). rewrite (Hcons inbox), app_assoc. auto.
Qed.

Section session.
Context {P : Type} `{DsmsgTarget P}.
Implicit Types s : session P.

Definition msg_readResponse : M dbg_error (session P) (list byte) := λ s,
  let '(r, inbox, out) := recv (s_inbox s) (s_output s) in
  (match r with Some p => inr p | None => inl EIO end,
   Session (s_peer s) inbox (s_sent s) (s_mid s) out).

(** Deliver one message to the target. *)
Definition msg_send (p : list byte) s : session P :=
  let '(outs, peer) := tgt_handle (s_peer s) p in
  Session peer (s_inbox s ++ outs) (s_sent s ++ [p]) (s_mid s) (s_output s).

Definition msg_transactSub (cmd subcmd : byte) (body : list byte)
  : M dbg_error (session P) (list byte) := λ s,
  let mid := byte_add (s_mid s) x01 in
  msg_readResponse
    (msg_send ([cmd; subcmd; mid; chanDebug] ++ body)
       (Session (s_peer s) (s_inbox s) (s_sent s) mid (s_output s))).

#[export] Instance session_link : Link (session P) := {
  link_transactSub := msg_transactSub;
  link_readResponse := msg_readResponse
}.

(** ** Refinement *)

(** The byte-level client that a message-level one stands for. *)
Definition client_of s : Client P :=
  MkClient (Transport (s_peer s) (frames (s_inbox s)) (frame <$> s_sent s) true)
    (s_mid s) (s_output s).

(** [m] on bytes computes what [am] does on messages: same result, and final
    states that correspond again. *)
Definition refines {A} (m : M dbg_error (Client P) A) (am : M dbg_error (session P) A) : Prop :=
  ∀ s, tgt_ready (s_peer s) →
    m (client_of s) = (fst (am s), client_of (snd (am s))) ∧
    tgt_ready (s_peer (snd (am s))).

Lemma refines_ret {A} (a : A) : refines (mret a) (mret a).
Proof. by intros s Hr. Qed.

Lemma refines_throw {A} (e : dbg_error) : refines (A := A) (throw e) (throw e).
Proof. by intros s Hr. Qed.

Lemma refines_bind {A B} m am (f : A → M _ _ B) af :
  refines m am → (∀ a, refines (f a) (af a)) → refines (m ≫= f) (am ≫= af).
Proof.
  intros Hm Hf s Hr. destruct (Hm s Hr) as [E Hr'].
  unfold mbind, M_bind. rewrite E.
  destruct (am s) as [[e|a] s']; simpl in *; [done|]. by apply Hf.
Qed.

Lemma refines_attempt {A} (m : M _ _ A) am :
  refines m am → refines (attempt m) (attempt am).
Proof.
  intros Hm s Hr. destruct (Hm s Hr) as [E Hr']. unfold attempt. rewrite E.
  by destruct (am s).
Qed.

Lemma refines_range_do {A} (f : A → M _ _ unit) af xs :
  (∀ a, refines (f a) (af a)) → refines (range_do f xs) (range_do af xs).
Proof.
  intros Hf. induction xs as [|x xs IH]; [apply refines_ret|].
  apply refines_bind; auto.
Qed.

Lemma refines_readResponse : refines readResponse msg_readResponse.
Proof.
  intros s Hr. unfold msg_readResponse.
  pose proof (recv_split (s_inbox s) (s_output s)) as Hs.
  destruct (recv _ _) as [[[p|] ps] out'].
  - destruct Hs as (sk & Ein & Hsk & Hp & ->). split; [|done].
    unfold client_of at 1. rewrite Ein, frames_app.
    change (frames (p :: ps)) with (frame p ++ frames ps).
    set (c0 := MkClient _ _ _).
    change c0 with (set_rx (frames sk ++ frame p ++ frames ps) c0).
    unfold readResponse. rewrite t_rx_set_rx, readResponse_loop_frames; [done..|].
    rewrite length_app. pose proof (length_frames sk). lia.
  - destruct Hs as (-> & Hall & ->). split; [|done].
    set (c0 := client_of s). change c0 with (set_rx (frames (s_inbox s)) c0) at 1.
    unfold readResponse. rewrite t_rx_set_rx, readResponse_loop_all_skipped; [done..|].
    pose proof (length_frames (s_inbox s)). lia.
Qed.

(** Writing a frame is delivering a message. *)
Lemma writeFrame_client_of p s :
  tgt_ready (s_peer s) →
  writeFrame p (client_of s) = (inr (), client_of (msg_send p s)) ∧
  tgt_ready (s_peer (msg_send p s)).
Proof.
  intros Hr. unfold writeFrame, msg_send.
  pose proof (tgt_handle_ready (s_peer s) p Hr).
  rewrite (t_write_run _ (c_conn (client_of s)) _ _ _ eq_refl (tgt_write_frame _ p Hr)).
  destruct (tgt_handle (s_peer s) p) as [outs q]; simpl in *. split; [|done].
  unfold client_of, set_conn. simpl. by rewrite frames_app, fmap_app.
Qed.

Lemma refines_transactSub cmd subcmd body :
  refines (transactSub cmd subcmd body) (msg_transactSub cmd subcmd body).
Proof.
  intros s Hr. unfold msg_transactSub.
  set (mid := byte_add (s_mid s) x01).
  set (s1 := Session (s_peer s) (s_inbox s) (s_sent s) mid (s_output s)).
  change (transactSub cmd subcmd body (client_of s))
    with ((writeFrame (header cmd subcmd body (client_of s1)) ≫= λ _, readResponse) (client_of s1)).
  change (header cmd subcmd body (client_of s1)) with ([cmd; subcmd; mid; chanDebug] ++ body).
  destruct (writeFrame_client_of ([cmd; subcmd; mid; chanDebug] ++ body) s1 Hr) as [E Hr'].
  step_ok E. apply refines_readResponse, Hr'.
Qed.
End session.

Create HintDb dsmsg_refine.
#[export] Hint Resolve refines_ret refines_throw refines_readResponse refines_transactSub
  refines_range_do : dsmsg_refine.

(** Prove that a command refines itself across the two links. *)
Ltac refine_cmd :=
  repeat first
    [ progress intros
    | apply refines_bind
    | apply refines_attempt
    | match goal with
      | |- refines (if ?b then _ else _) _ => destruct b
      | |- refines (match ?x with _ => _ end) _ => destruct x
      end
    | solve [auto with dsmsg_refine] ].
