(* ===== verification/DsmsgCommands.v ===== *)
(** * DSMSG commands

    [internal/qnxdbg/commands.go], every method of the client, written against
    the [Link] interface. A Go method returning [(value, error)] with a value
    that is meaningful next to an error ([ReadMemory], [WriteMemory]) returns
    the pair; the others return the value or the error. *)

From stdpp Require Import base list numbers strings.
From Stdlib Require Import ZArith Lia Strings.Byte.
From S2P Require Import Prelude GoStrconv Transport Dsmsg DsmsgClient DsmsgLink.

Local Open Scope Z_scope.

(** ** Constants and results *)

Definition maxChunk : Z := 0x400.

Definition brkTypeExec : byte := x01.
Definition brkTypeRD : byte := x02.
Definition brkTypeWR : byte := x04.
Definition brkTypeRW : byte := x06.

Definition runContinue : byte := x00.
Definition runStep : byte := x01.

Definition envSetArgv : byte := x01.
Definition envResetEnv : byte := x02.
Definition envSetEnv : byte := x03.
Definition envResetArgv : byte := x00.

Definition NumSignals : nat := 72.

Record Stop := MkStop { st_code : byte; st_pid : Z; st_tid : Z; st_raw : list byte }.

Record ProcessList := MkProcessList { pl_pid : Z; pl_tid : Z; pl_raw : list byte }.

Record LaunchResult := MkLaunchResult { lr_pid : Z; lr_tid : Z }.

Record MapSegment := MkMapSegment { ms_vaddr : Z; ms_size : Z }.

Definition defaultLaunchEnv : list (list byte) :=
  [str "PATH=/proc/boot:/system/bin"; str "HOME=/"; str "LD_BIND_NOW=1"].

(** [b[lo:hi]]. *)
Definition slice (lo hi : nat) (b : list byte) : list byte := take (hi - lo) (drop lo b).

Definition errnoString (b : list byte) : list byte :=
  if decide (length b < 4)%nat then str "target error"
  else
    let n := le_get (take 4 b) in
    if n =? 2 then str "ENOENT (no such file or directory on the target)"
    else if n =? 8 then str "ENOEXEC (not an executable)"
    else if n =? 13 then str "EACCES (permission denied)"
    else if n =? 22 then str "EINVAL (invalid argument)"
    else str "target errno " ++ fmt_d n.

(** The pid and tid at the head of a notification or process-list body:
    four little-endian bytes each, zero when the body is shorter. *)
Definition pidTid (b : list byte) : Z * Z :=
  if decide (8 ≤ length b)%nat then (le_get (slice 0 4 b), le_get (slice 4 8 b)) else (0, 0).

Definition runMsg (flags tid : Z) : list byte := le32 flags ++ le32 tid ++ zeros 12.

Section commands.
Context {S : Type} `{Link S}.

Definition C (A : Type) : Type := M dbg_error S A.

(** [if respCode(p) == respErr { return err }]. *)
Definition orTargetError (p : list byte) (e : dbg_error) : C unit :=
  if decide (respCode p = respErr) then throw e else mret ().

(** ** Process control *)

Definition Attach (pid : Z) : C unit :=
  p ← transact cmdAttach (le32 (u32 pid)); orTargetError p (EAttach pid).

Definition Detach (pid : Z) : C unit :=
  p ← transact cmdDetach (le32 (u32 pid)); orTargetError p (EDetach pid).

Definition Kill (pid : Z) : C unit :=
  p ← transact cmdKill (le32 (u32 pid)); orTargetError p (EKill pid).

Definition Select (pid tid : Z) : C unit :=
  p ← transact cmdSelect (le32 (u32 pid) ++ le32 (u32 tid));
  orTargetError p (ESelect pid tid).

(** ** Memory *)

Definition memrdBody (addr want : Z) : list byte :=
  zeros 4 ++ le64 addr ++ le16 (u16 want) ++ zeros 6.

Fixpoint ReadMemory_loop (fuel : nat) (addr n : Z) (out : list byte)
  : C (list byte * option dbg_error) :=
  match fuel with
  | O => mret (out, Some EFuel)
  | Datatypes.S fuel =>
      let len := Z.of_nat (length out) in
      if len <? n then
        let want := if maxChunk <? n - len then maxChunk else n - len in
        r ← attempt (transact cmdMemrd (memrdBody (u64 (addr + len)) want));
        match r with
        | inl e => mret (out, Some e)
        | inr p =>
            if decide (respCode p = respErr) then
              if 0 <? len then mret (out, None)
              else mret ([], Some (EReadMemory addr))
            else
              let data := respBody p in
              if decide (data = []) then mret (out, None)
              else
                let data := take (Z.to_nat want) data in
                if Z.of_nat (length data) <? want then mret (out ++ data, None)
                else ReadMemory_loop fuel addr n (out ++ data)
        end
      else mret (out, None)
  end.

(** Every iteration that goes on reads [maxChunk] bytes or the last ones. *)
Definition ReadMemory (addr n : Z) : C (list byte * option dbg_error) :=
  ReadMemory_loop (Z.to_nat (n / maxChunk) + 2) addr n [].

Definition memwrBody (addr : Z) (data : list byte) : list byte := zeros 4 ++ le64 addr ++ data.

Fixpoint WriteMemory_loop (fuel : nat) (addr : Z) (data : list byte) (total : Z)
  : C (Z * option dbg_error) :=
  match fuel with
  | O => mret (total, Some EFuel)
  | Datatypes.S fuel =>
      let len := Z.of_nat (length data) in
      if total <? len then
        let end_ := if len <? total + maxChunk then len else total + maxChunk in
        let chunk := slice (Z.to_nat total) (Z.to_nat end_) data in
        r ← attempt (transact cmdMemwr (memwrBody (u64 (addr + total)) chunk));
        match r with
        | inl e => mret (total, Some e)
        | inr p =>
            if decide (respCode p = respErr) then mret (total, Some (EWriteMemory addr))
            else WriteMemory_loop fuel addr data end_
        end
      else mret (total, None)
  end.

Definition WriteMemory (addr : Z) (data : list byte) : C (Z * option dbg_error) :=
  WriteMemory_loop (Z.to_nat (Z.of_nat (length data) / maxChunk) + 2) addr data 0.

(** ** Registers *)

Definition ReadRegisters (offset size : Z) : C (list byte) :=
  p ← transact cmdRegrd (le16 (u16 offset) ++ le16 (u16 size));
  orTargetError p EReadRegisters ≫= λ _, mret (respBody p).

Definition WriteRegisters (offset : Z) (data : list byte) : C unit :=
  p ← transact cmdRegwr (le16 (u16 offset) ++ data);
  orTargetError p EWriteRegisters.

(** ** Breakpoints *)

Definition brkBody (addr size : Z) : list byte := le32 (u32 (i32 size)) ++ le64 addr.

Definition setBreak (typ : byte) (addr size : Z) : C unit :=
  p ← link_transactSub cmdBrk typ (brkBody addr size);
  orTargetError p (EBreakpoint addr).

Definition SetBreakpoint (addr size : Z) : C unit := setBreak brkTypeExec addr size.
Definition ClearBreakpoint (addr : Z) : C unit := setBreak brkTypeExec addr (-1).
Definition SetWatchpoint (typ : byte) (addr size : Z) : C unit :=
  setBreak typ addr (if size <=? 0 then 1 else size).

(** ** Execution *)

Definition WaitStop : C Stop :=
  p ← link_readResponse;
  let '(pid, tid) := pidTid (respBody p) in
  mret (MkStop (respCode p) pid tid (hex_of_bytes p)).

Definition Continue : C Stop :=
  link_transactSub cmdRun runContinue (runMsg 0 1) ≫= λ _, WaitStop.

Definition Step (tid : Z) : C Stop :=
  let tid := if tid <=? 0 then 1 else tid in
  link_transactSub cmdRun runStep (runMsg 0 (u32 tid)) ≫= λ _, WaitStop.

Definition StopProcess : C unit := transact cmdStop [] ≫= λ _, mret ().

(** ** Launch *)

Definition envCmd (sub : byte) (body : list byte) : C unit :=
  p ← link_transactSub cmdEnv sub body;
  orTargetError p (EEnv sub (errnoString (respBody p))).

(** The Load body: argc and envc zero, the path, and one marker per staged
    argument, three at least. *)
Definition loadBody (path : list byte) (staged : list (list byte)) : list byte :=
  let n := if decide (length staged < 3)%nat then 3%nat else length staged in
  zeros 8 ++ path ++ [x00] ++
  concat ((λ i : nat, x40 :: fmt_d (Z.of_nat i) ++ [x00]) <$> seq 0 n) ++ [x00].

Definition Launch (path : list byte) (args : list (list byte)) (env : option (list (list byte)))
  : C LaunchResult :=
  let env := default defaultLaunchEnv env in
  envCmd envResetEnv (zeros 1024) ≫= λ _,
  range_do (λ e, envCmd envSetEnv (e ++ [x00])) env ≫= λ _,
  envCmd envResetArgv (zeros 1024) ≫= λ _,
  let staged := [path; path] ++ args in
  range_do (λ a, envCmd envSetArgv (a ++ [x00])) staged ≫= λ _,
  p ← transact cmdLoad (loadBody path staged);
  orTargetError p (ELoad path (errnoString (respBody p))) ≫= λ _,
  let '(pid, tid) := pidTid (respBody p) in
  mret (MkLaunchResult pid tid).

(** ** Information *)

Definition MapInfo (pid : Z) : C (list byte) :=
  p ← transact cmdProcMap (le32 (u32 pid));
  orTargetError p (EMapInfo pid (errnoString (respBody p))) ≫= λ _, mret (respBody p).

(** [copy] into a fresh table of [NumSignals] bytes. *)
Definition handleSigBody (table : list byte) : list byte :=
  take NumSignals table ++ zeros (NumSignals - length table).

Definition HandleSig (table : list byte) : C unit :=
  p ← link_transactSub cmdHandlesig x00 (handleSigBody table);
  orTargetError p (EHandleSig (errnoString (respBody p))).

Definition CPUInfo : C (list byte) :=
  p ← transact cmdCPUInfo (le32 0); orTargetError p ECPUInfo ≫= λ _, mret (respBody p).

Definition ThreadNames : C (list byte) :=
  p ← transact cmdTIDNames (le32 0); orTargetError p ETIDNames ≫= λ _, mret (respBody p).

Definition ProcInfo (pid tid : Z) : C (list byte) :=
  p ← link_transactSub cmdPidlist x02 (le32 (u32 pid) ++ le32 (u32 tid));
  orTargetError p (EProcInfo pid) ≫= λ _, mret (respBody p).

Definition Pidlist (pid tid : Z) (next : bool) : C ProcessList :=
  p ← link_transactSub cmdPidlist (if next then x01 else x00) (le32 (u32 pid) ++ le32 (u32 tid));
  orTargetError p EPidlist ≫= λ _,
  let b := respBody p in
  let '(p1, t1) := pidTid b in
  mret (MkProcessList p1 t1 (hex_of_bytes b)).
End commands.

(** [ParseMapInfo]: one 24-byte record per iteration. *)
Definition maxSegSize : Z := Z.shiftl 1 40.

Definition goodSegment (v s : Z) : bool :=
  negb (v =? 0) && (Z.land v 0xfff =? 0) && negb (s =? 0) && (s <? maxSegSize).

Fixpoint ParseMapInfo_loop (fuel : nat) (b : list byte) : list MapSegment :=
  match fuel with
  | O => []
  | Datatypes.S fuel =>
      if decide (24 ≤ length b)%nat then
        let v := le_get (slice 8 16 b) in
        let s := le_get (slice 16 24 b) in
        (if goodSegment v s then [MkMapSegment v s] else []) ++
        ParseMapInfo_loop fuel (drop 24 b)
      else []
  end.

Definition ParseMapInfo (b : list byte) : list MapSegment :=
  ParseMapInfo_loop (length b) b.
