(* ===== verification/DsmsgClosed.v ===== *)
(** * Closed DSMSG clients

    Every command of [internal/qnxdbg/commands.go] works through the two
    operations of [Link]; what these keep, the commands keep. On a client whose
    connection is closed this gives: it stays closed, and nothing more reaches
    the target. *)

From stdpp Require Import base list numbers strings.
From Stdlib Require Import ZArith Lia Strings.Byte.
From S2P Require Import Prelude GoStrconv Transport Dsmsg DsmsgClient DsmsgLink DsmsgCommands.

Local Open Scope Z_scope.

(** ** What the link keeps, the commands keep *)

Class LinkKeeps {S : Type} `{Link S} (Q : S → Prop) : Prop := {
  keeps_transactSub cmd sub body : keeps Q (link_transactSub cmd sub body);
  keeps_readResponse : keeps Q link_readResponse
}.

Section commands.
Context {S : Type} `{Link S} (Q : S → Prop) `{!LinkKeeps Q}.

Lemma keeps_transact cmd body : keeps Q (transact cmd body).
Proof. apply keeps_transactSub. Qed.

Hint Resolve keeps_transact keeps_transactSub keeps_readResponse : keeps.

Lemma keeps_orTargetError p e : keeps Q (orTargetError p e).
Proof. unfold orTargetError. keeps_auto. Qed.

Hint Resolve keeps_orTargetError : keeps.

Lemma keeps_Attach pid : keeps Q (Attach pid).
Proof. unfold Attach. keeps_auto. Qed.

Lemma keeps_Detach pid : keeps Q (Detach pid).
Proof. unfold Detach. keeps_auto. Qed.

Lemma keeps_Select pid tid : keeps Q (Select pid tid).
Proof. unfold Select. keeps_auto. Qed.

Lemma keeps_ReadMemory addr n : keeps Q (ReadMemory addr n).
Proof.
  unfold ReadMemory. generalize (Z.to_nat (n / maxChunk) + 2)%nat, (@nil byte).
  intros fuel. induction fuel as [|fuel IH]; intros out; cbn [ReadMemory_loop]; keeps_auto.
Qed.

Lemma keeps_WriteMemory addr data : keeps Q (WriteMemory addr data).
Proof.
  unfold WriteMemory. generalize (Z.to_nat (Z.of_nat (length data) / maxChunk) + 2)%nat, 0.
  intros fuel. induction fuel as [|fuel IH]; intros tot; cbn [WriteMemory_loop]; keeps_auto.
Qed.

Lemma keeps_ReadRegisters off size : keeps Q (ReadRegisters off size).
Proof. unfold ReadRegisters. keeps_auto. Qed.

Lemma keeps_WriteRegisters off data : keeps Q (WriteRegisters off data).
Proof. unfold WriteRegisters. keeps_auto. Qed.

Lemma keeps_setBreak typ addr size : keeps Q (setBreak typ addr size).
Proof. unfold setBreak. keeps_auto. Qed.

Lemma keeps_WaitStop : keeps Q WaitStop.
Proof. unfold WaitStop. keeps_auto. Qed.

Hint Resolve keeps_WaitStop : keeps.

Lemma keeps_Continue : keeps Q Continue.
Proof. unfold Continue. keeps_auto. Qed.

Lemma keeps_Step tid : keeps Q (Step tid).
Proof. unfold Step. keeps_auto. Qed.

Lemma keeps_envCmd sub body : keeps Q (envCmd sub body).
Proof. unfold envCmd. keeps_auto. Qed.

Hint Resolve keeps_envCmd : keeps.

Lemma keeps_Launch path args env : keeps Q (Launch path args env).
Proof. unfold Launch. keeps_auto. Qed.

Lemma keeps_MapInfo pid : keeps Q (MapInfo pid).
Proof. unfold MapInfo. keeps_auto. Qed.

Lemma keeps_HandleSig tbl : keeps Q (HandleSig tbl).
Proof. unfold HandleSig. keeps_auto. Qed.

Lemma keeps_CPUInfo : keeps Q CPUInfo.
Proof. unfold CPUInfo. keeps_auto. Qed.

Lemma keeps_ThreadNames : keeps Q ThreadNames.
Proof. unfold ThreadNames. keeps_auto. Qed.

Lemma keeps_ProcInfo pid tid : keeps Q (ProcInfo pid tid).
Proof. unfold ProcInfo. keeps_auto. Qed.
End commands.

#[export] Hint Resolve keeps_Attach keeps_Detach keeps_Select keeps_ReadMemory keeps_WriteMemory
  keeps_ReadRegisters keeps_WriteRegisters keeps_setBreak keeps_Continue keeps_Step keeps_Launch
  keeps_MapInfo keeps_HandleSig keeps_CPUInfo keeps_ThreadNames keeps_ProcInfo : keeps.

(** ** Closed connections *)

Section closed.
Context {P : Type} `{Peer P}.
Implicit Types c : Client P.

Definition closed c : Prop := t_open (c_conn c) = false.

(** Closed, with these writes and this target behind it. *)
Definition closed_at (tx : list (list byte)) (p : P) c : Prop :=
  closed c ∧ t_tx (c_conn c) = tx ∧ t_peer (c_conn c) = p.

Variables (tx : list (list byte)) (p : P).

Lemma keeps_writeFrame payload : keeps (closed_at tx p) (writeFrame payload).
Proof.
  intros c (Ho & Htx & Hp). unfold writeFrame. rewrite t_write_closed by done. by split_and!.
Qed.

Lemma keeps_readFrame : keeps (closed_at tx p) readFrame.
Proof.
  intros c Hc. unfold readFrame. destruct (skipDelims _) as [[b rx]|]; [|done].
  by destruct (readContent [b] rx) as [[cont rest]|].
Qed.

Hint Resolve keeps_writeFrame keeps_readFrame : keeps.

Lemma keeps_response : keeps (closed_at tx p) readResponse.
Proof.
  intros c. unfold readResponse. generalize (S (length (t_rx (c_conn c)))). intros fuel.
  revert c. change (keeps (closed_at tx p) (readResponse_loop (P := P) fuel)).
  induction fuel as [|fuel IH]; cbn [readResponse_loop]; keeps_auto.
  by apply keeps_modify.
Qed.

#[export] Instance closed_link : LinkKeeps (closed_at tx p).
Proof.
  split; [|apply keeps_response]. intros cmd sub body. cbn.
  unfold transactSub. apply keeps_bind; [by apply keeps_modify|intros _].
  keeps_auto. apply keeps_response.
Qed.

Lemma keeps_Close : keeps (closed_at tx p) Close.
Proof. intros c (_ & Htx & Hp). by split_and!. Qed.
End closed.

#[export] Hint Resolve keeps_Close closed_link : keeps.

Lemma Close_closed {P} `{Peer P} (c : Client P) : closed (snd (Close c)).
Proof. done. Qed.
