(* ===== verification/DsmsgMemory.v ===== *)
(** * Memory transfer is exact

    What a debug agent promises about memory requests, as classes over
    [DsmsgTarget] ([ReadableTarget] for Memrd, [WritableTarget] for Memwr), and
    the theorems that the chunked loops of [ReadMemory] and [WriteMemory] move
    exactly the requested bytes over such an agent. Addresses are 64-bit and
    wrap around. *)

From stdpp Require Import base list numbers strings.
From Stdlib Require Import ZArith Lia Strings.Byte.
From S2P Require Import Prelude GoStrconv Transport Dsmsg DsmsgClient DsmsgLink DsmsgCommands.
From S2P Require Import DsmsgCommandFacts.

Local Open Scope Z_scope.

(** ** Address spaces *)

(** The [n] bytes of [m] from address [addr] on. *)
Definition mem_range (m : Z → byte) (addr n : Z) : list byte :=
  (λ i, m (u64 (addr + i))) <$> seqZ 0 n.

(** [m] with [data] stored from address [addr] on. *)
Definition mem_store (m : Z → byte) (addr : Z) (data : list byte) (a : Z) : byte :=
  default (m a) (data !! Z.to_nat (u64 (a - addr))).

Lemma length_mem_range m addr n : length (mem_range m addr n) = Z.to_nat n.
Proof. unfold mem_range. by rewrite length_fmap, length_seqZ. Qed.

Lemma mem_range_u64 m addr n : mem_range m (u64 addr) n = mem_range m addr n.
Proof. unfold mem_range. apply list_fmap_ext. intros. by rewrite u64_add_l. Qed.

Lemma mem_range_app m addr a b :
  0 <= a → 0 <= b →
  mem_range m addr (a + b) = mem_range m addr a ++ mem_range m (addr + a) b.
Proof.
  intros Ha Hb. unfold mem_range. rewrite seqZ_app by lia. rewrite fmap_app. f_equal.
  rewrite <- (Z.add_0_r (0 + a)), <- fmap_add_seqZ, <- list_fmap_compose.
  apply list_fmap_ext. intros i x _. simpl. f_equal. f_equal. lia.
Qed.

Lemma mem_range_ext m m' addr n :
  (∀ a, 0 <= a < 2 ^ 64 → m a = m' a) → mem_range m addr n = mem_range m' addr n.
Proof. intros E. apply list_fmap_ext. intros. apply E, u64_range. Qed.

(** Storing in two pieces. *)
Lemma mem_store_app m addr d1 d2 a :
  Z.of_nat (length d1 + length d2) <= 2 ^ 64 → 0 <= a < 2 ^ 64 →
  mem_store (mem_store m addr d1) (addr + Z.of_nat (length d1)) d2 a =
  mem_store m addr (d1 ++ d2) a.
Proof.
  intros Hlen Ha. unfold mem_store.
  set (k := u64 (a - addr)). pose proof (u64_range (a - addr)) as Hk. fold k in Hk.
  assert (u64 (a - (addr + Z.of_nat (length d1))) =
          if decide (Z.of_nat (length d1) <= k) then k - Z.of_nat (length d1)
          else 2 ^ 64 + k - Z.of_nat (length d1)) as ->.
  { assert (u64 (a - (addr + Z.of_nat (length d1))) = u64 (k - Z.of_nat (length d1))) as ->.
    { unfold k, u64. rewrite Zminus_mod_idemp_l. f_equal. lia. }
    unfold u64. case_decide; [apply Z.mod_small; lia|].
    symmetry. apply (Z.mod_unique _ _ (-1)); lia. }
  case_decide as Hc.
  - rewrite lookup_app_r by lia. rewrite Z2Nat.inj_sub, Nat2Z.id by lia.
    rewrite (lookup_ge_None_2 d1) by lia. done.
  - rewrite (lookup_app_l d1) by lia.
    destruct (lookup_lt_is_Some_2 d1 (Z.to_nat k)) as [x Hx]; [lia|]. rewrite Hx.
    rewrite (lookup_ge_None_2 d2) by lia. done.
Qed.

(** Reading back what was stored. *)
Lemma mem_range_store m addr data :
  Z.of_nat (length data) <= 2 ^ 64 →
  mem_range (mem_store m addr data) addr (Z.of_nat (length data)) = data.
Proof.
  intros Hlen. apply list_eq_same_length with (n := length data);
    [done|rewrite length_mem_range; lia|].
  intros i x y Hi Hx Hy. unfold mem_range in Hx.
  apply list_lookup_fmap_Some in Hx as (j & -> & Hj).
  apply lookup_seqZ in Hj as [-> Hj].
  unfold mem_store.
  assert (u64 (u64 (addr + (0 + Z.of_nat i)) - addr) = Z.of_nat i) as ->.
  { unfold u64. rewrite Zminus_mod_idemp_l.
    replace (addr + (0 + Z.of_nat i) - addr) with (Z.of_nat i) by lia.
    apply Z.mod_small. lia. }
  rewrite Nat2Z.id, Hy. done.
Qed.

(** ** What an agent promises *)

Class ReadableTarget (P : Type) `{DsmsgTarget P} : Type := {
  rt_mem : P → Z → byte;
  rt_memrd s mid addr n :
    tgt_ready s → 0 <= addr < 2 ^ 64 → 0 < n <= maxChunk →
    tgt_handle s ([cmdMemrd; x00; mid; chanDebug] ++ memrdBody addr n) =
      ([[respOKData; x00; mid; chanDebug] ++ mem_range (rt_mem s) addr n], s)
}.

Class WritableTarget (P : Type) `{DsmsgTarget P} (mem : P → Z → byte) : Type :=
  wt_memwr s mid addr data :
    tgt_ready s → 0 <= addr < 2 ^ 64 → 0 < Z.of_nat (length data) <= maxChunk →
    ∃ s', tgt_handle s ([cmdMemwr; x00; mid; chanDebug] ++ memwrBody addr data) =
            ([[respOK; x00; mid; chanDebug]], s') ∧
          ∀ a, 0 <= a < 2 ^ 64 → mem s' a = mem_store (mem s) addr data a.

(** ** Exchanges on messages *)

Section exchange.
Context {P : Type} `{DsmsgTarget P}.
Implicit Types s : session P.

(** The session at rest: nothing unread, the target waiting. *)
Definition idle s : Prop := s_inbox s = [] ∧ tgt_ready (s_peer s).

Lemma msg_transact_reply s cmd sub body reply rest peer' :
  idle s →
  let req := [cmd; sub; byte_add (s_mid s) x01; chanDebug] ++ body in
  tgt_handle (s_peer s) req = (reply :: rest, peer') → isReply reply = true →
  link_transactSub cmd sub body s =
    (inr reply, Session peer' rest (s_sent s ++ [req]) (byte_add (s_mid s) x01) (s_output s)).
Proof.
  intros [Hin _] req Hh Hr. simpl. unfold msg_transactSub, msg_send. simpl.
  unfold req in *. simpl in *. rewrite Hh, Hin. unfold msg_readResponse. simpl. by rewrite Hr.
Qed.

Lemma isReply_debug code sub mid body :
  isReply ([code; sub; mid; chanDebug] ++ body) = true.
Proof. done. Qed.

Lemma respCode_header code sub mid ch body : respCode ([code; sub; mid; ch] ++ body) = code.
Proof. done. Qed.

Lemma respBody_header code sub mid ch body : respBody ([code; sub; mid; ch] ++ body) = body.
Proof.
  unfold respBody. simpl. case_decide as Hd; [|done]. destruct body; simpl in Hd; [done|lia].
Qed.

Lemma idle_after s p peer' sent mid out :
  idle s → tgt_handle (s_peer s) p = ([], peer') ∨ (∃ r, tgt_handle (s_peer s) p = ([r], peer')) →
  idle (Session peer' [] sent mid out).
Proof.
  intros [_ Hr] Hh. split; [done|]. simpl.
  pose proof (tgt_handle_ready (s_peer s) p Hr) as Hr'.
  destruct Hh as [Hh|[r Hh]]; by rewrite Hh in Hr'.
Qed.
End exchange.

(** ** Reading *)

Definition requests_for (n : Z) : Z := (n + maxChunk - 1) / maxChunk.

Lemma requests_for_step n : requests_for (n - maxChunk) = requests_for n - 1.
Proof.
  unfold requests_for. replace (n - maxChunk + maxChunk - 1) with (n + maxChunk - 1 - maxChunk) by lia.
  apply chunks_step.
Qed.

Lemma requests_for_last n : 0 < n <= maxChunk → requests_for n = 1.
Proof. intros. symmetry. apply (Z.div_unique _ _ _ (n - 1)); lia. Qed.

Lemma requests_for_0 : requests_for 0 = 0.
Proof. done. Qed.

Section reading.
Context {P : Type} `{ReadableTarget P}.
Implicit Types s : session P.

(** One chunk. *)
Lemma memrd_step s addr want :
  idle s → 0 <= addr < 2 ^ 64 → 0 < want <= maxChunk →
  let mid := byte_add (s_mid s) x01 in
  let s' := Session (s_peer s) [] (s_sent s ++ [[cmdMemrd; x00; mid; chanDebug] ++ memrdBody addr want])
              mid (s_output s) in
  idle s' ∧
  transact cmdMemrd (memrdBody addr want) s =
    (inr ([respOKData; x00; mid; chanDebug] ++ mem_range (rt_mem (s_peer s)) addr want), s').
Proof.
  intros Hi Ha Hw mid s'. destruct Hi as [Hin Hr].
  pose proof (rt_memrd (s_peer s) mid addr want Hr Ha Hw) as Hh.
  split; [done|]. by apply (msg_transact_reply s _ _ _ _ _ _ (conj Hin Hr) Hh).
Qed.

Lemma ReadMemory_loop_exact fuel addr n k s :
  idle s → 0 <= k <= n →
  (k < n → (n - k) / maxChunk + 2 <= Z.of_nat fuel) → (0 < fuel)%nat →
  ∃ s', ReadMemory_loop fuel addr n (mem_range (rt_mem (s_peer s)) addr k) s =
          (inr (mem_range (rt_mem (s_peer s)) addr n, None), s') ∧
        idle s' ∧ s_peer s' = s_peer s ∧ s_output s' = s_output s ∧
        Z.of_nat (length (s_sent s')) = Z.of_nat (length (s_sent s)) + requests_for (n - k).
Proof.
  revert k s. induction fuel as [|fuel IH]; intros k s Hi Hk Hf Hf0; [lia|].
  cbn [ReadMemory_loop]. rewrite length_mem_range, Z2Nat.id by lia.
  destruct (Z.ltb_spec k n) as [Hlt|Hge].
  2: { assert (k = n) as -> by lia. exists s. rewrite Z.sub_diag, requests_for_0.
       split_and!; try done; lia. }
  specialize (Hf Hlt).
  set (want := if maxChunk <? n - k then maxChunk else n - k).
  assert (0 < want <= maxChunk ∧ k + want <= n ∧
          (want = maxChunk ∨ (want = n - k ∧ n - k <= maxChunk))) as (Hw & Hkw & Hwc).
  { unfold want, maxChunk. destruct (Z.ltb_spec 0x400 (n - k)); lia. }
  destruct (memrd_step s (u64 (addr + k)) want Hi (u64_range _) Hw) as [Hi' E].
  set (s1 := Session _ _ _ _ _) in *.
  unfold mbind, M_bind. rewrite attempt_run, E. cbn [fst snd].
  rewrite respCode_header, respBody_header, mem_range_u64.
  rewrite decide_False by done.
  assert (length (mem_range (rt_mem (s_peer s)) (addr + k) want) = Z.to_nat want) as Hlen
    by apply length_mem_range.
  rewrite decide_False by (intros Hnil; rewrite Hnil in Hlen; simpl in Hlen; lia).
  rewrite take_ge, Hlen, Z2Nat.id, Z.ltb_irrefl by lia.
  rewrite <- mem_range_app by lia.
  pose proof (chunks_nonneg (n - k) ltac:(lia)).
  change (s_peer s) with (s_peer s1).
  destruct (IH (k + want) s1) as (s' & -> & ? & ? & ? & Hsent); [done|lia| |lia|].
  - intros ?. destruct Hwc as [->|[-> _]]; [|lia]. rewrite Z.sub_add_distr, chunks_step. lia.
  - exists s'. split_and!; try done. rewrite Hsent. simpl. rewrite length_app. simpl.
    destruct Hwc as [->|[-> Hle]].
    + rewrite Z.sub_add_distr, requests_for_step. lia.
    + rewrite (requests_for_last (n - k)) by lia.
      replace (n - (k + (n - k))) with 0 by lia. rewrite requests_for_0. lia.
Qed.
End reading.

(** C6: Exact reads. Over an agent that serves Memrd requests from its memory,
    [ReadMemory addr n] returns exactly the [n] bytes at [addr], with no error,
    in ceil(n / 1024) requests, leaving the agent untouched and the connection
    synchronised; for every [n] and every address, wrap-around included. *)
Theorem ReadMemory_exact {P} `{ReadableTarget P} (s : session P) (addr n : Z) :
  idle s → 0 <= n →
  ∃ s', ReadMemory addr n (client_of s) =
          (inr (mem_range (rt_mem (s_peer s)) addr n, None), client_of s') ∧
        idle s' ∧ s_peer s' = s_peer s ∧ s_output s' = s_output s ∧
        Z.of_nat (length (s_sent s')) = Z.of_nat (length (s_sent s)) + requests_for n.
Proof.
  intros Hi Hn. unfold ReadMemory.
  pose proof (chunks_nonneg n Hn).
  destruct (ReadMemory_loop_exact (Z.to_nat (n / maxChunk) + 2) addr n 0 s)
    as (s' & E & Hs'); [done|lia|rewrite Z.sub_0_r; lia|lia|].
  change (mem_range _ addr 0) with (@nil byte) in E. rewrite Z.sub_0_r in Hs'.
  destruct (refines_ReadMemory_loop (Z.to_nat (n / maxChunk) + 2) addr n [] s (proj2 Hi)) as [Er _].
  exists s'. by rewrite Er, E.
Qed.

(** ** Writing *)

Section writing.
Context {P : Type} `{WritableTarget P mem}.
Implicit Types s : session P.

Lemma memwr_step s addr data :
  idle s → 0 <= addr < 2 ^ 64 → 0 < Z.of_nat (length data) <= maxChunk →
  ∃ s', transact cmdMemwr (memwrBody addr data) s =
          (inr [respOK; x00; byte_add (s_mid s) x01; chanDebug], s') ∧
        idle s' ∧ s_output s' = s_output s ∧
        ∀ a, 0 <= a < 2 ^ 64 → mem (s_peer s') a = mem_store (mem (s_peer s)) addr data a.
Proof.
  intros Hi Ha Hd. destruct Hi as [Hin Hr].
  destruct (wt_memwr (s_peer s) (byte_add (s_mid s) x01) addr data Hr Ha Hd) as (q & Hh & Hm).
  eexists. split; [exact (msg_transact_reply s cmdMemwr x00 (memwrBody addr data) _ _ _ (conj Hin Hr) Hh eq_refl)|].
  split_and!; try done.
  pose proof (tgt_handle_ready (s_peer s)
    ([cmdMemwr; x00; byte_add (s_mid s) x01; chanDebug] ++ memwrBody addr data) Hr) as Hr'.
  rewrite Hh in Hr'. done.
Qed.

Lemma WriteMemory_loop_exact fuel addr data k s :
  idle s → 0 <= k <= Z.of_nat (length data) → Z.of_nat (length data) <= 2 ^ 64 →
  (k < Z.of_nat (length data) → (Z.of_nat (length data) - k) / maxChunk + 2 <= Z.of_nat fuel) →
  (0 < fuel)%nat →
  ∃ s', WriteMemory_loop fuel addr data k s = (inr (Z.of_nat (length data), None), s') ∧
        idle s' ∧ s_output s' = s_output s ∧
        ∀ a, 0 <= a < 2 ^ 64 →
          mem (s_peer s') a = mem_store (mem (s_peer s)) (addr + k) (drop (Z.to_nat k) data) a.
Proof.
  revert k s. induction fuel as [|fuel IH]; intros k s Hi Hk Hd Hf Hf0; [lia|].
  cbn [WriteMemory_loop].
  destruct (Z.ltb_spec k (Z.of_nat (length data))) as [Hlt|Hge].
  2: { assert (k = Z.of_nat (length data)) as -> by lia. exists s. split_and!; try done.
       intros a _. by rewrite Nat2Z.id, drop_all. }
  specialize (Hf Hlt).
  set (end_ := if Z.of_nat (length data) <? k + maxChunk then Z.of_nat (length data) else k + maxChunk).
  assert (k < end_ <= Z.of_nat (length data) ∧ end_ - k <= maxChunk ∧
          (end_ = k + maxChunk ∨ end_ = Z.of_nat (length data))) as (He & Hem & Hec).
  { unfold end_, maxChunk. destruct (Z.ltb_spec (Z.of_nat (length data)) (k + 0x400)); lia. }
  set (chunk := slice (Z.to_nat k) (Z.to_nat end_) data).
  assert (length chunk = Z.to_nat (end_ - k)) as Hcl.
  { unfold chunk, slice. rewrite length_take, length_drop. lia. }
  destruct (memwr_step s (u64 (addr + k)) chunk Hi (u64_range _)) as (s1 & E & Hi1 & Ho1 & Hm1);
    [rewrite Hcl; lia|].
  unfold mbind, M_bind. rewrite attempt_run, E. cbn [fst snd].
  rewrite decide_False by done.
  destruct (IH end_ s1) as (s' & -> & Hi' & Ho' & Hm'); [done|lia|lia| | |].
  { destruct Hec as [->| ->]; [|lia]. rewrite Z.sub_add_distr, chunks_step. lia. }
  { pose proof (chunks_nonneg (Z.of_nat (length data) - k) ltac:(lia)). lia. }
  exists s'. split_and!; try done; [congruence|]. intros a Ha. rewrite Hm' by done.
  assert (drop (Z.to_nat k) data = chunk ++ drop (Z.to_nat end_) data) as ->.
  { unfold chunk, slice.
    rewrite <- (take_drop (Z.to_nat end_ - Z.to_nat k) (drop (Z.to_nat k) data)) at 1.
    rewrite drop_drop. do 2 f_equal. lia. }
  rewrite <- mem_store_app; [|rewrite Hcl, length_drop; lia|done].
  rewrite Hcl, Z2Nat.id by lia. replace (addr + k + (end_ - k)) with (addr + end_) by lia.
  unfold mem_store at 1 2. rewrite Hm1 by done. unfold mem_store.
  assert (u64 (a - u64 (addr + k)) = u64 (a - (addr + k))) as ->
    by (unfold u64; by rewrite Zminus_mod_idemp_r). done.
Qed.
End writing.

(** C7: Write then read. Over an agent whose Memrd and Memwr requests act on
    the same memory, [WriteMemory] reports the whole length and no error, the
    agent's memory is then the old one with exactly [data] stored at [addr],
    and a following [ReadMemory] of that range returns [data]. *)
Theorem WriteMemory_ReadMemory {P} `{ReadableTarget P} `{!WritableTarget P rt_mem}
    (s : session P) (addr : Z) (data : list byte) :
  idle s → Z.of_nat (length data) <= 2 ^ 64 →
  ∃ s1 s2,
    WriteMemory addr data (client_of s) =
      (inr (Z.of_nat (length data), None), client_of s1) ∧
    (∀ a, 0 <= a < 2 ^ 64 → rt_mem (s_peer s1) a = mem_store (rt_mem (s_peer s)) addr data a) ∧
    ReadMemory addr (Z.of_nat (length data)) (client_of s1) =
      (inr (data, None), client_of s2) ∧
    idle s2 ∧ s_peer s2 = s_peer s1 ∧ s_output s2 = s_output s.
Proof.
  intros Hi Hd. set (n := Z.of_nat (length data)) in *.
  pose proof (chunks_nonneg n ltac:(lia)).
  destruct (WriteMemory_loop_exact (mem := rt_mem) (Z.to_nat (n / maxChunk) + 2) addr data 0 s)
    as (s1 & E1 & Hi1 & Ho1 & Hm1); fold n; [done|lia|done|rewrite Z.sub_0_r; lia|lia|].
  destruct (ReadMemory_loop_exact (Z.to_nat (n / maxChunk) + 2) addr n 0 s1)
    as (s2 & E2 & Hi2 & Hp2 & Ho2 & _); [done|lia|rewrite Z.sub_0_r; lia|lia|].
  destruct (refines_WriteMemory_loop (Z.to_nat (n / maxChunk) + 2) addr data 0 s (proj2 Hi)) as [R1 _].
  destruct (refines_ReadMemory_loop (Z.to_nat (n / maxChunk) + 2) addr n [] s1 (proj2 Hi1)) as [R2 _].
  rewrite Z.add_0_r in Hm1. change (drop (Z.to_nat 0) data) with data in Hm1.
  change (mem_range _ addr 0) with (@nil byte) in E2.
  exists s1, s2. split_and!; try done; [unfold WriteMemory; fold n; by rewrite R1, E1| |congruence].
  unfold ReadMemory. rewrite R2, E2. cbn [fst snd].
  rewrite (mem_range_ext _ _ addr n Hm1). unfold n. by rewrite mem_range_store.
Qed.
