(* ===== verification/DsmsgLaunch.v ===== *)
(** * The request sequence of a launch

    [Launch] stages the environment and the argument vector with Env requests
    and then sends Load. Its specification is a list of requests and one rule:
    send them in order and stop at the first that is not accepted. *)

From stdpp Require Import base list numbers strings.
From Stdlib Require Import ZArith Lia Strings.Byte.
From S2P Require Import Prelude GoStrconv Transport Dsmsg DsmsgClient DsmsgLink DsmsgCommands.

Local Open Scope Z_scope.

(** A request: command, subcommand and body. *)
Definition request : Type := byte * byte * list byte.

Section runAll.
Context {S : Type} `{Link S}.
Variable refused : request → list byte → dbg_error.

(** Send the requests in order, each after the previous one was accepted;
    return the last reply. *)
Fixpoint runAll (rs : list request) (last : list byte) : M dbg_error S (list byte) :=
  match rs with
  | [] => mret last
  | (cmd, sub, body) :: rs =>
      p ← link_transactSub cmd sub body;
      if decide (respCode p = respErr) then throw (refused (cmd, sub, body) p)
      else runAll rs p
  end.

Lemma runAll_last rs p q s : rs ≠ [] → runAll rs p s = runAll rs q s.
Proof. by destruct rs as [|[[]]]. Qed.

End runAll.

(** ** The specified sequence *)

(** Clear the environment table, append each entry, clear the argument table,
    append the executable, the zeroth argument and the others, then load. *)
Definition launchRequests (path : list byte) (args : list (list byte))
    (env : option (list (list byte))) : list request :=
  [(cmdEnv, envResetEnv, zeros 1024)] ++
  ((λ e, (cmdEnv, envSetEnv, e ++ [x00])) <$> default defaultLaunchEnv env) ++
  [(cmdEnv, envResetArgv, zeros 1024)] ++
  ((λ a, (cmdEnv, envSetArgv, a ++ [x00])) <$> path :: path :: args) ++
  [(cmdLoad, x00, loadBody path (path :: path :: args))].

(** The error for a request the target refused. *)
Definition launchRefused (path : list byte) (r : request) (p : list byte) : dbg_error :=
  let '(cmd, sub, _) := r in
  if decide (cmd = cmdLoad) then ELoad path (errnoString (respBody p))
  else EEnv sub (errnoString (respBody p)).

Section launch.
Context {S : Type} `{Link S}.
Implicit Types s : S.

(** One staging step in front of a sequence that is still to come. *)
Lemma envCmd_step {A} path sub body rs (K : M dbg_error S A) (k : list byte → M dbg_error S A) s :
  rs ≠ [] → (∀ t, K t = (runAll (launchRefused path) rs [] ≫= k) t) →
  (envCmd sub body ≫= λ _, K) s =
  (runAll (launchRefused path) ((cmdEnv, sub, body) :: rs) [] ≫= k) s.
Proof.
  intros Hne HK. unfold envCmd, orTargetError. cbn [runAll]. unfold mbind, M_bind in *.
  destruct (link_transactSub cmdEnv sub body s) as [[e|p] s1]; [done|].
  case_decide; [done|]. simpl. rewrite HK. by rewrite (runAll_last _ _ p []).
Qed.

Lemma envCmds_step {A} path sub xs rs (K : M dbg_error S A) (k : list byte → M dbg_error S A) s :
  rs ≠ [] → (∀ t, K t = (runAll (launchRefused path) rs [] ≫= k) t) →
  (range_do (λ e, envCmd sub (e ++ [x00])) xs ≫= λ _, K) s =
  (runAll (launchRefused path) (((λ e, (cmdEnv, sub, e ++ [x00])) <$> xs) ++ rs) [] ≫= k) s.
Proof.
  intros Hne HK. revert s. induction xs as [|x xs IH]; intros s; [apply HK|].
  etrans; [|eapply envCmd_step; [by destruct xs|exact IH]].
  simpl. unfold mbind, M_bind. by destruct (envCmd _ _ s) as [[]].
Qed.

Lemma Launch_runAll path args env s :
  Launch path args env s =
  (p ← runAll (launchRefused path) (launchRequests path args env) [];
   let '(pid, tid) := pidTid (respBody p) in mret (MkLaunchResult pid tid)) s.
Proof.
  unfold Launch, launchRequests. simpl app.
  apply envCmd_step; [by destruct (default _ env)|]. intros s1.
  apply envCmds_step; [done|]. intros s2.
  apply envCmd_step; [done|]. intros s3.
  apply (envCmds_step path envSetArgv (path :: path :: args)); [done|]. intros s4.
  unfold transact, orTargetError. cbn [runAll]. unfold mbind, M_bind.
  destruct (link_transactSub cmdLoad _ _ s4) as [[e|p] s5]; [done|]. by case_decide.
Qed.
End launch.

(** C26: The launch sequence. Over any link [Launch] behaves as sending the
    requests of [launchRequests] in order, stopping at the first one that
    fails or is refused with the corresponding error (so Load is sent only
    after every table entry was accepted), and on success returns the pid and
    tid of the Load reply. *)
Theorem Launch_sequence {S} `{Link S} (s : S) path args env :
  Launch path args env s =
  (p ← runAll (launchRefused path) (launchRequests path args env) [];
   let '(pid, tid) := pidTid (respBody p) in mret (MkLaunchResult pid tid)) s.
Proof. apply Launch_runAll. Qed.
