(* ===== verification/MockDsmsg.v ===== *)
(** * The mock pdebug agent

    [internal/mockqnx/dsmsg.go]: one DSMSG connection of the test double, as a
    peer of the client's transport. The goroutine [ServeDSMSG] reads frames
    from the connection and answers each before it reads the next; its state is
    the input not consumed yet, the attached pid and the last breakpoint
    address. *)

From stdpp Require Import base list numbers strings.
From Stdlib Require Import ZArith Lia Strings.Byte.
From S2P Require Import Prelude GoStrconv Transport Dsmsg DsmsgClient DsmsgLink DsmsgCommands.
From S2P Require Import DsmsgCommandFacts DsmsgMemory.

Local Open Scope Z_scope.

(** ** Framing, the mock's own copy *)

Definition mock_cksum (b : list byte) : byte := byte_sub xff (foldl byte_add x00 b).

Fixpoint mock_esc (b : list byte) : list byte :=
  match b with
  | [] => []
  | c :: b =>
      if decide (c = x7e ∨ c = x7d) then x7d :: byte_xor c x20 :: mock_esc b
      else c :: mock_esc b
  end.

Definition mock_writeFrame (payload : list byte) : list byte :=
  [x7e] ++ mock_esc payload ++ mock_esc [mock_cksum payload] ++ [x7e].

Fixpoint mock_skip (inp : list byte) : option (byte * list byte) :=
  match inp with
  | [] => None
  | b :: inp => if decide (b = x7e) then mock_skip inp else Some (b, inp)
  end.

Fixpoint mock_collect (content inp : list byte) : option (list byte * list byte) :=
  match inp with
  | [] => None
  | b :: inp => if decide (b = x7e) then Some (content, inp) else mock_collect (content ++ [b]) inp
  end.

Fixpoint mock_unesc (b : list byte) : list byte :=
  match b with
  | [] => []
  | c :: b' =>
      if decide (c = x7d) then
        match b' with
        | [] => [c]
        | d :: b'' => byte_xor d x20 :: mock_unesc b''
        end
      else c :: mock_unesc b'
  end.

(** [readFrame]: blocked for more input, failed, or a payload and the rest. The
    mock drops the check byte without looking at it. *)
Inductive mock_read := MockBlocked | MockFailed | MockGot (payload rest : list byte).

Definition mock_readFrame (inp : list byte) : mock_read :=
  match mock_skip inp with
  | None => MockBlocked
  | Some (first, inp) =>
      match mock_collect [first] inp with
      | None => MockBlocked
      | Some (content, rest) =>
          match reverse (mock_unesc content) with
          | [] => MockFailed
          | _ :: rpayload => MockGot (reverse rpayload) rest
          end
      end
  end.

(** ** State and handler *)

Record mock := MkMock {
  mk_in : list byte;
  mk_pid : Z;
  mk_brk : Z;
  mk_alive : bool
}.

Definition mock_init : mock := MkMock [] 0x1000 0 true.

Definition appendLE32 (b : list byte) (v : Z) : list byte := b ++ le_put 4 v.
Definition appendLE64 (b : list byte) (v : Z) : list byte := b ++ le_put 8 v.

Definition mock_reply (code mid : byte) (body : list byte) : list byte :=
  [code; x00; mid; x01] ++ body.

(** The body of the [switch]: the payloads written and the pid and breakpoint
    afterwards. *)
Definition mock_switch (cmd mid : byte) (body : list byte) (pid brk : Z)
  : list (list byte) * (Z * Z) :=
  let same := (pid, brk) in
  match Z_of_byte cmd with
  | 0 => ([mock_reply x22 mid [x20; x04; x00; x00]], same)
  | 23 => ([mock_reply x22 mid [x01; x03; x00; x00]], same)
  | 27 =>
      let seg := appendLE32 [] pid ++ appendLE32 [] 0 in
      let seg := appendLE64 seg 0x400000 in
      let seg := appendLE64 seg 0x1000 in
      ([mock_reply x23 mid seg], same)
  | 24 => ([mock_reply x21 mid []], same)
  | 21 => ([mock_reply x21 mid []], same)
  | 4 =>
      let pid := 0x2000 in
      let body := appendLE32 [] pid ++ appendLE32 [] 1 ++ str "mockproc" in
      ([mock_reply x23 mid body], (pid, brk))
  | 5 =>
      let pid := if decide (4 ≤ length body)%nat then le_get (take 4 body) else pid in
      ([mock_reply x23 mid (zeros 8 ++ str "mockproc")], (pid, brk))
  | 2 => ([mock_reply x21 mid []], same)
  | 11 =>
      ([mock_reply x23 mid (zeros 0x100 ++ le_put 8 0x4000 ++ zeros 8)], same)
  | 12 => ([mock_reply x21 mid []], same)
  | 9 =>
      let '(addr, size) :=
        if decide (14 ≤ length body)%nat
        then (le_get (slice 4 12 body), le_get (slice 12 14 body)) else (0, 0) in
      let data := (λ i, byte_of_Z (Z.land (u64 (addr + i)) 0xff)) <$> seqZ 0 size in
      ([mock_reply x23 mid data], same)
  | 10 => ([mock_reply x21 mid []], same)
  | 14 =>
      let brk :=
        if decide (12 ≤ length body)%nat then
          let size := i32 (le_get (slice 0 4 body)) in
          if size <? 0 then 0 else le_get (slice 4 12 body)
        else brk in
      ([mock_reply x21 mid []], (pid, brk))
  | 13 =>
      let ip := if brk =? 0 then 0x4000 else brk in
      let notif := appendLE64 (appendLE32 (appendLE32 [] pid) 1) ip in
      ([mock_reply x21 mid []; [x40; x00; mid; x01] ++ notif], same)
  | 6 => ([mock_reply x21 mid []], same)
  | 8 => ([mock_reply x21 mid []], same)
  | _ => ([mock_reply x20 mid [x16; x00; x00; x00]], same)
  end.

(** One payload: control and echo frames are ignored. *)
Definition mock_handle (m : mock) (p : list byte) : list (list byte) * mock :=
  match p with
  | cmd :: _ :: mid :: _ :: body =>
      let '(outs, (pid, brk)) := mock_switch cmd mid body (mk_pid m) (mk_brk m) in
      (outs, MkMock (mk_in m) pid brk (mk_alive m))
  | _ => ([], m)
  end.

(** The serve loop over the input at hand; it blocks when no frame is complete.
    Every frame takes at least two bytes of input. *)
Fixpoint mock_serve (fuel : nat) (m : mock) : list byte * mock :=
  match fuel with
  | O => ([], m)
  | S fuel =>
      match mock_readFrame (mk_in m) with
      | MockBlocked => ([], m)
      | MockFailed => ([], MkMock (mk_in m) (mk_pid m) (mk_brk m) false)
      | MockGot p rest =>
          let '(outs, m1) := mock_handle (MkMock rest (mk_pid m) (mk_brk m) true) p in
          let '(more, m2) := mock_serve fuel m1 in
          (concat (mock_writeFrame <$> outs) ++ more, m2)
      end
  end.

Definition ServeDSMSG (m : mock) (b : list byte) : bool * list byte * mock :=
  if mk_alive m then
    let inp := mk_in m ++ b in
    let '(out, m') := mock_serve (S (length inp)) (MkMock inp (mk_pid m) (mk_brk m) true) in
    (true, out, m')
  else (false, [], m).

(** What the mock sends before it reads anything. *)
Definition mock_greeting : list byte := mock_writeFrame [x00].

#[export] Instance mock_peer : Peer mock := ServeDSMSG.

(** ** The mock speaks DSMSG *)

(** The mock's copies of the codec are the client's. *)
Lemma mock_writeFrame_frame p : mock_writeFrame p = frame p.
Proof. reflexivity. Qed.

Lemma mock_frames ps : concat (mock_writeFrame <$> ps) = frames ps.
Proof. reflexivity. Qed.

Lemma mock_readFrame_frame p rest : mock_readFrame (frame p ++ rest) = MockGot p rest.
Proof.
  unfold mock_readFrame. rewrite frame_content.
  change mock_skip with skipDelims. change mock_collect with readContent.
  change mock_unesc with unescape.
  pose proof (content_no_frame p) as Hf. pose proof (content_nonempty p) as Hne.
  pose proof (unescape_content p) as Hu.
  destruct (content p) as [|b cont]; [done|]. inversion_clear Hf as [|? ? Hb Hc].
  change ((frameChar :: (b :: cont) ++ [frameChar]) ++ rest)
    with (replicate 1 frameChar ++ b :: ((cont ++ [frameChar]) ++ rest)).
  rewrite skipDelims_run by done. rewrite <- app_assoc. cbn [app].
  rewrite readContent_run by done. cbn [app].
  rewrite Hu, reverse_snoc. by rewrite reverse_involutive.
Qed.

Lemma mock_readFrame_shorter inp p rest :
  mock_readFrame inp = MockGot p rest → (length rest + 2 ≤ length inp)%nat.
Proof.
  unfold mock_readFrame. change mock_skip with skipDelims. change mock_collect with readContent.
  destruct (skipDelims inp) as [[b r]|] eqn:E1; [|done].
  destruct (readContent [b] r) as [[cont rest']|] eqn:E2; [|done].
  apply skipDelims_Some in E1 as (k & -> & _).
  apply readContent_Some in E2 as (l & _ & -> & _).
  destruct (reverse _); [done|]. intros [= _ <-].
  rewrite !length_app. simpl. rewrite length_app. simpl. lia.
Qed.

(** The serve loop stops only when it is blocked or has failed. *)
Lemma mock_serve_drains fuel m :
  (length (mk_in m) < fuel)%nat →
  let m' := snd (mock_serve fuel m) in
  mk_alive m' = false ∨ mock_readFrame (mk_in m') = MockBlocked.
Proof.
  revert m. induction fuel as [|fuel IH]; intros m Hf; [lia|]. cbn [mock_serve].
  destruct (mock_readFrame (mk_in m)) as [| |p rest] eqn:E; simpl; [auto|auto|].
  apply mock_readFrame_shorter in E.
  assert (mk_in (snd (mock_handle (MkMock rest (mk_pid m) (mk_brk m) true) p)) = rest) as Hin.
  { destruct p as [|? [|? [|? [|? ?]]]]; simpl; try done. by destruct (mock_switch _ _ _ _ _) as [? []]. }
  destruct (mock_handle _ p) as [outs m1]. simpl in Hin.
  specialize (IH m1 ltac:(rewrite Hin; lia)).
  by destruct (mock_serve fuel m1).
Qed.

Definition mock_ready (m : mock) : Prop := mk_in m = [] ∧ mk_alive m = true.

Lemma mock_handle_ready m p : mock_ready m → mock_ready (snd (mock_handle m p)).
Proof.
  intros [H1 H2]. destruct p as [|? [|? [|? [|? ?]]]]; simpl; try done.
  by destruct (mock_switch _ _ _ _ _) as [? []].
Qed.

Lemma mock_write_frame m p :
  mock_ready m →
  peer_write m (frame p) = (true, frames (fst (mock_handle m p)), snd (mock_handle m p)).
Proof.
  intros Hr. pose proof (mock_handle_ready m p Hr) as Hr'.
  destruct m as [inp pid brk alive]. destruct Hr as [H1 H2]. simpl in H1, H2. subst.
  unfold peer_write, mock_peer, ServeDSMSG. cbn [mk_alive mk_in mk_pid mk_brk app].
  cbn [mock_serve mk_in mk_pid mk_brk].
  pose proof (mock_readFrame_frame p []) as E. rewrite app_nil_r in E. rewrite E.
  destruct (mock_handle _ p) as [outs m1]. destruct Hr' as [Hin _]. simpl in Hin.
  assert (∀ fuel, (0 < fuel)%nat → mock_serve fuel m1 = ([], m1)) as Hs.
  { intros [|fuel] Hf; [lia|]. simpl. by rewrite Hin. }
  rewrite Hs by (pose proof (length_frame p); lia).
  by rewrite mock_frames, app_nil_r.
Qed.

#[export] Instance mock_target : DsmsgTarget mock := {
  tgt_ready := mock_ready;
  tgt_handle := mock_handle;
  tgt_write_frame := mock_write_frame;
  tgt_handle_ready := mock_handle_ready
}.

(** Its memory: the byte at address [a] is the low byte of [a]. *)
Definition mock_mem (_ : mock) (a : Z) : byte := byte_of_Z a.

Lemma memrdBody_addr addr n : slice 4 12 (memrdBody addr n) = le64 addr.
Proof. reflexivity. Qed.

Lemma memrdBody_size addr n : slice 12 14 (memrdBody addr n) = le16 (u16 n).
Proof. reflexivity. Qed.

Lemma mock_memrd m mid addr n :
  mock_ready m → 0 <= addr < 2 ^ 64 → 0 < n <= maxChunk →
  mock_handle m ([cmdMemrd; x00; mid; chanDebug] ++ memrdBody addr n) =
    ([[respOKData; x00; mid; chanDebug] ++ mem_range (mock_mem m) addr n], m).
Proof.
  intros Hr Ha Hn.
  change (mock_handle m ([cmdMemrd; x00; mid; chanDebug] ++ memrdBody addr n))
    with (let '(outs, (pid, brk)) := mock_switch cmdMemrd mid (memrdBody addr n) (mk_pid m) (mk_brk m) in
          (outs, MkMock (mk_in m) pid brk (mk_alive m))).
  unfold mock_switch. change (Z_of_byte cmdMemrd) with 9. cbv beta iota.
  rewrite decide_True by (simpl; lia).
  rewrite memrdBody_addr, memrdBody_size. unfold le64, le16. rewrite !le_get_put.
  change (8 * Z.of_nat 8) with 64. change (8 * Z.of_nat 2) with 16.
  unfold u16. rewrite Z.mod_mod by lia.
  rewrite (Z.mod_small addr), (Z.mod_small n) by (unfold maxChunk in *; lia).
  unfold mock_reply. f_equal; [|by destruct m]. do 2 f_equal.
  apply list_fmap_ext. intros i x _. unfold mock_mem.
  rewrite <- (byte_of_Z_mod (u64 (addr + x))). f_equal.
  change 0xff with (Z.ones 8). rewrite Z.land_ones by lia. done.
Qed.

#[export] Instance mock_readable : ReadableTarget mock := {
  rt_mem := mock_mem;
  rt_memrd := mock_memrd
}.

(** The state after the greeting and the handshake. *)
Definition mock_connected : session mock :=
  Session mock_init [] [] x01 [].

Lemma mock_connected_idle : idle mock_connected.
Proof. done. Qed.
