(* ===== verification/DsmsgE2E.v ===== *)
(** * Client and mock agent together

    The client of [DsmsgClient] and [DsmsgCommands] connected to the agent of
    [MockDsmsg], and, for the properties that quantify over agents, a second
    agent with a real memory. *)

From stdpp Require Import base list numbers strings.
From Stdlib Require Import ZArith Lia Strings.Byte.
From S2P Require Import Prelude GoStrconv Transport Dsmsg DsmsgClient DsmsgLink DsmsgCommands.
From S2P Require Import DsmsgCommandFacts DsmsgMemory DsmsgLaunch MockDsmsg.

Local Open Scope Z_scope.

(** ** Connecting *)

(** A connection just accepted by the mock: its reset frame is under way. *)
Definition mock_transport : transport mock := Transport mock_init mock_greeting [] true.

(** The client once [Connect] has returned. *)
Definition mock_session : session mock :=
  Session mock_init [] [[x00]; connectMsg; protoverMsg] x01 [].

Lemma newClient_mock : newClient mock_transport = (inr (), client_of mock_session).
Proof. vm_compute. reflexivity. Qed.

(** ** Commands on the mock *)

Section mock_commands.
Implicit Types s : session mock.

(** The session after one request that the mock answers with one message. *)
Definition mock_after s (pid brk : Z) (req : list byte) : session mock :=
  Session (MkMock [] pid brk true) [] (s_sent s ++ [req]) (byte_add (s_mid s) x01) (s_output s).

Lemma mock_after_idle s pid brk req : idle (mock_after s pid brk req).
Proof. done. Qed.

Lemma mock_idle_state s :
  idle s → s_peer s = MkMock [] (mk_pid (s_peer s)) (mk_brk (s_peer s)) true.
Proof. intros [_ [H1 H2]]. destruct (s_peer s). simpl in *. by subst. Qed.

(** A request whose [switch] case answers with one reply. *)
Lemma mock_transact s cmd sub body code rbody pid brk :
  idle s →
  mock_switch cmd (byte_add (s_mid s) x01) body (mk_pid (s_peer s)) (mk_brk (s_peer s)) =
    ([mock_reply code (byte_add (s_mid s) x01) rbody], (pid, brk)) →
  link_transactSub cmd sub body s =
    (inr ([code; x00; byte_add (s_mid s) x01; chanDebug] ++ rbody),
     mock_after s pid brk ([cmd; sub; byte_add (s_mid s) x01; chanDebug] ++ body)).
Proof.
  intros Hi Hsw. apply msg_transact_reply; [done| |done].
  simpl. rewrite Hsw. by rewrite (mock_idle_state s Hi).
Qed.

Lemma mock_Attach s pid :
  idle s → 0 <= pid < 2 ^ 32 →
  ∃ req, Attach pid s = (inr (), mock_after s pid (mk_brk (s_peer s)) req).
Proof.
  intros Hi Hp. eexists. unfold Attach, transact.
  assert (le_get (le_put 4 (u32 pid)) = pid) as Eg.
  { rewrite le_get_put. change (8 * Z.of_nat 4) with 32. unfold u32.
    by rewrite Z.mod_mod, Z.mod_small by lia. }
  pose proof (mock_transact s cmdAttach x00 (le32 (u32 pid)) respOKData
    (zeros 8 ++ str "mockproc") pid (mk_brk (s_peer s)) Hi) as E.
  step_ok (E ltac:(unfold mock_switch; do 2 f_equal; exact Eg)). done.
Qed.

Lemma mock_SetBreakpoint s addr :
  idle s → 0 <= addr < 2 ^ 64 →
  ∃ req, SetBreakpoint addr 0 s = (inr (), mock_after s (mk_pid (s_peer s)) addr req).
Proof.
  intros Hi Ha. eexists. unfold SetBreakpoint, setBreak.
  assert (le_get (le_put 8 addr) = addr) as Eg.
  { rewrite le_get_put. change (8 * Z.of_nat 8) with 64. by rewrite Z.mod_small by lia. }
  pose proof (mock_transact s cmdBrk brkTypeExec (brkBody addr 0) respOK []
    (mk_pid (s_peer s)) addr Hi) as E.
  step_ok (E ltac:(unfold mock_switch; do 2 f_equal; exact Eg)). done.
Qed.

Lemma mock_ClearBreakpoint s addr :
  idle s → ∃ req, ClearBreakpoint addr s = (inr (), mock_after s (mk_pid (s_peer s)) 0 req).
Proof.
  intros Hi. eexists. unfold ClearBreakpoint, setBreak.
  pose proof (mock_transact s cmdBrk brkTypeExec (brkBody addr (-1)) respOK []
    (mk_pid (s_peer s)) 0 Hi) as E.
  step_ok (E eq_refl). done.
Qed.

(** What the mock reports when the program stops. *)
Definition mock_stop (mid : byte) (pid ip : Z) : list byte :=
  [x40; x00; mid; x01] ++ le_put 4 pid ++ le_put 4 1 ++ le_put 8 ip.

Lemma WaitStop_mock s mid pid ip rest :
  s_inbox s = mock_stop mid pid ip :: rest → 0 <= pid < 2 ^ 32 →
  WaitStop s =
    (inr (MkStop x40 pid 1 (hex_of_bytes (mock_stop mid pid ip))),
     Session (s_peer s) rest (s_sent s) (s_mid s) (s_output s)).
Proof.
  intros Hin Hp. unfold WaitStop.
  assert (link_readResponse s = (inr (mock_stop mid pid ip),
    Session (s_peer s) rest (s_sent s) (s_mid s) (s_output s))) as E
    by (simpl; unfold msg_readResponse; by rewrite Hin).
  step_ok E.
  change (pidTid (respBody (mock_stop mid pid ip))) with (le_get (le_put 4 pid), le_get (le_put 4 1)).
  rewrite !le_get_put. change (8 * Z.of_nat 4) with 32. rewrite Z.mod_small by lia. done.
Qed.

Lemma mock_Continue s :
  idle s → 0 <= mk_pid (s_peer s) < 2 ^ 32 →
  let mid := byte_add (s_mid s) x01 in
  let ip := if mk_brk (s_peer s) =? 0 then 0x4000 else mk_brk (s_peer s) in
  ∃ req, Continue s =
    (inr (MkStop x40 (mk_pid (s_peer s)) 1 (hex_of_bytes (mock_stop mid (mk_pid (s_peer s)) ip))),
     mock_after s (mk_pid (s_peer s)) (mk_brk (s_peer s)) req).
Proof.
  intros Hi Hp mid ip. eexists. unfold Continue.
  pose proof (mock_idle_state s Hi) as Es.
  pose proof (msg_transact_reply s cmdRun runContinue (runMsg 0 1)
    (mock_reply x21 mid []) [mock_stop mid (mk_pid (s_peer s)) ip]
    (MkMock [] (mk_pid (s_peer s)) (mk_brk (s_peer s)) true) Hi) as E.
  step_ok (E ltac:(by rewrite Es at 1) eq_refl).
  erewrite WaitStop_mock; [|reflexivity|done]. reflexivity.
Qed.
End mock_commands.

(** A debug session end to end. From the connect handshake on, the client
    talking to the mock agent attaches to any pid, sets a breakpoint at any
    address, continues, and is told that this pid stopped with the program
    counter at this address; once the breakpoint is cleared the same program
    stops at the mock's default address instead. *)
Theorem debug_session_mock (pid addr : Z) :
  0 <= pid < 2 ^ 32 → 0 < addr < 2 ^ 64 →
  let '(r, c) := newClient mock_transport in
  r = inr () ∧
  ∃ c1 c2 mid1 mid2,
    (Attach pid ≫= λ _, SetBreakpoint addr 0 ≫= λ _, Continue) c =
      (inr (MkStop x40 pid 1 (hex_of_bytes (mock_stop mid1 pid addr))), c1) ∧
    (ClearBreakpoint addr ≫= λ _, Continue) c1 =
      (inr (MkStop x40 pid 1 (hex_of_bytes (mock_stop mid2 pid 0x4000))), c2).
Proof.
  intros Hp Ha. rewrite newClient_mock. split; [done|].
  assert (idle mock_session) as Hi0 by done.
  destruct (mock_Attach mock_session pid Hi0 Hp) as [r1 E1].
  set (s1 := mock_after mock_session _ _ r1) in *.
  destruct (mock_SetBreakpoint s1 addr (mock_after_idle _ _ _ _) ltac:(lia)) as [r2 E2].
  set (s2 := mock_after s1 _ _ r2) in *.
  destruct (mock_Continue s2 (mock_after_idle _ _ _ _) Hp) as [r3 E3].
  set (s3 := mock_after s2 _ _ r3) in *.
  destruct (mock_ClearBreakpoint s3 addr (mock_after_idle _ _ _ _)) as [r4 E4].
  set (s4 := mock_after s3 _ _ r4) in *.
  destruct (mock_Continue s4 (mock_after_idle _ _ _ _) Hp) as [r5 E5].
  set (s5 := mock_after s4 _ _ r5) in *.
  assert (mk_brk (s_peer s2) = addr) as Hb by done. rewrite Hb in E3.
  rewrite (proj2 (Z.eqb_neq addr 0)) in E3 by lia.
  assert (∀ A (m : M dbg_error (Client mock) A) am s r s',
    refines m am → idle s → am s = (r, s') → m (client_of s) = (r, client_of s')) as Href.
  { intros A m am s r s' Hr [_ Hi] E. destruct (Hr s Hi) as [-> _]. by rewrite E. }
  exists (client_of s3), (client_of s5), (byte_add (s_mid s2) x01), (byte_add (s_mid s4) x01).
  assert (refines (P := mock) Continue Continue) as HC
    by (apply refines_bind; [apply refines_transactSub|intros; apply refines_WaitStop]).
  assert (refines (P := mock) (Attach pid) (Attach pid)) as HA
    by (apply refines_bind; [apply refines_transact|intros; apply refines_orTargetError]).
  split.
  - step_ok (Href _ _ _ _ _ _ HA Hi0 E1).
    step_ok (Href _ _ _ _ _ _ (refines_setBreak _ _ _) (mock_after_idle _ _ _ r1) E2).
    apply (Href _ _ _ _ _ _ HC (mock_after_idle _ _ _ r2) E3).
  - step_ok (Href _ _ _ _ _ _ (refines_setBreak _ _ _) (mock_after_idle _ _ _ r3) E4).
    apply (Href _ _ _ _ _ _ HC (mock_after_idle _ _ _ r4) E5).
Qed.

Lemma debug_session_mock_witness :
  let '(r, c) := newClient mock_transport in
  r = inr () ∧
  ∃ c1 c2 mid1 mid2,
    (Attach 4242 ≫= λ _, SetBreakpoint 0x4012ab 0 ≫= λ _, Continue) c =
      (inr (MkStop x40 4242 1 (hex_of_bytes (mock_stop mid1 4242 0x4012ab))), c1) ∧
    (ClearBreakpoint 0x4012ab ≫= λ _, Continue) c1 =
      (inr (MkStop x40 4242 1 (hex_of_bytes (mock_stop mid2 4242 0x4000))), c2).
Proof. apply (debug_session_mock 4242 0x4012ab); lia. Defined.

(** The mock satisfies what [ReadMemory_exact] asks of an agent. *)
Lemma ReadMemory_exact_witness :
  ∃ s', ReadMemory 0xfffffffffffffff0 3000 (client_of mock_session) =
          (inr (mem_range (rt_mem (s_peer mock_session)) 0xfffffffffffffff0 3000, None), client_of s') ∧
        idle s' ∧ s_peer s' = s_peer mock_session ∧ s_output s' = s_output mock_session ∧
        Z.of_nat (length (s_sent s')) = Z.of_nat (length (s_sent mock_session)) + requests_for 3000.
Proof. apply (ReadMemory_exact mock_session 0xfffffffffffffff0 3000); [done|lia]. Defined.

(** ** An agent with a memory

    The smallest agent for which memory writes take effect: an address space,
    served by the frame decoder of the client. *)

Definition arena : Type := Z → byte.

Definition arena_handle (m : arena) (p : list byte) : list (list byte) * arena :=
  match p with
  | cmd :: _ :: mid :: _ :: body =>
      if decide (cmd = cmdMemrd) then
        ([[respOKData; x00; mid; chanDebug] ++
          mem_range m (le_get (slice 4 12 body)) (le_get (slice 12 14 body))], m)
      else if decide (cmd = cmdMemwr) then
        ([[respOK; x00; mid; chanDebug]], mem_store m (le_get (slice 4 12 body)) (drop 12 body))
      else ([[respErr; x00; mid; chanDebug]], m)
  | _ => ([], m)
  end.

Definition arena_write (m : arena) (b : list byte) : bool * list byte * arena :=
  match mock_readFrame b with
  | MockGot p _ => let '(outs, m') := arena_handle m p in (true, frames outs, m')
  | _ => (true, [], m)
  end.

#[local] Instance arena_peer : Peer arena := arena_write.

#[local, refine] Instance arena_target : DsmsgTarget arena := {
  tgt_ready := λ _, True;
  tgt_handle := arena_handle
}.
Proof.
  - intros m p _. unfold peer_write, arena_peer, arena_write.
    pose proof (mock_readFrame_frame p []) as E. rewrite app_nil_r in E. rewrite E.
    by destruct (arena_handle m p).
  - done.
Defined.

#[local, refine] Instance arena_readable : ReadableTarget arena := { rt_mem := λ m, m }.
Proof.
  intros m mid addr n _ Ha Hn.
  assert (tgt_handle m ([cmdMemrd; x00; mid; chanDebug] ++ memrdBody addr n) =
    ([[respOKData; x00; mid; chanDebug] ++
      mem_range m (le_get (slice 4 12 (memrdBody addr n))) (le_get (slice 12 14 (memrdBody addr n)))], m))
    as -> by done.
  rewrite memrdBody_addr, memrdBody_size. unfold le64, le16. rewrite !le_get_put.
  change (8 * Z.of_nat 8) with 64. change (8 * Z.of_nat 2) with 16.
  unfold u16. rewrite Z.mod_mod by lia.
  by rewrite (Z.mod_small addr), (Z.mod_small n) by (unfold maxChunk in *; lia).
Defined.

#[local, refine] Instance arena_writable : WritableTarget arena (rt_mem (P := arena)) := _.
Proof.
  intros m mid addr data _ Ha Hd. eexists. split.
  { change (tgt_handle m ([cmdMemwr; x00; mid; chanDebug] ++ memwrBody addr data))
      with ([[respOK; x00; mid; chanDebug]], mem_store m (le_get (le_put 8 addr)) data). reflexivity. }
  intros a _. rewrite le_get_put. change (8 * Z.of_nat 8) with 64. by rewrite Z.mod_small.
Defined.

Definition arena_session : session arena := Session (λ _, x00) [] [] x01 [].

Lemma WriteMemory_ReadMemory_witness :
  ∃ s1 s2,
    WriteMemory 0x4000 [x7e; x7d; x00] (client_of arena_session) =
      (inr (Z.of_nat (length [x7e; x7d; x00]), None), client_of s1) ∧
    (∀ a, 0 <= a < 2 ^ 64 →
      rt_mem (s_peer s1) a = mem_store (rt_mem (s_peer arena_session)) 0x4000 [x7e; x7d; x00] a) ∧
    ReadMemory 0x4000 (Z.of_nat (length [x7e; x7d; x00])) (client_of s1) =
      (inr ([x7e; x7d; x00], None), client_of s2) ∧
    idle s2 ∧ s_peer s2 = s_peer s1 ∧ s_output s2 = s_output arena_session.
Proof. apply (WriteMemory_ReadMemory arena_session 0x4000 [x7e; x7d; x00]); [done|simpl; lia]. Defined.

(** ** Launching on the mock *)

Section mock_launch.
Implicit Types s : session mock.

Lemma mock_env_step s sub body :
  idle s → ∃ s', link_transactSub cmdEnv sub body s =
             (inr [respOK; x00; byte_add (s_mid s) x01; chanDebug], s') ∧ idle s'.
Proof.
  intros Hi. eexists. split; [|apply mock_after_idle].
  by apply (mock_transact s cmdEnv sub body respOK [] (mk_pid (s_peer s)) (mk_brk (s_peer s)) Hi).
Qed.

Lemma mock_runAll path rs last s :
  idle s → Forall (λ r : request, fst (fst r) = cmdEnv) rs →
  ∃ p s', runAll (launchRefused path) rs last s = (inr p, s') ∧ idle s'.
Proof.
  intros Hi Hrs. revert last s Hi.
  induction Hrs as [|[[cmd sub] body] rs Hr Hrs IH]; intros last s Hi; [by eexists _, _|].
  simpl in Hr. subst cmd. destruct (mock_env_step s sub body Hi) as (s1 & E & Hi1).
  cbn [runAll]. step_ok E. rewrite decide_False by done. by apply IH.
Qed.

Lemma runAll_snoc path rs r last s p s1 :
  runAll (launchRefused path) rs last s = (inr p, s1) →
  runAll (launchRefused path) (rs ++ [r]) last s = runAll (launchRefused path) [r] p s1.
Proof.
  revert last s. induction rs as [|[[cmd sub] body] rs IH]; intros last s.
  { by intros [= -> ->]. }
  cbn [app runAll]. unfold mbind, M_bind.
  destruct (link_transactSub cmd sub body s) as [[e|q] s2]; [done|].
  case_decide; [done|]. apply IH.
Qed.
End mock_launch.

(** Launching any program with any arguments and environment through the
    mock agent succeeds, and the result is the pid and tid of its Load reply. *)
Theorem Launch_mock (s : session mock) path args env :
  idle s →
  ∃ s', Launch path args env (client_of s) = (inr (MkLaunchResult 0x2000 1), client_of s') ∧
        idle s' ∧ mk_pid (s_peer s') = 0x2000.
Proof.
  intros Hi. destruct (refines_Launch path args env s (proj2 Hi)) as [-> _].
  rewrite Launch_runAll. unfold launchRequests. rewrite !app_assoc.
  match goal with |- context [runAll _ (?l ++ [(cmdLoad, _, _)])] => set (envs := l) end.
  destruct (mock_runAll path envs [] s Hi) as (p & s1 & E & Hi1).
  { unfold envs. repeat apply Forall_app_2; try (by repeat constructor);
      by apply Forall_fmap, Forall_true. }
  apply (runAll_snoc _ _ (cmdLoad, x00, loadBody path (path :: path :: args))) in E.
  pose proof (mock_transact s1 cmdLoad x00 (loadBody path (path :: path :: args)) respOKData
    (le_put 4 0x2000 ++ le_put 4 1 ++ str "mockproc") 0x2000 (mk_brk (s_peer s1)) Hi1 eq_refl) as El.
  cbn [runAll] in E. rewrite (bind_ok _ _ _ _ _ El), decide_False in E by done.
  eexists. split; [|split; [apply mock_after_idle|]].
  - step_ok E. reflexivity.
  - done.
Qed.

Lemma Launch_mock_witness :
  ∃ s', Launch (str "/tmp/prog") [str "-x"] None (client_of mock_session) =
          (inr (MkLaunchResult 0x2000 1), client_of s') ∧
        idle s' ∧ mk_pid (s_peer s') = 0x2000.
Proof. apply (Launch_mock mock_session (str "/tmp/prog") [str "-x"] None); done. Defined.

(** ** Instances of the reader theorems *)

Lemma readFrame_detects_corruption_witness :
  content [x05; frameChar] = [x05; escChar] ++ x5e :: [x7c] ∧
  ∃ got want, got ≠ want ∧
    readFrame (set_rx (frameChar :: ([x05; escChar] ++ x5f :: [x7c]) ++ frameChar :: [x41]) (client_of mock_session)) =
      (inl (EBadChecksum got want), set_rx [x41] (client_of mock_session)).
Proof.
  split; [done|].
  by apply (readFrame_detects_corruption (client_of mock_session) [x05; frameChar] [x05; escChar] x5e [x7c] x5f [x41]).
Defined.

Lemma readResponse_first_reply_witness :
  readResponse (set_rx (frames [[x00]; [x00; x00; x00; chanText; x48; x69]] ++
                  frame [respOK; x00; x02; chanDebug] ++ [x41]) (client_of mock_session)) =
    (inr [respOK; x00; x02; chanDebug],
     set_output (c_output (client_of mock_session) ++ textOf [[x00]; [x00; x00; x00; chanText; x48; x69]])
       (set_rx [x41] (client_of mock_session))).
Proof.
  apply (readResponse_first_reply (client_of mock_session)
    [[x00]; [x00; x00; x00; chanText; x48; x69]] [respOK; x00; x02; chanDebug] [x41]);
    [by repeat constructor | done].
Defined.
