(* ===== verification/DsmsgDecode.v ===== *)
(** * Protocol analysis: the frame scanner and the message annotator

    [internal/qnxdbg/decode.go]. [FrameScanner.Feed] cuts a byte stream that
    arrives in arbitrary pieces into DSMSG frames; [Annotate] describes one
    frame for the protocol-analysis proxy and the trace tools. *)

From stdpp Require Import base list numbers strings gmap.
From Stdlib Require Import ZArith Lia Strings.Byte.
From S2P Require Import Prelude GoStrconv Transport Dsmsg DsmsgClient DsmsgLink DsmsgCommands.

Local Open Scope Z_scope.

(** ** Names *)

Definition cmdNames : gmap byte (list byte) := list_to_map [
  (cmdConnect, str "Connect"); (cmdDisconnect, str "Disconnect"); (cmdSelect, str "Select");
  (cmdMapinfo, str "Mapinfo"); (cmdLoad, str "Load"); (cmdAttach, str "Attach");
  (cmdDetach, str "Detach"); (cmdKill, str "Kill"); (cmdStop, str "Stop");
  (cmdMemrd, str "Memrd"); (cmdMemwr, str "Memwr"); (cmdRegrd, str "Regrd");
  (cmdRegwr, str "Regwr"); (cmdRun, str "Run"); (cmdBrk, str "Brk");
  (cmdFileopen, str "Fileopen"); (cmdFilerd, str "Filerd"); (cmdFilewr, str "Filewr");
  (cmdFileclose, str "Fileclose"); (cmdPidlist, str "Pidlist"); (cmdCwd, str "Cwd");
  (cmdEnv, str "Env"); (cmdBase, str "Base"); (cmdProtover, str "Protover");
  (cmdHandlesig, str "Handlesig"); (cmdCPUInfo, str "CPUInfo"); (cmdTIDNames, str "TIDNames")].

Definition respNames : gmap byte (list byte) := list_to_map [
  (respErr, str "ERR"); (respOK, str "OK"); (respOKStatus, str "OKStatus");
  (respOKData, str "OKData"); (respNotify, str "NOTIFY")].

Definition CmdName (b : byte) : list byte :=
  default (str "cmd?0x" ++ fmt_02x b) (cmdNames !! b).

(** ** Message bodies *)

Definition decodeBody (code : byte) (isResp : bool) (b : list byte) : list byte :=
  if isResp then []
  else if decide (code = cmdAttach ∨ code = cmdDetach ∨ code = cmdKill) then
    if decide (4 ≤ length b)%nat then str "pid=" ++ fmt_d (le_get (slice 0 4 b)) else []
  else if decide (code = cmdSelect) then
    if decide (8 ≤ length b)%nat then
      str "pid=" ++ fmt_d (le_get (slice 0 4 b)) ++ str " tid=" ++ fmt_d (le_get (slice 4 8 b))
    else []
  else if decide (code = cmdMemrd ∨ code = cmdMemwr) then
    if decide (12 ≤ length b)%nat then
      str "addr=" ++ fmt_sharp_x (le_get (slice 4 12 b)) ++
      (if decide (code = cmdMemrd ∧ (14 ≤ length b)%nat)
       then str " size=" ++ fmt_d (le_get (slice 12 14 b)) else []) ++
      (if decide (code = cmdMemwr)
       then str " datalen=" ++ fmt_d (Z.of_nat (length b) - 12) else [])
    else []
  else if decide (code = cmdRegrd) then
    if decide (4 ≤ length b)%nat then
      str "off=" ++ fmt_sharp_x (le_get (slice 0 2 b)) ++ str " size=" ++ fmt_d (le_get (slice 2 4 b))
    else []
  else if decide (code = cmdRegwr) then
    if decide (2 ≤ length b)%nat then
      str "off=" ++ fmt_sharp_x (le_get (slice 0 2 b)) ++
      str " datalen=" ++ fmt_d (Z.of_nat (length b) - 2)
    else []
  else if decide (code = cmdBrk) then
    if decide (12 ≤ length b)%nat then
      let size := i32 (le_get (slice 0 4 b)) in
      let addr := le_get (slice 4 12 b) in
      let op := if size <? 0 then str "remove" else str "set" in
      str "BRK " ++ op ++ str " addr=" ++ fmt_sharp_x addr ++ str " size=" ++ fmt_d size
    else str "BRK"
  else [].

Definition Annotate (payload : list byte) : list byte :=
  match payload with
  | code :: sub :: mid :: ch :: body =>
      let isResp := 32 <=? Z_of_byte code in
      let name :=
        if isResp then
          match respNames !! code with
          | Some n => str "<-" ++ n
          | None => str "<-resp?0x" ++ fmt_02x code
          end
        else str "->" ++ CmdName code in
      let desc := name ++ str " sub=" ++ fmt_d (Z_of_byte sub) ++
        str " mid=" ++ fmt_d (Z_of_byte mid) ++ str " ch=" ++ fmt_d (Z_of_byte ch) in
      let d := decodeBody code isResp body in
      let desc := if decide (d = []) then desc else desc ++ str "  " ++ d in
      if decide (body = []) then desc else desc ++ str "  body=" ++ hex_of_bytes body
  | _ => str "control/short " ++ hex_of_bytes payload
  end.

(** ** The frame scanner *)

Record FrameScanner := MkFrameScanner { fs_buf : list byte }.

(** The buffer from its first non-delimiter byte on. *)
Fixpoint skipLeading (buf : list byte) : list byte :=
  match buf with
  | [] => []
  | b :: r => if decide (b = frameChar) then skipLeading r else buf
  end.

(** The bytes before the first delimiter, and the rest from it on. *)
Fixpoint spanContent (buf : list byte) : list byte * list byte :=
  match buf with
  | [] => ([], [])
  | b :: r => if decide (b = frameChar) then ([], buf)
              else let '(cont, rest) := spanContent r in (b :: cont, rest)
  end.

(** Every iteration that goes round again removes a frame from the buffer. *)
Fixpoint Feed_loop (fuel : nat) (buf : list byte) (payloads raws : list (list byte))
  : list (list byte) * list (list byte) * list byte :=
  match fuel with
  | O => (payloads, raws, buf)
  | S fuel =>
      match skipLeading buf with
      | [] => (payloads, raws, [])
      | buf1 =>
          let '(cont, rest) := spanContent buf1 in
          match rest with
          | [] => (payloads, raws, buf1)
          | _ =>
              let raw := [frameChar] ++ cont ++ [frameChar] in
              let dec := unescape cont in
              if decide (1 ≤ length dec)%nat
              then Feed_loop fuel rest (payloads ++ [take (length dec - 1) dec]) (raws ++ [raw])
              else Feed_loop fuel rest payloads raws
          end
      end
  end.

Definition Feed (data : list byte) (s : FrameScanner)
  : list (list byte) * list (list byte) * FrameScanner :=
  let buf := fs_buf s ++ data in
  let '(payloads, raws, buf) := Feed_loop (S (length buf)) buf [] [] in
  (payloads, raws, MkFrameScanner buf).

Definition HexDump (b : list byte) : list byte :=
  if decide (256 < length b)%nat then hex_of_bytes (take 256 b) ++ str "..."
  else hex_of_bytes b.

(** ** Reference scanner

    One byte at a time: a delimiter closes the content collected so far, if
    there is any. The contents of the closed frames and the open one. *)

Fixpoint scan (cur buf : list byte) : list (list byte) * list byte :=
  match buf with
  | [] => ([], cur)
  | b :: r =>
      if decide (b = frameChar) then
        let '(cs, last) := scan [] r in
        (if decide (cur = []) then cs else cur :: cs, last)
      else scan (cur ++ [b]) r
  end.

(** What [Feed] reports for one frame's content. *)
Definition payloadOf (cont : list byte) : list byte :=
  let dec := unescape cont in take (length dec - 1) dec.
Definition rawOf (cont : list byte) : list byte := [frameChar] ++ cont ++ [frameChar].

Lemma scan_app cur a b :
  scan cur (a ++ b) =
    let '(cs, mid) := scan cur a in let '(ds, last) := scan mid b in (cs ++ ds, last).
Proof.
  revert cur. induction a as [|c a IH]; intros cur; simpl; [by destruct (scan cur b)|].
  case_decide; [|apply IH]. rewrite IH. destruct (scan [] a) as [cs mid].
  destruct (scan mid b) as [ds last]. by case_decide.
Qed.

Lemma scan_open cur l : Forall (λ b, b ≠ frameChar) l → scan cur l = ([], cur ++ l).
Proof.
  intros Hl. revert cur. induction Hl as [|b l Hb Hl IH]; intros cur; simpl.
  - by rewrite app_nil_r.
  - rewrite decide_False by done. by rewrite IH, <- app_assoc.
Qed.

Lemma scan_closed l rest :
  l ≠ [] → Forall (λ b, b ≠ frameChar) l →
  scan [] (l ++ frameChar :: rest) = let '(cs, last) := scan [] rest in (l :: cs, last).
Proof.
  intros Hne Hl. rewrite scan_app, scan_open by done. simpl.
  destruct (scan [] rest). by rewrite decide_False.
Qed.

Lemma scan_skipLeading buf : scan [] (skipLeading buf) = scan [] buf.
Proof.
  induction buf as [|b buf IH]; [done|]. simpl. case_decide as Hb.
  - rewrite IH. by destruct (scan [] buf).
  - simpl. by rewrite decide_False.
Qed.

Lemma skipLeading_cases buf :
  (length (skipLeading buf) ≤ length buf)%nat ∧
  match skipLeading buf with [] => True | b :: _ => b ≠ frameChar end.
Proof.
  induction buf as [|b buf IH]; [done|]. simpl. case_decide; simpl; [|auto]. intuition lia.
Qed.

Lemma spanContent_spec buf cont rest :
  spanContent buf = (cont, rest) →
  buf = cont ++ rest ∧ Forall (λ b, b ≠ frameChar) cont ∧
  (rest = [] ∨ ∃ r, rest = frameChar :: r).
Proof.
  revert cont. induction buf as [|b buf IH]; intros cont; simpl.
  - intros [= <- <-]. auto.
  - case_decide as Hb; [intros [= <- <-]; subst; eauto|].
    destruct (spanContent buf) as [c r]. intros [= <- <-].
    destruct (IH c eq_refl) as (-> & Hc & Hr). auto.
Qed.

Lemma Feed_loop_scan fuel buf ps rs :
  (length buf < fuel)%nat →
  Feed_loop fuel buf ps rs =
    let '(cs, last) := scan [] buf in (ps ++ (payloadOf <$> cs), rs ++ (rawOf <$> cs), last).
Proof.
  revert buf ps rs. induction fuel as [|fuel IH]; intros buf ps rs Hf; [lia|].
  cbn [Feed_loop]. rewrite <- (scan_skipLeading buf).
  destruct (skipLeading_cases buf) as [Hlen Hhd].
  destruct (skipLeading buf) as [|b buf1]; [simpl; by rewrite !app_nil_r|].
  destruct (spanContent (b :: buf1)) as [cont rest] eqn:Esp.
  pose proof (spanContent_spec _ _ _ Esp) as (Ebuf & Hc & Hr).
  destruct Hr as [-> | [r ->]].
  { rewrite app_nil_r in Ebuf. subst cont. rewrite scan_open by done. simpl.
    by rewrite !app_nil_r. }
  assert (cont ≠ []) as Hne by (intros ->; simpl in Ebuf; congruence).
  rewrite Ebuf, scan_closed by done. rewrite decide_True.
  2: { pose proof (unescape_nonempty cont Hne). destruct (unescape cont); [done|simpl; lia]. }
  rewrite IH.
  - change (scan [] (frameChar :: r)) with
      (let '(cs, last) := scan [] r in (if decide (@nil byte = []) then cs else [] :: cs, last)).
    destruct (scan [] r) as [cs last]. rewrite decide_True by done.
    by rewrite <- !app_assoc.
  - rewrite Ebuf, length_app in Hlen. destruct cont; [done|]. simpl in *. lia.
Qed.

Lemma Feed_scan data s :
  Feed data s =
    let '(cs, last) := scan [] (fs_buf s ++ data) in
    (payloadOf <$> cs, rawOf <$> cs, MkFrameScanner last).
Proof.
  unfold Feed. rewrite Feed_loop_scan by lia. by destruct (scan [] _).
Qed.

(** What is kept between two calls is an open frame. *)
Lemma scan_last_open cur buf :
  Forall (λ b, b ≠ frameChar) cur → Forall (λ b, b ≠ frameChar) (snd (scan cur buf)).
Proof.
  revert cur. induction buf as [|b buf IH]; intros cur Hcur; [done|]. simpl.
  case_decide.
  - specialize (IH [] ltac:(constructor)). by destruct (scan [] buf).
  - apply IH. apply Forall_app. auto.
Qed.

(** ** Feeding a stream piece by piece *)

Fixpoint feedAll (chunks : list (list byte)) (s : FrameScanner)
  : list (list byte) * list (list byte) * FrameScanner :=
  match chunks with
  | [] => ([], [], s)
  | d :: chunks =>
      let '(ps, rs, s) := Feed d s in
      let '(qs, ts, s) := feedAll chunks s in (ps ++ qs, rs ++ ts, s)
  end.

Lemma feedAll_scan chunks buf :
  Forall (λ b, b ≠ frameChar) buf →
  feedAll chunks (MkFrameScanner buf) =
    let '(cs, last) := scan buf (concat chunks) in
    (payloadOf <$> cs, rawOf <$> cs, MkFrameScanner last).
Proof.
  revert buf. induction chunks as [|d chunks IH]; intros buf Hb; [done|].
  cbn [feedAll concat]. rewrite Feed_scan. cbn [fs_buf].
  rewrite scan_app, (scan_open [] buf) by done. simpl ([] ++ buf).
  rewrite scan_app. pose proof (scan_last_open buf d Hb) as Hmid.
  destruct (scan buf d) as [cs mid]. simpl in *. rewrite (IH mid Hmid).
  destruct (scan mid (concat chunks)) as [ds last]. by rewrite !fmap_app.
Qed.

Lemma payloadOf_stuffed p cs : payloadOf (escape (p ++ [cs])) = p.
Proof.
  unfold payloadOf. rewrite unescape_escape, length_app. simpl.
  replace (length p + 1 - 1)%nat with (length p) by lia. apply take_app_length.
Qed.

Lemma scan_frames ps : scan [] (frames ps) = (content <$> ps, []).
Proof.
  induction ps as [|p ps IH]; [done|]. change (frames (p :: ps)) with (frame p ++ frames ps).
  rewrite frame_content. cbn [app].
  change (scan [] (frameChar :: ?x)) with (let '(cs, last) := scan [] x in (cs, last)).
  rewrite <- app_assoc. cbn [app].
  rewrite scan_closed, IH by auto using content_nonempty, content_no_frame. done.
Qed.

(** C31: Scanning is independent of how the stream is cut. Feeding the pieces
    of a stream one after the other reports the same payloads and raw frames,
    in the same order, as feeding the whole stream at once, and keeps the same
    open frame. *)
Theorem Feed_chunking (chunks : list (list byte)) :
  feedAll chunks (MkFrameScanner []) = Feed (concat chunks) (MkFrameScanner []).
Proof. rewrite Feed_scan. by apply feedAll_scan. Qed.

(** Scanning recovers what was sent. For every sequence of messages and
    every way of cutting its encoding into reads, the scanner reports exactly
    these payloads, their on-wire bytes, and keeps nothing. *)
Theorem Feed_frames (ps chunks : list (list byte)) :
  concat chunks = frames ps →
  feedAll chunks (MkFrameScanner []) = (ps, frame <$> ps, MkFrameScanner []).
Proof.
  intros Ec. rewrite feedAll_scan by done. rewrite Ec, scan_frames.
  rewrite <- !list_fmap_compose. f_equal. f_equal.
  - rewrite <- (list_fmap_id ps) at 2. apply list_fmap_ext. intros ? p _. apply payloadOf_stuffed.
  - apply list_fmap_ext. intros ? p _. simpl. by rewrite frame_content.
Qed.

Lemma Feed_frames_witness :
  feedAll [take 5 (frames [[x05; x00; x02; x01; x7e]; [x20]]); drop 5 (frames [[x05; x00; x02; x01; x7e]; [x20]])]
    (MkFrameScanner []) =
  ([[x05; x00; x02; x01; x7e]; [x20]], frame <$> [[x05; x00; x02; x01; x7e]; [x20]], MkFrameScanner []).
Proof. apply (Feed_frames [[x05; x00; x02; x01; x7e]; [x20]]). reflexivity. Defined.

(** The scanner does not check the checksum. Whatever the check byte, the
    frame's payload is reported; the reader of the client reports the same
    frame as corrupt whenever the check byte is wrong. *)
Theorem Feed_ignores_checksum {P} `{Peer P} (c : Client P) (p : list byte) (cs : byte) :
  let wire := frameChar :: escape (p ++ [cs]) ++ [frameChar] in
  Feed wire (MkFrameScanner []) = ([p], [wire], MkFrameScanner []) ∧
  (checksum p ≠ cs →
   fst (readFrame (set_rx wire c)) = inl (EBadChecksum cs (checksum p))).
Proof.
  intros wire.
  assert (escape (p ++ [cs]) ≠ []) as Hne by (apply escape_nonempty; by destruct p).
  split.
  - rewrite Feed_scan. unfold wire. cbn [fs_buf app].
    change (scan [] (frameChar :: ?x)) with (let '(cs, last) := scan [] x in (cs, last)).
    rewrite scan_closed by auto using escape_no_frame. simpl. by rewrite payloadOf_stuffed.
  - intros Hcs. change wire with (replicate 1 frameChar ++ escape (p ++ [cs]) ++ frameChar :: []).
    rewrite readFrame_content by auto using escape_no_frame. simpl.
    rewrite (checkContent_stuffed _ p cs) by apply unescape_escape. by rewrite decide_False.
Qed.

(** ** The annotator describes the requests the client sends *)

Lemma slice_app_skip a b lo hi :
  lo = length a → hi = (length a + length b)%nat → ∀ r, slice lo hi (a ++ b ++ r) = b.
Proof.
  intros -> -> r. unfold slice. rewrite drop_app_length.
  replace (length a + length b - length a)%nat with (length b) by lia. apply take_app_length.
Qed.

Lemma slice_le a n v r lo hi :
  lo = length a → hi = (length a + n)%nat →
  le_get (slice lo hi (a ++ le_put n v ++ r)) = v `mod` 2 ^ (8 * Z.of_nat n).
Proof.
  intros -> ->. rewrite slice_app_skip by (rewrite ?length_le_put; done). apply le_get_put.
Qed.

Lemma slice_le_head n v r : le_get (slice 0 n (le_put n v ++ r)) = v `mod` 2 ^ (8 * Z.of_nat n).
Proof. by apply (slice_le []). Qed.

Lemma slice_le_tail a n v :
  le_get (slice (length a) (length a + n) (a ++ le_put n v)) = v `mod` 2 ^ (8 * Z.of_nat n).
Proof. rewrite <- (app_nil_r (le_put n v)). by apply slice_le. Qed.

(** Decide the guards of [decodeBody] on a body of known shape. *)
Ltac decode_guards :=
  unfold decodeBody, memrdBody, memwrBody, brkBody, le16, le32, le64;
  repeat first
    [ rewrite decide_False by (vm_compute; intuition discriminate)
    | rewrite decide_True by (rewrite ?length_app, ?length_le_put; simpl; intuition lia) ].

Lemma decodeBody_pid cmd pid :
  cmd = cmdAttach ∨ cmd = cmdDetach ∨ cmd = cmdKill →
  decodeBody cmd false (le32 (u32 pid)) = str "pid=" ++ fmt_d (u32 pid).
Proof.
  intros [-> | [-> | ->]]; decode_guards; rewrite <- (app_nil_r (le_put 4 _)), slice_le_head;
    unfold u32; by rewrite Z.mod_mod.
Qed.

Lemma decodeBody_select pid tid :
  decodeBody cmdSelect false (le32 (u32 pid) ++ le32 (u32 tid)) =
    str "pid=" ++ fmt_d (u32 pid) ++ str " tid=" ++ fmt_d (u32 tid).
Proof.
  decode_guards. rewrite slice_le_head. pose proof (slice_le_tail (le_put 4 (u32 pid)) 4 (u32 tid)) as E.
  rewrite length_le_put in E. change (4 + 4)%nat with 8%nat in E. rewrite E.
  unfold u32. by rewrite !Z.mod_mod.
Qed.

Lemma decodeBody_memrd addr want :
  decodeBody cmdMemrd false (memrdBody addr want) =
    str "addr=" ++ fmt_sharp_x (u64 addr) ++ str " size=" ++ fmt_d (u16 want).
Proof.
  decode_guards. rewrite (slice_le (zeros 4) 8 addr), (app_assoc (zeros 4)) by done.
  rewrite (slice_le (zeros 4 ++ le_put 8 addr) 2) by (by rewrite length_app, length_le_put).
  unfold u16. rewrite app_nil_r. by rewrite Z.mod_mod.
Qed.

Lemma decodeBody_memwr addr data :
  decodeBody cmdMemwr false (memwrBody addr data) =
    str "addr=" ++ fmt_sharp_x (u64 addr) ++ str " datalen=" ++ fmt_d (Z.of_nat (length data)).
Proof.
  decode_guards. rewrite (slice_le (zeros 4) 8 addr) by done.
  rewrite !length_app, length_le_put. simpl (length (zeros 4)).
  by replace (Z.of_nat (4 + (8 + length data)) - 12) with (Z.of_nat (length data)) by lia.
Qed.

Lemma decodeBody_regwr off data :
  decodeBody cmdRegwr false (le16 (u16 off) ++ data) =
    str "off=" ++ fmt_sharp_x (u16 off) ++ str " datalen=" ++ fmt_d (Z.of_nat (length data)).
Proof.
  decode_guards. rewrite slice_le_head, length_app, length_le_put.
  replace (Z.of_nat (2 + length data) - 2) with (Z.of_nat (length data)) by lia.
  unfold u16. by rewrite Z.mod_mod.
Qed.

Lemma i32_idemp z : i32 (u32 (i32 z)) = i32 z.
Proof. apply i32_u32. unfold i32. pose proof (Z.mod_pos_bound (z + 2 ^ 31) (2 ^ 32)). lia. Qed.

Lemma decodeBody_brk addr size :
  decodeBody cmdBrk false (brkBody addr size) =
    str "BRK " ++ (if i32 size <? 0 then str "remove" else str "set") ++
    str " addr=" ++ fmt_sharp_x (u64 addr) ++ str " size=" ++ fmt_d (i32 size).
Proof.
  decode_guards. rewrite slice_le_head.
  pose proof (slice_le_tail (le_put 4 (u32 (i32 size))) 8 addr) as E.
  rewrite length_le_put in E. change (4 + 8)%nat with 12%nat in E. rewrite E.
  change (u32 (i32 size) `mod` 2 ^ (8 * Z.of_nat 4)) with (u32 (u32 (i32 size))).
  rewrite (u32_small (u32 _)) by apply u32_range. by rewrite i32_idemp.
Qed.

(** The annotator agrees with the encoder. For every request body the
    client builds, the analysis text shows the pid, thread, address, size and
    operation that were encoded, at their wire width; a breakpoint request is
    shown as a removal exactly for a negative size. *)
Theorem decodeBody_requests (pid tid addr want off size : Z) (data : list byte) :
  decodeBody cmdAttach false (le32 (u32 pid)) = str "pid=" ++ fmt_d (u32 pid) ∧
  decodeBody cmdSelect false (le32 (u32 pid) ++ le32 (u32 tid)) =
    str "pid=" ++ fmt_d (u32 pid) ++ str " tid=" ++ fmt_d (u32 tid) ∧
  decodeBody cmdMemrd false (memrdBody addr want) =
    str "addr=" ++ fmt_sharp_x (u64 addr) ++ str " size=" ++ fmt_d (u16 want) ∧
  decodeBody cmdMemwr false (memwrBody addr data) =
    str "addr=" ++ fmt_sharp_x (u64 addr) ++ str " datalen=" ++ fmt_d (Z.of_nat (length data)) ∧
  decodeBody cmdRegwr false (le16 (u16 off) ++ data) =
    str "off=" ++ fmt_sharp_x (u16 off) ++ str " datalen=" ++ fmt_d (Z.of_nat (length data)) ∧
  decodeBody cmdBrk false (brkBody addr size) =
    str "BRK " ++ (if i32 size <? 0 then str "remove" else str "set") ++
    str " addr=" ++ fmt_sharp_x (u64 addr) ++ str " size=" ++ fmt_d (i32 size).
Proof.
  split_and!; auto using decodeBody_pid, decodeBody_select, decodeBody_memrd, decodeBody_memwr,
    decodeBody_regwr, decodeBody_brk.
Qed.

(** ** The memory map of a process *)

(** A 24-byte map entry: pid, id, start address and size. *)
Record mapEntry := MkMapEntry { me_pid : Z; me_id : Z; me_vaddr : Z; me_size : Z }.

Definition mapBytes (e : mapEntry) : list byte :=
  (le32 (me_pid e) ++ le32 (me_id e)) ++ le64 (me_vaddr e) ++ le64 (me_size e).

Definition mapWidth (e : mapEntry) : Prop :=
  0 <= me_vaddr e < 2 ^ 64 ∧ 0 <= me_size e < 2 ^ 64.

(** The entries worth keeping, as the reply's documentation puts it. *)
Definition plausible (e : mapEntry) : Prop :=
  me_vaddr e ≠ 0 ∧ me_vaddr e `mod` 4096 = 0 ∧ 0 < me_size e < 2 ^ 40.

#[export] Instance plausible_dec e : Decision (plausible e).
Proof. unfold plausible. apply _. Defined.

Definition segmentOf (e : mapEntry) : MapSegment := MkMapSegment (me_vaddr e) (me_size e).

Lemma goodSegment_plausible e :
  mapWidth e → goodSegment (me_vaddr e) (me_size e) = bool_decide (plausible e).
Proof.
  destruct e as [pid id v s]. intros [Hv Hs]. simpl in *.
  unfold goodSegment, plausible. simpl. change 0xfff with (Z.ones 12).
  rewrite Z.land_ones by lia. change (2 ^ 12) with 4096. change maxSegSize with (2 ^ 40).
  apply eq_bool_prop_intro. rewrite bool_decide_spec.
  rewrite !andb_True, !negb_True. unfold Is_true.
  destruct (Z.eqb_spec v 0), (Z.eqb_spec (v `mod` 4096) 0), (Z.eqb_spec s 0), (Z.ltb_spec s (2 ^ 40));
    intuition lia.
Qed.

Lemma length_mapBytes e : length (mapBytes e) = 24%nat.
Proof. unfold mapBytes, le64, le32. by rewrite !length_app, !length_le_put. Qed.

Lemma mapBytes_fields e r :
  mapWidth e →
  le_get (slice 8 16 (mapBytes e ++ r)) = me_vaddr e ∧
  le_get (slice 16 24 (mapBytes e ++ r)) = me_size e.
Proof.
  intros [Hv Hs]. unfold mapBytes, le64, le32.
  set (h := le_put 4 (me_pid e) ++ le_put 4 (me_id e)).
  assert (length h = 8%nat) as Hh by (unfold h; by rewrite length_app, !length_le_put).
  rewrite <- !app_assoc. split.
  - rewrite (slice_le h 8) by lia. by apply Z.mod_small.
  - rewrite (app_assoc h), (slice_le (h ++ _) 8) by (rewrite length_app, length_le_put; lia).
    by apply Z.mod_small.
Qed.

Lemma ParseMapInfo_loop_entries fuel es tail :
  Forall mapWidth es → (length tail < 24)%nat → (length es ≤ fuel)%nat →
  ParseMapInfo_loop fuel (concat (mapBytes <$> es) ++ tail) = segmentOf <$> filter plausible es.
Proof.
  intros Hes Htail. revert fuel. induction Hes as [|e es He Hes IH]; intros fuel Hf.
  - destruct fuel; [done|]. cbn [ParseMapInfo_loop fmap list_fmap concat app].
    by rewrite decide_False by lia.
  - destruct fuel as [|fuel]; [simpl in Hf; lia|]. cbn [fmap list_fmap concat]. rewrite <- app_assoc.
    cbn [ParseMapInfo_loop]. rewrite decide_True by (rewrite length_app, length_mapBytes; lia).
    destruct (mapBytes_fields e (concat (mapBytes <$> es) ++ tail) He) as [-> ->].
    rewrite drop_app_length' by (by rewrite length_mapBytes).
    simpl in Hf. rewrite IH by lia. rewrite goodSegment_plausible by done.
    rewrite filter_cons. case_bool_decide; [by rewrite decide_True | by rewrite decide_False].
Qed.

(** Parsing a memory map. For every sequence of map entries, followed by
    an incomplete one, the parser returns, in order, exactly the entries whose
    start is a non-zero multiple of the page size and whose size is non-zero
    and below one TiB. *)
Theorem ParseMapInfo_entries (es : list mapEntry) (tail : list byte) :
  Forall mapWidth es → (length tail < 24)%nat →
  ParseMapInfo (concat (mapBytes <$> es) ++ tail) = segmentOf <$> filter plausible es.
Proof.
  intros Hes Htail. unfold ParseMapInfo. rewrite ParseMapInfo_loop_entries; [done..|].
  rewrite length_app. clear Hes. induction es as [|e es IH]; cbn [fmap list_fmap concat length]; [lia|].
  rewrite length_app, length_mapBytes. lia.
Qed.

Lemma ParseMapInfo_entries_witness :
  ParseMapInfo (concat (mapBytes <$> [MkMapEntry 7 1 0x100000 0x3000; MkMapEntry 7 2 0x1001 5]) ++ [x00]) =
    segmentOf <$> filter plausible [MkMapEntry 7 1 0x100000 0x3000; MkMapEntry 7 2 0x1001 5].
Proof.
  apply (ParseMapInfo_entries [MkMapEntry 7 1 0x100000 0x3000; MkMapEntry 7 2 0x1001 5] [x00]);
    [repeat constructor; simpl; lia | simpl; lia].
Defined.
