(* ===== verification/Proxy.v ===== *)
(** * The capture proxies

    [internal/proxy/proxy.go] and [cmd/dsmsg-proxy/main.go]: two pumps, one per
    direction, between the connection of a client and one to the target. The
    two programs differ in what a pump does with the chunks it has forwarded,
    so the pumps are written over that function. The reads of a pump, its
    writes and the close at its end are separate steps, which interleave with
    those of the other pump and with what the two remote ends do. *)

From stdpp Require Import base list numbers strings gmap relations.
From Stdlib Require Import ZArith Lia Strings.Byte.
From S2P Require Import Prelude GoStrconv GoStrings Dsmsg DsmsgClient DsmsgDecode.

Local Open Scope Z_scope.

(** ** Connections *)

Record conn := MkConn {
  k_sent : list byte;     (* history: all the remote end has sent *)
  k_in : list byte;       (* sent, not read yet *)
  k_fin : bool;           (* the remote end sends no more *)
  k_reset : bool;         (* the connection is broken: writes are lost *)
  k_out : list byte;      (* delivered to the remote end *)
  k_open : bool           (* not closed by the proxy *)
}.

Definition newConn : conn := MkConn [] [] false false [] true.

(** [src.Read(buf)] when [n] bytes (at least one) could be had and [buf] holds
    [size]; [None] while the call blocks. *)
Definition readConn (size n : nat) (c : conn) : option (list byte * bool * conn) :=
  if k_open c then
    match k_in c with
    | [] => if k_fin c then Some ([], true, c) else None
    | rx =>
        let m := Nat.min size (S n) in
        Some (take m rx, false, MkConn (k_sent c) (drop m rx) (k_fin c) (k_reset c) (k_out c) (k_open c))
    end
  else Some ([], true, c).

(** [dst.Write(b)], whose error is ignored. *)
Definition writeConn (b : list byte) (c : conn) : conn :=
  if k_open c && negb (k_reset c)
  then MkConn (k_sent c) (k_in c) (k_fin c) (k_reset c) (k_out c ++ b) (k_open c) else c.

(** [dst.Close()]: both directions. *)
Definition closeConn (c : conn) : conn :=
  MkConn (k_sent c) (k_in c) (k_fin c) (k_reset c) (k_out c) false.

(** What a remote end does: send, finish, or break the connection, which
    discards what was not read. *)
Inductive remote : conn → conn → Prop :=
  | remote_send c b : k_fin c = false →
      remote c (MkConn (k_sent c ++ b) (k_in c ++ b) (k_fin c) (k_reset c) (k_out c) (k_open c))
  | remote_fin c : remote c (MkConn (k_sent c) (k_in c) true (k_reset c) (k_out c) (k_open c))
  | remote_reset c : remote c (MkConn (k_sent c) [] true true (k_out c) (k_open c)).

(** ** Pumps *)

Inductive phase :=
  | PRead                                   (* before a read *)
  | PWrite (chunk : list byte) (failed : bool)  (* a chunk to forward; did the read fail as well *)
  | PEnd                                    (* the read failed *)
  | PStopped.

Section pump.
Context {L : Type} (size : nat) (onChunk : L → list byte → L).

(** One side of a session: a connection, the pump that reads it, what the pump
    has logged and, for the record, the chunks it has forwarded. *)
Record side := MkSide { d_conn : conn; d_phase : phase; d_log : L; d_seen : list (list byte) }.

Definition set_conn (c : conn) (a : side) : side := MkSide c (d_phase a) (d_log a) (d_seen a).

(** One step of the pump that reads [a] and writes [b]. *)
Definition pump (n : nat) (a b : side) : option (side * side) :=
  match d_phase a with
  | PRead =>
      '(chunk, err, c) ← readConn size n (d_conn a);
      let next := if decide (chunk = []) then (if (err : bool) then PEnd else PRead) else PWrite chunk err in
      Some (MkSide c next (d_log a) (d_seen a), b)
  | PWrite chunk err =>
      Some (MkSide (d_conn a) (if err then PEnd else PRead) (onChunk (d_log a) chunk) (d_seen a ++ [chunk]),
            set_conn (writeConn chunk (d_conn b)) b)
  | PEnd => Some (MkSide (d_conn a) PStopped (d_log a) (d_seen a), set_conn (closeConn (d_conn b)) b)
  | PStopped => None
  end.

(** The sides of the client and of the target, with all that can happen. *)
Inductive session_step : side * side → side * side → Prop :=
  | step_remote a b c : remote (d_conn a) c → session_step (a, b) (set_conn c a, b)
  | step_pump n a b a' b' : pump n a b = Some (a', b') → session_step (a, b) (a', b')
  | step_other a b a' b' : session_step (a, b) (a', b') → session_step (b, a) (b', a').

(** The session [handle] starts once the target is dialled. *)
Definition handle (client target : conn) (l1 l2 : L) : side * side :=
  (MkSide client PRead l1 [], MkSide target PRead l2 []).

(** [handle] with the outcome of the dial: the client is closed when there is
    no target. *)
Definition handleClient (client : conn) (dial : option conn) (l1 l2 : L) : conn + side * side :=
  match dial with
  | None => inl (closeConn client)
  | Some target => inr (handle client target l1 l2)
  end.

(** ** The invariant of one direction *)

(** A chunk read and not forwarded yet. *)
Definition inflight (p : phase) : list byte := match p with PWrite chunk _ => chunk | _ => [] end.

(** Has the read of the pump failed? *)
Definition failed (p : phase) : bool := match p with PRead => false | PWrite _ err => err | _ => true end.

Record forwards (l0 : L) (a b : side) : Prop := {
  fw_sent : ∃ rest, k_sent (d_conn a) = concat (d_seen a) ++ inflight (d_phase a) ++ rest ∧
    (k_reset (d_conn a) = false → rest = k_in (d_conn a));
  fw_in : k_reset (d_conn a) = true → k_in (d_conn a) = [] ∧ k_fin (d_conn a) = true;
  fw_out : k_out (d_conn b) `prefix_of` concat (d_seen a);
  fw_all : k_open (d_conn b) = true → k_reset (d_conn b) = false → k_out (d_conn b) = concat (d_seen a);
  fw_log : d_log a = foldl onChunk l0 (d_seen a);
  fw_phase : (failed (d_phase a) = true → k_open (d_conn a) = false ∨ k_fin (d_conn a) = true) ∧
    (d_phase a = PStopped → k_open (d_conn b) = false)
}.

Lemma forwards_remote l0 a b c :
  remote (d_conn a) c → forwards l0 a b → forwards l0 (set_conn c a) b.
Proof.
  intros Hr [(rest & Hs & Hrest) Hin Ho Ha Hl [Hp1 Hp2]]. destruct Hr; split; simpl; try done.
  - exists (rest ++ b0). rewrite Hs, <- !app_assoc. split; [done|]. intros Hn. by rewrite (Hrest Hn).
  - intros Hn. destruct (Hin Hn). congruence.
  - by exists rest.
  - intros Hn. by destruct (Hin Hn).
  - split; [|done]. by right.
  - by exists rest.
  - split; [|done]. by right.
Qed.

Lemma forwards_remote_dst l0 a b c :
  remote (d_conn b) c → forwards l0 a b → forwards l0 a (set_conn c b).
Proof. intros Hr []. destruct Hr; by split. Qed.

(** Reading takes a chunk off the front of what was sent. *)
Lemma readConn_cases n c chunk err c' :
  readConn size n c = Some (chunk, err, c') →
  k_sent c' = k_sent c ∧ k_fin c' = k_fin c ∧ k_reset c' = k_reset c ∧
  k_out c' = k_out c ∧ k_open c' = k_open c ∧ k_in c = chunk ++ k_in c' ∧
  (err = true → chunk = [] ∧ (k_open c = false ∨ k_fin c = true)).
Proof.
  unfold readConn. destruct (k_open c) eqn:Eo; [|intros [= <- <- <-]; rewrite Eo; naive_solver].
  destruct (k_in c) as [|b rx] eqn:Ei.
  - destruct (k_fin c) eqn:Ef; [|done]. intros [= <- <- <-]. rewrite Eo, Ef, Ei. naive_solver.
  - intros [= <- <- <-]. cbn [k_sent k_in k_fin k_reset k_out k_open]. by rewrite take_drop.
Qed.

Lemma pump_forwards l0 n a b a' b' :
  pump n a b = Some (a', b') → forwards l0 a b → forwards l0 a' b'.
Proof.
  intros Hp [(rest & Hs & Hrest) Hin Ho Ha Hl [Hp1 Hp2]]. unfold pump in Hp.
  destruct (d_phase a) as [|chunk err| |] eqn:Eph.
  - destruct (readConn size n (d_conn a)) as [[[chunk err] c']|] eqn:Er; [|done].
    apply readConn_cases in Er as (Es & Ef & Erst & Eo & Eop & Ei & Herr).
    simpl in Hp. injection Hp as <- <-. split; simpl; rewrite ?Es, ?Erst, ?Ef, ?Eop; auto.
    + destruct (k_reset (d_conn a)) eqn:Ek.
      * destruct (Hin eq_refl) as [Hnil _]. rewrite Hnil in Ei. symmetry in Ei.
        apply app_eq_nil in Ei as [-> _]. exists rest. split; [|done].
        rewrite Hs. by destruct err.
      * exists (k_in c'). split; [|done]. rewrite Hs, (Hrest eq_refl), Ei. simpl.
        case_decide as Hc; [subst chunk; by destruct err|]. done.
    + intros Hn. destruct (Hin Hn) as [Hnil ?]. rewrite Hnil in Ei. symmetry in Ei.
      by apply app_eq_nil in Ei as [_ ->].
    + destruct err; [|by case_decide]. destruct (Herr eq_refl) as [-> Hend]. done.
  - injection Hp as <- <-. simpl in Hs. split; simpl; rewrite ?concat_app; simpl; rewrite ?app_nil_r.
    + exists rest. split; [|done]. rewrite Hs. destruct err; by rewrite <- app_assoc.
    + done.
    + unfold writeConn. destruct (k_open (d_conn b)) eqn:E1, (k_reset (d_conn b)) eqn:E2; simpl;
        [by apply prefix_app_r| |by apply prefix_app_r..]. by rewrite (Ha eq_refl eq_refl).
    + unfold writeConn. destruct (k_open (d_conn b)) eqn:E1, (k_reset (d_conn b)) eqn:E2; simpl;
        rewrite ?E1, ?E2; try done. intros _ _. by rewrite (Ha eq_refl eq_refl).
    + by rewrite foldl_app, Hl.
    + split; [|by destruct err]. intros Hf. apply Hp1. by destruct err.
  - injection Hp as <- <-. split; simpl; try done; eauto.
  - done.
Qed.

(** The pump of the other direction is not disturbed. *)
Lemma pump_forwards_other l0 n a b a' b' :
  pump n a b = Some (a', b') → forwards l0 b a → forwards l0 b' a'.
Proof.
  intros Hp [Hs Hin Ho Ha Hl [Hp1 Hp2]]. unfold pump in Hp.
  destruct (d_phase a) as [|chunk err| |] eqn:Eph.
  - destruct (readConn size n (d_conn a)) as [[[chunk err] c']|] eqn:Er; [|done].
    apply readConn_cases in Er as (Es & Ef & Erst & Eo & Eop & _).
    simpl in Hp. injection Hp as <- <-. split; simpl; rewrite ?Eo, ?Eop, ?Erst; auto.
  - injection Hp as <- <-. unfold writeConn. destruct (k_open (d_conn b) && negb (k_reset (d_conn b))); by split.
  - injection Hp as <- <-. split; simpl; auto.
  - done.
Qed.

Lemma step_forwards l1 l2 ab ab' :
  session_step ab ab' →
  forwards l1 (fst ab) (snd ab) ∧ forwards l2 (snd ab) (fst ab) →
  forwards l1 (fst ab') (snd ab') ∧ forwards l2 (snd ab') (fst ab').
Proof.
  intros Hs. revert l1 l2.
  induction Hs as [a b c Hr|n a b a' b' Hp|a b a' b' _ IH]; simpl in *; intros l1 l2 [H1 H2].
  - split; [by apply forwards_remote | by apply forwards_remote_dst].
  - split; [by eapply pump_forwards | by eapply pump_forwards_other].
  - destruct (IH l2 l1); auto.
Qed.

Lemma session_forwards l1 l2 ab :
  rtc session_step (handle newConn newConn l1 l2) ab →
  forwards l1 (fst ab) (snd ab) ∧ forwards l2 (snd ab) (fst ab).
Proof.
  intros Hr. apply (rtc_ind_r (λ ab, forwards l1 (fst ab) (snd ab) ∧ forwards l2 (snd ab) (fst ab))
    (handle newConn newConn l1 l2)) in Hr; [done| |].
  - split; split; simpl; try done; by exists [].
  - intros ab1 ab2 _ Hst IH. by eapply step_forwards.
Qed.
End pump.

(** ** What a pump forwards *)

Section facts.
Context {L : Type} (size : nat) (onChunk : L → list byte → L) (l1 l2 : L).
Implicit Types a b : side (L := L).

(** The two directions of a session, from [x] to [y] with first log [l]. *)
Definition direction (ab : side (L := L) * side (L := L)) (x y : side (L := L)) (l : L) : Prop :=
  ab = (x, y) ∧ l = l1 ∨ ab = (y, x) ∧ l = l2.

Lemma direction_forwards ab x y l :
  rtc (session_step size onChunk) (handle newConn newConn l1 l2) ab → direction ab x y l →
  forwards onChunk l x y.
Proof. intros Hr [[-> ->]|[-> ->]]; by apply session_forwards in Hr as [? ?]. Qed.

(** Nothing new reaches [a] once the pump that reads it has stopped: the
    connection [b] is closed, so only a chunk already read can follow. *)
Definition cut (X : list byte) a b : Prop :=
  d_phase a = PStopped ∧ k_open (d_conn b) = false ∧ k_out (d_conn a) ++ inflight (d_phase b) `prefix_of` X.

Lemma cut_remote X a b c : remote (d_conn a) c → cut X a b → cut X (set_conn c a) b.
Proof. intros Hr (Hp & Ho & Hx). destruct Hr; done. Qed.

Lemma cut_remote_dst X a b c : remote (d_conn b) c → cut X a b → cut X a (set_conn c b).
Proof. intros Hr (Hp & Ho & Hx). destruct Hr; done. Qed.

Lemma cut_pump X n a b a' b' : pump size onChunk n b a = Some (b', a') → cut X a b → cut X a' b'.
Proof.
  intros Hpu (Hp & Ho & Hx). unfold pump in Hpu. destruct (d_phase b) as [|chunk err| |] eqn:Eb.
  - unfold readConn in Hpu. rewrite Ho in Hpu. simpl in Hpu. injection Hpu as <- <-. by split_and!.
  - injection Hpu as <- <-. simpl in *. split_and!; [done|done|]. unfold writeConn. simpl.
    destruct (k_open (d_conn a) && negb (k_reset (d_conn a))); simpl.
    + destruct err; simpl; by rewrite app_nil_r.
    + destruct err; simpl; rewrite app_nil_r; by eapply prefix_app_l.
  - injection Hpu as <- <-. by split_and!.
  - done.
Qed.

Lemma cut_step X ab ab' :
  session_step size onChunk ab ab' →
  (cut X (fst ab) (snd ab) → cut X (fst ab') (snd ab')) ∧
  (cut X (snd ab) (fst ab) → cut X (snd ab') (fst ab')).
Proof.
  induction 1 as [a b c Hr|n a b a' b' Hp|a b a' b' _ [IH1 IH2]]; simpl in *; [| |done].
  - split; [by apply cut_remote | by apply cut_remote_dst].
  - split; [|by apply (cut_pump X n)]. intros (Hst & _). unfold pump in Hp. by rewrite Hst in Hp.
Qed.
End facts.

(** C20: The proxy is transparent. Whatever the remote ends do and however the
    two pumps interleave, in both directions what has been delivered is a
    prefix of what was sent, in order and unchanged; the log holds exactly the
    forwarded chunks; and while both connections are healthy and the pump has
    nothing left to read, everything sent has been delivered. *)
Theorem proxy_transparent {L} size (onChunk : L → list byte → L) l1 l2 ab x y l :
  rtc (session_step size onChunk) (handle newConn newConn l1 l2) ab → direction l1 l2 ab x y l →
  k_out (d_conn y) `prefix_of` k_sent (d_conn x) ∧
  d_log x = foldl onChunk l (d_seen x) ∧
  concat (d_seen x) `prefix_of` k_sent (d_conn x) ∧
  (k_reset (d_conn x) = false → k_open (d_conn y) = true → k_reset (d_conn y) = false →
   d_phase x = PRead → k_in (d_conn x) = [] → k_out (d_conn y) = k_sent (d_conn x)).
Proof.
  intros Hr Hd. destruct (direction_forwards _ _ _ _ _ _ _ _ Hr Hd) as [(rest & Hs & Hrest) _ Ho Ha Hl _].
  assert (concat (d_seen x) `prefix_of` k_sent (d_conn x)) as Hpre by (rewrite Hs; by eexists).
  split_and!; [by etrans|done|done|].
  intros Hrx Hoy Hry Hph Hin. rewrite (Ha Hoy Hry), Hs, Hph, (Hrest Hrx), Hin. simpl. by rewrite app_nil_r.
Qed.

(** C40: A half-close cuts the answer off. Once the pump that reads the client
    has seen the end of its input and stopped, the client is delivered at most
    the chunk that was being forwarded to it at that moment: whatever else the
    target has sent, or will send, is lost, in every continuation. *)
Theorem half_close_cuts {L} size (onChunk : L → list byte → L) l1 l2 a b a' b' :
  rtc (session_step size onChunk) (handle newConn newConn l1 l2) (a, b) → d_phase a = PStopped →
  rtc (session_step size onChunk) (a, b) (a', b') →
  k_out (d_conn a') `prefix_of` k_out (d_conn a) ++ inflight (d_phase b).
Proof.
  intros Hr Hst Hr'. destruct (session_forwards _ _ _ _ _ Hr) as [[_ _ _ _ _ [_ Hcl]] _].
  set (X := k_out (d_conn a) ++ inflight (d_phase b)).
  assert (cut X a' b') as (_ & _ & Hx).
  { apply (rtc_ind_r (λ ab, cut X (fst ab) (snd ab)) (a, b)) in Hr'; [done|by split_and!; [|apply Hcl|]|].
    intros ab1 ab2 _ Hs. by apply (cut_step size onChunk X ab1 ab2). }
  by eapply prefix_app_l.
Qed.

(** ** The log of the qconn proxy *)

Definition isWordByte (b : byte) : bool :=
  let z := Z_of_byte b in
  ((48 <=? z) && (z <=? 57)) || ((65 <=? z) && (z <=? 90)) || ((97 <=? z) && (z <=? 122)) || (z =? 95).

(** The length of a match of each alternative of [annotRe] at the head of a
    text; [begin] holds at the beginning of the whole text. *)
Definition annotAt (begin : bool) (s : list byte) : option nat :=
  let lit l := if HasPrefix s l then Some (length l) else None in
  let service :=
    n ← lit (str "service");
    let '(sp, r) := span reSpace (drop n s) in
    let w := fst (span isWordByte r) in
    if decide (sp = [] ∨ w = []) then None else Some (n + length sp + length w)%nat in
  let prompt :=
    n ← lit (str "<qconn-");
    let '(w, r) := span isWordByte (drop n s) in
    if decide (w = []) then None
    else match r with x3e :: _ => Some (n + length w + 1)%nat | _ => None end in
  let kill :=
    n ← lit (str "kill");
    match drop n s with b :: _ => if reSpace b then Some (n + 1)%nat else None | [] => None end in
  let colon := if begin then lit (str "o:") else None in
  head (omap id [service; prompt; lit (str "start/flags"); colon; kill; lit (str "versions")]).

(** [FindAllString]: the matches that do not overlap, from the left. *)
Fixpoint annotations (fuel : nat) (begin : bool) (s : list byte) : list (list byte) :=
  match fuel, s with
  | S fuel, _ :: r =>
      match annotAt begin s with
      | Some n => TrimSpace (take n s) :: annotations fuel false (drop n s)
      | None => annotations fuel false r
      end
  | _, _ => []
  end.

Definition annotate (b : list byte) : list byte := Join (annotations (length b) true b) (str ",").

Definition asciiDump (b : list byte) : list byte :=
  (λ c, if (0x20 <=? Z_of_byte c) && (Z_of_byte c <? 0x7f) then c else x2e) <$> b.

Definition hexDump (b : list byte) : list byte :=
  let max := 512%nat in
  Join (fmt_02x <$> take max b) (str " ") ++ (if decide (max < length b)%nat then str " ..." else []).

Record proxyEntry := MkProxyEntry {
  pe_dir : list byte; pe_len : Z; pe_annot : list byte; pe_ascii : list byte; pe_hex : list byte
}.

(** The log of a pump: the direction it was started with, and its entries. *)
Definition log (l : list byte * list proxyEntry) (b : list byte) : list byte * list proxyEntry :=
  (fst l, snd l ++ [MkProxyEntry (fst l) (Z.of_nat (length b)) (annotate b) (asciiDump b) (hexDump b)]).

Definition pumpBuf : nat := 16 * 1024.

(** ** The log of the DSMSG proxy *)

(** One line per frame: its annotation and its raw bytes. *)
Definition logLine (dir payload raw : list byte) : list byte :=
  str "[" ++ dir ++ str "] " ++ Annotate payload ++ str " | raw=" ++ HexDump raw.

(** The scanner of a pump, its direction, and the lines it has logged. *)
Record dsmsgLog := MkDsmsgLog { dl_scanner : FrameScanner; dl_dir : list byte; dl_lines : list (list byte) }.

Definition dsmsgStart (dir : list byte) : dsmsgLog := MkDsmsgLog (MkFrameScanner []) dir [].

Definition dsmsgChunk (l : dsmsgLog) (chunk : list byte) : dsmsgLog :=
  let '(payloads, raws, sc) := Feed chunk (dl_scanner l) in
  MkDsmsgLog sc (dl_dir l) (dl_lines l ++ zip_with (logLine (dl_dir l)) payloads raws).

Definition dsmsgBuf : nat := 32 * 1024.

Lemma dsmsg_feedAll chunks sc dir lines :
  foldl dsmsgChunk (MkDsmsgLog sc dir lines) chunks =
    let '(ps, rs, sc') := feedAll chunks sc in MkDsmsgLog sc' dir (lines ++ zip_with (logLine dir) ps rs).
Proof.
  revert sc lines. induction chunks as [|d chunks IH]; intros sc lines; simpl.
  { by rewrite app_nil_r. }
  unfold dsmsgChunk at 2. cbn [dl_scanner dl_dir dl_lines]. rewrite Feed_scan. destruct (scan [] (fs_buf sc ++ d)) as [cs last].
  rewrite IH. destruct (feedAll chunks (MkFrameScanner last)) as [[ps rs] sc'].
  rewrite <- app_assoc. f_equal. f_equal. symmetry. apply zip_with_app. by rewrite !length_fmap.
Qed.

(** C21: The DSMSG proxy logs the conversation. In every reachable state and
    both directions, when the messages [ms] are what the pump has read so far,
    its log has exactly one line per message, in order, with the annotation of
    the message and its bytes on the wire, however the reads cut the stream. *)
Theorem dsmsg_proxy_log d1 d2 ab x y dir ms :
  rtc (session_step dsmsgBuf dsmsgChunk) (handle newConn newConn (dsmsgStart d1) (dsmsgStart d2)) ab →
  direction (dsmsgStart d1) (dsmsgStart d2) ab x y (dsmsgStart dir) → concat (d_seen x) = frames ms →
  dl_lines (d_log x) = (λ m, logLine dir m (frame m)) <$> ms.
Proof.
  intros Hr Hd Hc. destruct (direction_forwards _ _ _ _ _ _ _ _ Hr Hd) as [_ _ _ _ Hl _].
  rewrite Hl. unfold dsmsgStart. rewrite dsmsg_feedAll, feedAll_scan, Hc, scan_frames by done. cbn [dl_lines app].
  clear. induction ms as [|m ms IH]; [done|]. rewrite !fmap_cons. cbn [zip_with]. rewrite IH. f_equal.
  unfold logLine. rewrite frame_content. do 5 f_equal. apply payloadOf_stuffed.
Qed.

(** ** Sessions in steps *)

(** What happens next: something at the remote end of the client or of the
    target, or a step of one of the pumps. *)
Inductive proxyEvent :=
  | ClientSends (b : list byte) | ClientFin
  | TargetSends (b : list byte) | TargetFin
  | PumpUp (n : nat) | PumpDown (n : nat).

Section replay.
Context {L : Type} (size : nat) (onChunk : L → list byte → L).

Definition sends (b : list byte) (c : conn) : conn :=
  if k_fin c then c else MkConn (k_sent c ++ b) (k_in c ++ b) (k_fin c) (k_reset c) (k_out c) (k_open c).
Definition fins (c : conn) : conn := MkConn (k_sent c) (k_in c) true (k_reset c) (k_out c) (k_open c).

Definition replay1 (ab : side (L := L) * side (L := L)) (e : proxyEvent) : side * side :=
  let '(a, b) := ab in
  match e with
  | ClientSends l => (set_conn (sends l (d_conn a)) a, b)
  | ClientFin => (set_conn (fins (d_conn a)) a, b)
  | TargetSends l => (a, set_conn (sends l (d_conn b)) b)
  | TargetFin => (a, set_conn (fins (d_conn b)) b)
  | PumpUp n => default ab (pump size onChunk n a b)
  | PumpDown n => match pump size onChunk n b a with Some (b', a') => (a', b') | None => ab end
  end.

Lemma sends_step l a b : rtc (session_step size onChunk) (a, b) (set_conn (sends l (d_conn a)) a, b).
Proof.
  unfold sends. destruct (k_fin (d_conn a)) eqn:E; [by destruct a|].
  apply rtc_once, step_remote. pose proof (remote_send (d_conn a) l E) as Hr. by rewrite E in Hr.
Qed.

Lemma other_steps a b a' b' :
  rtc (session_step size onChunk) (a, b) (a', b') → rtc (session_step size onChunk) (b, a) (b', a').
Proof.
  intros Hr. apply (rtc_ind_r (λ ab, rtc (session_step size onChunk) (b, a) (snd ab, fst ab)) (a, b)) in Hr;
    [done|done|]. intros [a1 b1] [a2 b2] _ Hs IH. etrans; [exact IH|]. by apply rtc_once, step_other.
Qed.

Lemma replay_steps es ab : rtc (session_step size onChunk) ab (foldl replay1 ab es).
Proof.
  revert ab. induction es as [|e es IH]; intros [a b]; [done|]. simpl. etrans; [|apply IH].
  destruct e; simpl.
  - apply sends_step.
  - apply rtc_once, step_remote. constructor.
  - apply other_steps, sends_step.
  - apply other_steps, rtc_once, step_remote. constructor.
  - destruct (pump size onChunk n a b) as [[a' b']|] eqn:E; [|done]. by eapply rtc_once, step_pump.
  - destruct (pump size onChunk n b a) as [[b' a']|] eqn:E; [|done].
    by eapply rtc_once, step_other, step_pump.
Qed.
End replay.

(** A client that asks and finishes, and a target that answers. *)
Definition halfClose : list proxyEvent :=
  [ClientSends (str "versions ?"); ClientFin; PumpUp 99; PumpUp 0; TargetSends (str "OK"); PumpUp 0; PumpUp 0].

Definition qconnSession (es : list proxyEvent) : side * side :=
  foldl (replay1 pumpBuf log) (handle newConn newConn (str ">>", []) (str "<<", [])) es.

Lemma qconnSession_steps es :
  rtc (session_step pumpBuf log) (handle newConn newConn (str ">>", []) (str "<<", []))
    (fst (qconnSession es), snd (qconnSession es)).
Proof. rewrite <- surjective_pairing. apply replay_steps. Qed.

Lemma proxy_transparent_witness :
  let '(a, b) := qconnSession [ClientSends (str "service launcher"); PumpUp 3; PumpUp 0; PumpUp 99; PumpUp 0] in
  k_out (d_conn b) = str "service launcher" ∧ length (snd (d_log a)) = 2%nat ∧
  k_out (d_conn b) `prefix_of` k_sent (d_conn a).
Proof.
  set (es := [_; _; _; _; _]). pose proof (qconnSession_steps es) as Hr.
  assert (k_out (d_conn (snd (qconnSession es))) = str "service launcher" ∧
    length (snd (d_log (fst (qconnSession es)))) = 2%nat) as [E1 E2] by (by vm_compute).
  destruct (qconnSession es) as [a b]. cbn [fst snd] in *. split_and!; [done..|].
  by apply (proxy_transparent pumpBuf log (str ">>", []) (str "<<", []) (a, b) a b (str ">>", []) Hr); left.
Defined.

Lemma half_close_cuts_witness :
  let '(a, b) := qconnSession halfClose in
  let '(a', b') := foldl (replay1 pumpBuf log) (a, b) (replicate 5 (PumpDown 9)) in
  k_sent (d_conn b) = str "OK" ∧ d_phase b' = PStopped ∧ k_open (d_conn a') = false ∧
  k_out (d_conn a') `prefix_of` [].
Proof.
  pose proof (qconnSession_steps halfClose) as Hr.
  assert (k_sent (d_conn (snd (qconnSession halfClose))) = str "OK" ∧
    d_phase (fst (qconnSession halfClose)) = PStopped ∧
    k_out (d_conn (fst (qconnSession halfClose))) ++ inflight (d_phase (snd (qconnSession halfClose))) = [] ∧
    let ab := foldl (replay1 pumpBuf log) (qconnSession halfClose) (replicate 5 (PumpDown 9)) in
    d_phase (snd ab) = PStopped ∧ k_open (d_conn (fst ab)) = false) as (E1 & E2 & E3 & E4 & E5) by (by vm_compute).
  destruct (qconnSession halfClose) as [a b]. cbn [fst snd] in *.
  pose proof (replay_steps pumpBuf log (replicate 5 (PumpDown 9)) (a, b)) as Hr'.
  destruct (foldl _ (a, b) _) as [a' b']. cbn [fst snd] in *. split_and!; [done..|].
  rewrite <- E3. by eapply (half_close_cuts pumpBuf log _ _ a b a' b').
Defined.

Lemma dsmsg_proxy_log_witness :
  let es := [ClientSends (frame [x00; x01] ++ frame [x7e; x7d]); PumpUp 2; PumpUp 0; PumpUp 99; PumpUp 0] in
  let '(a, b) := foldl (replay1 dsmsgBuf dsmsgChunk)
    (handle newConn newConn (dsmsgStart (str "gdb->pdebug")) (dsmsgStart (str "pdebug->gdb"))) es in
  dl_lines (d_log a) = (λ m, logLine (str "gdb->pdebug") m (frame m)) <$> [[x00; x01]; [x7e; x7d]].
Proof.
  intros es. set (ab0 := handle _ _ _ _). pose proof (replay_steps dsmsgBuf dsmsgChunk es ab0) as Hr.
  assert (concat (d_seen (fst (foldl (replay1 dsmsgBuf dsmsgChunk) ab0 es))) =
    frames [[x00; x01]; [x7e; x7d]]) as E by (by vm_compute).
  destruct (foldl _ _ es) as [a b].
  by apply (dsmsg_proxy_log _ _ (a, b) a b (str "gdb->pdebug") _ Hr); [left|].
Defined.
