(* ===== verification/ProxySessions.v ===== *)
(** * Sessions of the capture proxies

    The life of one session, from [Accept] to the end of [handle], in
    [internal/proxy/proxy.go] and [cmd/dsmsg-proxy/main.go]: the target is
    dialled, the two pumps of [Proxy] run, and when both have stopped the
    connections are closed. The two programs differ in the lines they log
    around this, so the sessions are written over those. *)

From stdpp Require Import base list numbers strings gmap relations.
From Stdlib Require Import ZArith Lia Strings.Byte.
From S2P Require Import Prelude GoStrconv GoStrings Obs Dsmsg DsmsgDecode Proxy.

Local Open Scope Z_scope.

Section session.
Context {E L : Type} (size : nat) (onChunk : L → list byte → L).

(** What [handle] logs: before the dial, when it fails, when the pumps start
    and at the end; and what the pumps' logs start from. *)
Record lines := MkLines {
  ln_before : list E; ln_failed : list byte → list E; ln_open : list E; ln_closed : list E;
  ln_up : L; ln_down : L
}.

Variable ls : lines.

Inductive stage :=
  | Dialing (client : conn)
  | Refused (client : conn)                      (* the dial failed *)
  | Pumping (ab : side (L := L) * side (L := L))
  | Done (a b : side (L := L)).                  (* after [wg.Wait] and the closes *)

Record handling := MkHandling { hd_lines : list E; hd_stage : stage }.

Definition handling_init : handling := MkHandling (ln_before ls) (Dialing newConn).

Definition closeSide (a : side (L := L)) : side := set_conn (closeConn (d_conn a)) a.

Inductive handling_step : handling → handling → Prop :=
  | hs_remote l c c' : remote c c' → handling_step (MkHandling l (Dialing c)) (MkHandling l (Dialing c'))
  | hs_refused l c err :
      handling_step (MkHandling l (Dialing c)) (MkHandling (l ++ ln_failed ls err) (Refused (closeConn c)))
  | hs_dialled l c :
      handling_step (MkHandling l (Dialing c)) (MkHandling (l ++ ln_open ls) (Pumping (handle c newConn (ln_up ls) (ln_down ls))))
  | hs_session l ab ab' :
      session_step size onChunk ab ab' → handling_step (MkHandling l (Pumping ab)) (MkHandling l (Pumping ab'))
  | hs_wait l a b :
      d_phase a = PStopped → d_phase b = PStopped →
      handling_step (MkHandling l (Pumping (a, b))) (MkHandling (l ++ ln_closed ls) (Done (closeSide a) (closeSide b))).

(** What the client sent before the target was dialled is still to be read. *)
Lemma dialing_remote c : rtc remote newConn c → ∀ l1 l2 : L,
  rtc (session_step size onChunk) (handle newConn newConn l1 l2) (handle c newConn l1 l2).
Proof.
  intros Hr l1 l2. apply (rtc_ind_r (λ c, rtc (session_step size onChunk) (handle newConn newConn l1 l2) (handle c newConn l1 l2)) newConn) in Hr;
    [done|done|]. intros c1 c2 _ Hc IH. eapply rtc_r; [exact IH|].
  exact (step_remote size onChunk (MkSide c1 PRead l1 []) (MkSide newConn PRead l2 []) c2 Hc).
Qed.

(** The lines and the connections in every state of a session. *)
Definition accounted (h : handling) : Prop :=
  match hd_stage h with
  | Dialing c => hd_lines h = ln_before ls ∧ rtc remote newConn c
  | Refused c => k_open c = false ∧ ∃ err, hd_lines h = ln_before ls ++ ln_failed ls err
  | Pumping ab =>
      hd_lines h = ln_before ls ++ ln_open ls ∧
      rtc (session_step size onChunk) (handle newConn newConn (ln_up ls) (ln_down ls)) ab
  | Done a b =>
      hd_lines h = ln_before ls ++ ln_open ls ++ ln_closed ls ∧
      k_open (d_conn a) = false ∧ k_open (d_conn b) = false ∧
      d_phase a = PStopped ∧ d_phase b = PStopped ∧
      d_log a = foldl onChunk (ln_up ls) (d_seen a) ∧ d_log b = foldl onChunk (ln_down ls) (d_seen b)
  end.

Lemma step_accounted h h' : handling_step h h' → accounted h → accounted h'.
Proof.
  intros Hs Ha. destruct Hs as [l c c' Hr|l c err|l c|l ab ab' Hs|l a b Hpa Hpb]; unfold accounted in *; simpl in *.
  - destruct Ha as [-> Hc]. split; [done|]. by eapply rtc_r.
  - destruct Ha as [-> _]. split; [done|]. by eexists.
  - destruct Ha as [-> Hc]. split; [done|]. by apply dialing_remote.
  - destruct Ha as [-> Hr]. split; [done|]. by eapply rtc_r.
  - destruct Ha as [-> Hr]. rewrite <- app_assoc. apply session_forwards in Hr as [[_ _ _ _ Hl1 _] [_ _ _ _ Hl2 _]].
    by split_and!.
Qed.

Lemma steps_accounted h : rtc handling_step handling_init h → accounted h.
Proof.
  intros Hr. apply (rtc_ind_r accounted handling_init) in Hr; [done|by split|]. eauto using step_accounted.
Qed.

(** A pump whose connection was closed stops on its own. *)
Lemma closed_pump_stops a b :
  k_open (d_conn a) = false →
  ∃ a' b', rtc (session_step size onChunk) (a, b) (a', b') ∧ d_phase a' = PStopped ∧ d_phase b' = d_phase b.
Proof.
  intros Ho. assert (∀ ab, d_phase ab = PEnd → ∀ b, ∃ a' b',
    rtc (session_step size onChunk) (ab, b) (a', b') ∧ d_phase a' = PStopped ∧ d_phase b' = d_phase b) as Hend.
  { intros ab Hp b0. do 2 eexists. split; [eapply rtc_once, (step_pump _ _ 0); unfold pump; by rewrite Hp|done]. }
  assert (∀ a0, k_open (d_conn a0) = false → d_phase a0 = PRead → ∀ b, ∃ a' b',
    rtc (session_step size onChunk) (a0, b) (a', b') ∧ d_phase a' = PStopped ∧ d_phase b' = d_phase b) as Hread.
  { intros a0 Ho0 Hp b0. destruct (Hend (MkSide (d_conn a0) PEnd (d_log a0) (d_seen a0)) eq_refl b0)
      as (a' & b' & Hr & ?). exists a', b'. split; [|done]. eapply rtc_l; [|exact Hr].
    apply (step_pump _ _ 0). unfold pump, readConn. by rewrite Hp, Ho0. }
  destruct (d_phase a) as [|chunk err| |] eqn:Hp; [by apply Hread| |by apply Hend|by exists a, b].
  set (a1 := MkSide (d_conn a) (if err then PEnd else PRead) (onChunk (d_log a) chunk) (d_seen a ++ [chunk])).
  set (b1 := set_conn (writeConn chunk (d_conn b)) b).
  assert (session_step size onChunk (a, b) (a1, b1)) as Hs
    by (apply (step_pump _ _ 0); unfold pump; by rewrite Hp).
  assert (∃ a' b', rtc (session_step size onChunk) (a1, b1) (a', b') ∧ d_phase a' = PStopped ∧ d_phase b' = d_phase b1)
    as (a' & b' & Hr & ?) by (destruct err; [by apply Hend|by apply Hread]).
  exists a', b'. split; [|done]. by eapply rtc_l.
Qed.

Lemma session_lift l ab ab' :
  rtc (session_step size onChunk) ab ab' → rtc handling_step (MkHandling l (Pumping ab)) (MkHandling l (Pumping ab')).
Proof. induction 1; [done|]. eapply rtc_l; [by constructor|done]. Qed.

(** Once one pump has stopped the other can, and the session with them. *)
Lemma half_stopped_done l a b :
  forwards onChunk (ln_up ls) a b → forwards onChunk (ln_down ls) b a →
  d_phase a = PStopped ∨ d_phase b = PStopped →
  ∃ a' b', rtc handling_step (MkHandling l (Pumping (a, b))) (MkHandling (l ++ ln_closed ls) (Done a' b')).
Proof.
  intros [_ _ _ _ _ [_ Ha]] [_ _ _ _ _ [_ Hb]] [Hp|Hp].
  - destruct (closed_pump_stops b a) as (b' & a' & Hr & Hsb & Hsa); [by apply Ha|]. apply other_steps in Hr.
    do 2 eexists. eapply rtc_r; [by apply session_lift|]. constructor; congruence.
  - destruct (closed_pump_stops a b) as (a' & b' & Hr & Hsa & Hsb); [by apply Hb|].
    do 2 eexists. eapply rtc_r; [by apply session_lift|]. constructor; congruence.
Qed.
End session.
Arguments lines : clear implicits.
Arguments handling : clear implicits.


(** ** The lines of the two programs *)

(** [handle] of [internal/proxy]; [id] is the address of the client. *)
Definition proxyLines (lg : logger) (target id : list byte) : lines entry (list byte * list proxyEntry) := MkLines
  []
  (λ err, Log lg LevelError (str "proxy dial target failed") [MkAttr (str "err") err; MkAttr (str "client") id])
  (Log lg LevelInfo (str "proxy session open") [MkAttr (str "client") id; MkAttr (str "target") target])
  (Log lg LevelInfo (str "proxy session closed") [MkAttr (str "client") id])
  (str ">>", []) (str "<<", []).

(** [handle] of [cmd/dsmsg-proxy], without the time [logf] puts before. *)
Definition dsmsgLines (target id : list byte) : lines (list byte) dsmsgLog := MkLines
  [str "==== session open: gdb=" ++ id ++ str " ===="]
  (λ err, [str "dial target " ++ target ++ str ": " ++ err])
  []
  [str "==== session closed: gdb=" ++ id ++ str " ===="]
  (dsmsgStart (str "gdb->pdebug")) (dsmsgStart (str "pdebug->gdb")).

