(* ===== verification/Rsp.v ===== *)
(** * GDB remote serial protocol: codec and packet exchange

    [internal/debug/rsp.go]. A packet is [$body#cs]: the body is the payload
    with its special bytes escaped, the checksum two hex digits of the sum of
    the body. In acknowledged mode every packet is answered by [+] or [-]. *)

From stdpp Require Import base list numbers strings.
From Stdlib Require Import ZArith Lia Strings.Byte.
From S2P Require Import Prelude GoStrconv Transport.

Local Open Scope Z_scope.

(** ** Special bytes: [$ # } * + -] *)

Definition cDollar : byte := x24.
Definition cHash : byte := x23.
Definition cBrace : byte := x7d.
Definition cStar : byte := x2a.
Definition cPlus : byte := x2b.
Definition cMinus : byte := x2d.

(** The errors the package builds, and [RPanic] for a run-time panic. *)
Inductive rsp_error :=
  | RIO
  | RTooManyNaks
  | RBadChecksum
  | ROddHex (s : list byte)
  | RDetach (resp : list byte)
  | RReadRegisters (resp : list byte)
  | RReadMemory (addr : Z) (resp : list byte)
  | RWriteMemory (addr : Z) (resp : list byte)
  | RSetBreakpoint (addr : Z) (resp : list byte)
  | RClearBreakpoint (addr : Z) (resp : list byte)
  | RPanic
  | RFuel.

(** ** Codec *)

Definition checksum (p : list byte) : byte := foldl byte_add x00 p.

Definition special (b : byte) : Prop := b = cDollar ∨ b = cHash ∨ b = cBrace ∨ b = cStar.
#[export] Instance special_dec b : Decision (special b).
Proof. unfold special. apply _. Defined.

Fixpoint escape (p : list byte) : list byte :=
  match p with
  | [] => []
  | b :: p => if decide (special b) then cBrace :: byte_xor b x20 :: escape p else b :: escape p
  end.

(** [decode] with the output so far: [out[len(out)-1]] is its last byte. A
    trailing escape or run mark without operand is dropped; a run mark at the
    very start is skipped. *)
Fixpoint decode_loop (out p : list byte) : list byte :=
  match p with
  | [] => out
  | b :: p' =>
      if decide (b = cBrace) then
        match p' with
        | [] => out
        | c :: p'' => decode_loop (out ++ [byte_xor c x20]) p''
        end
      else if decide (b = cStar) then
        match p', last out with
        | c :: p'', Some l => decode_loop (out ++ replicate (Z.to_nat (Z_of_byte c - 29)) l) p''
        | _, _ => decode_loop out p'
        end
      else decode_loop (out ++ [b]) p'
  end.

Definition decode (p : list byte) : list byte := decode_loop [] p.

Definition hexByte (b : byte) : list byte :=
  [hexDigit (Z.shiftr (Z_of_byte b) 4); hexDigit (Z.land (Z_of_byte b) 0xf)].

Definition fromHex (b : byte) : Z :=
  let z := Z_of_byte b in
  if (48 <=? z) && (z <=? 57) then z - 48
  else if (97 <=? z) && (z <=? 102) then z - 97 + 10
  else if (65 <=? z) && (z <=? 70) then z - 65 + 10
  else 0.

Definition hexEncode (b : list byte) : list byte := b ≫= hexByte.

Fixpoint hexPairs (s : list byte) : list byte :=
  match s with
  | hi :: lo :: s => byte_of_Z (Z.lor (Z.shiftl (fromHex hi) 4) (fromHex lo)) :: hexPairs s
  | _ => []
  end.

Definition hexDecode (s : list byte) : rsp_error + list byte :=
  if decide (Z.of_nat (length s) `mod` 2 = 0) then inr (hexPairs s) else inl (ROddHex s).

(** The frame [SendPacket] builds. *)
Definition packet (payload : list byte) : list byte :=
  let body := escape payload in
  [cDollar] ++ body ++ [cHash] ++ hexByte (checksum body).

(** ** Connection *)

Record RSP (P : Type) : Type := MkRSP { r_conn : transport P; r_noAck : bool }.
Arguments MkRSP {P}.
Arguments r_conn {P}.
Arguments r_noAck {P}.

(** [NewRSP]: acknowledged mode, nothing read. *)
Definition NewRSP {P} (t : transport P) : RSP P := MkRSP t false.

Section rsp.
Context {P : Type} `{Peer P}.
Implicit Types r : RSP P.

Definition R (A : Type) : Type := M rsp_error (RSP P) A.

Definition r_set_conn (t : transport P) r : RSP P := MkRSP t (r_noAck r).
Definition r_set_rx (rx : list byte) r : RSP P := r_set_conn (t_set_rx rx (r_conn r)) r.

Definition r_write (b : list byte) : R unit := λ r,
  let '(ok, t) := t_write b (r_conn r) in
  (if ok then inr () else inl RIO, r_set_conn t r).

Definition Close : R unit := modify (λ r, r_set_conn (t_close (r_conn r)) r).

(** The loop of [readAck]: the first [+] or [-]. *)
Fixpoint scanAck (rx : list byte) : option (byte * list byte) :=
  match rx with
  | [] => None
  | b :: rx => if decide (b = cPlus ∨ b = cMinus) then Some (b, rx) else scanAck rx
  end.

Definition readAck : R byte := λ r,
  match scanAck (t_rx (r_conn r)) with
  | None => (inl RIO, r_set_rx [] r)
  | Some (b, rx) => (inr b, r_set_rx rx r)
  end.

Fixpoint SendPacket_loop (attempts : nat) (frame : list byte) : R unit :=
  match attempts with
  | O => throw RTooManyNaks
  | S attempts =>
      r_write frame ≫= λ _,
      r ← get_state;
      if r_noAck r then mret ()
      else
        ack ← readAck;
        if decide (ack = cPlus) then mret () else SendPacket_loop attempts frame
  end.

Definition SendPacket (payload : list byte) : R unit := SendPacket_loop 5 (packet payload).

(** The loops of [ReadPacket]: to the packet start, then to the [#]. *)
Fixpoint scanStart (rx : list byte) : option (list byte) :=
  match rx with
  | [] => None
  | b :: rx => if decide (b = cDollar) then Some rx else scanStart rx
  end.

Fixpoint scanBody (raw rx : list byte) : option (list byte * list byte) :=
  match rx with
  | [] => None
  | b :: rx => if decide (b = cHash) then Some (raw, rx) else scanBody (raw ++ [b]) rx
  end.

(** The raw body, the checksum sent and the stream after the packet. *)
Definition scanPacket (rx : list byte) : option (list byte * byte * list byte) :=
  rx ← scanStart rx;
  '(raw, rx) ← scanBody [] rx;
  match rx with
  | hi :: lo :: rx => Some (raw, byte_of_Z (Z.lor (Z.shiftl (fromHex hi) 4) (fromHex lo)), rx)
  | _ => None
  end.

Definition ReadPacket : R (list byte) := λ r,
  match scanPacket (t_rx (r_conn r)) with
  | None => (inl RIO, r_set_rx [] r)
  | Some (raw, want, rx) =>
      let r := r_set_rx rx r in
      if decide (checksum raw = want) then
        if r_noAck r then (inr (decode raw), r)
        else (r_write [cPlus] ≫= λ _, mret (decode raw)) r
      else
        if r_noAck r then (inl RBadChecksum, r)
        else (attempt (r_write [cMinus]) ≫= λ _, throw RBadChecksum) r
  end.

Definition Command (payload : list byte) : R (list byte) :=
  SendPacket payload ≫= λ _, ReadPacket.

Definition EnableNoAck : R unit :=
  resp ← Command (str "QStartNoAckMode");
  if decide (resp = str "OK") then modify (λ r, MkRSP (r_conn r) true) else mret ().
End rsp.

(** ** Codec facts *)

Lemma last_snoc_some {A} (l : list A) x : last (l ++ [x]) = Some x.
Proof. apply last_snoc. Qed.

Lemma escape_clean p : Forall (λ b, b ≠ cDollar ∧ b ≠ cHash) (escape p).
Proof.
  induction p as [|b p IH]; simpl; [done|]. case_decide as Hb.
  - constructor; [done|]. constructor; [|done].
    destruct Hb as [-> | [-> | [-> | ->]]]; by vm_compute.
  - constructor; [|done]. unfold special in Hb. tauto.
Qed.

Lemma decode_loop_escape out p q : decode_loop out (escape p ++ q) = decode_loop (out ++ p) q.
Proof.
  revert out. induction p as [|b p IH]; intros out; simpl; [by rewrite app_nil_r|].
  case_decide as Hb; simpl.
  - by rewrite byte_xor_involutive, IH, <- app_assoc.
  - unfold special in Hb. rewrite !decide_False by tauto. by rewrite IH, <- app_assoc.
Qed.

Lemma decode_escape p : decode (escape p) = p.
Proof. unfold decode. rewrite <- (app_nil_r (escape p)). apply decode_loop_escape. Qed.

(** ** Hex facts *)

Lemma hexByte_fmt b : hexByte b = fmt_02x b.
Proof. byte_cases b. Qed.

Lemma hexEncode_fmt b : hexEncode b = hex_of_bytes b.
Proof. apply list_bind_ext; [intros; apply hexByte_fmt | done]. Qed.

Lemma fromHex_pair b :
  byte_of_Z (Z.lor (Z.shiftl (fromHex (hexDigit (Z_of_byte b / 16))) 4)
    (fromHex (hexDigit (Z_of_byte b `mod` 16)))) = b.
Proof. byte_cases b. Qed.

Lemma hexPairs_hex b : hexPairs (hex_of_bytes b) = b.
Proof.
  induction b as [|c b IH]; [done|].
  change (hex_of_bytes (c :: b)) with (fmt_02x c ++ hex_of_bytes b).
  unfold fmt_02x. cbn [app hexPairs]. by rewrite fromHex_pair, IH.
Qed.

Lemma hexDecode_hex b : hexDecode (hex_of_bytes b) = inr b.
Proof.
  unfold hexDecode. rewrite length_hex_of_bytes, decide_True; [by rewrite hexPairs_hex|].
  rewrite Nat2Z.inj_mul, Z.mul_comm. apply Z.mod_mul. lia.
Qed.

(** ** Packet reader facts *)

Lemma scanStart_noise noise rx :
  Forall (λ b, b ≠ cDollar) noise → scanStart (noise ++ cDollar :: rx) = Some rx.
Proof.
  induction 1 as [|b noise Hb Hn IH]; simpl; [done|]. by rewrite decide_False.
Qed.

Lemma scanBody_run raw l rx :
  Forall (λ b, b ≠ cHash) l → scanBody raw (l ++ cHash :: rx) = Some (raw ++ l, rx).
Proof.
  intros Hl. revert raw. induction Hl as [|b l Hb Hl IH]; intros raw; simpl.
  - by rewrite app_nil_r.
  - rewrite decide_False by done. by rewrite IH, <- app_assoc.
Qed.

Lemma scanPacket_raw noise raw hi lo rest :
  Forall (λ b, b ≠ cDollar) noise → Forall (λ b, b ≠ cHash) raw →
  scanPacket (noise ++ cDollar :: raw ++ cHash :: hi :: lo :: rest) =
    Some (raw, byte_of_Z (Z.lor (Z.shiftl (fromHex hi) 4) (fromHex lo)), rest).
Proof.
  intros Hn Hr. unfold scanPacket. rewrite scanStart_noise by done. simpl.
  rewrite scanBody_run by done. done.
Qed.

Lemma scanPacket_packet noise p rest :
  Forall (λ b, b ≠ cDollar) noise →
  scanPacket (noise ++ packet p ++ rest) = Some (escape p, checksum (escape p), rest).
Proof.
  intros Hn. unfold packet. rewrite hexByte_fmt. unfold fmt_02x.
  rewrite <- !app_assoc. cbn [app].
  rewrite scanPacket_raw; [by rewrite fromHex_pair | done |].
  eapply Forall_impl; [apply escape_clean | simpl; tauto].
Qed.

(** ** Runs

    What a stub may send: every payload byte, escaped when special, followed
    by a run mark and the biased count of its repetitions. *)

Definition encodeRun (run : byte * nat) : list byte :=
  let '(c, n) := run in
  escape [c] ++ (if decide (n = 0%nat) then [] else [cStar; byte_of_Z (29 + Z.of_nat n)]).

Definition expandRun (run : byte * nat) : list byte := replicate (S (snd run)) (fst run).

Lemma decode_loop_run out c n q :
  (n ≤ 226)%nat → decode_loop out (encodeRun (c, n) ++ q) = decode_loop (out ++ expandRun (c, n)) q.
Proof.
  intros Hn. unfold encodeRun, expandRun. rewrite <- app_assoc, decode_loop_escape.
  case_decide as H0; [by subst n|]. cbn [app decode_loop].
  rewrite decide_False, decide_True, last_snoc by done.
  rewrite Z_of_byte_of_Z, Z.mod_small by lia.
  replace (Z.to_nat (29 + Z.of_nat n - 29)) with n by lia. by rewrite <- app_assoc.
Qed.

Lemma decode_loop_runs out runs :
  Forall (λ run : byte * nat, (snd run ≤ 226)%nat) runs →
  decode_loop out (runs ≫= encodeRun) = out ++ (runs ≫= expandRun).
Proof.
  intros Hr. revert out. induction Hr as [|[c n] runs Hn Hr IH]; intros out.
  - simpl. by rewrite app_nil_r.
  - cbn [mbind list_bind]. rewrite decode_loop_run by done. by rewrite IH, <- app_assoc.
Qed.

(** Decoding what a stub encodes. For every payload given as runs of
    equal bytes, special bytes included, decoding the escaped and run-length
    encoded body gives back the payload (a count byte holds at most 226
    repetitions). *)
Theorem decode_runs (runs : list (byte * nat)) :
  Forall (λ run : byte * nat, (snd run ≤ 226)%nat) runs →
  decode (runs ≫= encodeRun) = runs ≫= expandRun.
Proof. intros Hr. by apply (decode_loop_runs []). Qed.

Lemma decode_runs_witness :
  decode ([(x30, 3%nat); (cBrace, 0%nat); (cStar, 10%nat)] ≫= encodeRun) =
    [(x30, 3%nat); (cBrace, 0%nat); (cStar, 10%nat)] ≫= expandRun.
Proof. apply decode_runs. repeat constructor; simpl; lia. Defined.

(** Hex transport of binary data. Decoding inverts encoding for every
    byte string; decoding fails exactly on odd lengths and otherwise yields
    half as many bytes as digits. *)
Theorem hexDecode_correct (b s : list byte) :
  hexDecode (hexEncode b) = inr b ∧
  match hexDecode s with
  | inl e => e = ROddHex s ∧ Nat.odd (length s)
  | inr d => (2 * length d = length s)%nat
  end.
Proof.
  split; [rewrite hexEncode_fmt; apply hexDecode_hex|].
  unfold hexDecode. case_decide as He.
  - apply Z.mod_divide in He as [k Hk]; [|lia].
    assert (∃ n, length s = (2 * n)%nat) as [n Hn] by (exists (Z.to_nat k); lia).
    clear k Hk. revert s Hn. induction n as [|n IH]; intros s Hn; [by destruct s|].
    destruct s as [|hi [|lo s]]; simpl in Hn; [lia..|]. cbn [hexPairs length].
    rewrite <- (IH s) by lia. lia.
  - split; [done|]. destruct (Nat.odd (length s)) eqn:Ho; [done|]. exfalso. apply He.
    rewrite <- Nat.negb_even in Ho. apply negb_false_iff, Nat.even_spec in Ho as [n ->].
    rewrite Nat2Z.inj_mul, Z.mul_comm. apply Z.mod_mul. lia.
Qed.

(** ** Exchange facts *)

Section exchange.
Context {P : Type} `{Peer P}.
Implicit Types r : RSP P.

Lemma r_set_rx_id r : r_set_rx (t_rx (r_conn r)) r = r.
Proof. by destruct r as [[]]. Qed.

Lemma ReadPacket_found r raw want rest :
  scanPacket (t_rx (r_conn r)) = Some (raw, want, rest) →
  ReadPacket r =
    (if decide (checksum raw = want) then
       if r_noAck r then (inr (decode raw), r_set_rx rest r)
       else (r_write [cPlus] ≫= λ _, mret (decode raw)) (r_set_rx rest r)
     else
       if r_noAck r then (inl RBadChecksum, r_set_rx rest r)
       else (attempt (r_write [cMinus]) ≫= λ _, throw RBadChecksum) (r_set_rx rest r)).
Proof. intros E. unfold ReadPacket. by rewrite E. Qed.

Lemma checksum_sum l : Z_of_byte (checksum l) = foldr (λ c s, Z_of_byte c + s) 0 l `mod` 256.
Proof.
  unfold checksum.
  assert (∀ s, Z_of_byte (foldl byte_add s l) =
               (Z_of_byte s + foldr (λ c s, Z_of_byte c + s) 0 l) `mod` 256) as Hg; [|apply Hg].
  induction l as [|c l IH]; intros s; simpl.
  - rewrite Z.add_0_r. symmetry. apply Z.mod_small, Z_of_byte_range.
  - rewrite IH. unfold byte_add. rewrite Z_of_byte_of_Z, Z.add_mod_idemp_l by lia. f_equal. lia.
Qed.

Lemma rsp_checksum_one_byte l a b s : checksum (l ++ a :: s) = checksum (l ++ b :: s) → a = b.
Proof.
  intros E%(f_equal Z_of_byte). rewrite !checksum_sum, !foldr_app in E. simpl in E.
  assert (∀ k m, foldr (λ c s, Z_of_byte c + s) k m = foldr (λ c s, Z_of_byte c + s) 0 m + k) as Hk.
  { intros k m. induction m; simpl; lia. }
  rewrite (Hk (_ + _) l), (Hk (Z_of_byte b + _) l) in E.
  set (u := foldr _ 0 l) in E. set (v := foldr _ 0 s) in E.
  pose proof (Z_of_byte_range a). pose proof (Z_of_byte_range b). apply Z_of_byte_inj.
  pose proof (Z.div_mod (u + (Z_of_byte a + v)) 256 ltac:(lia)).
  pose proof (Z.div_mod (u + (Z_of_byte b + v)) 256 ltac:(lia)). lia.
Qed.

Lemma r_write_cases b r :
  let '(res, r') := r_write b r in
  r_noAck r' = r_noAck r ∧
  match res with
  | inr _ => t_tx (r_conn r') = t_tx (r_conn r) ++ [b]
  | inl e => e = RIO ∧ t_tx (r_conn r') = t_tx (r_conn r)
  end.
Proof.
  unfold r_write. destruct (t_write b (r_conn r)) as [ok t] eqn:E.
  apply t_write_extends in E as [_ Etx]. by destruct ok.
Qed.

Lemma readAck_same r :
  t_tx (r_conn (snd (readAck r))) = t_tx (r_conn r) ∧ r_noAck (snd (readAck r)) = r_noAck r ∧
  fst (readAck r) ≠ inl RTooManyNaks.
Proof. unfold readAck. by destruct (scanAck _) as [[]|]. Qed.

(** The side conditions of the transmission count. *)
Ltac wire_side := split_and!; try done; try lia; try congruence.

(** The frames a send puts on the wire, for any number of attempts. *)
Lemma SendPacket_loop_wire n f r :
  let '(res, r') := SendPacket_loop n f r in
  ∃ k, (k ≤ n)%nat ∧ t_tx (r_conn r') = t_tx (r_conn r) ++ replicate k f ∧
    r_noAck r' = r_noAck r ∧
    (res = inr () → (1 ≤ k)%nat) ∧ (res = inl RTooManyNaks → k = n) ∧
    (r_noAck r = true → (k ≤ 1)%nat).
Proof.
  revert r. induction n as [|n IH]; intros r.
  { exists 0%nat. simpl. rewrite app_nil_r. wire_side. }
  cbn [SendPacket_loop]. unfold mbind, M_bind, get_state, mret, M_ret.
  pose proof (r_write_cases f r) as Hw. destruct (r_write f r) as [[e|[]] r1].
  { destruct Hw as (Hn & -> & Htx). exists 0%nat. simpl. rewrite app_nil_r, Htx. wire_side. }
  destruct Hw as [Hn Htx]. destruct (r_noAck r1) eqn:En.
  { exists 1%nat. simpl. wire_side. }
  pose proof (readAck_same r1) as (Ha1 & Ha2 & Ha3).
  destruct (readAck r1) as [[e|a] r2]; simpl in *.
  { exists 1%nat. simpl. rewrite Ha1, Htx. wire_side. }
  case_decide; [exists 1%nat; simpl; rewrite Ha1, Htx; wire_side|].
  specialize (IH r2). destruct (SendPacket_loop n f r2) as [res r'].
  destruct IH as (k & Hk & Ht & Hna & H1 & H2 & H3). exists (S k).
  rewrite Ht, Ha1, Htx, <- app_assoc. wire_side.
  intros ?. by rewrite <- H2.
Qed.
End exchange.

(** Reading a packet. Behind any bytes other than a packet start, the
    reader returns exactly the payload the sender framed, consumes exactly that
    packet, and acknowledges it with one [+] unless the connection is in no-ack
    mode. *)
Theorem ReadPacket_packet {P} `{Peer P} (r : RSP P) noise p rest :
  Forall (λ b, b ≠ cDollar) noise →
  ReadPacket (r_set_rx (noise ++ packet p ++ rest) r) =
    if r_noAck r then (inr p, r_set_rx rest r)
    else (r_write [cPlus] ≫= λ _, mret p) (r_set_rx rest r).
Proof.
  intros Hn. erewrite ReadPacket_found by (by apply scanPacket_packet).
  rewrite decide_True, decode_escape by done. done.
Qed.

(** C29: A packet byte changed in transit is detected. When one byte of the
    body arrives as another (other than the end mark), the read fails, the
    packet is consumed, and in acknowledged mode exactly one [-] is sent. *)
Theorem ReadPacket_detects_corruption {P} `{Peer P} (r : RSP P) noise l a b s rest :
  Forall (λ c, c ≠ cDollar) noise → Forall (λ c, c ≠ cHash) (l ++ b :: s) → a ≠ b →
  ReadPacket (r_set_rx (noise ++ cDollar :: (l ++ b :: s) ++ cHash ::
      hexByte (checksum (l ++ a :: s)) ++ rest) r) =
    if r_noAck r then (inl RBadChecksum, r_set_rx rest r)
    else (attempt (r_write [cMinus]) ≫= λ _, throw RBadChecksum) (r_set_rx rest r).
Proof.
  intros Hn Hr Hab.
  erewrite ReadPacket_found; [|rewrite hexByte_fmt; by apply scanPacket_raw].
  rewrite fromHex_pair, decide_False; [done|].
  intros E. by apply Hab, (rsp_checksum_one_byte l a b s).
Qed.

(** C30: Transmissions of a send. Against any peer [SendPacket] writes the one
    frame of the payload between zero and five times and nothing else; it
    succeeds only after a write, reports too many NAKs only after five, and in
    no-ack mode writes at most once. *)
Theorem SendPacket_wire {P} `{Peer P} (r : RSP P) p :
  let '(res, r') := SendPacket p r in
  ∃ k, (k ≤ 5)%nat ∧ t_tx (r_conn r') = t_tx (r_conn r) ++ replicate k (packet p) ∧
    r_noAck r' = r_noAck r ∧
    (res = inr () → (1 ≤ k)%nat) ∧ (res = inl RTooManyNaks → k = 5%nat) ∧
    (r_noAck r = true → (k ≤ 1)%nat).
Proof. apply SendPacket_loop_wire. Qed.
