(* ===== verification/RspSession.v ===== *)
(** * GDB remote debug sessions

    [internal/debug/session.go], written against the two operations of an RSP
    connection a session uses, so that its theorems hold over the wire and
    over any other implementation of the interface. *)

From stdpp Require Import base list numbers strings gmap.
From Stdlib Require Import ZArith Lia Strings.Byte.
From S2P Require Import Prelude GoStrconv GoStrings Transport Rsp.

Local Open Scope Z_scope.

(** ** The interface of an RSP connection *)

Class RspLink (S : Type) : Type := {
  rsp_SendPacket : list byte → M rsp_error S unit;
  rsp_Command : list byte → M rsp_error S (list byte);
  rsp_Close : M rsp_error S unit
}.

#[export] Instance wire_link {P} `{Peer P} : RspLink (RSP P) := {
  rsp_SendPacket := SendPacket;
  rsp_Command := Command;
  rsp_Close := Close
}.

Record Session (S : Type) : Type := MkSession { ss_rsp : S; ss_pid : Z }.
Arguments MkSession {S}.
Arguments ss_rsp {S}.
Arguments ss_pid {S}.

(** ** Parsing *)

Record StopReply := MkStopReply {
  sr_Signal : Z;
  sr_Thread : list byte;
  sr_Values : gmap (list byte) (list byte);
  sr_Raw : list byte
}.

Definition isError (resp : list byte) : bool :=
  bool_decide (length resp = 3%nat) && bool_decide (head resp = Some x45).

(** One [k:v] element of a T packet. *)
Definition stopField (sr : StopReply) (kv : list byte) : StopReply :=
  if decide (kv = []) then sr
  else match Cut kv x3a with
       | None => sr
       | Some (k, v) =>
           MkStopReply (sr_Signal sr)
             (if decide (k = str "thread") then v else sr_Thread sr)
             (<[k := v]> (sr_Values sr)) (sr_Raw sr)
       end.

(** The signal number: two hex digits, left at zero when they do not parse. *)
Definition stopSignal (resp : list byte) : Z :=
  if decide (3 ≤ length resp)%nat then
    match ParseInt (take 2 (drop 1 resp)) 16 32 with
    | (v, None) => v
    | _ => 0
    end
  else 0.

(** [None] is the run-time panic of the slice [resp[3:]]. *)
Definition parseStop (resp : list byte) : option StopReply :=
  match resp with
  | [] => Some (MkStopReply 0 [] ∅ resp)
  | b :: _ =>
      if decide (b = x53 ∨ b = x54 ∨ b = x58 ∨ b = x57) then
        let sr := MkStopReply (stopSignal resp) [] ∅ resp in
        if decide (b = x54) then
          if decide (3 ≤ length resp)%nat
          then Some (foldl stopField sr (Split (drop 3 resp) x3b))
          else None
        else Some sr
      else Some (MkStopReply 0 [] ∅ resp)
  end.

Definition BreakpointKind : Type := Z.
Definition SWBreak : BreakpointKind := 0.
Definition HWBreak : BreakpointKind := 1.

(** ** Operations *)

Section session.
Context {S : Type} `{RspLink S}.
Implicit Types s : Session S.

Definition T (A : Type) : Type := M rsp_error (Session S) A.

(** A call of a method of [s.rsp]. *)
Definition onRsp {A} (m : M rsp_error S A) : T A := λ s,
  let '(res, rsp) := m (ss_rsp s) in (res, MkSession rsp (ss_pid s)).

Definition command (p : list byte) : T (list byte) := onRsp (rsp_Command p).

Definition setPid (pid : Z) : T unit := modify (λ s, MkSession (ss_rsp s) pid).

Definition stopOrPanic (resp : list byte) : T StopReply :=
  match parseStop resp with Some sr => mret sr | None => throw RPanic end.

(** [NewSession]: the feature exchange, whose outcome is ignored. *)
Definition NewSession (rsp : S) : Session S :=
  MkSession (snd (rsp_Command (str "qSupported:multiprocess+;vContSupported+") rsp)) 0.

Definition Close : T unit :=
  s ← get_state;
  (if decide (ss_pid s ≠ 0) then attempt (command (str "D")) ≫= λ _, mret () else mret ()) ≫= λ _,
  onRsp rsp_Close.

Definition Attach (pid : Z) : T StopReply :=
  resp ← command (str "vAttach;" ++ fmt_x pid);
  resp ← (if decide (isError resp = true ∨ resp = []) then
            attempt (command (str "Hg p" ++ fmt_x pid ++ str ".0")) ≫= λ _,
            command (str "?")
          else mret resp);
  setPid pid ≫= λ _, stopOrPanic resp.

Definition Status : T StopReply := resp ← command (str "?"); stopOrPanic resp.

Definition Detach : T unit :=
  resp ← command (str "D");
  setPid 0 ≫= λ _,
  if isError resp then throw (RDetach resp) else mret ().

Definition KillInferior : T unit := onRsp (rsp_SendPacket (str "k")).

Definition Continue : T StopReply := resp ← command (str "c"); stopOrPanic resp.

Definition Step : T StopReply := resp ← command (str "s"); stopOrPanic resp.

Definition ReadRegisters : T (list byte) :=
  resp ← command (str "g");
  if isError resp then throw (RReadRegisters resp) else mret resp.

Definition ReadMemory (addr length : Z) : T (list byte) :=
  resp ← command (str "m" ++ fmt_x addr ++ str "," ++ fmt_x length);
  if isError resp then throw (RReadMemory addr resp)
  else match hexDecode resp with inl e => throw e | inr d => mret d end.

Definition WriteMemory (addr : Z) (data : list byte) : T unit :=
  resp ← command (str "M" ++ fmt_x addr ++ str "," ++ fmt_x (Z.of_nat (length data)) ++
                  str ":" ++ hexEncode data);
  if decide (resp = str "OK") then mret () else throw (RWriteMemory addr resp).

Definition SetBreakpoint (addr : Z) (kind : BreakpointKind) (kindBytes : Z) : T unit :=
  resp ← command (str "Z" ++ fmt_d kind ++ str "," ++ fmt_x addr ++ str "," ++ fmt_d kindBytes);
  if decide (resp = str "OK") then mret () else throw (RSetBreakpoint addr resp).

Definition ClearBreakpoint (addr : Z) (kind : BreakpointKind) (kindBytes : Z) : T unit :=
  resp ← command (str "z" ++ fmt_d kind ++ str "," ++ fmt_x addr ++ str "," ++ fmt_d kindBytes);
  if decide (resp = str "OK") then mret () else throw (RClearBreakpoint addr resp).

(** The thread ids of one page of the list. *)
Definition threadPage (resp : list byte) : list (list byte) :=
  if HasPrefix resp (str "m") then filter (λ t, t ≠ []) (Split (drop 1 resp) x2c) else [].

(** Asking for the list ends with an empty reply, [l] or an error reply. *)
Definition endOfList (resp : list byte) : bool :=
  bool_decide (resp = []) || bool_decide (resp = str "l") || isError resp.

(** The loop of [ListThreads] asks for the next page until the list ends; the
    source bounds it by nothing, the model by fuel. *)
Fixpoint ListThreads_loop (fuel : nat) (ids : list (list byte)) (resp : list byte)
  : T (list (list byte) * option rsp_error) :=
  match fuel with
  | O => mret (ids, Some RFuel)
  | Datatypes.S fuel =>
      if endOfList resp then mret (ids, None)
      else
        let ids := ids ++ threadPage resp in
        r ← attempt (command (str "qsThreadInfo"));
        match r with
        | inl e => mret (ids, Some e)
        | inr resp => ListThreads_loop fuel ids resp
        end
  end.

Definition ListThreads (fuel : nat) : T (list (list byte) * option rsp_error) :=
  resp ← command (str "qfThreadInfo"); ListThreads_loop fuel [] resp.
End session.

(** ** Stop packets *)

(** C33: The parser of stop packets panics exactly on a T packet shorter than
    three bytes: the length guard protects the signal number but not the slice
    of the key-value list behind it. *)
Theorem parseStop_panics (resp : list byte) :
  parseStop resp = None ↔ head resp = Some x54 ∧ (length resp < 3)%nat.
Proof.
  destruct resp as [|b resp]; [simpl; intuition done|]. cbn [parseStop head].
  case_decide as Hb; [|split; [done|]; intros [[= ->] _]; tauto].
  case_decide as Ht; [subst b|split; [done|]; by intros [[= ->] _]].
  case_decide; split; try done; [intros [_ ?]; lia | split; [done|lia]].
Qed.

Definition stopElement (kv : list byte * list byte) : list byte := fst kv ++ [x3a] ++ snd kv.

(** A T packet as the protocol defines it. *)
Definition stopPacket (sig : byte) (kvs : list (list byte * list byte)) : list byte :=
  str "T" ++ fmt_02x sig ++ terminated x3b (stopElement <$> kvs).

(** Keys are free of both separators, values of the list separator. *)
Definition stopClean (kv : list byte * list byte) : Prop :=
  Forall (λ b, b ≠ x3a ∧ b ≠ x3b) (fst kv) ∧ Forall (λ b, b ≠ x3b) (snd kv).

Lemma stopField_element sr kv :
  stopClean kv →
  stopField sr (stopElement kv) =
    MkStopReply (sr_Signal sr) (if decide (fst kv = str "thread") then snd kv else sr_Thread sr)
      (<[fst kv := snd kv]> (sr_Values sr)) (sr_Raw sr).
Proof.
  destruct kv as [k v]. intros [Hk _]. unfold stopField, stopElement. simpl.
  rewrite decide_False by (by destruct k).
  rewrite Cut_app; [done|]. eapply Forall_impl; [done|]. simpl. tauto.
Qed.

Lemma stopElements_clean kvs :
  Forall stopClean kvs → Forall (Forall (λ b, b ≠ x3b)) (stopElement <$> kvs).
Proof.
  intros Hc. apply Forall_fmap. eapply Forall_impl; [exact Hc|].
  intros [k v] [Hk Hv]. apply Forall_app. split; [|by constructor].
  eapply Forall_impl; [exact Hk|]. simpl. tauto.
Qed.

Lemma stopFields_fold kvs sg th m raw :
  Forall stopClean kvs → th = default [] (m !! str "thread") →
  foldl stopField (MkStopReply sg th m raw) (stopElement <$> kvs) =
    let m' := foldl (λ m kv, <[fst kv := snd kv]> m) m kvs in
    MkStopReply sg (default [] (m' !! str "thread")) m' raw.
Proof.
  intros Hc. revert th m. induction Hc as [|[k v] kvs Hkv Hc IH]; intros th m ->; [done|].
  cbn [fmap list_fmap foldl]. rewrite stopField_element by done. cbn [fst snd sr_Signal sr_Thread sr_Values sr_Raw].
  apply IH. case_decide as Hk; [subst k; by rewrite lookup_insert|].
  by rewrite lookup_insert_ne.
Qed.

Lemma foldl_insert_map (kvs : list (list byte * list byte)) :
  foldl (λ (m : gmap (list byte) (list byte)) kv, <[fst kv := snd kv]> m) ∅ kvs =
    list_to_map (reverse kvs).
Proof.
  induction kvs as [|[k v] kvs IH] using rev_ind; [done|].
  rewrite foldl_snoc, reverse_snoc, IH. done.
Qed.

Lemma stopSignal_packet sig kvs : stopSignal (stopPacket sig kvs) = Z_of_byte sig.
Proof.
  unfold stopSignal, stopPacket. rewrite decide_True by (simpl; lia).
  unfold fmt_02x. cbn [app str drop take]. simpl (take 2 _). simpl (drop 1 _). simpl (take _ _).
  byte_cases sig.
Qed.

(** Parsing a stop packet. For every signal and every list of key-value
    pairs the parser returns that signal, the map in which the last value of a
    key wins, and as the thread the value of the key [thread]. *)
Theorem parseStop_packet (sig : byte) (kvs : list (list byte * list byte)) :
  Forall stopClean kvs →
  let m : gmap (list byte) (list byte) := list_to_map (reverse kvs) in
  parseStop (stopPacket sig kvs) =
    Some (MkStopReply (Z_of_byte sig) (default [] (m !! str "thread")) m (stopPacket sig kvs)).
Proof.
  intros Hc m. pose proof (stopSignal_packet sig kvs) as Hs.
  set (pkt := stopPacket sig kvs) in *.
  assert (pkt = x54 :: fmt_02x sig ++ terminated x3b (stopElement <$> kvs)) as Ep by done.
  unfold parseStop. rewrite Hs. rewrite Ep at 1. rewrite decide_True by tauto.
  rewrite (decide_True _ _ (eq_refl x54)), decide_True by (rewrite Ep; simpl; lia).
  assert (drop 3 pkt = terminated x3b (stopElement <$> kvs) ++ []) as ->
    by (rewrite Ep, app_nil_r; done).
  rewrite Split_terminated, foldl_app by auto using stopElements_clean.
  rewrite stopFields_fold by done. cbv zeta. by rewrite foldl_insert_map.
Qed.

Lemma parseStop_packet_witness :
  parseStop (stopPacket x05 [(str "thread", str "1"); (str "core", str "0")]) =
    Some (MkStopReply 5 (str "1")
      (list_to_map (reverse [(str "thread", str "1"); (str "core", str "0")]))
      (str "T05thread:1;core:0;")).
Proof.
  apply (parseStop_packet x05 [(str "thread", str "1"); (str "core", str "0")]).
  repeat constructor; done.
Defined.

(** ** Thread lists *)

(** A connection on which the replies to come are given: what a stub sends does
    not depend on how the session asks. *)
#[local] Instance scripted_link : RspLink (list (list byte)) := {
  rsp_SendPacket := λ _ rs, (inr (), rs);
  rsp_Command := λ _ rs, match rs with [] => (inl RIO, []) | r :: rs => (inr r, rs) end;
  rsp_Close := λ rs, (inr (), rs)
}.

(** A page of thread ids: one at least, separated by commas. *)
Definition idPage (pg : list (list byte) * list byte) : list byte :=
  str "m" ++ terminated x2c (fst pg) ++ snd pg.
Definition pageIds (pg : list (list byte) * list byte) : list (list byte) := fst pg ++ [snd pg].

Definition idClean (t : list byte) : Prop := t ≠ [] ∧ Forall (λ b, b ≠ x2c) t.

Lemma threadPage_ids pg : Forall idClean (pageIds pg) → threadPage (idPage pg) = pageIds pg.
Proof.
  destruct pg as [ids l]. unfold pageIds. simpl. rewrite Forall_app, Forall_singleton.
  intros [Hids [Hl Hlc]]. unfold threadPage, idPage. rewrite HasPrefix_app.
  cbn [fst snd str]. change (drop 1 (str "m" ++ ?x)) with x.
  rewrite Split_terminated; [|eapply Forall_impl; [exact Hids|]; by intros t []|done].
  apply filter_all, Forall_app. split; [|by apply Forall_singleton].
  eapply Forall_impl; [exact Hids|]. by intros t [].
Qed.

Lemma idPage_more pg : Forall idClean (pageIds pg) → endOfList (idPage pg) = false.
Proof.
  intros _. unfold endOfList, isError, idPage. simpl.
  by rewrite andb_false_r.
Qed.

Lemma ListThreads_loop_pages fuel ids pgs e rest pid :
  Forall (λ pg, Forall idClean (pageIds pg)) pgs → endOfList e = true →
  (length pgs < fuel)%nat →
  ∀ r rs, (idPage <$> pgs) ++ e :: rest = r :: rs →
  ListThreads_loop fuel ids r (MkSession rs pid) =
    (inr (ids ++ (pgs ≫= pageIds), None), MkSession rest pid).
Proof.
  intros Hp He. revert fuel ids. induction Hp as [|pg pgs Hpg Hp IH]; intros fuel ids Hf r rs E.
  - destruct fuel; [simpl in Hf; lia|]. simpl in E. injection E as <- <-.
    cbn [ListThreads_loop]. rewrite He. simpl. by rewrite app_nil_r.
  - destruct fuel as [|fuel]; [simpl in Hf; lia|].
    change (idPage pg :: ((idPage <$> pgs) ++ e :: rest) = r :: rs) in E. injection E as <- <-.
    cbn [ListThreads_loop]. rewrite idPage_more by done. rewrite threadPage_ids by done.
    destruct ((idPage <$> pgs) ++ e :: rest) as [|r rs] eqn:E.
    { by destruct pgs. }
    unfold mbind, M_bind, attempt, command, onRsp. cbn [rsp_Command scripted_link ss_rsp ss_pid].
    rewrite (IH fuel (ids ++ pageIds pg)) with (rs := rs) by (simpl in Hf; lia || done).
    cbn [mbind list_bind]. by rewrite app_assoc.
Qed.

(** Listing threads. For any number of pages of thread ids, closed by a
    reply that ends the list, the session returns all ids in order, after
    exactly one request per reply. *)
Theorem ListThreads_pages fuel pgs e rest pid :
  Forall (λ pg, Forall idClean (pageIds pg)) pgs → endOfList e = true → (length pgs < fuel)%nat →
  ListThreads fuel (MkSession ((idPage <$> pgs) ++ e :: rest) pid) =
    (inr (pgs ≫= pageIds, None), MkSession rest pid).
Proof.
  intros Hp He Hf. unfold ListThreads.
  destruct ((idPage <$> pgs) ++ e :: rest) as [|r rs] eqn:E; [by destruct pgs|].
  unfold mbind, M_bind, command, onRsp. cbn [rsp_Command scripted_link ss_rsp ss_pid].
  by apply (ListThreads_loop_pages fuel [] pgs e rest pid Hp He Hf).
Qed.

Lemma ListThreads_pages_witness :
  ListThreads 3 (MkSession ((idPage <$> [([str "1"], str "2"); ([], str "3")]) ++ str "l" :: []) 7) =
    (inr ([str "1"; str "2"; str "3"], None), MkSession [] 7).
Proof.
  apply (ListThreads_pages 3 [([str "1"], str "2"); ([], str "3")] (str "l") [] 7);
    [repeat constructor; done | done | simpl; lia].
Defined.
