(* ===== verification/MockRsp.v ===== *)
(** * RSP stubs and the mock stub

    What a session expects of the stub on the other end ([RspStub]), what a
    command exchange over the wire then does, and the test double
    [internal/mockqnx/rsp.go] as an instance, with a whole session over it. *)

From stdpp Require Import base list numbers strings gmap.
From Stdlib Require Import ZArith Lia Strings.Byte.
From S2P Require Import Prelude GoStrconv GoStrings Transport Rsp RspSession.

Local Open Scope Z_scope.

(** ** Conforming stubs

    A stub that is waiting for a request answers a packet with the reply packet,
    behind an acknowledgement as long as it is in acknowledged mode, and
    swallows acknowledgements. Only the request to do so changes the mode. *)

Definition noAckRequest : list byte := str "QStartNoAckMode".

Class RspStub (P : Type) `{Peer P} : Type := {
  stub_ready : P → Prop;
  stub_acks : P → bool;
  stub_reply : P → list byte → option (list byte * P);
  stub_packet p q reply p' :
    stub_ready p → stub_reply p q = Some (reply, p') →
    peer_write p (packet q) = (true, (if stub_acks p then [cPlus] else []) ++ packet reply, p') ∧ stub_ready p';
  stub_mode p q reply p' :
    stub_ready p → stub_reply p q = Some (reply, p') → q ≠ noAckRequest → stub_acks p' = stub_acks p;
  stub_ack p : stub_ready p → peer_write p [cPlus] = (true, [], p)
}.

(** Between two commands: connected, everything read, the stub waiting, and
    acknowledging if the client expects it to. *)
Definition ridle {P} `{RspStub P} (r : RSP P) : Prop :=
  t_open (r_conn r) = true ∧ t_rx (r_conn r) = [] ∧ stub_ready (t_peer (r_conn r)) ∧
  (r_noAck r = false → stub_acks (t_peer (r_conn r)) = true).

(** The connection after an exchange. *)
Definition rspAfter {P} (r : RSP P) (q : list byte) (p' : P) : RSP P :=
  MkRSP (Transport p' [] (t_tx (r_conn r) ++ packet q :: (if r_noAck r then [] else [[cPlus]])) true)
    (r_noAck r).

Section stub.
Context {P : Type} `{RspStub P}.
Implicit Types r : RSP P.

(** What is left unread of the answer once the packet is sent. *)
Lemma SendPacket_stub r q reply p' :
  ridle r → stub_reply (t_peer (r_conn r)) q = Some (reply, p') →
  ∃ noise, Forall (λ b, b ≠ cDollar) noise ∧
    SendPacket q r =
      (inr (), MkRSP (Transport p' (noise ++ packet reply) (t_tx (r_conn r) ++ [packet q]) true) (r_noAck r)).
Proof.
  intros (Ho & Hrx & Hr & Hm) Hq. destruct (stub_packet _ _ _ _ Hr Hq) as [Hw _].
  destruct r as [[p rx tx op] na]. simpl in *. subst.
  exists (if na then (if stub_acks p then [cPlus] else []) else []).
  split; [destruct na, (stub_acks p); by repeat constructor|].
  unfold SendPacket. cbn [SendPacket_loop]. unfold mbind, M_bind, r_write, t_write. simpl.
  rewrite Hw. simpl. destruct na; [done|]. by rewrite Hm.
Qed.

Lemma Command_stub_run r q reply p' :
  ridle r → stub_reply (t_peer (r_conn r)) q = Some (reply, p') →
  Command q r = (inr reply, rspAfter r q p') ∧
  (q ≠ noAckRequest ∨ r_noAck r = true → ridle (rspAfter r q p')).
Proof.
  intros Hi Hq. destruct (SendPacket_stub r q reply p' Hi Hq) as (noise & Hn & Hs).
  destruct Hi as (Ho & Hrx & Hr & Hm). destruct (stub_packet _ _ _ _ Hr Hq) as [_ Hr'].
  split.
  - unfold Command. step_ok Hs.
    erewrite ReadPacket_found.
    2: { simpl. rewrite <- (app_nil_r (packet reply)). by apply scanPacket_packet. }
    rewrite decide_True by done. rewrite decode_escape.
    unfold rspAfter. simpl. destruct (r_noAck r); [done|].
    unfold mbind, M_bind, r_write, t_write. simpl. rewrite (stub_ack _ Hr'). simpl.
    by rewrite <- app_assoc.
  - intros Hmode. split_and!; [done..|]. simpl. intros Hna. destruct Hmode as [Hne|]; [|congruence].
    rewrite (stub_mode _ _ _ _ Hr Hq Hne). by apply Hm.
Qed.

(** Switching to no-ack mode. *)
Lemma EnableNoAck_run r p' :
  ridle r → stub_reply (t_peer (r_conn r)) noAckRequest = Some (str "OK", p') →
  let r' := MkRSP (r_conn (rspAfter r noAckRequest p')) true in EnableNoAck r = (inr (), r') ∧ ridle r'.
Proof.
  intros Hi Hq r'. destruct (Command_stub_run r _ _ _ Hi Hq) as [E _].
  split; [unfold EnableNoAck; fold noAckRequest; by step_ok E|].
  destruct Hi as (_ & _ & Hr & _). destruct (stub_packet _ _ _ _ Hr Hq) as [_ Hr']. by split_and!.
Qed.
End stub.

(** ** The mock stub *)

Definition closeConn : list byte := x00 :: str "__close__".

(** The hex dump of [n] bytes of the mock's memory: byte [a] holds [a & 0xff]. *)
Definition mockMemHex (addr n : Z) : list byte :=
  seqZ 0 n ≫= λ i, fmt_02x (byte_of_Z (Z.land (u64 (addr + i)) 0xff)).

Definition rspHandle (p : list byte) : list byte :=
  if decide (p = []) then []
  else if HasPrefix p (str "qSupported") then
    str "PacketSize=4000;multiprocess+;vContSupported+;QStartNoAckMode+"
  else if decide (p = str "QStartNoAckMode") then str "OK"
  else if HasPrefix p (str "vAttach") then str "T05thread:1;"
  else if decide (p = str "?") then str "T05thread:1;"
  else if decide (p = str "c" ∨ p = str "s") then str "T05thread:1;"
  else if decide (p = str "g") then
    seqZ 0 16 ≫= λ i, seqZ 0 8 ≫= λ j, fmt_02x (byte_of_Z (Z.land (i * 8 + j) 0xff))
  else if HasPrefix p (str "m") then
    let body := drop 1 p in
    match IndexByte body x2c with
    | None => str "E01"
    | Some comma =>
        let addr := fst (ParseUint (take comma body) 16 64) in
        let n := fst (ParseUint (drop (comma + 1) body) 16 64) in
        mockMemHex addr n
    end
  else if HasPrefix p (str "M") then str "OK"
  else if HasPrefix p (str "Z") || HasPrefix p (str "z") then str "OK"
  else if decide (p = str "qfThreadInfo") then str "m1"
  else if decide (p = str "qsThreadInfo") then str "l"
  else if HasPrefix p (str "Hg") || HasPrefix p (str "Hc") then str "OK"
  else if decide (p = str "D") then str "OK"
  else if decide (p = str "k") then closeConn
  else [].

Fixpoint rspDecode (p : list byte) : list byte :=
  match p with
  | [] => []
  | b :: p' =>
      if decide (b = cBrace) then
        match p' with
        | [] => [b]
        | c :: p'' => byte_xor c x20 :: rspDecode p''
        end
      else b :: rspDecode p'
  end.

Fixpoint rspEscape (p : list byte) : list byte :=
  match p with
  | [] => []
  | b :: p =>
      if decide (b = cDollar ∨ b = cHash ∨ b = cBrace ∨ b = cStar)
      then cBrace :: byte_xor b x20 :: rspEscape p else b :: rspEscape p
  end.

Definition rspWrite (payload : list byte) : list byte :=
  let body := rspEscape payload in
  let sum := Z_of_byte (foldl byte_add x00 body) in
  ([cDollar] ++ body) ++ [cHash; hexDigit (Z.shiftr sum 4); hexDigit (Z.land sum 0xf)].

(** [rspRead] on the bytes received so far: blocked in the middle of a packet
    (the bytes of it are kept), or a payload and the bytes after it. *)
Inductive rsp_read := RspBlocked (kept : list byte) | RspGot (payload rest : list byte).

Definition rspRead (inp : list byte) : rsp_read :=
  match scanStart inp with
  | None => RspBlocked []
  | Some inp =>
      match scanBody [] inp with
      | Some (raw, _ :: _ :: rest) => RspGot (rspDecode raw) rest
      | _ => RspBlocked (cDollar :: inp)
      end
  end.

(** [handleRSP]: the replies, the bytes kept and whether it closed the
    connection. Every iteration consumes a packet. *)
Fixpoint handleRSP (fuel : nat) (inp : list byte) : list byte * list byte * bool :=
  match fuel with
  | O => ([], inp, false)
  | S fuel =>
      match rspRead inp with
      | RspBlocked kept => ([], kept, false)
      | RspGot payload rest =>
          let resp := rspHandle payload in
          if decide (resp = closeConn) then ([cPlus], rest, true)
          else
            let '(out, kept, closed) := handleRSP fuel rest in
            ([cPlus] ++ rspWrite resp ++ out, kept, closed)
      end
  end.

Record mockRsp := MkMockRsp { mr_pending : list byte; mr_closed : bool }.

(** A write to a connection the mock has closed is accepted and not answered. *)
#[export] Instance mockRsp_peer : Peer mockRsp := λ m b,
  if mr_closed m then (true, [], m)
  else
    let inp := mr_pending m ++ b in
    let '(out, kept, closed) := handleRSP (S (length inp)) inp in
    (true, out, MkMockRsp kept closed).

Lemma rspEscape_escape p : rspEscape p = escape p.
Proof. induction p as [|b p IH]; [done|]. simpl. by rewrite IH. Qed.

Lemma rspWrite_packet p : rspWrite p = packet p.
Proof. unfold rspWrite, packet. rewrite rspEscape_escape, <- app_assoc. done. Qed.

Lemma rspDecode_escape p : rspDecode (escape p) = p.
Proof.
  induction p as [|b p IH]; [done|]. simpl. case_decide as Hb; simpl.
  - by rewrite byte_xor_involutive, IH.
  - unfold special in Hb. rewrite decide_False by tauto. by rewrite IH.
Qed.

Lemma rspRead_packet q rest : rspRead (packet q ++ rest) = RspGot q rest.
Proof.
  unfold rspRead, packet. rewrite <- !app_assoc. cbn [app scanStart].
  rewrite decide_True by done. rewrite scanBody_run.
  - unfold hexByte. cbn [app]. by rewrite rspDecode_escape.
  - eapply Forall_impl; [apply escape_clean | simpl; tauto].
Qed.

#[export, refine] Instance mockRsp_stub : RspStub mockRsp := {
  stub_ready := λ m, m = MkMockRsp [] false;
  stub_acks := λ _, true;
  stub_reply := λ m q,
    if decide (rspHandle q = closeConn) then None else Some (rspHandle q, m)
}.
Proof.
  - intros m q reply m' ->. case_decide as Hc; [done|]. intros [= <- <-]. split; [|done].
    unfold peer_write, mockRsp_peer. cbn [mr_closed mr_pending app].
    rewrite <- (app_nil_r (packet q)). cbn [handleRSP]. rewrite rspRead_packet.
    rewrite decide_False by done.
    destruct (length (packet q ++ [])) eqn:El; [done|]. cbn [handleRSP].
    change (rspRead []) with (RspBlocked []). cbn iota.
    by rewrite app_nil_r, rspWrite_packet.
  - done.
  - by intros m ->.
Defined.

(** The mock goes on acknowledging whatever it is asked. A stub that keeps to
    the protocol, with the same answers: it stops once it has agreed to. *)
Record strictStub := MkStrictStub { sk_acks : bool }.

Definition strictNext (q : list byte) (m : strictStub) : strictStub :=
  if decide (q = noAckRequest) then MkStrictStub false else m.

#[export] Instance strictStub_peer : Peer strictStub := λ m b,
  if decide (b = [cPlus]) then (true, [], m)
  else
    match rspRead b with
    | RspBlocked _ => (true, [], m)
    | RspGot q _ => (true, (if sk_acks m then [cPlus] else []) ++ rspWrite (rspHandle q), strictNext q m)
    end.

#[export, refine] Instance strictStub_stub : RspStub strictStub := {
  stub_ready := λ _, True;
  stub_acks := sk_acks;
  stub_reply := λ m q, Some (rspHandle q, strictNext q m)
}.
Proof.
  - intros m q reply m' _ [= <- <-]. split; [|done]. unfold peer_write, strictStub_peer.
    rewrite decide_False by (unfold packet; done). rewrite <- (app_nil_r (packet q)), rspRead_packet.
    by rewrite rspWrite_packet.
  - intros m q reply m' _ [= _ <-] Hq. unfold strictNext. by rewrite decide_False.
  - done.
Defined.

(** ** A session over the mock stub *)

Definition sidle (s : Session (RSP mockRsp)) : Prop := ridle (ss_rsp s).

Section mock_session.
Implicit Types s : Session (RSP mockRsp).

Lemma command_mock s q :
  sidle s → rspHandle q ≠ closeConn →
  ∃ s', command q s = (inr (rspHandle q), s') ∧ sidle s' ∧ ss_pid s' = ss_pid s.
Proof.
  intros Hi Hq.
  destruct (Command_stub_run (ss_rsp s) q (rspHandle q) (t_peer (r_conn (ss_rsp s))) Hi) as [E _].
  { simpl. by rewrite decide_False. }
  eexists. split; [unfold command, onRsp; simpl; by rewrite E|].
  destruct Hi as (_ & _ & Hr & _). by split; [split_and!|].
Qed.

(** A command whose reply is known. *)
Lemma command_mock_is s q reply :
  sidle s → rspHandle q = reply → reply ≠ closeConn →
  ∃ s', command q s = (inr reply, s') ∧ sidle s' ∧ ss_pid s' = ss_pid s.
Proof. intros Hi <- Hc. by apply command_mock. Qed.

Lemma rspHandle_m addr n :
  0 <= addr < 2 ^ 64 → 0 <= n < 2 ^ 63 →
  rspHandle (str "m" ++ fmt_x addr ++ str "," ++ fmt_x n) = mockMemHex addr n.
Proof.
  intros Ha Hn. unfold fmt_x, fmt_int.
  destruct (Z.ltb_spec addr 0), (Z.ltb_spec n 0); try lia.
  set (a := fmt_uint 16 addr). set (b := fmt_uint 16 n).
  assert (IndexByte (a ++ x2c :: b) x2c = Some (length a)) as Hi
    by (apply IndexByte_app, digits_no_sep; [lia|lia|done]).
  change (rspHandle (str "m" ++ a ++ str "," ++ b)) with
    (match IndexByte (a ++ x2c :: b) x2c with
     | None => str "E01"
     | Some comma => mockMemHex (fst (ParseUint (take comma (a ++ x2c :: b)) 16 64))
                       (fst (ParseUint (drop (comma + 1) (a ++ x2c :: b)) 16 64))
     end).
  rewrite Hi, take_app_length, <- drop_drop.
  rewrite drop_app_length. cbn [drop].
  unfold a, b. by rewrite drop_0, !ParseUint_fmt_uint by lia.
Qed.
End mock_session.

(** ** The whole exchange *)

Definition mockRsp_conn : RSP mockRsp := NewRSP (Transport (MkMockRsp [] false) [] [] true).

(** The contents of the mock's memory. *)
Definition mockMem (addr n : Z) : list byte := (λ i, byte_of_Z (u64 (addr + i))) <$> seqZ 0 n.

Lemma mockMemHex_bytes addr n : mockMemHex addr n = hex_of_bytes (mockMem addr n).
Proof.
  unfold mockMemHex, mockMem, hex_of_bytes. generalize (seqZ 0 n). intros l.
  induction l as [|i l IH]; [done|]. cbn [mbind list_bind fmap list_fmap]. rewrite IH.
  change 0xff with (Z.ones 8). rewrite Z.land_ones by lia. by rewrite byte_of_Z_mod.
Qed.

Lemma hex_not_error bs : isError (hex_of_bytes bs) = false.
Proof.
  unfold isError. rewrite length_hex_of_bytes, bool_decide_eq_false_2 by lia. done.
Qed.

Lemma hex_not_close bs : hex_of_bytes bs ≠ closeConn.
Proof.
  destruct bs as [|b bs]; [done|].
  change (hex_of_bytes (b :: bs)) with (fmt_02x b ++ hex_of_bytes bs).
  unfold fmt_02x, closeConn. cbn [app]. intros [= E _]. revert E. byte_cases b.
Qed.

Section mock_methods.
Implicit Types s : Session (RSP mockRsp).

Lemma Attach_mock s pid :
  sidle s →
  ∃ sr s', Attach pid s = (inr sr, s') ∧ sr_Signal sr = 5 ∧ sr_Thread sr = str "1" ∧
           sidle s' ∧ ss_pid s' = pid.
Proof.
  intros Hi.
  destruct (command_mock_is s (str "vAttach;" ++ fmt_x pid) (str "T05thread:1;") Hi eq_refl)
    as (s' & E & Hi' & _); [done|].
  eexists _, (MkSession (ss_rsp s') pid). unfold Attach. step_ok E. split; [reflexivity|]. done.
Qed.

Lemma ReadMemory_mock s addr n :
  sidle s → 0 <= addr < 2 ^ 64 → 0 <= n < 2 ^ 63 →
  ∃ s', ReadMemory addr n s = (inr (mockMem addr n), s') ∧ sidle s' ∧ ss_pid s' = ss_pid s.
Proof.
  intros Hi Ha Hn. pose proof (rspHandle_m addr n Ha Hn) as Hh. rewrite mockMemHex_bytes in Hh.
  destruct (command_mock_is s _ _ Hi Hh (hex_not_close _)) as (s' & E & Hi' & Hp).
  exists s'. unfold ReadMemory. step_ok E. rewrite hex_not_error, hexDecode_hex. done.
Qed.

(** The requests the mock accepts without further data. *)
Lemma accepted_mock s q e :
  sidle s → rspHandle q = str "OK" →
  ∃ s', (resp ← command q; if decide (resp = str "OK") then mret () else throw (e resp)) s =
          (inr (), s') ∧ sidle s' ∧ ss_pid s' = ss_pid s.
Proof.
  intros Hi Hq.
  destruct (command_mock_is s q (str "OK") Hi Hq) as (s' & E & Hi' & Hp); [done|].
  exists s'. by step_ok E.
Qed.

Lemma Detach_mock s : sidle s → ∃ s', Detach s = (inr (), s') ∧ sidle s' ∧ ss_pid s' = 0.
Proof.
  intros Hi. destruct (command_mock_is s (str "D") (str "OK") Hi eq_refl) as (s' & E & Hi' & _); [done|].
  exists (MkSession (ss_rsp s') 0). unfold Detach. by step_ok E.
Qed.

Lemma ListThreads_mock s fuel :
  (2 ≤ fuel)%nat → sidle s →
  ∃ s', ListThreads fuel s = (inr ([str "1"], None), s') ∧ sidle s' ∧ ss_pid s' = ss_pid s.
Proof.
  intros Hf Hi. unfold ListThreads.
  destruct (command_mock_is s (str "qfThreadInfo") (str "m1") Hi eq_refl) as (s1 & E1 & Hi1 & Hp1); [done|].
  destruct (command_mock s1 (str "qsThreadInfo") Hi1) as (s2 & E2 & Hi2 & Hp2); [done|].
  exists s2. step_ok E1. destruct fuel as [|[|fuel]]; [lia..|]. cbn [ListThreads_loop].
  change (endOfList (str "m1")) with false. cbn iota.
  unfold mbind, M_bind, attempt. rewrite E2. split; [reflexivity|]. split; [done|congruence].
Qed.
End mock_methods.

(** C27: A command exchange. Over an idle connection to a conforming stub,
    which acknowledges in acknowledged mode and need not in no-ack mode, a
    command returns exactly the stub's reply, whatever bytes request and reply
    are made of; the wire has carried the request once, and one acknowledgement
    in acknowledged mode and none otherwise; and the connection is idle again.
    When the stub agrees to no-ack mode, [EnableNoAck] leaves the connection
    idle in that mode. *)
Theorem Command_stub {P} `{RspStub P} (r : RSP P) q reply p' :
  ridle r → stub_reply (t_peer (r_conn r)) q = Some (reply, p') →
  Command q r = (inr reply, rspAfter r q p') ∧
  (q ≠ noAckRequest ∨ r_noAck r = true → ridle (rspAfter r q p')) ∧
  (q = noAckRequest → reply = str "OK" →
   let r' := MkRSP (r_conn (rspAfter r q p')) true in EnableNoAck r = (inr (), r') ∧ ridle r').
Proof.
  intros Hi Hq. destruct (Command_stub_run r q reply p' Hi Hq) as [E Hidle]. split_and!; [done..|].
  intros -> ->. by apply EnableNoAck_run.
Qed.

(** The strict stub, in no-ack mode and on the way there. *)
Lemma Command_stub_witness :
  let r := NewRSP (Transport (MkStrictStub true) [] [] true) in
  let r1 := MkRSP (r_conn (rspAfter r noAckRequest (MkStrictStub false))) true in
  EnableNoAck r = (inr (), r1) ∧
  Command (str "qfThreadInfo") r1 = (inr (str "m1"), rspAfter r1 (str "qfThreadInfo") (MkStrictStub false)) ∧
  t_tx (r_conn (rspAfter r1 (str "qfThreadInfo") (MkStrictStub false))) =
    [packet noAckRequest; [cPlus]; packet (str "qfThreadInfo")].
Proof.
  intros r r1.
  destruct (Command_stub r noAckRequest (str "OK") (MkStrictStub false)) as (_ & _ & Hno); [by split_and!|done|].
  destruct (Hno eq_refl eq_refl) as [E1 Hi1]. split; [exact E1|]. split; [|done].
  by apply (Command_stub r1 (str "qfThreadInfo") (str "m1") (MkStrictStub false)).
Defined.

(** A debug session over the mock stub, byte by byte through both codecs:
    attaching stops the process with signal 5 on thread 1, a breakpoint can be
    set, memory reads return exactly the stub's memory at the requested address
    and length, the thread list is complete, and detaching clears the pid. *)
Theorem rsp_session_mock (pid addr n bp kindBytes : Z) :
  0 <= addr < 2 ^ 64 → 0 <= n < 2 ^ 63 →
  ∃ sr s1 s2 s3 s4 s5,
    Attach pid (NewSession mockRsp_conn) = (inr sr, s1) ∧
    sr_Signal sr = 5 ∧ sr_Thread sr = str "1" ∧ ss_pid s1 = pid ∧
    SetBreakpoint bp SWBreak kindBytes s1 = (inr (), s2) ∧
    ReadMemory addr n s2 = (inr (mockMem addr n), s3) ∧
    ListThreads 2 s3 = (inr ([str "1"], None), s4) ∧
    Detach s4 = (inr (), s5) ∧ ss_pid s5 = 0 ∧ sidle s5.
Proof.
  intros Ha Hn.
  assert (sidle (NewSession mockRsp_conn)) as Hi0 by done.
  destruct (Attach_mock _ pid Hi0) as (sr & s1 & E1 & Hs & Ht & Hi1 & Hp1).
  destruct (accepted_mock s1 (str "Z" ++ fmt_d SWBreak ++ str "," ++ fmt_x bp ++ str "," ++ fmt_d kindBytes)
    (RSetBreakpoint bp) Hi1 eq_refl) as (s2 & E2 & Hi2 & _).
  destruct (ReadMemory_mock s2 addr n Hi2 Ha Hn) as (s3 & E3 & Hi3 & _).
  destruct (ListThreads_mock s3 2 ltac:(lia) Hi3) as (s4 & E4 & Hi4 & _).
  destruct (Detach_mock s4 Hi4) as (s5 & E5 & Hi5 & Hp5).
  exists sr, s1, s2, s3, s4, s5. auto 10.
Qed.

Lemma rsp_session_mock_witness :
  ∃ sr s1 s2 s3 s4 s5,
    Attach 4711 (NewSession mockRsp_conn) = (inr sr, s1) ∧
    sr_Signal sr = 5 ∧ sr_Thread sr = str "1" ∧ ss_pid s1 = 4711 ∧
    SetBreakpoint 0x1000 SWBreak 4 s1 = (inr (), s2) ∧
    ReadMemory 0x23 3 s2 = (inr [x23; x24; x25], s3) ∧
    ListThreads 2 s3 = (inr ([str "1"], None), s4) ∧
    Detach s4 = (inr (), s5) ∧ ss_pid s5 = 0 ∧ sidle s5.
Proof. apply (rsp_session_mock 4711 0x23 3 0x1000 4); lia. Defined.

(** ** Instances of the reader theorems *)

Lemma ReadPacket_packet_witness :
  ReadPacket (r_set_rx ([cPlus] ++ packet (str "T05#") ++ [x41]) mockRsp_conn) =
    (r_write [cPlus] ≫= λ _, mret (str "T05#")) (r_set_rx [x41] mockRsp_conn).
Proof. apply (ReadPacket_packet mockRsp_conn [cPlus] (str "T05#") [x41]). by repeat constructor. Defined.

Lemma ReadPacket_detects_corruption_witness :
  ReadPacket (r_set_rx ([] ++ cDollar :: ([x4f] ++ x4c :: []) ++ cHash ::
      hexByte (checksum ([x4f] ++ x4b :: [])) ++ [x41]) mockRsp_conn) =
    (attempt (r_write [cMinus]) ≫= λ _, throw RBadChecksum) (r_set_rx [x41] mockRsp_conn).
Proof.
  apply (ReadPacket_detects_corruption mockRsp_conn [] [x4f] x4b x4c [] [x41]);
    [done | by repeat constructor | done].
Defined.
