(* ===== verification/QconnFraming.v ===== *)
(** * qconn framing

    [internal/qconn/framing.go]: the telnet layer, prompt-synchronised reads
    and the text helpers of the qconn client.

    The buffered reader matters here: after a prompt the code drops white space
    that is already buffered, and only that. How many bytes one fill of the
    buffer brings in is up to the network, so a connection carries a schedule
    of fill sizes and every theorem holds for all of them. End of stream and
    other read failures are different here ([peer_eof]). *)

From stdpp Require Import base list numbers strings.
From Stdlib Require Import ZArith Lia Strings.Byte.
From S2P Require Import Prelude GoStrconv GoStrings Transport.

Local Open Scope Z_scope.

(** ** Telnet bytes *)

Definition iac : byte := xff.
Definition dont : byte := xfe.
Definition doo : byte := xfd.
Definition wont : byte := xfc.
Definition will : byte := xfb.
Definition sb : byte := xfa.
Definition se : byte := xf0.

(** [promptRe]: the prompts, their trailing white space up to the end. *)
Definition services : list (list byte) :=
  [str "broker"; str "launcher"; str "file"; str "cntl"; str "sinfo"].

Definition promptOf (svc : list byte) : list byte := str "<qconn-" ++ svc ++ str ">".

(** Does the text match [<qconn-(...)>\s*$] from its first byte on? *)
Definition promptHere (s : list byte) : bool :=
  existsb (λ svc, HasPrefix s (promptOf svc) && forallb reSpace (drop (length (promptOf svc)) s))
    services.

(** [promptRe.FindStringIndex(s)]: the start of the leftmost match. *)
Fixpoint findPrompt (s : list byte) : option nat :=
  if promptHere s then Some 0%nat
  else match s with
       | [] => None
       | _ :: s => S <$> findPrompt s
       end.

(** ** Telnet filtering of a block *)

(** [stripIAC] on the bytes from index [i] on; the loop body consumes at least
    one byte. *)
Fixpoint skipToSE (b : list byte) : list byte :=
  match b with
  | [] => []
  | c :: r =>
      match r with
      | d :: r' => if decide (c = iac ∧ d = se) then r' else skipToSE r
      | [] => []
      end
  end.

Fixpoint stripIAC_loop (fuel : nat) (b : list byte) : list byte :=
  match fuel with
  | O => []
  | S fuel =>
      match b with
      | [] => []
      | c :: r =>
          if decide (c ≠ iac) then c :: stripIAC_loop fuel r
          else match r with
               | [] => []
               | cmd :: r =>
                   if decide (cmd = doo ∨ cmd = dont ∨ cmd = will ∨ cmd = wont)
                   then stripIAC_loop fuel (drop 1 r)
                   else if decide (cmd = sb) then stripIAC_loop fuel (skipToSE r)
                   else stripIAC_loop fuel r
               end
      end
  end.

Definition stripIAC (b : list byte) : list byte := stripIAC_loop (length b) b.

(** ** State *)

(** Has the far end closed the stream once everything it sent is read? *)
Class QPeer (P : Type) `{Peer P} : Type := peer_eof : P → bool.

Record frameConn (P : Type) : Type := MkFrameConn {
  f_conn : transport P;
  f_buffered : nat;      (* how much of the unread stream is buffered *)
  f_fills : list nat;    (* sizes, less one, of the fills to come *)
  f_telnet : bool
}.
Arguments MkFrameConn {P}.
Arguments f_conn {P}.
Arguments f_buffered {P}.
Arguments f_fills {P}.
Arguments f_telnet {P}.

Inductive qerror :=
  | QEOF
  | QIO
  | QShort                                   (* io.ErrUnexpectedEOF *)
  | QHandshake (e : qerror)
  | QProto (op got : list byte)              (* protoErr *)
  | QOpen (path why : list byte)
  | QRead (why : list byte)
  | QDelete (path why : list byte)
  | QDial                                    (* qconn dial *)
  | QExecDial                                (* qconn exec dial *)
  | QExecHandshake (e : qerror)              (* qconn exec handshake *)
  | QFuel.

(** [newFrameConn]. *)
Definition newFrameConn {P} (t : transport P) (fills : list nat) : frameConn P :=
  MkFrameConn t 0 fills true.

Section framing.
Context {P : Type} `{QPeer P}.
Implicit Types f : frameConn P.

Definition F (A : Type) : Type := M qerror (frameConn P) A.

Definition f_rx f : list byte := t_rx (f_conn f).
Definition f_set_conn (t : transport P) f : frameConn P :=
  MkFrameConn t (f_buffered f) (f_fills f) (f_telnet f).

(** ** The buffered reader *)

(** The bytes buffered once there is at least one, and the fills left. *)
Definition fillBuf f : nat * list nat :=
  match f_buffered f with
  | O => match f_fills f with
         | [] => (length (f_rx f), [])
         | k :: ks => (S k `min` length (f_rx f), ks)%nat
         end
  | n => (n, f_fills f)
  end.

(** [br.ReadByte()]. *)
Definition brReadByte : F byte := λ f,
  match f_rx f with
  | [] => (inl (if peer_eof (t_peer (f_conn f)) then QEOF else QIO), f)
  | b :: rx =>
      let '(n, ks) := fillBuf f in
      (inr b, MkFrameConn (t_set_rx rx (f_conn f)) (n - 1) ks (f_telnet f))
  end.

(** [raw.Write(b)]. *)
Definition writeRaw (b : list byte) : F unit := λ f,
  let '(ok, t) := t_write b (f_conn f) in
  (if ok then inr () else inl QIO, f_set_conn t f).

Definition writeLine (s : list byte) : F unit := writeRaw (s ++ [x0a]).

(** ** Telnet *)

(** Skip a subnegotiation up to IAC SE; every iteration consumes a byte. *)
Fixpoint skipSub (fuel : nat) : F unit :=
  match fuel with
  | O => throw QFuel
  | S fuel =>
      b ← brReadByte;
      if decide (b = iac) then
        n ← brReadByte;
        if decide (n = se) then mret () else skipSub fuel
      else skipSub fuel
  end.

Definition handleIAC : F unit :=
  cmd ← brReadByte;
  if decide (cmd = iac) then mret ()
  else if decide (cmd = doo ∨ cmd = dont ∨ cmd = will ∨ cmd = wont) then
    opt ← brReadByte;
    if decide (cmd = doo) then writeRaw [iac; wont; opt]
    else if decide (cmd = will) then writeRaw [iac; dont; opt]
    else mret ()
  else if decide (cmd = sb) then
    λ f, skipSub (S (length (f_rx f))) f
  else mret ().

(** [readByte]: the fuel counts the telnet commands passed over. *)
Fixpoint readByte_loop (fuel : nat) : F byte :=
  match fuel with
  | O => throw QFuel
  | S fuel =>
      b ← brReadByte;
      f ← get_state;
      if f_telnet f && bool_decide (b = iac) then handleIAC ≫= λ _, readByte_loop fuel
      else mret b
  end.

Definition readByte : F byte := λ f, readByte_loop (S (length (f_rx f))) f.

(** ** Prompt-synchronised reads *)

(** Drop buffered blanks after a prompt. *)
Fixpoint dropBlanks (fuel : nat) : F unit :=
  match fuel with
  | O => mret ()
  | S fuel =>
      f ← get_state;
      match f_buffered f, f_rx f with
      | S _, b :: _ =>
          if decide (b = x20 ∨ b = x09) then brReadByte ≫= λ _, dropBlanks fuel else mret ()
      | _, _ => mret ()
      end
  end.

(** The loop of [readUntilPrompt] with the text so far and the index from
    which the prompt is looked for; text and error are both returned. *)
Fixpoint readUntilPrompt_loop (fuel : nat) (text : list byte) (scan : nat)
  : F (list byte * option qerror) :=
  match fuel with
  | O => mret (text, Some QFuel)
  | S fuel =>
      r ← attempt readByte;
      match r with
      | inl QEOF => mret (text, if decide (text = []) then Some QEOF else None)
      | inl e => mret (text, Some e)
      | inr b =>
          let text := text ++ [b] in
          if decide (b = x3e ∨ b = x20 ∨ b = x0a) then
            match findPrompt (drop scan text) with
            | Some loc =>
                f ← get_state;
                dropBlanks (f_buffered f) ≫= λ _,
                mret (TrimLeft (take (scan + loc) text) [x20], None)
            | None =>
                readUntilPrompt_loop fuel text
                  (if decide (256 < length text)%nat then length text - 64 else scan)%nat
            end
          else readUntilPrompt_loop fuel text scan
      end
  end.

Definition readUntilPrompt : F (list byte * option qerror) := λ f,
  readUntilPrompt_loop (S (length (f_rx f))) [] 0 f.

(** A caller that returns the error and drops the text. *)
Definition orFail {A} (m : F (A * option qerror)) : F A :=
  '(a, e) ← m; match e with Some e => throw e | None => mret a end.

(** [readN]: exactly [n] bytes, no telnet processing; a stream that ends
    after the first byte is an unexpected end. *)
Fixpoint readN_loop (n : nat) (buf : list byte) : F (list byte) :=
  match n with
  | O => mret buf
  | S n =>
      b ← wrap_err (λ e, match e with QEOF => if decide (buf = []) then QEOF else QShort | e => e end)
            brReadByte;
      readN_loop n (buf ++ [b])
  end.

Definition readN (n : nat) : F (list byte) := readN_loop n [].

Fixpoint readResponseLine_loop (fuel : nat) (text : list byte) : F (list byte) :=
  match fuel with
  | O => throw QFuel
  | S fuel =>
      b ← readByte;
      if decide (b = x0a) then mret (TrimLeft (TrimRight text [x0d]) [x20])
      else readResponseLine_loop fuel (text ++ [b])
  end.

Definition readResponseLine : F (list byte) := λ f,
  readResponseLine_loop (S (length (f_rx f))) [] f.

(** [readUntilIdle]: reads until nothing arrives for the idle time. How much
    of the stream arrives too late is up to the far end and the network. *)
Definition readUntilIdle (late : nat) : F (list byte) := λ f,
  let n := (length (f_rx f) - late)%nat in
  (inr (stripIAC (take n (f_rx f))),
   MkFrameConn (t_set_rx (drop n (f_rx f)) (f_conn f)) 0 (f_fills f) (f_telnet f)).

Definition close : F unit := modify (λ f, f_set_conn (t_close (f_conn f)) f).

Definition frame_handshake : F unit := orFail readUntilPrompt ≫= λ _, mret ().
End framing.

(** ** Text helpers *)

Definition benignNoise : list byte := str "error linemode-or-echo-not-supported".

Definition isNoise (ln : list byte) : bool :=
  bool_decide (TrimSpace ln = []) || bool_decide (TrimSpace ln = benignNoise).

(** The meaningful lines, without their carriage returns. *)
Definition splitLines (s : list byte) : list (list byte) :=
  filter (λ ln, isNoise ln = false) ((λ ln, TrimRight ln [x0d]) <$> Split s x0a).

Fixpoint firstLine_loop (lns : list (list byte)) : list byte :=
  match lns with
  | [] => []
  | ln :: lns =>
      let ln := TrimRight ln [x0d] in
      if isNoise ln then firstLine_loop lns else ln
  end.

Definition firstLine (s : list byte) : list byte := firstLine_loop (Split s x0a).

Fixpoint stripLeadingNoise_loop (fuel : nat) (s : list byte) : list byte :=
  match fuel with
  | O => s
  | S fuel =>
      match IndexByte s x0a with
      | None => s
      | Some nl => if isNoise (take nl s) then stripLeadingNoise_loop fuel (drop (nl + 1) s) else s
      end
  end.

Definition stripLeadingNoise (s : list byte) : list byte :=
  stripLeadingNoise_loop (S (length s)) s.

Definition protoErr (op got : list byte) : qerror := QProto op (TrimSpace got).

(** ** Telnet streams

    What the far end sends, as a sequence of data bytes and telnet commands. *)

Inductive tok :=
  | TData (b : byte)
  | TNeg (cmd opt : byte)          (* DO, DONT, WILL, WONT and the option *)
  | TSub (payload : list byte)     (* a subnegotiation *)
  | TCmd (cmd : byte).             (* any other command, IAC IAC included *)

Definition isNeg (c : byte) : Prop := c = doo ∨ c = dont ∨ c = will ∨ c = wont.

Definition tokOK (t : tok) : Prop :=
  match t with
  | TData b => b ≠ iac
  | TNeg cmd _ => isNeg cmd
  | TSub payload => Forall (λ b, b ≠ iac) payload
  | TCmd cmd => ¬ isNeg cmd ∧ cmd ≠ sb
  end.

(** The bytes of a command behind its IAC. *)
Definition tokBody (t : tok) : list byte :=
  match t with
  | TData b => [b]
  | TNeg cmd opt => [cmd; opt]
  | TSub payload => [sb] ++ payload ++ [iac; se]
  | TCmd cmd => [cmd]
  end.

Definition isData (t : tok) : bool := match t with TData _ => true | _ => false end.

Definition tokBytes (t : tok) : list byte := if isData t then tokBody t else iac :: tokBody t.

Definition tokData (t : tok) : list byte := match t with TData b => [b] | _ => [] end.

(** The refusal a negotiation is answered with. *)
Definition refusal (t : tok) : list (list byte) :=
  match t with
  | TNeg cmd opt =>
      if decide (cmd = doo) then [[iac; wont; opt]]
      else if decide (cmd = will) then [[iac; dont; opt]] else []
  | _ => []
  end.

Lemma skipToSE_sub payload rest :
  Forall (λ b, b ≠ iac) payload → skipToSE (payload ++ iac :: se :: rest) = rest.
Proof.
  induction 1 as [|b l Hb Hl IH]; [done|]. cbn [app skipToSE].
  rewrite IH. destruct (l ++ iac :: se :: rest) as [|d r] eqn:E; [by destruct l|].
  by rewrite decide_False by tauto.
Qed.

Lemma neg_cases c : isNeg c → c ≠ iac ∧ c ≠ sb.
Proof. by intros [-> | [-> | [-> | ->]]]. Qed.

Lemma stripIAC_loop_tok fuel t rest :
  tokOK t → stripIAC_loop (S fuel) (tokBytes t ++ rest) = tokData t ++ stripIAC_loop fuel rest.
Proof.
  destruct t as [b|cmd opt|payload|cmd]; intros Ht; cbn [tokBytes isData tokBody app stripIAC_loop].
  - by rewrite decide_True.
  - rewrite decide_False by (by intros []). by rewrite decide_True.
  - rewrite decide_False by (by intros []). rewrite decide_False by (by intros [? | [? | [? | ?]]]).
    rewrite decide_True, <- app_assoc by done. cbn [app]. by rewrite skipToSE_sub.
  - rewrite decide_False by (by intros []). destruct Ht as [Hn Hs].
    rewrite decide_False by done. by rewrite decide_False.
Qed.

Lemma stripIAC_loop_toks fuel ts :
  Forall tokOK ts → (length ts < fuel)%nat →
  stripIAC_loop fuel (ts ≫= tokBytes) = ts ≫= tokData.
Proof.
  intros Hts. revert fuel. induction Hts as [|t ts Ht Hts IH]; intros [|fuel] Hf;
    simpl in Hf; try lia; [done|].
  cbn [mbind list_bind]. rewrite stripIAC_loop_tok by done. by rewrite IH by lia.
Qed.

Lemma stripIAC_loop_more fuel b : (length b ≤ fuel)%nat → stripIAC_loop (S fuel) b = stripIAC_loop fuel b.
Proof.
  revert b. induction fuel as [|fuel IH]; intros b Hf; [by destruct b; simpl in Hf; [|lia]|].
  destruct b as [|c r]; [done|]. simpl in Hf.
  assert (∀ l, (length l ≤ length r)%nat → stripIAC_loop (S fuel) l = stripIAC_loop fuel l) as IH'.
  { intros l Hl. apply IH. lia. }
  assert (∀ l : list byte, (length (skipToSE l) ≤ length l)%nat) as Hse.
  { clear. induction l as [|x [|y l] IH]; simpl; try lia. case_decide; simpl in *; lia. }
  cbn [stripIAC_loop] in IH' |- *. case_decide; [by rewrite IH'|].
  destruct r as [|cmd r]; [done|].
  case_decide; [apply IH'; rewrite length_drop; simpl; lia|].
  case_decide; apply IH'; simpl; [specialize (Hse r)|]; lia.
Qed.

Lemma stripIAC_loop_enough fuel b :
  (length b ≤ fuel)%nat → stripIAC_loop fuel b = stripIAC b.
Proof.
  intros Hf. unfold stripIAC. induction Hf as [|fuel Hf IH]; [done|].
  by rewrite stripIAC_loop_more.
Qed.

Lemma length_toks ts : (length ts ≤ length (ts ≫= tokBytes))%nat.
Proof.
  induction ts as [|t ts IH]; [done|].
  change ((t :: ts) ≫= tokBytes) with (tokBytes t ++ (ts ≫= tokBytes)). rewrite length_app.
  assert (1 ≤ length (tokBytes t))%nat; [|simpl; lia].
  unfold tokBytes. destruct t; simpl; lia.
Qed.

(** ** The telnet reader *)

(** A peer whose telnet layer accepts refusals silently. *)
Definition quiet {P} `{Peer P} (p : P) : Prop :=
  ∀ c o, peer_write p [iac; c; o] = (true, [], p).

(** It can be sent these refusals: there are none, or it is quiet. *)
Definition accepts {P} `{Peer P} (p : P) (refusals : list (list byte)) : Prop :=
  refusals = [] ∨ quiet p.

Lemma accepts_app {P} `{Peer P} (p : P) r s : accepts p (r ++ s) → accepts p r ∧ accepts p s.
Proof. unfold accepts. intros [E|Hq]; [|auto]. apply app_nil in E as [-> ->]. auto. Qed.

(** A connection in the telnet phase with these unread bytes and writes; the
    state of the buffer is left open. *)
Definition fat {P} (p : P) (tx : list (list byte)) (rx : list byte) (f : frameConn P) : Prop :=
  f_conn f = Transport p rx tx true ∧ f_telnet f = true.

Section reader.
Context {P : Type} `{QPeer P}.
Implicit Types (f : frameConn P) (p : P).

Lemma brReadByte_fat p tx b rx f :
  fat p tx (b :: rx) f → ∃ f', brReadByte f = (inr b, f') ∧ fat p tx rx f'.
Proof.
  intros [Ec Et]. unfold brReadByte, f_rx. rewrite Ec. simpl.
  destruct (fillBuf f) as [n ks]. eexists. split; [done|]. split; simpl; [|done].
  unfold t_set_rx. by simpl.
Qed.

(** Run one buffered read at the head of a bind. *)
Ltac br_step Hf f' Hf' :=
  destruct (brReadByte_fat _ _ _ _ _ Hf) as (f' & ?E & Hf');
  match goal with E : brReadByte _ = _ |- _ => step_ok E; clear E end.

Lemma skipSub_fat p tx payload rx f fuel :
  Forall (λ b, b ≠ iac) payload → (length payload < fuel)%nat →
  fat p tx (payload ++ iac :: se :: rx) f →
  ∃ f', skipSub fuel f = (inr (), f') ∧ fat p tx rx f'.
Proof.
  intros Hp. revert f fuel. induction Hp as [|b l Hb Hl IH]; intros f [|fuel] Hf Hfat;
    simpl in Hf; try lia; cbn [skipSub app] in *; br_step Hfat f1 Hf1.
  - rewrite decide_True by done. br_step Hf1 f2 Hf2. rewrite decide_True by done. eauto.
  - rewrite decide_False by done. apply IH; [lia|done].
Qed.

Lemma handleIAC_fat p tx t rx f :
  isData t = false → tokOK t → accepts p (refusal t) → fat p tx (tokBody t ++ rx) f →
  ∃ f', handleIAC f = (inr (), f') ∧ fat p (tx ++ refusal t) rx f'.
Proof.
  intros Hd Ht Hq Hfat. destruct t as [b|cmd opt|payload|cmd]; [done|..];
    unfold handleIAC; cbn [tokBody app refusal] in *; br_step Hfat f1 Hf1.
  - destruct (neg_cases cmd Ht) as [Hi Hs]. rewrite decide_False, decide_True by done.
    br_step Hf1 f2 Hf2. destruct Hf2 as [Ec Et].
    assert (∀ c, quiet p → writeRaw [iac; c; opt] f2 =
      (inr (), f_set_conn (Transport p rx (tx ++ [[iac; c; opt]]) true) f2)) as Hw.
    { intros c Hqt. unfold writeRaw, t_write. rewrite Ec. simpl. rewrite (Hqt c opt).
      by rewrite app_nil_r. }
    case_decide; [destruct Hq; [done|]; rewrite Hw by done; eexists; split; [done|]; by split|].
    case_decide; [destruct Hq; [done|]; rewrite Hw by done; eexists; split; [done|]; by split|].
    exists f2. rewrite app_nil_r. split; [done|]. by split.
  - rewrite !decide_False by (try intros [? | [? | [? | ?]]]; done). rewrite decide_True by done.
    rewrite app_nil_r. rewrite <- app_assoc in Hf1. cbn [app] in Hf1.
    apply (skipSub_fat p tx payload); [done| |done].
    destruct Hf1 as [Ec _]. unfold f_rx. rewrite Ec. simpl. rewrite length_app. lia.
  - destruct Ht as [Hn Hs]. rewrite app_nil_r. exists f1. split; [|done].
    case_decide; [done|]. by rewrite !decide_False.
Qed.

(** One protocol byte behind any number of telnet commands. *)
Lemma readByte_loop_fat p ts b rx tx f fuel :
  Forall tokOK ts → Forall (λ t, isData t = false) ts → accepts p (ts ≫= refusal) →
  b ≠ iac → (length ts < fuel)%nat →
  fat p tx ((ts ≫= tokBytes) ++ b :: rx) f →
  ∃ f', readByte_loop fuel f = (inr b, f') ∧ fat p (tx ++ (ts ≫= refusal)) rx f'.
Proof.
  intros Hts. revert tx f fuel. induction Hts as [|t ts Ht Hts IH];
    intros tx f [|fuel] Hd Hq Hb Hf Hfat; simpl in Hf; try lia; cbn [readByte_loop].
  - cbn [mbind list_bind app] in Hfat. br_step Hfat f1 Hf1.
    unfold get_state. unfold mbind, M_bind. rewrite (proj2 Hf1), bool_decide_eq_false_2 by done.
    exists f1. simpl. rewrite app_nil_r. done.
  - inversion_clear Hd as [|? ? Hd1 Hd2]. cbn [mbind list_bind] in Hfat, Hq.
    apply accepts_app in Hq as [Hq1 Hq2].
    unfold tokBytes in Hfat at 1. rewrite Hd1 in Hfat. rewrite <- app_assoc in Hfat.
    cbn [app] in Hfat. br_step Hfat f1 Hf1.
    destruct (handleIAC_fat p tx t _ f1 Hd1 Ht Hq1 Hf1) as (f2 & E2 & Hf2).
    destruct (IH (tx ++ refusal t) f2 fuel Hd2 Hq2 Hb ltac:(lia) Hf2) as (f3 & E3 & Hf3).
    exists f3. split; [|cbn [mbind list_bind]; by rewrite app_assoc].
    unfold get_state. unfold mbind at 1, M_bind at 1. rewrite (proj2 Hf1), bool_decide_eq_true_2 by done.
    cbn [andb]. by step_ok E2.
Qed.

Lemma readByte_fat p ts b rx tx f :
  Forall tokOK ts → Forall (λ t, isData t = false) ts → accepts p (ts ≫= refusal) → b ≠ iac →
  fat p tx ((ts ≫= tokBytes) ++ b :: rx) f →
  ∃ f', readByte f = (inr b, f') ∧ fat p (tx ++ (ts ≫= refusal)) rx f'.
Proof.
  intros Hts Hd Hq Hb Hfat. unfold readByte. eapply readByte_loop_fat; [done..| |done].
  unfold f_rx. rewrite (proj1 Hfat). simpl. rewrite length_app.
  pose proof (length_toks ts). lia.
Qed.
End reader.

(** ** Prompts *)

(** No prompt occurs in the text. *)
Definition noPrompt (text : list byte) : Prop :=
  ∀ svc a b, svc ∈ services → text ≠ a ++ promptOf svc ++ b.

Lemma HasPrefix_true s p : HasPrefix s p = true → ∃ r, s = p ++ r.
Proof.
  unfold HasPrefix. intros E%bool_decide_eq_true. exists (drop (length p) s).
  rewrite <- E at 1. by rewrite take_drop.
Qed.

Lemma promptHere_true s :
  promptHere s = true →
  ∃ svc ws, svc ∈ services ∧ s = promptOf svc ++ ws ∧ Forall (λ b, reSpace b = true) ws.
Proof.
  unfold promptHere. intros (svc & Hin & E)%existsb_exists.
  apply andb_prop in E as [Hp Hw]. apply HasPrefix_true in Hp as [ws ->].
  rewrite drop_app_length in Hw. exists svc, ws. rewrite list_elem_of_In. split; [done|].
  split; [done|]. rewrite forallb_forall in Hw. apply Forall_forall. intros b Hb.
  apply Hw. by apply list_elem_of_In.
Qed.

Lemma promptHere_prompt svc : svc ∈ services → promptHere (promptOf svc) = true.
Proof.
  intros Hin. apply existsb_exists. exists svc. split; [by apply list_elem_of_In|].
  rewrite <- (app_nil_r (promptOf svc)) at 1. rewrite HasPrefix_app.
  by rewrite drop_ge by done.
Qed.

Lemma findPrompt_at s i :
  promptHere (drop i s) = true → (∀ j, (j < i)%nat → promptHere (drop j s) = false) →
  findPrompt s = Some i.
Proof.
  revert s. induction i as [|i IH]; intros s Hi Hj.
  - rewrite drop_0 in Hi. destruct s; cbn [findPrompt]; by rewrite Hi.
  - pose proof (Hj 0%nat ltac:(lia)) as H0. rewrite drop_0 in H0.
    destruct s as [|b s]; [by rewrite drop_nil in Hi|].
    cbn [findPrompt]. rewrite H0, (IH s); [done|done|]. intros j Hjj. apply (Hj (S j)). lia.
Qed.

Lemma findPrompt_none s : (∀ j, promptHere (drop j s) = false) → findPrompt s = None.
Proof.
  induction s as [|b s IH]; intros Hj; pose proof (Hj 0%nat) as H0; rewrite drop_0 in H0;
    cbn [findPrompt]; rewrite H0; [done|].
  rewrite IH; [done|]. intros j. apply (Hj (S j)).
Qed.

(** The shape of a prompt: [<] only at its head, [>] only at its end. *)
Lemma prompt_shape svc :
  svc ∈ services →
  ∃ m, promptOf svc = x3c :: m ++ [x3e] ∧ Forall (λ b, b ≠ x3c ∧ b ≠ x3e) m ∧
       (length (promptOf svc) ≤ 16)%nat.
Proof.
  intros Hin. exists (str "qconn-" ++ svc).
  rewrite list_elem_of_In in Hin. simpl in Hin.
  destruct Hin as [<-|[<-|[<-|[<-|[<-|[]]]]]]; (split; [done|]; split; [by repeat constructor|simpl; lia]).
Qed.

Lemma reSpace_not_gt b : reSpace b = true → b ≠ x3e.
Proof. by intros E ->. Qed.

(** The last [>] of a text is the end of the prompt a match ends with. *)
Lemma prompt_last_gt svc ws a b c m :
  svc ∈ services → Forall (λ b, reSpace b = true) ws → Forall (λ b, b ≠ x3c ∧ b ≠ x3e) m →
  a ++ promptOf svc ++ ws ++ b = c ++ x3c :: m → (length c < length (a ++ promptOf svc))%nat →
  False.
Proof.
  intros Hin Hws Hm E Hl. destruct (prompt_shape svc Hin) as (m' & Ep & Hm' & _).
  set (l := a ++ x3c :: m').
  assert (a ++ promptOf svc ++ ws ++ b = l ++ x3e :: (ws ++ b)) as E'.
  { unfold l. rewrite Ep. cbn [app]. by rewrite <- !app_assoc. }
  rewrite E in E'.
  assert ((c ++ x3c :: m) !! length l = Some x3e) as Hlk.
  { rewrite E'. by apply list_lookup_middle. }
  assert (length (a ++ promptOf svc) = S (length l)) as Hll.
  { unfold l. rewrite Ep, !length_app. simpl. rewrite length_app. simpl. lia. }
  rewrite lookup_app_r in Hlk by lia.
  destruct (length l - length c)%nat as [|k] eqn:Ek; simpl in Hlk; [done|].
  rewrite Forall_forall in Hm. apply list_elem_of_lookup_2 in Hlk. by apply Hm in Hlk as [_ ?].
Qed.

(** While the prompt is incomplete nothing matches. *)
Lemma prompt_early text svc cur ds k :
  noPrompt text → svc ∈ services → cur ++ ds = text ++ promptOf svc → ds ≠ [] →
  promptHere (drop k cur) = false.
Proof.
  intros Hno Hsvc E Hds. apply not_true_iff_false.
  intros (svc' & ws & Hin & Ed & Hws)%promptHere_true.
  assert (cur = take k cur ++ promptOf svc' ++ ws) as Ecur.
  { rewrite <- Ed. by rewrite take_drop. }
  set (a := take k cur) in *. rewrite Ecur in E.
  destruct (decide (length (a ++ promptOf svc') ≤ length text)%nat) as [Hle|Hgt].
  - apply (f_equal (take (length text))) in E. rewrite take_app_length in E.
    apply (Hno svc' a (take (length text - length (a ++ promptOf svc')) (ws ++ ds)) Hin).
    etrans; [symmetry; exact E|]. rewrite <- !app_assoc, (app_assoc a), take_app_ge by done.
    by rewrite <- app_assoc.
  - destruct (prompt_shape svc Hsvc) as (m & Ep & Hm & _).
    destruct ds as [|d ds _] using rev_ind; [done|].
    rewrite Ep in E. rewrite app_comm_cons, !app_assoc in E.
    apply app_inj_tail in E as [E _].
    apply (prompt_last_gt svc' ws a ds text m Hin Hws Hm); [|lia].
    by rewrite <- E, <- !app_assoc.
Qed.

(** When it is complete, the match is the prompt. *)
Lemma prompt_complete text svc scan :
  noPrompt text → svc ∈ services → (scan ≤ length text)%nat →
  findPrompt (drop scan (text ++ promptOf svc)) = Some (length text - scan)%nat.
Proof.
  intros Hno Hsvc Hscan. apply findPrompt_at.
  - rewrite drop_drop. replace (scan + (length text - scan))%nat with (length text) by lia.
    rewrite drop_app_length. by apply promptHere_prompt.
  - intros j Hj. rewrite drop_drop. apply not_true_iff_false.
    intros (svc' & ws & Hin & Ed & Hws)%promptHere_true.
    set (a := take (scan + j) (text ++ promptOf svc)).
    assert (text ++ promptOf svc = a ++ promptOf svc' ++ ws) as E.
    { unfold a. rewrite <- Ed. by rewrite take_drop. }
    assert (length a = scan + j)%nat as Hla.
    { unfold a. rewrite length_take, length_app. lia. }
    destruct (prompt_shape svc Hsvc) as (m & Ep & Hm & _).
    destruct (decide (length (a ++ promptOf svc') ≤ length text)%nat) as [Hle|Hgt].
    { apply (f_equal (take (length text))) in E. rewrite take_app_length in E.
      apply (Hno svc' a (take (length text - length (a ++ promptOf svc')) ws) Hin).
      etrans; [exact E|]. rewrite (app_assoc a), take_app_ge by done. by rewrite <- app_assoc. }
    destruct ws as [|w ws _] using rev_ind.
    + (* the other prompt ends where this one ends and starts earlier *)
      destruct (prompt_shape svc' Hin) as (m' & Ep' & Hm' & _).
      rewrite app_nil_r, Ep, Ep' in E.
      assert ((a ++ x3c :: m' ++ [x3e]) !! length text = Some x3c) as Hlk.
      { rewrite <- E. by apply list_lookup_middle. }
      rewrite lookup_app_r in Hlk by lia.
      destruct (length text - length a)%nat as [|i] eqn:Ei; [lia|].
      simpl in Hlk. apply list_elem_of_lookup_2, elem_of_app in Hlk as [Hk|Hk].
      * rewrite Forall_forall in Hm'. by apply Hm' in Hk as [? _].
      * apply list_elem_of_singleton in Hk. done.
    + rewrite Forall_app, Forall_singleton in Hws. destruct Hws as [_ Hw%reSpace_not_gt].
      rewrite Ep in E. rewrite app_comm_cons, !app_assoc in E.
      apply app_inj_tail in E as [_ <-]. done.
Qed.

(** ** Reading up to a prompt *)

(** A stream of data bytes, each behind any number of telnet commands. *)
Definition streamBytes (cs : list (list tok * byte)) : list byte :=
  cs ≫= λ c, (fst c ≫= tokBytes) ++ [snd c].
Definition streamData (cs : list (list tok * byte)) : list byte := snd <$> cs.
Definition streamRefusals (cs : list (list tok * byte)) : list (list byte) :=
  cs ≫= λ c, fst c ≫= refusal.
Definition streamOK (cs : list (list tok * byte)) : Prop :=
  Forall (λ c, Forall tokOK (fst c) ∧ Forall (λ t, isData t = false) (fst c) ∧ snd c ≠ iac) cs.

Lemma length_stream cs : (length cs ≤ length (streamBytes cs))%nat.
Proof.
  induction cs as [|[ts b] l IH]; [done|].
  change (streamBytes ((ts, b) :: l)) with (((ts ≫= tokBytes) ++ [b]) ++ streamBytes l).
  rewrite !length_app. simpl. lia.
Qed.

Definition blank (b : byte) : Prop := b = x20 ∨ b = x09.

Section prompt_reader.
Context {P : Type} `{QPeer P}.
Implicit Types (f : frameConn P) (p : P).

Lemma dropBlanks_fat p tx n rx f :
  fat p tx rx f →
  ∃ f' blanks rx', dropBlanks n f = (inr (), f') ∧ rx = blanks ++ rx' ∧
    Forall blank blanks ∧ fat p tx rx' f'.
Proof.
  revert rx f. induction n as [|n IH]; intros rx f Hfat; [by exists f, [], rx|].
  cbn [dropBlanks]. unfold get_state. unfold mbind at 1, M_bind at 1.
  assert (f_rx f = rx) as Erx by (unfold f_rx; by rewrite (proj1 Hfat)). rewrite Erx.
  destruct (f_buffered f), rx as [|b rx]; try by exists f, [], (b :: rx) || by exists f, [], [].
  case_decide as Hb; [|by exists f, [], (b :: rx)].
  destruct (brReadByte_fat p tx b rx f Hfat) as (f1 & E1 & Hf1). step_ok E1.
  destruct (IH rx f1 Hf1) as (f2 & bs & rx' & E2 & -> & Hbs & Hf2).
  exists f2, (b :: bs), rx'. split_and!; [done..| |done]. by constructor.
Qed.

Lemma readUntilPrompt_loop_fat p tx fuel cur scan cs rest text svc f :
  streamOK cs → noPrompt text → svc ∈ services → accepts p (streamRefusals cs) →
  cs ≠ [] → cur ++ streamData cs = text ++ promptOf svc →
  (scan ≤ length text)%nat → (length cs < fuel)%nat →
  fat p tx (streamBytes cs ++ rest) f →
  ∃ f' blanks rest', readUntilPrompt_loop fuel cur scan f = (inr (TrimLeft text [x20], None), f') ∧
    rest = blanks ++ rest' ∧ Forall blank blanks ∧ fat p (tx ++ streamRefusals cs) rest' f'.
Proof.
  intros Hok Hno Hsvc. revert cur scan tx f fuel.
  induction Hok as [|[ts b] cs (Hts & Hnd & Hb) Hok IH];
    intros cur scan tx f [|fuel] Hq Hne E Hscan Hf Hfat; simpl in Hf; try lia; [done|].
  cbn [fst snd] in *.
  change (streamBytes ((ts, b) :: cs)) with (((ts ≫= tokBytes) ++ [b]) ++ streamBytes cs) in Hfat.
  change (streamRefusals ((ts, b) :: cs)) with ((ts ≫= refusal) ++ streamRefusals cs) in Hq |- *.
  apply accepts_app in Hq as [Hq1 Hq2].
  change (streamData ((ts, b) :: cs)) with (b :: streamData cs) in E.
  rewrite <- !app_assoc in Hfat. cbn [app] in Hfat.
  destruct (readByte_fat p ts b _ tx f Hts Hnd Hq1 Hb Hfat) as (f1 & E1 & Hf1).
  assert (attempt readByte f = (inr (inr b), f1)) as Ea by (unfold attempt; by rewrite E1).
  cbn [readUntilPrompt_loop]. step_ok Ea. rewrite (app_assoc tx).
  replace (cur ++ b :: streamData cs) with ((cur ++ [b]) ++ streamData cs) in E
    by (by rewrite <- app_assoc).
  destruct cs as [|c cs].
  - (* the last data byte completes the prompt *)
    change (streamData []) with (@nil byte) in E. rewrite app_nil_r in E.
    destruct (prompt_shape svc Hsvc) as (m & Ep & _).
    assert (b = x3e) as ->.
    { rewrite Ep, app_comm_cons, app_assoc in E. by apply app_inj_tail in E as [_ ?]. }
    rewrite decide_True by auto. rewrite E, prompt_complete by done.
    unfold get_state. unfold mbind at 1, M_bind at 1.
    destruct (dropBlanks_fat p (tx ++ (ts ≫= refusal)) (f_buffered f1) _ f1 Hf1)
      as (f2 & bs & rest' & E2 & Er & Hbs & Hf2).
    step_ok E2. exists f2, bs, rest'. split_and!; [|done..|by rewrite app_nil_r].
    replace (scan + (length text - scan))%nat with (length text) by lia.
    by rewrite take_app_length.
  - (* the prompt is not complete yet *)
    assert (streamData (c :: cs) ≠ []) as Hds by done.
    assert (∀ scan', (scan' ≤ length text)%nat → ∃ f' blanks rest',
      readUntilPrompt_loop fuel (cur ++ [b]) scan' f1 = (inr (TrimLeft text [x20], None), f') ∧
      rest = blanks ++ rest' ∧ Forall blank blanks ∧
      fat p ((tx ++ (ts ≫= refusal)) ++ streamRefusals (c :: cs)) rest' f') as Hgo.
    { intros scan' Hs. apply IH; [done|done|done|done|lia|done]. }
    case_decide; [|by apply Hgo].
    rewrite findPrompt_none; [|intros j; rewrite drop_drop; by eapply prompt_early].
    apply Hgo. case_decide; [|done].
    apply (f_equal length) in E. rewrite !length_app in E.
    destruct (prompt_shape svc Hsvc) as (m & _ & _ & Hlen).
    rewrite length_app. simpl in *. lia.
Qed.

Lemma readUntilPrompt_fat f p tx cs rest text svc :
  streamOK cs → noPrompt text → svc ∈ services → accepts p (streamRefusals cs) →
  streamData cs = text ++ promptOf svc → fat p tx (streamBytes cs ++ rest) f →
  ∃ f' blanks rest',
    readUntilPrompt f = (inr (TrimLeft text [x20], None), f') ∧
    rest = blanks ++ rest' ∧ Forall blank blanks ∧ fat p (tx ++ streamRefusals cs) rest' f'.
Proof.
  intros Hok Hno Hsvc Hq E Hfat.
  assert (cs ≠ []) as Hne.
  { intros ->. destruct (prompt_shape svc Hsvc) as (m & Ep & _). rewrite Ep in E.
    by destruct text. }
  apply (readUntilPrompt_loop_fat p tx _ [] 0 cs rest text svc f); try done; [lia|].
  unfold f_rx. rewrite (proj1 Hfat). simpl. rewrite length_app.
  pose proof (length_stream cs). lia.
Qed.
End prompt_reader.

(** C10: Reading a response up to its prompt. Whatever telnet commands are
    interleaved with it (from a far end that takes refusals silently) and however the network splits the stream, the reader
    returns exactly the text before the prompt (without leading blanks), has
    refused every option the far end asked for, in order, and has dropped
    behind the prompt only blanks. In particular bounding the search to the
    last 64 bytes never misses a prompt. *)
Theorem readUntilPrompt_response {P} `{QPeer P} (f : frameConn P) p tx cs rest text svc :
  streamOK cs → noPrompt text → svc ∈ services → accepts p (streamRefusals cs) →
  streamData cs = text ++ promptOf svc → fat p tx (streamBytes cs ++ rest) f →
  ∃ f' blanks rest',
    readUntilPrompt f = (inr (TrimLeft text [x20], None), f') ∧
    rest = blanks ++ rest' ∧ Forall blank blanks ∧ fat p (tx ++ streamRefusals cs) rest' f'.
Proof. apply readUntilPrompt_fat. Qed.

(** Telnet filtering of a captured stream. For every sequence of data
    bytes and complete telnet commands [stripIAC] returns exactly the data. *)
Theorem stripIAC_tokens (ts : list tok) :
  Forall tokOK ts → stripIAC (ts ≫= tokBytes) = ts ≫= tokData.
Proof.
  intros Hts. rewrite <- (stripIAC_loop_enough (S (length (ts ≫= tokBytes)))) by lia.
  apply stripIAC_loop_toks; [done|]. pose proof (length_toks ts). lia.
Qed.

Lemma stripIAC_tokens_witness :
  stripIAC ([TData x41; TNeg doo x03; TSub [x18; x01]; TCmd iac; TData x42] ≫= tokBytes) = [x41; x42].
Proof.
  apply (stripIAC_tokens [TData x41; TNeg doo x03; TSub [x18; x01]; TCmd iac; TData x42]).
  repeat constructor; try done; by intros [? | [? | [? | ?]]].
Defined.
