(* ===== verification/QconnClient.v ===== *)
(** * The qconn client: services and command exchange

    [internal/qconn/client.go]. The daemon multiplexes sub-services on one
    connection; the client keeps track of the service the connection is in and
    switches on demand. The mutex makes every exported method atomic, so a
    method is one function on the client's state. *)

From stdpp Require Import base list numbers strings gmap.
From Stdlib Require Import ZArith Lia Strings.Byte.
From S2P Require Import Prelude GoStrconv GoStrings GoNet Transport QconnFraming.

Local Open Scope Z_scope.

(** ** State *)

Definition Service : Type := list byte.
Definition ServiceBroker : Service := str "broker".
Definition ServiceLauncher : Service := str "launcher".
Definition ServiceFile : Service := str "file".
Definition ServiceCntl : Service := str "cntl".
Definition ServiceSinfo : Service := str "sinfo".

Definition DefaultPort : Z := 8000.

(** The timeout is in nanoseconds; a deadline that passes is a read or write
    that fails. *)
Record Config := MkConfig { cf_Host : list byte; cf_Port : Z; cf_Timeout : Z }.

(** What [Dial] puts for fields that are zero, and the address it dials, which
    is also what [Target] returns. *)
Definition dialDefaults (c : Config) : Config := {|
  cf_Host := cf_Host c;
  cf_Port := if cf_Port c =? 0 then DefaultPort else cf_Port c;
  cf_Timeout := if cf_Timeout c =? 0 then 15 * 1000000000 else cf_Timeout c
|}.

Definition Target (c : Config) : list byte := JoinHostPort (cf_Host (dialDefaults c)) (cf_Port (dialDefaults c)).

Record Client (P : Type) : Type := MkClient {
  q_fc : frameConn P;
  q_current : Service;
  q_info : option (gmap (list byte) (list byte))
}.
Arguments MkClient {P}.
Arguments q_fc {P}.
Arguments q_current {P}.
Arguments q_info {P}.

(** ** Response parsing *)

(** [strings.IndexAny(tok, "=/:")]. *)
Fixpoint IndexAny (s chars : list byte) : option nat :=
  match s with
  | [] => None
  | b :: s => if decide (b ∈ chars) then Some 0%nat else S <$> IndexAny s chars
  end.

Definition versionSeps : list byte := str "=/:".

(** One token of the versions line. *)
Definition versionField (out : gmap (list byte) Z) (tok : list byte) : gmap (list byte) Z :=
  if decide (tok = str "versions:") then out
  else
    let '(name, ver) :=
      match IndexAny tok versionSeps with
      | Some i =>
          (take i tok,
           fst (Atoi (TrimRight (TrimLeft (drop (i + 1) tok) (str "=/: ")) (str "=/: "))))
      | None => (tok, 0)
      end in
    if decide (name = []) then out else <[name := ver]> out.

Definition parseVersions (resp : list byte) : gmap (list byte) Z :=
  foldl versionField ∅ (Fields (firstLine resp)).

(** One field of the info block. *)
Definition infoField (m : gmap (list byte) (list byte)) (field : list byte)
  : gmap (list byte) (list byte) :=
  match Cut field x3d with Some (k, v) => <[k := v]> m | None => m end.

Definition parseInfo (resp : list byte) : gmap (list byte) (list byte) :=
  foldl infoField ∅ (Fields resp).

(** ** Operations *)

Section client.
Context {P : Type} `{QPeer P}.
Implicit Types c : Client P.

Definition K (A : Type) : Type := M qerror (Client P) A.

(** A call of a method of the framed connection. *)
Definition onFc {A} (m : M qerror (frameConn P) A) : K A := λ c,
  let '(r, fc) := m (q_fc c) in (r, MkClient fc (q_current c) (q_info c)).

Definition setCurrent (s : Service) : K unit := modify (λ c, MkClient (q_fc c) s (q_info c)).

(** The response block and, as in Go, possibly an error next to it. *)
Definition raw (cmd : list byte) : K (list byte * option qerror) :=
  onFc (writeLine cmd) ≫= λ _, onFc readUntilPrompt.

(** A caller of [raw] that returns its error. *)
Definition rawOrFail (cmd : list byte) : K (list byte) :=
  '(resp, e) ← raw cmd; match e with Some e => throw e | None => mret resp end.

Definition handshake : K unit :=
  '(_, e) ← onFc readUntilPrompt;
  match e with Some e => throw (QHandshake e) | None => mret () end.

Definition leaveService : K unit :=
  c ← get_state;
  let leave := if decide (q_current c = ServiceFile) then str "q" else str "done" in
  onFc (writeLine leave) ≫= λ _,
  '(_, e) ← onFc readUntilPrompt;
  match e with Some e => throw e | None => setCurrent ServiceBroker end.

Definition ensure (s : Service) : K unit :=
  c ← get_state;
  if decide (q_current c = s) then mret ()
  else
    (if decide (q_current c ≠ ServiceBroker) then leaveService else mret ()) ≫= λ _,
    if decide (s = ServiceBroker) then mret ()
    else
      resp ← rawOrFail (str "service " ++ s);
      if HasPrefix (firstLine resp) (str "OK") then setCurrent s
      else throw (protoErr (str "service " ++ s) resp).

Definition Versions : K (gmap (list byte) Z) :=
  ensure ServiceBroker ≫= λ _,
  resp ← rawOrFail (str "versions ?");
  mret (parseVersions resp).

Definition Info : K (gmap (list byte) (list byte)) :=
  c ← get_state;
  match q_info c with
  | Some m => mret m
  | None =>
      ensure ServiceBroker ≫= λ _,
      resp ← rawOrFail (str "info");
      let m := parseInfo resp in
      modify (λ c, MkClient (q_fc c) (q_current c) (Some m)) ≫= λ _, mret m
  end.

Definition Raw (svc : Service) (cmd : list byte) : K (list byte * option qerror) :=
  ensure svc ≫= λ _, raw cmd.

(** [Dial] once the stream is connected. *)
Definition dialed (t : transport P) (fills : list nat) : (qerror + unit) * Client P :=
  match handshake (MkClient (newFrameConn t fills) ServiceBroker None) with
  | (inl e, c) => (inl e, MkClient (f_set_conn (t_close (f_conn (q_fc c))) (q_fc c)) (q_current c) (q_info c))
  | r => r
  end.

Definition Close : K unit := attempt (onFc (writeLine (str "quit"))) ≫= λ _, onFc close.
End client.

(** ** Conforming daemons

    A daemon that is waiting for a command line answers it with a text free of
    prompts that does not start with a space, telnet commands interleaved
    anywhere, and the prompt of the service it is in afterwards; spaces may
    follow the prompt. *)

Class QconnDaemon (P : Type) `{QPeer P} : Type := {
  qd_ready : P → Prop;
  qd_svc : P → Service;
  qd_reply : P → list byte → option (list byte * P);
  qd_services p : qd_ready p → qd_svc p ∈ services;
  qd_line p cmd text p' :
    qd_ready p → qd_reply p cmd = Some (text, p') →
    qd_ready p' ∧ noPrompt text ∧ head text ≠ Some x20 ∧
    ∃ cs k, peer_write p (cmd ++ [x0a]) = (true, streamBytes cs ++ replicate k x20, p') ∧
      streamOK cs ∧ accepts p' (streamRefusals cs) ∧ streamData cs = text ++ promptOf (qd_svc p')
}.

(** Switching services: a leaf service is left with [q] or [done]; the broker
    enters a service when it answers OK and stays put otherwise. *)
Class SwitchingDaemon (P : Type) `{QconnDaemon P} : Prop := {
  sd_leave p :
    qd_ready p → qd_svc p ≠ ServiceBroker →
    ∃ text p', qd_reply p (if decide (qd_svc p = ServiceFile) then str "q" else str "done") =
                 Some (text, p') ∧ qd_svc p' = ServiceBroker;
  sd_enter p s :
    qd_ready p → qd_svc p = ServiceBroker → s ∈ services →
    ∃ text p', qd_reply p (str "service " ++ s) = Some (text, p') ∧
      qd_svc p' = (if HasPrefix (firstLine text) (str "OK") then s else ServiceBroker)
}.

(** What may be in front of a response: nothing, or the line the daemon emits
    once, after the greeting. *)
Definition noiseLine : list byte := benignNoise ++ [x0d; x0a].
Definition preamble (l : list byte) : Prop := l = [] ∨ l = noiseLine.

(** Between two commands: connected, the daemon waiting, nothing unread but
    spaces and a preamble. *)
Definition qidle {P} `{QconnDaemon P} (c : Client P) : Prop :=
  ∃ p tx k pre, fat p tx (replicate k x20 ++ pre) (q_fc c) ∧ preamble pre ∧ qd_ready p.

(** After the first exchange no preamble can be in the way. *)
Definition qclean {P} `{QconnDaemon P} (c : Client P) : Prop :=
  ∃ p tx k, fat p tx (replicate k x20) (q_fc c) ∧ qd_ready p.

(** The far end's state. *)
Definition q_peer {P} (c : Client P) : P := t_peer (f_conn (q_fc c)).

(** The client's idea of the service is the daemon's. *)
Definition agrees {P} `{QconnDaemon P} (c : Client P) : Prop := q_current c = qd_svc (q_peer c).

(** ** Exchange facts *)

(** A text without [<] in front does not make a prompt. *)
Lemma noPrompt_app lead text :
  Forall (λ b, b ≠ x3c) lead → noPrompt text → noPrompt (lead ++ text).
Proof.
  intros Hl Hno svc a b Hin E. destruct (prompt_shape svc Hin) as (m & Ep & _).
  destruct (decide (length lead ≤ length a)%nat) as [Hle|Hgt].
  - apply (Hno svc (drop (length lead) a) b Hin).
    apply (f_equal (drop (length lead))) in E. rewrite drop_app_length in E.
    rewrite E, drop_app_le by done. done.
  - assert ((lead ++ text) !! length a = Some x3c) as Hlk.
    { rewrite E, Ep. cbn [app]. by apply list_lookup_middle. }
    rewrite lookup_app_l in Hlk by lia. apply list_elem_of_lookup_2 in Hlk.
    rewrite Forall_forall in Hl. by destruct (Hl _ Hlk).
Qed.

Lemma noPrompt_plain text : Forall (λ b, b ≠ x3c) text → noPrompt text.
Proof.
  intros Ht. rewrite <- (app_nil_r text). apply noPrompt_app; [done|].
  intros svc a b _ E. symmetry in E. apply app_nil in E as [_ E]. by apply app_nil in E as [? _].
Qed.

Lemma noiseLine_plain : Forall (λ b, b ≠ x3c ∧ b ≠ iac) noiseLine.
Proof. by repeat constructor. Qed.

Lemma residue_plain k pre :
  preamble pre → Forall (λ b, b ≠ x3c ∧ b ≠ iac) (replicate k x20 ++ pre).
Proof.
  intros Hp. apply Forall_app. split; [by apply Forall_replicate|].
  destruct Hp as [-> | ->]; [done|apply noiseLine_plain].
Qed.

Lemma TrimLeft_spaces k s : TrimLeft (replicate k x20 ++ s) [x20] = TrimLeft s [x20].
Proof. induction k as [|k IH]; [done|]. cbn [replicate app TrimLeft]. by rewrite decide_True by set_solver. Qed.

Lemma TrimLeft_head s : head s ≠ Some x20 → TrimLeft s [x20] = s.
Proof.
  destruct s as [|b s]; [done|]. intros Hb. cbn [TrimLeft]. rewrite decide_False; [done|].
  intros Hin%list_elem_of_singleton. by subst.
Qed.

Lemma TrimLeft_response k pre text :
  preamble pre → head text ≠ Some x20 →
  TrimLeft (replicate k x20 ++ pre ++ text) [x20] = pre ++ text.
Proof.
  intros Hp Ht. rewrite TrimLeft_spaces, TrimLeft_head; [done|].
  destruct Hp as [-> | ->]; done.
Qed.

(** The noise line is not a meaningful line. *)
Lemma firstLine_preamble pre text : preamble pre → firstLine (pre ++ text) = firstLine text.
Proof.
  intros [-> | ->]; [done|]. unfold firstLine, Split, noiseLine. rewrite <- app_assoc.
  change [x0d; x0a] with ([x0d] ++ [x0a]). rewrite <- app_assoc, (app_assoc benignNoise).
  rewrite split_loop_run by (by repeat constructor).
  cbn [app split_loop]. rewrite decide_True by done. cbn [firstLine_loop].
  by replace (isNoise (TrimRight ([] ++ benignNoise ++ [x0d]) [x0d])) with true by reflexivity.
Qed.

(** Plain bytes as a stream of their own. *)
Definition plain (l : list byte) : list (list tok * byte) := (λ b, ([], b)) <$> l.

Lemma stream_plain l :
  Forall (λ b, b ≠ iac) l →
  streamOK (plain l) ∧ streamBytes (plain l) = l ∧ streamData (plain l) = l ∧
  streamRefusals (plain l) = [].
Proof.
  intros Hl. induction Hl as [|b l Hb Hl (H1 & H2 & H3 & H4)];
    [by split_and!; [constructor|..]|]. split_and!.
  - constructor; [|done]. split_and!; [constructor..|done].
  - change (streamBytes (plain (b :: l))) with (b :: streamBytes (plain l)). by f_equal.
  - change (streamData (plain (b :: l))) with (b :: streamData (plain l)). by f_equal.
  - done.
Qed.

Lemma stream_app cs ds :
  streamBytes (cs ++ ds) = streamBytes cs ++ streamBytes ds ∧
  streamData (cs ++ ds) = streamData cs ++ streamData ds ∧
  streamRefusals (cs ++ ds) = streamRefusals cs ++ streamRefusals ds.
Proof. split_and!; [apply bind_app | apply fmap_app | apply bind_app]. Qed.

Section exchange.
Context {P : Type} `{QconnDaemon P}.
Implicit Types c : Client P.

Lemma q_peer_fat p tx rx c : fat p tx rx (q_fc c) → q_peer c = p.
Proof. intros [E _]. unfold q_peer. by rewrite E. Qed.

Lemma qclean_idle c : qclean c → qidle c.
Proof.
  intros (p & tx & k & Hfat & Hr). exists p, tx, k, []. rewrite app_nil_r.
  split_and!; [done|by left|done].
Qed.

Lemma qidle_ready c : qidle c → qd_ready (q_peer c).
Proof. intros (p & tx & k & pre & Hfat & _ & Hr). by rewrite (q_peer_fat _ _ _ _ Hfat). Qed.

(** One command line and its response. *)
Lemma raw_daemon c cmd text p' :
  qidle c → qd_reply (q_peer c) cmd = Some (text, p') →
  ∃ c' pre, raw cmd c = (inr (pre ++ text, None), c') ∧ preamble pre ∧
    qclean c' ∧ q_peer c' = p' ∧ q_current c' = q_current c ∧ q_info c' = q_info c.
Proof.
  intros (p & tx & k & pre & Hfat & Hpre & Hr) Hq. rewrite (q_peer_fat _ _ _ _ Hfat) in Hq.
  destruct (qd_line p cmd text p' Hr Hq) as (Hr' & Hno & Hhd & cs & k' & Hw & Hcs & Hacc & Hd).
  set (res := replicate k x20 ++ pre) in *.
  pose proof (residue_plain k pre Hpre) as Hres.
  destruct (stream_plain res) as (Lok & Lb & Ld & Lr);
    [eapply Forall_impl; [exact Hres|]; simpl; tauto|].
  destruct (stream_app (plain res) cs) as (Ab & Ad & Ar).
  set (f1 := f_set_conn (Transport p' (res ++ streamBytes cs ++ replicate k' x20)
    (tx ++ [cmd ++ [x0a]]) true) (q_fc c)).
  assert (writeLine cmd (q_fc c) = (inr (), f1)) as Ew.
  { destruct Hfat as [Ec _]. unfold writeLine, writeRaw, t_write. rewrite Ec. simpl. by rewrite Hw. }
  destruct (readUntilPrompt_fat f1 p' (tx ++ [cmd ++ [x0a]]) (plain res ++ cs) (replicate k' x20)
    (res ++ text) (qd_svc p')) as (f2 & bs & rest' & Er & Ebs & _ & Hf2).
  { by apply Forall_app. }
  { apply noPrompt_app; [|done]. eapply Forall_impl; [exact Hres|]. simpl. tauto. }
  { by apply qd_services. }
  { by rewrite Ar, Lr. }
  { by rewrite Ad, Ld, Hd, <- app_assoc. }
  { rewrite Ab, Lb, <- app_assoc. destruct Hfat as [_ Et]. by split. }
  exists (MkClient f2 (q_current c) (q_info c)), pre. split_and!; [|done| | |done..].
  - unfold raw, onFc, mbind, M_bind. rewrite Ew. simpl. rewrite Er.
    unfold res. by rewrite <- app_assoc, TrimLeft_response.
  - apply replicate_suffix in Ebs. rewrite Ebs in Hf2.
    by exists p', ((tx ++ [cmd ++ [x0a]]) ++ streamRefusals (plain res ++ cs)), (length rest').
  - unfold q_peer. simpl. by rewrite (proj1 Hf2).
Qed.

Lemma rawOrFail_daemon c cmd text p' :
  qidle c → qd_reply (q_peer c) cmd = Some (text, p') →
  ∃ c' pre, rawOrFail cmd c = (inr (pre ++ text), c') ∧ preamble pre ∧
    qclean c' ∧ q_peer c' = p' ∧ q_current c' = q_current c ∧ q_info c' = q_info c.
Proof.
  intros Hi Hq. destruct (raw_daemon c cmd text p' Hi Hq) as (c' & pre & E & Hr).
  exists c', pre. split; [|done]. unfold rawOrFail. by step_ok E.
Qed.

Context `{!SwitchingDaemon P}.

(** The commands that switch services. *)
Definition switchCmd (cmd : list byte) : Prop :=
  cmd = str "q" ∨ cmd = str "done" ∨ ∃ s, s ∈ services ∧ cmd = str "service " ++ s.

(** Something about the daemon that switching services does not change. *)
Variable Inv : P → Prop.
Hypothesis Inv_switch : ∀ p cmd text p',
  qd_ready p → switchCmd cmd → qd_reply p cmd = Some (text, p') → Inv p → Inv p'.

Definition tracked c : Prop := qidle c ∧ agrees c ∧ Inv (q_peer c).

(** Leaving a service always ends in the broker, on both sides. *)
Lemma leaveService_daemon c :
  tracked c → q_current c ≠ ServiceBroker →
  ∃ c', leaveService c = (inr (), c') ∧ tracked c' ∧ q_current c' = ServiceBroker ∧
        q_info c' = q_info c.
Proof.
  intros (Hi & Ha & HI) Hc. unfold agrees in Ha. pose proof (qidle_ready c Hi) as Hr.
  destruct (sd_leave (q_peer c) Hr ltac:(congruence)) as (text & p' & Hq & Hs).
  assert (Inv p') as HI'.
  { eapply Inv_switch; [exact Hr| |exact Hq|exact HI]. case_decide; [by left|right; by left]. }
  rewrite <- Ha in Hq.
  destruct (raw_daemon c _ _ _ Hi Hq) as (c' & pre & E & _ & Hi'%qclean_idle & Hp' & _ & Hinf).
  exists (MkClient (q_fc c') ServiceBroker (q_info c')). split; [|split; [|done]].
  - unfold leaveService, get_state. unfold raw in E. unfold mbind, M_bind in *.
    destruct (onFc (writeLine _) c) as [[e|[]] c1]; [done|].
    by rewrite E.
  - unfold tracked, agrees. change (q_peer (MkClient _ _ _)) with (q_peer c'). by rewrite Hp'.
Qed.

(** Entering a service from the broker. *)
Lemma enter_daemon c s :
  tracked c → q_current c = ServiceBroker → s ∈ services →
  ∃ r c' text p',
    (resp ← rawOrFail (str "service " ++ s);
     if HasPrefix (firstLine resp) (str "OK") then setCurrent s
     else throw (protoErr (str "service " ++ s) resp)) c = (r, c') ∧
    tracked c' ∧ q_info c' = q_info c ∧
    qd_reply (q_peer c) (str "service " ++ s) = Some (text, p') ∧
    match r with
    | inr _ => q_current c' = s
    | inl _ => q_current c' = ServiceBroker ∧ HasPrefix (firstLine text) (str "OK") = false
    end.
Proof.
  intros (Hi & Ha & HI) Hc Hs. unfold agrees in Ha. pose proof (qidle_ready c Hi) as Hr.
  destruct (sd_enter (q_peer c) s Hr ltac:(congruence) Hs) as (text & p' & Hq & Hsw).
  assert (Inv p') as HI' by (eapply Inv_switch; [exact Hr|right; right; eauto|exact Hq|exact HI]).
  destruct (rawOrFail_daemon c _ _ _ Hi Hq) as (c' & pre & E & Hl & Hi'%qclean_idle & Hp' & Hc' & Hinf).
  step_ok E. rewrite firstLine_preamble by done.
  destruct (HasPrefix (firstLine text) (str "OK")) eqn:Hok.
  - eexists (inr ()), (MkClient (q_fc c') s (q_info c')), text, p'. split_and!; [done| |done..].
    unfold tracked, agrees. change (q_peer (MkClient _ _ _)) with (q_peer c'). by rewrite Hp'.
  - eexists (inl _), c', text, p'. split_and!; [done| |done|done|congruence|done].
    unfold tracked, agrees. by rewrite Hp', Hsw, Hc'.
Qed.

(** Switching to a service; it can only be refused by the broker. *)
Lemma ensure_daemon c s :
  s ∈ services → tracked c →
  ∃ r c', ensure s c = (r, c') ∧ tracked c' ∧ q_info c' = q_info c ∧
    match r with
    | inr _ => q_current c' = s
    | inl _ => q_current c' = ServiceBroker ∧
        ∃ p text p', qd_ready p ∧ qd_svc p = ServiceBroker ∧ Inv p ∧
          qd_reply p (str "service " ++ s) = Some (text, p') ∧
          HasPrefix (firstLine text) (str "OK") = false
    end.
Proof.
  intros Hin Ht. unfold ensure, get_state. unfold mbind at 1, M_bind at 1.
  destruct (decide (q_current c = s)) as [Hs|Hs]; [by exists (inr ()), c|].
  assert (∀ c1, tracked c1 → q_current c1 = ServiceBroker → q_info c1 = q_info c →
    ∃ r c', (resp ← rawOrFail (str "service " ++ s);
     if HasPrefix (firstLine resp) (str "OK") then setCurrent s
     else throw (protoErr (str "service " ++ s) resp)) c1 = (r, c') ∧
     tracked c' ∧ q_info c' = q_info c ∧
     match r with
     | inr _ => q_current c' = s
     | inl _ => q_current c' = ServiceBroker ∧
        ∃ p text p', qd_ready p ∧ qd_svc p = ServiceBroker ∧ Inv p ∧
          qd_reply p (str "service " ++ s) = Some (text, p') ∧
          HasPrefix (firstLine text) (str "OK") = false
     end) as Henter.
  { intros c1 Ht1 Hc1 Hi1.
    destruct (enter_daemon c1 s Ht1 Hc1 Hin) as (r & c2 & text & p' & E & Ht2 & Hi2 & Hq & Hr).
    exists r, c2. split_and!; [done|done|congruence|]. destruct r; [|done].
    destruct Hr as [Hr1 Hr2]. split; [done|]. destruct Ht1 as (Hid & Ha & HI).
    exists (q_peer c1), text, p'. split_and!; [by apply qidle_ready| |done..].
    by rewrite <- Ha. }
  destruct (decide (q_current c ≠ ServiceBroker)) as [Hb|Hb].
  - destruct (leaveService_daemon c Ht Hb) as (c1 & E1 & Ht1 & Hc1 & Hinf1).
    step_ok E1. destruct (decide (s = ServiceBroker)) as [->|Hsb]; [by exists (inr ()), c1|].
    by apply Henter.
  - apply dec_stable in Hb. unfold mbind at 1, M_bind at 1, mret at 1, M_ret at 1. cbv beta iota.
    rewrite decide_False by congruence. by apply Henter.
Qed.
End exchange.

(** C11: Service tracking. Starting from agreement with a conforming daemon,
    switching to any service keeps the connection idle and the client's record
    of the current service equal to the daemon's, whether the switch succeeds
    or is refused; after success it is the requested service. *)
Theorem ensure_tracks {P} `{SwitchingDaemon P} (c : Client P) (s : Service) :
  s ∈ services → qidle c → agrees c →
  ∃ r c', ensure s c = (r, c') ∧ qidle c' ∧ agrees c' ∧ q_info c' = q_info c ∧
    match r with inr _ => q_current c' = s | inl _ => q_current c' = ServiceBroker end.
Proof.
  intros Hs Hi Ha.
  destruct (ensure_daemon (λ _, True) ltac:(done) c s Hs) as (r & c' & E & (Hi' & Ha' & _) & Hinf & Hr);
    [done|].
  exists r, c'. split_and!; [done..|]. by destruct r; [apply Hr|].
Qed.
