(* ===== verification/QconnPidin.v ===== *)
(** * Parsing what [pidin] prints

    The parsers of [internal/qconn/sysinfo.go] and [internal/qconn/proc.go]:
    thread listings grouped by process, memory usage, key/value lines and
    memory maps. *)

From stdpp Require Import base list numbers strings gmap.
From Stdlib Require Import ZArith Lia Strings.Byte.
From S2P Require Import Prelude GoStrconv GoStrings Transport QconnFraming.

Local Open Scope Z_scope.

Record Thread := MkThread {
  th_Tid : Z; th_Priority : list byte; th_State : list byte; th_Blocked : list byte
}.

Record Process := MkProcess {
  pr_PID : Z; pr_Name : list byte; pr_NumThreads : Z; pr_Threads : list Thread
}.

Record MemUsage := MkMemUsage {
  mu_PID : Z; mu_Name : list byte; mu_Code : list byte; mu_Data : list byte; mu_Stack : list byte
}.

Record MapSegment := MkMapSegment {
  ms_Start : Z; ms_End : Z; ms_Size : Z; ms_Flags : list byte; ms_Object : list byte
}.

#[export] Instance Thread_eq_dec : EqDecision Thread.
Proof. solve_decision. Defined.
#[export] Instance Process_eq_dec : EqDecision Process.
Proof. solve_decision. Defined.

(** ** Thread listings *)

(** One line of the loop of [parsePidinThreads]; the state is [byPid] and
    [order]. A process is updated through its pointer in the map. *)
Definition pidinLine (st : gmap Z Process * list Z) (ln : list byte) : gmap Z Process * list Z :=
  let '(byPid, order) := st in
  match Fields ln with
  | f0 :: f1 :: name :: prio :: state :: rest =>
      match Atoi f0, Atoi f1 with
      | (pid, None), (tid, None) =>
          let blocked := Join rest [x20] in
          let '(p, order) :=
            match byPid !! pid with
            | Some p => (p, order)
            | None => (MkProcess pid name 0 [], order ++ [pid])
            end in
          let threads := pr_Threads p ++ [MkThread tid prio state blocked] in
          (<[pid := MkProcess (pr_PID p) (pr_Name p) (Z.of_nat (length threads)) threads]> byPid, order)
      | _, _ => st
      end
  | _ => st
  end.

Definition parsePidinThreads (out : list byte) : list Process :=
  let '(byPid, order) := foldl pidinLine (∅, []) (splitLines out) in
  omap (λ pid, byPid !! pid) order.

(** ** Memory usage *)

(** One line of [parsePidinMem], the first of each process. *)
Definition pidinMemLine (st : gset Z * list MemUsage) (ln : list byte) : gset Z * list MemUsage :=
  let '(seen, res) := st in
  let f := Fields ln in
  if decide (length f < 6)%nat then st
  else match Atoi (default [] (f !! 0%nat)) with
       | (pid, None) =>
           if decide (pid ∈ seen) then st
           else
             let n := length f in
             let at_ i := default [] (f !! i) in
             ({[pid]} ∪ seen,
              res ++ [MkMemUsage pid (at_ 2%nat) (at_ (n - 3)%nat) (at_ (n - 2)%nat) (at_ (n - 1)%nat)])
       | (_, Some _) => st
       end.

Definition parsePidinMem (out : list byte) : list MemUsage :=
  snd (foldl pidinMemLine (∅, []) (splitLines out)).

(** ** Key and value lines *)

Definition keyColonLine (m : gmap (list byte) (list byte)) (ln : list byte)
  : gmap (list byte) (list byte) :=
  match Cut ln x3a with
  | Some (k, v) => <[TrimSpace k := TrimSpace v]> m
  | None => m
  end.

Definition parseKeyColon (out : list byte) : gmap (list byte) (list byte) :=
  foldl keyColonLine ∅ (splitLines out).

(** ** Memory maps *)

Definition parseHexAddr (s : list byte) : Z * option num_err :=
  let s := TrimSpace s in
  let s := TrimPrefix s (str "0x") in
  let s := TrimPrefix s (str "0X") in
  if decide (s = []) then (0, Some ErrSyntax) else ParseUint s 16 64.

Definition splitHexRange (tok : list byte) : option (Z * Z) :=
  match IndexByte tok x2d with
  | None => None
  | Some i =>
      if decide (i = 0 ∨ length tok - 1 ≤ i)%nat then None
      else match parseHexAddr (take i tok), parseHexAddr (drop (i + 1) tok) with
           | (lo, None), (hi, None) => Some (lo, hi)
           | _, _ => None
           end
  end.

(** The first field that starts with [@] decides: a segment when it is an
    address. [i] is its index and [f0] the first field of the line. *)
Fixpoint atSegment (f0 : list byte) (i : nat) (toks : list (list byte)) : option MapSegment :=
  match toks with
  | [] => None
  | tok :: rest =>
      if HasPrefix tok (str "@") then
        match parseHexAddr (TrimPrefix tok (str "@")) with
        | (addr, None) =>
            Some (MkMapSegment addr 0 0 (Join rest [x20]) (if decide (0 < i)%nat then f0 else []))
        | (_, Some _) => None
        end
      else atSegment f0 (S i) rest
  end.

(** The first field that is a range of addresses. *)
Fixpoint rangeSegment (last_ : list byte) (toks : list (list byte)) : option MapSegment :=
  match toks with
  | [] => None
  | tok :: rest =>
      match splitHexRange tok with
      | None => rangeSegment last_ rest
      | Some (lo, hi) =>
          Some (MkMapSegment lo hi (if lo <=? hi then hi - lo else 0) []
                  (if HasPrefix last_ (str "/") then last_ else []))
      end
  end.

Definition mapLine (ln : list byte) : option MapSegment :=
  let f := Fields ln in
  match atSegment (default [] (head f)) 0 f with
  | Some seg => Some seg
  | None => rangeSegment (default [] (last f)) f
  end.

Definition parseMapSegments (out : list byte) : list MapSegment := omap mapLine (splitLines out).

(** ** Lines of words *)

(** A line that the splitter keeps as it is. *)
Definition meaningful (l : list byte) : Prop :=
  Forall (λ b, b ≠ x0a) l ∧ last l ≠ Some x0d ∧ isNoise l = false.

(** Lines as a program prints them, with either line end. *)
Definition listing (cr : bool) (ls : list (list byte)) : list byte :=
  ls ≫= λ l, l ++ (if cr then [x0d; x0a] else [x0a]).

Lemma TrimRight_id l : last l ≠ Some x0d → TrimRight l [x0d] = l.
Proof.
  destruct l as [|b l _] using rev_ind; [done|]. rewrite last_snoc. intros Hb.
  unfold TrimRight. rewrite reverse_snoc. cbn [TrimLeft].
  rewrite decide_False by (rewrite list_elem_of_singleton; congruence).
  by rewrite <- reverse_snoc, reverse_involutive.
Qed.

Lemma TrimRight_cr l : last l ≠ Some x0d → TrimRight (l ++ [x0d]) [x0d] = l.
Proof.
  intros Hl. unfold TrimRight. rewrite reverse_snoc. cbn [TrimLeft].
  rewrite decide_True by (by apply list_elem_of_singleton). by apply TrimRight_id.
Qed.

Lemma splitLines_listing cr ls : Forall meaningful ls → splitLines (listing cr ls) = ls.
Proof.
  intros Hls. set (eol := if cr then [x0d] else []).
  assert (listing cr ls = terminated x0a ((λ l, l ++ eol) <$> ls) ++ []) as ->.
  { rewrite app_nil_r. clear Hls. induction ls as [|l ls IH]; [done|].
    change (listing cr (l :: ls)) with ((l ++ (if cr then [x0d; x0a] else [x0a])) ++ listing cr ls).
    cbn [fmap list_fmap]. 
    change (terminated x0a ((l ++ eol) :: ?y)) with (((l ++ eol) ++ [x0a]) ++ terminated x0a y).
    rewrite IH. f_equal. unfold eol. destruct cr; by rewrite <- app_assoc. }
  unfold splitLines. rewrite Split_terminated; [|apply Forall_fmap|done].
  - rewrite fmap_app, filter_app, <- list_fmap_compose.
    replace (filter _ ((λ ln, TrimRight ln [x0d]) <$> [[]])) with (@nil (list byte)) by reflexivity.
    rewrite app_nil_r. rewrite (list_fmap_ext _ id); [|intros i l Hl].
    + rewrite list_fmap_id. apply filter_all. eapply Forall_impl; [exact Hls|]. by intros l (_ & _ & Hn).
    + apply list_elem_of_lookup_2 in Hl. rewrite Forall_forall in Hls.
      destruct (Hls l Hl) as (_ & Hr & _). cbn. unfold eol.
      destruct cr; [by apply TrimRight_cr | rewrite app_nil_r; by apply TrimRight_id].
  - eapply Forall_impl; [exact Hls|]. intros l (Hl & _). cbn. apply Forall_app. split; [done|].
    unfold eol. by destruct cr; repeat constructor.
Qed.

Lemma word_last w : isWord w → ∃ e, last w = Some e ∧ wordByte e = true.
Proof.
  intros [Hne Hw]. destruct w as [|e w _] using rev_ind; [done|]. rewrite last_snoc.
  exists e. split; [done|]. apply Forall_app in Hw as [_ Hw]. by inversion Hw.
Qed.

(** The words of a line start and end it, up to leading blanks. *)
Lemma spread_core k w ws :
  isWord w → Forall isWord ws.*2 →
  ∃ b e, spread k w ws = replicate k x20 ++ spread 0 w ws ∧
    head (spread 0 w ws) = Some b ∧ last (spread 0 w ws) = Some e ∧
    wordByte b = true ∧ wordByte e = true.
Proof.
  intros Hw Hws. unfold spread. cbn [replicate app].
  assert (∃ e, last (w ++ (ws ≫= λ kw, x20 :: replicate kw.1 x20 ++ kw.2)) = Some e ∧
    wordByte e = true) as (e & He & Hwe).
  { destruct ws as [|[k' w'] ws _] using rev_ind; [rewrite app_nil_r; by apply word_last|].
    rewrite fmap_app, Forall_app in Hws. destruct Hws as [_ Hw'].
    destruct (word_last w') as (e & He & Hwe); [by inversion Hw'|]. exists e. split; [|done].
    rewrite bind_app. cbn [mbind list_bind fst snd]. rewrite app_nil_r, !last_app, last_cons, last_app.
    by rewrite He. }
  destruct w as [|b w]; [by destruct Hw|]. exists b, e. split_and!; try done.
  destruct Hw as [_ Hw]. by inversion Hw.
Qed.

Lemma spread_bytes k w ws :
  isWord w → Forall isWord ws.*2 → Forall (λ b, b = x20 ∨ wordByte b = true) (spread k w ws).
Proof.
  intros [_ Hw] Hws. unfold spread. rewrite !Forall_app. split_and!.
  - apply Forall_replicate. by left.
  - eapply Forall_impl; [exact Hw|]. auto.
  - apply Forall_bind. apply Forall_forall. intros [k' w'] Hin.
    assert (isWord w') as [_ Hw'].
    { rewrite Forall_forall in Hws. apply Hws, list_elem_of_fmap. by exists (k', w'). }
    cbn [fst snd]. constructor; [by left|]. apply Forall_app.
    split; [apply Forall_replicate; by left|]. eapply Forall_impl; [exact Hw'|]. auto.
Qed.

Lemma spread_meaningful k w ws :
  isWord w → Forall isWord ws.*2 → w :: ws.*2 ≠ Fields benignNoise → meaningful (spread k w ws).
Proof.
  intros Hw Hws Hn. destruct (spread_core k w ws Hw Hws) as (b & e & E & Hh & He & Hb & Hwe).
  split_and!.
  - eapply Forall_impl; [by apply spread_bytes|]. intros x [Hx|Hx] Ex; by subst.
  - rewrite E, last_app, He. intros [= ->]. done.
  - unfold isNoise. rewrite E, <- (app_nil_r (spread 0 w ws)).
    rewrite (TrimSpace_around (replicate k x20) (spread 0 w ws) [] b e);
      [|by apply Forall_replicate|done..].
    rewrite !bool_decide_eq_false_2; [done| |].
    + intros E'. apply Hn. by rewrite <- E', Fields_spread.
    + intros E'. by rewrite E' in Hh.
Qed.

Lemma digit_wordByte b : is_Some (digit_val b) → wordByte b = true.
Proof. intros [v Hv]. revert Hv. destruct b; vm_compute; congruence. Qed.

Lemma fmt_uint_word base n : 2 <= base <= 16 → 0 <= n → isWord (fmt_uint base n).
Proof.
  intros Hb Hn. split; [by apply fmt_uint_nonempty|].
  eapply Forall_impl; [by apply fmt_uint_digits|]. intros b. apply digit_wordByte.
Qed.

Lemma fmt_d_word z : isWord (fmt_d z).
Proof.
  unfold fmt_d, fmt_int. destruct (Z.ltb_spec z 0); [|by apply fmt_uint_word].
  destruct (fmt_uint_word 10 (- z)) as [_ Hw]; [lia..|]. split; [done|]. by constructor.
Qed.

(** ** Thread listings: the grouping *)

(** A row of the listing, and how it is printed. *)
Record row := MkRow {
  r_pid : Z; r_tid : Z; r_name : list byte; r_prio : list byte; r_state : list byte;
  r_blocked : list (list byte)
}.

Definition rowTail (r : row) : list (list byte) :=
  fmt_d (r_tid r) :: r_name r :: r_prio r :: r_state r :: r_blocked r.

Definition rowOK (r : row) : Prop :=
  - 2 ^ 63 <= r_pid r < 2 ^ 63 ∧ - 2 ^ 63 <= r_tid r < 2 ^ 63 ∧
  Forall isWord (r_name r :: r_prio r :: r_state r :: r_blocked r).

(** A printed row, or a line that is none: too few fields or a first field
    that is not a number. *)
Definition printsRow (l : list byte) (item : option row) : Prop :=
  match item with
  | Some r => rowOK r ∧ ∃ k ws, ws.*2 = rowTail r ∧ l = spread k (fmt_d (r_pid r)) ws
  | None => meaningful l ∧ ((length (Fields l) < 5)%nat ∨ ∃ f fs e, Fields l = f :: fs ∧ (Atoi f).2 = Some e)
  end.

Definition threadOf (r : row) : Thread :=
  MkThread (r_tid r) (r_prio r) (r_state r) (Join (r_blocked r) [x20]).

(** The process of a pid: the name of its first row and all its threads. *)
Definition processOf (rows : list row) (pid : Z) : Process :=
  let mine := filter (λ r, r_pid r = pid) rows in
  MkProcess pid (default [] (r_name <$> head mine)) (Z.of_nat (length mine)) (threadOf <$> mine).

(** The distinct elements in the order of their first occurrence. *)
Fixpoint firsts (seen l : list Z) : list Z :=
  match l with
  | [] => []
  | x :: l => if decide (x ∈ seen) then firsts seen l else x :: firsts (x :: seen) l
  end.

Lemma firsts_snoc seen l x :
  firsts seen (l ++ [x]) = firsts seen l ++ (if decide (x ∈ seen ∨ x ∈ l) then [] else [x]).
Proof.
  revert seen. induction l as [|y l IH]; intros seen; cbn [app firsts].
  - destruct (decide (x ∈ seen)); [rewrite decide_True by auto; done|].
    rewrite decide_False by (by intros [?|?%not_elem_of_nil]). done.
  - destruct (decide (y ∈ seen)); rewrite IH.
    + f_equal. apply decide_ext. rewrite elem_of_cons.
      split; [tauto|]. intros [?|[->|?]]; auto.
    + cbn [app]. do 2 f_equal. apply decide_ext. rewrite !elem_of_cons.
      tauto.
Qed.

Lemma firsts_elem seen l x : x ∈ firsts seen l → x ∈ l.
Proof.
  revert seen. induction l as [|y l IH]; intros seen; cbn [firsts]; [done|].
  case_decide; [intros Hx%IH; by right|]. rewrite !elem_of_cons. intros [->|Hx%IH]; auto.
Qed.

(** The words of a printed row. *)
Lemma rowTail_words r : rowOK r → isWord (fmt_d (r_pid r)) ∧ Forall isWord (rowTail r).
Proof. intros (_ & _ & Hw). split; [apply fmt_d_word|]. constructor; [apply fmt_d_word|done]. Qed.

Lemma Atoi_fmt_d z : - 2 ^ 63 <= z < 2 ^ 63 → Atoi (fmt_d z) = (z, None).
Proof. intros Hz. unfold Atoi, fmt_d. by apply ParseInt_fmt_int. Qed.

Lemma printsRow_meaningful l item : printsRow l item → meaningful l.
Proof.
  destruct item as [r|]; [|by intros []]. intros (Hr & k & ws & Ews & ->).
  destruct (rowTail_words r Hr) as [Hw Hws]. rewrite <- Ews in Hws.
  apply spread_meaningful; [done..|]. rewrite Ews. intros E.
  assert (Atoi (fmt_d (r_pid r)) = Atoi (default [] (head (Fields benignNoise)))) as Hp
    by (by rewrite <- E).
  destruct Hr as (Hr & _). rewrite Atoi_fmt_d in Hp by done. vm_compute in Hp. discriminate Hp.
Qed.

(** The state of the loop after some rows. *)
Definition grouped (rows : list row) (st : gmap Z Process * list Z) : Prop :=
  st.2 = firsts [] (r_pid <$> rows) ∧
  ∀ pid, st.1 !! pid = if decide (pid ∈ r_pid <$> rows) then Some (processOf rows pid) else None.

Lemma rows_of_absent rows pid :
  pid ∉ r_pid <$> rows → filter (λ r, r_pid r = pid) rows = [].
Proof.
  intros Hn. destruct (filter _ rows) as [|x l] eqn:E; [done|]. destruct Hn.
  assert (x ∈ x :: l) as Hf by left. rewrite <- E in Hf.
  apply list_elem_of_filter in Hf as [<- Hin]. by apply list_elem_of_fmap_2.
Qed.

Lemma rows_of_present rows pid :
  pid ∈ r_pid <$> rows → ∃ x l, filter (λ r, r_pid r = pid) rows = x :: l.
Proof.
  intros (y & Hy & Hin)%list_elem_of_fmap.
  destruct (filter (λ r, r_pid r = pid) rows) as [|x l] eqn:E; [|eauto].
  assert (y ∈ filter (λ r, r_pid r = pid) rows) as Hf by (by apply list_elem_of_filter).
  by rewrite E in Hf; apply not_elem_of_nil in Hf.
Qed.

(** One more thread of a process. *)
Definition addThread (t : Thread) (p : Process) : Process :=
  MkProcess (pr_PID p) (pr_Name p) (Z.of_nat (length (pr_Threads p ++ [t]))) (pr_Threads p ++ [t]).

Lemma processOf_snoc_eq rows r :
  processOf (rows ++ [r]) (r_pid r) =
    addThread (threadOf r)
      (if decide (r_pid r ∈ r_pid <$> rows) then processOf rows (r_pid r)
       else MkProcess (r_pid r) (r_name r) 0 []).
Proof.
  unfold processOf, addThread. rewrite filter_app, (filter_cons_True _ r []) by done.
  cbn [filter list_filter]. case_decide as Hin.
  - destruct (rows_of_present _ _ Hin) as (x & l & E). rewrite E. cbn [pr_PID pr_Name pr_Threads].
    rewrite fmap_app, !length_app, length_fmap. done.
  - by rewrite rows_of_absent.
Qed.

Lemma processOf_snoc_ne rows r pid : r_pid r ≠ pid → processOf (rows ++ [r]) pid = processOf rows pid.
Proof.
  intros Hne. unfold processOf. rewrite filter_app, (filter_cons_False _ r []) by done.
  by rewrite app_nil_r.
Qed.

Lemma pidinLine_row rows st r l :
  grouped rows st → printsRow l (Some r) → grouped (rows ++ [r]) (pidinLine st l).
Proof.
  destruct st as [byPid order]. intros [Ho Hm] (Hr & k & ws & Ews & ->). cbn [fst snd] in *.
  destruct (rowTail_words r Hr) as [Hw Hws]. rewrite <- Ews in Hws.
  unfold pidinLine. rewrite Fields_spread, Ews by done. cbn [rowTail].
  destruct Hr as (Hp & Ht & _). rewrite !Atoi_fmt_d by done. rewrite (Hm (r_pid r)).
  assert (∀ p, p = (if decide (r_pid r ∈ r_pid <$> rows) then processOf rows (r_pid r)
       else MkProcess (r_pid r) (r_name r) 0 []) → ∀ pid,
    <[r_pid r := addThread (threadOf r) p]> byPid !! pid =
      if decide (pid ∈ r_pid <$> rows ++ [r]) then Some (processOf (rows ++ [r]) pid) else None) as Hnew.
  { intros p -> pid. destruct (decide (r_pid r = pid)) as [<-|Hne].
    - rewrite lookup_insert_eq, <- processOf_snoc_eq, decide_True; [done|].
      rewrite fmap_app. apply elem_of_app. right. by apply list_elem_of_singleton.
    - rewrite lookup_insert_ne, processOf_snoc_ne, Hm by done. apply decide_ext.
      rewrite fmap_app, elem_of_app. split; [by left|]. intros [Hin|Hin]; [done|].
      by apply list_elem_of_singleton in Hin. }
  assert (firsts [] (r_pid <$> rows ++ [r]) =
    order ++ (if decide (r_pid r ∈ r_pid <$> rows) then [] else [r_pid r])) as Hf.
  { rewrite fmap_app, Ho. change (r_pid <$> [r]) with [r_pid r]. rewrite firsts_snoc. f_equal.
    apply decide_ext. split; [|by right]. by intros [?%not_elem_of_nil|?]. }
  unfold grouped. rewrite Hf. revert Hnew.
  destruct (decide (r_pid r ∈ r_pid <$> rows)); intros Hnew; cbn [fst snd];
    (split; [by rewrite ?app_nil_r|]); intros pid; by apply Hnew.
Qed.

Lemma pidinLine_other st l : printsRow l None → pidinLine st l = st.
Proof.
  destruct st as [byPid order]. intros [_ Hl]. unfold pidinLine.
  destruct (Fields l) as [|f0 [|f1 [|f2 [|f3 [|f4 fs]]]]] eqn:E; try done.
  destruct Hl as [Hl|(f & fs' & e & [= -> _] & He)]; [simpl in Hl; lia|].
  destruct (Atoi f) as [pid o]. cbn [snd] in He. by subst.
Qed.

Lemma pidinLines_grouped ls items :
  Forall2 printsRow ls items → grouped (omap id items) (foldl pidinLine (∅, []) ls).
Proof.
  revert items. induction ls as [|l ls IH] using rev_ind; intros items HF.
  - apply Forall2_nil_inv_l in HF as ->. split; [done|]. intros pid. cbn. by rewrite lookup_empty.
  - apply Forall2_app_inv_l in HF as (items1 & items2 & H1 & H2 & ->).
    apply Forall2_cons_inv_l in H2 as (item & items3 & Hl & H3 & ->).
    apply Forall2_nil_inv_l in H3 as ->.
    rewrite foldl_snoc, omap_app. specialize (IH _ H1). destruct item as [r|]; cbn [omap list_omap id].
    + by apply pidinLine_row.
    + rewrite app_nil_r. by rewrite pidinLine_other.
Qed.

(** C25: A thread listing, printed with any column widths and either line
    end and mixed with headers and other lines, parses to one process per pid,
    in the order of their first rows, with the name of the first row, every
    thread of the process in the order listed, and their number. *)
Theorem parsePidinThreads_listing (cr : bool) (ls : list (list byte)) (items : list (option row)) :
  Forall2 printsRow ls items →
  parsePidinThreads (listing cr ls) =
    processOf (omap id items) <$> firsts [] (r_pid <$> omap id items).
Proof.
  intros HF. unfold parsePidinThreads. rewrite splitLines_listing.
  - destruct (pidinLines_grouped ls items HF) as [Ho Hm].
    destruct (foldl pidinLine (∅, []) ls) as [byPid order]. cbn [fst snd] in *. subst order.
    set (rows := omap id items) in *.
    assert (∀ pids : list Z, (∀ pid, pid ∈ pids → pid ∈ r_pid <$> rows) →
      omap (λ pid, byPid !! pid) pids = processOf rows <$> pids) as Hall.
    { induction pids as [|pid pids IH]; intros Hin; [done|]. cbn [omap list_omap fmap list_fmap].
      rewrite Hm, decide_True by (apply Hin; left). f_equal. apply IH. intros q Hq. apply Hin. by right. }
    apply Hall. intros pid. apply firsts_elem.
  - clear -HF. induction HF as [|l item ls items Hl HF IH]; constructor; [|done].
    by eapply printsRow_meaningful.
Qed.

Ltac solve_word := split; [discriminate | repeat constructor].

(** One row of an example, given its blanks. *)
Ltac solve_row k ks r :=
  split; [split_and!; [by vm_compute.. | repeat (constructor; [solve_word|]); constructor]
    | exists k, (zip ks (rowTail r)); split; vm_compute; reflexivity].

Lemma parsePidinThreads_listing_witness :
  parsePidinThreads (listing true
    [str "     pid tid name     prio STATE   Blocked"; str "       1   1 /procnto 255r RUNNING";
     str "    8200   2 qconn     10r RECEIVE 1"; str "       1   2 /procnto  10r RECEIVE 1 all"]) =
    [MkProcess 1 (str "/procnto") 2
       [MkThread 1 (str "255r") (str "RUNNING") []; MkThread 2 (str "10r") (str "RECEIVE") (str "1 all")];
     MkProcess 8200 (str "qconn") 1 [MkThread 2 (str "10r") (str "RECEIVE") (str "1")]].
Proof.
  set (r1 := MkRow 1 1 (str "/procnto") (str "255r") (str "RUNNING") []).
  set (r2 := MkRow 8200 2 (str "qconn") (str "10r") (str "RECEIVE") [str "1"]).
  set (r3 := MkRow 1 2 (str "/procnto") (str "10r") (str "RECEIVE") [str "1"; str "all"]).
  refine (eq_trans (parsePidinThreads_listing true _ [None; Some r1; Some r2; Some r3] _) eq_refl).
  repeat apply List.Forall2_cons; try apply List.Forall2_nil.
  - split; [split_and!; [repeat constructor; discriminate | discriminate | reflexivity]|].
    right. exists (str "pid"), [str "tid"; str "name"; str "prio"; str "STATE"; str "Blocked"], ErrSyntax.
    split; vm_compute; reflexivity.
  - solve_row 7%nat [2; 0; 0; 0]%nat r1.
  - solve_row 4%nat [2; 0; 4; 0; 0]%nat r2.
  - solve_row 7%nat [2; 0; 1; 0; 0; 0]%nat r3.
Defined.

(** ** Memory maps: the entries *)

(** An address: optional prefix, leading zeros, hex digits. *)
Definition addrText (pre : list byte) (z : nat) (n : Z) : list byte :=
  pre ++ replicate z x30 ++ fmt_uint 16 n.

Definition hexPrefixes : list (list byte) := [[]; str "0x"; str "0X"].

Lemma addrText_word pre z n : pre ∈ hexPrefixes → 0 <= n → isWord (addrText pre z n).
Proof.
  intros Hp Hn. destruct (fmt_uint_word 16 n) as [Hne Hw]; [lia..|]. split.
  - unfold addrText. intros (_ & E)%app_nil. by apply app_nil in E as [_ ?].
  - unfold addrText. rewrite !Forall_app. split_and!; [|by apply Forall_replicate|done].
    rewrite list_elem_of_In in Hp. destruct Hp as [<-|[<-|[<-|[]]]]; by repeat constructor.
Qed.

Lemma addrText_no_dash pre z n :
  pre ∈ hexPrefixes → 0 <= n → Forall (λ b, b ≠ x2d) (addrText pre z n).
Proof.
  intros Hp Hn. unfold addrText. rewrite !Forall_app. split_and!.
  - rewrite list_elem_of_In in Hp. destruct Hp as [<-|[<-|[<-|[]]]]; by repeat constructor.
  - by apply Forall_replicate.
  - by apply digits_no_sep.
Qed.

Lemma TrimPrefix_digits d p : Forall (λ b, is_Some (digit_val b)) d → p = str "0x" ∨ p = str "0X" → TrimPrefix d p = d.
Proof.
  intros Hd Hp. unfold TrimPrefix. destruct (HasPrefix d p) eqn:E; [|done]. exfalso.
  unfold HasPrefix in E. apply bool_decide_eq_true in E.
  assert (d !! 1%nat = p !! 1%nat) as Hl.
  { rewrite <- E. symmetry. apply lookup_take_lt. by destruct Hp as [-> | ->]; vm_compute; lia. }
  assert (∃ b, p !! 1%nat = Some b ∧ digit_val b = None) as (b & Hb & Hn)
    by (destruct Hp as [-> | ->]; by eexists).
  rewrite Hb in Hl. rewrite Forall_lookup in Hd. destruct (Hd _ _ Hl). congruence.
Qed.

Lemma parse_digits_zeros max z s : 0 <= max → parse_digits 16 max 0 (replicate z x30 ++ s) = parse_digits 16 max 0 s.
Proof.
  intros Hm. induction z as [|z IH]; [done|]. cbn [replicate app parse_digits].
  change (digit_val x30) with (Some 0). cbv iota beta zeta. change (0 * 16 + 0) with 0.
  destruct (Z.ltb_spec 0 16); [|lia]. by destruct (Z.ltb_spec max 0); [lia|].
Qed.

Lemma parseHexAddr_addr pre z n :
  pre ∈ hexPrefixes → 0 <= n < 2 ^ 64 → parseHexAddr (addrText pre z n) = (n, None).
Proof.
  intros Hp Hn. pose proof (addrText_word pre z n Hp ltac:(lia)) as Hw. unfold parseHexAddr.
  set (d := replicate z x30 ++ fmt_uint 16 n).
  assert (Forall (λ b, is_Some (digit_val b)) d) as Hd.
  { apply Forall_app. split; [by apply Forall_replicate|]. apply fmt_uint_digits; lia. }
  assert (d ≠ []) as Hne. { intros (_ & E)%app_nil. by destruct (fmt_uint_nonempty 16 n). }
  assert (ParseUint d 16 64 = (n, None)) as Hpd.
  { unfold ParseUint. destruct d as [|b d'] eqn:Ed; [done|]. rewrite <- Ed. unfold d.
    rewrite parse_digits_zeros by lia. apply parse_fmt_uint; lia. }
  destruct (word_last _ Hw) as (e & He & Hwe). destruct Hw as [Hnil Hall].
  assert (TrimSpace (addrText pre z n) = addrText pre z n) as ->.
  { destruct (addrText pre z n) as [|b l] eqn:Ea; [done|]. inversion Hall; subst.
    rewrite <- (app_nil_r (b :: l)) at 1. by apply (TrimSpace_around [] (b :: l) [] b e). }
  assert (TrimPrefix (TrimPrefix (addrText pre z n) (str "0x")) (str "0X") = d) as ->.
  { unfold addrText. fold d. rewrite list_elem_of_In in Hp. destruct Hp as [<-|[<-|[<-|[]]]].
    - cbn [app]. by rewrite (TrimPrefix_digits d (str "0x")), TrimPrefix_digits by auto.
    - unfold TrimPrefix at 2. rewrite HasPrefix_app, drop_app_length. by apply TrimPrefix_digits; auto.
    - unfold TrimPrefix at 2.
      replace (HasPrefix (str "0X" ++ d) (str "0x")) with false by reflexivity.
      unfold TrimPrefix. by rewrite HasPrefix_app, drop_app_length. }
  by rewrite decide_False.
Qed.

Lemma drop_behind {A} (l : list A) x r : drop (length l + 1) (l ++ x :: r) = r.
Proof.
  rewrite cons_middle, app_assoc. replace (length l + 1)%nat with (length (l ++ [x]));
    [apply drop_app_length | by rewrite length_app].
Qed.

Lemma splitHexRange_range p1 z1 lo p2 z2 hi :
  p1 ∈ hexPrefixes → p2 ∈ hexPrefixes → 0 <= lo < 2 ^ 64 → 0 <= hi < 2 ^ 64 →
  splitHexRange (addrText p1 z1 lo ++ x2d :: addrText p2 z2 hi) = Some (lo, hi).
Proof.
  intros Hp1 Hp2 Hlo Hhi. unfold splitHexRange.
  rewrite IndexByte_app by (apply addrText_no_dash; [done|lia]).
  destruct (addrText_word p1 z1 lo Hp1 ltac:(lia)) as [H1 _].
  destruct (addrText_word p2 z2 hi Hp2 ltac:(lia)) as [H2 _].
  rewrite decide_False.
  - rewrite take_app_length, drop_behind, !parseHexAddr_addr by done. done.
  - rewrite length_app. cbn [length]. destruct (addrText p1 z1 lo), (addrText p2 z2 hi); cbn; try done. lia.
Qed.

Inductive mapEntry :=
  | EAt (object : list byte) (base : Z) (sizes : list (list byte))
  | ERange (lo hi : Z) (rest : list (list byte)).

Definition noAt (w : list byte) : Prop := head w ≠ Some x40.

(** A printed entry of either form, or a line with nothing like an address. *)
Definition printsMap (l : list byte) (item : option mapEntry) : Prop :=
  match item with
  | Some (EAt object base sizes) =>
      0 <= base < 2 ^ 64 ∧ isWord object ∧ noAt object ∧ Forall isWord sizes ∧
      ∃ k ws pre z, pre ∈ hexPrefixes ∧ ws.*2 = (x40 :: addrText pre z base) :: sizes ∧
        l = spread k object ws
  | Some (ERange lo hi rest) =>
      0 <= lo < 2 ^ 64 ∧ 0 <= hi < 2 ^ 64 ∧ Forall isWord rest ∧ Forall noAt rest ∧
      ∃ k ws p1 z1 p2 z2, p1 ∈ hexPrefixes ∧ p2 ∈ hexPrefixes ∧ ws.*2 = rest ∧
        l = spread k (addrText p1 z1 lo ++ x2d :: addrText p2 z2 hi) ws
  | None => meaningful l ∧ Forall (λ w, noAt w ∧ x2d ∉ w) (Fields l)
  end.

Definition segmentOf (e : mapEntry) : MapSegment :=
  match e with
  | EAt object base sizes => MkMapSegment base 0 0 (Join sizes [x20]) object
  | ERange lo hi rest =>
      MkMapSegment lo hi (if lo <=? hi then hi - lo else 0) []
        (match last rest with
         | Some o => if HasPrefix o (str "/") then o else []
         | None => []
         end)
  end.

Lemma noAt_prefix w : noAt w → HasPrefix w (str "@") = false.
Proof.
  intros Hn. destruct w as [|b w]; [done|]. destruct (HasPrefix (b :: w) (str "@")) eqn:E; [|done].
  apply HasPrefix_cons in E. by subst.
Qed.

Lemma range_word p1 z1 lo p2 z2 hi :
  p1 ∈ hexPrefixes → p2 ∈ hexPrefixes → 0 <= lo → 0 <= hi →
  let tok := addrText p1 z1 lo ++ x2d :: addrText p2 z2 hi in
  isWord tok ∧ noAt tok ∧ HasPrefix tok (str "/") = false.
Proof.
  intros Hp1 Hp2 Hlo Hhi. destruct (addrText_word p1 z1 lo Hp1 Hlo) as [Hn1 Hw1].
  destruct (addrText_word p2 z2 hi Hp2 Hhi) as [_ Hw2].
  assert (∃ b l, addrText p1 z1 lo = b :: l ∧ is_Some (digit_val b)) as (b & l & Eb & Hb).
  { unfold addrText. pose proof (fmt_uint_digits 16 lo ltac:(lia) Hlo) as Hd.
    pose proof (fmt_uint_nonempty 16 lo ltac:(lia)) as Hne.
    rewrite list_elem_of_In in Hp1. destruct Hp1 as [<-|[<-|[<-|[]]]]; [|by do 2 eexists..].
    destruct z1; [|by do 2 eexists]. destruct (fmt_uint 16 lo) as [|b l]; [done|].
    exists b, l. split; [done|]. by inversion Hd. }
  cbv zeta. rewrite Eb in *. cbn [app]. split_and!.
  - split; [done|]. rewrite app_comm_cons. apply Forall_app. split; [done|]. by constructor.
  - unfold noAt. cbn. intros [= ->]. by destruct Hb.
  - destruct (HasPrefix _ _) eqn:E; [|done]. apply HasPrefix_cons in E. subst. by destruct Hb.
Qed.

Lemma atSegment_none f0 i toks : Forall (λ w, HasPrefix w (str "@") = false) toks → atSegment f0 i toks = None.
Proof.
  intros Ht. revert i. induction Ht as [|w toks Hw Ht IH]; intros i; [done|]. cbn [atSegment].
  by rewrite Hw.
Qed.

Lemma IndexByte_none s c : c ∉ s → IndexByte s c = None.
Proof.
  induction s as [|b s IH]; intros Hn; [done|]. rewrite not_elem_of_cons in Hn. cbn [IndexByte].
  rewrite decide_False by (intros ->; by apply (proj1 Hn)). by rewrite IH by apply Hn.
Qed.

Lemma mapLine_prints l item : printsMap l item → meaningful l ∧ mapLine l = segmentOf <$> item.
Proof.
  destruct item as [[object base sizes|lo hi rest]|].
  - intros (Hb & Hw & Hna & Hs & k & ws & pre & z & Hp & Ews & ->).
    assert (isWord (x40 :: addrText pre z base)) as Hat.
    { destruct (addrText_word pre z base Hp ltac:(lia)) as [_ H2]. split; [done|]. by constructor. }
    assert (Forall isWord ws.*2) as Hws by (rewrite Ews; by constructor).
    split.
    + apply spread_meaningful; [done..|]. rewrite Ews. intros E.
      assert ((object :: (x40 :: addrText pre z base) :: sizes) !! 1%nat = Fields benignNoise !! 1%nat) as E1
        by (by rewrite E).
      vm_compute in E1. discriminate E1.
    + unfold mapLine. rewrite Fields_spread, Ews by done. cbn [head default atSegment].
      rewrite noAt_prefix by done. change (x40 :: addrText pre z base) with (str "@" ++ addrText pre z base).
      unfold TrimPrefix. rewrite HasPrefix_app, drop_app_length, parseHexAddr_addr by done. done.
  - intros (Hlo & Hhi & Hw & Hna & k & ws & p1 & z1 & p2 & z2 & Hp1 & Hp2 & Ews & ->).
    destruct (range_word p1 z1 lo p2 z2 hi Hp1 Hp2 ltac:(lia) ltac:(lia)) as (Ht & Hta & Hts).
    rewrite <- Ews in Hw. split.
    + apply spread_meaningful; [done..|]. intros E.
      assert (x2d ∈ default [] (head (Fields benignNoise))) as Hin.
      { rewrite <- E. cbn [head default]. apply elem_of_app. right. left. }
      rewrite list_elem_of_In in Hin. vm_compute in Hin. repeat destruct Hin as [Hin|Hin]; done.
    + unfold mapLine. rewrite Fields_spread by done.
      rewrite atSegment_none; [|constructor; [by apply noAt_prefix|];
        rewrite Ews; eapply Forall_impl; [exact Hna|]; apply noAt_prefix].
      cbn [rangeSegment]. rewrite splitHexRange_range, Ews by done.
      rewrite last_cons. cbv zeta in Hts. unfold segmentOf, fmap, option_fmap, option_map.
      destruct (last rest); [done|]. unfold default, id. by rewrite Hts.
  - intros [Hm Hf]. split; [done|]. unfold mapLine. rewrite atSegment_none.
    + cbn [fmap option_fmap option_map]. generalize (default [] (last (Fields l))) as o. intros o.
      induction Hf as [|w ws [_ Hw] Hf IH]; [done|]. cbn [rangeSegment].
      unfold splitHexRange. by rewrite IndexByte_none.
    + eapply Forall_impl; [exact Hf|]. intros w [Hw _]. by apply noAt_prefix.
Qed.

(** A memory map, with entries of both printed forms, any column widths
    and either line end, mixed with lines that hold no address, parses to one
    segment per entry in order: the base form gives the address, the sizes and
    the object; the range form gives both ends, the size and the object when
    the last column is a path. *)
Theorem parseMapSegments_listing (cr : bool) (ls : list (list byte)) (items : list (option mapEntry)) :
  Forall2 printsMap ls items →
  parseMapSegments (listing cr ls) = segmentOf <$> omap id items.
Proof.
  intros HF. unfold parseMapSegments. rewrite splitLines_listing.
  - induction HF as [|l item ls items Hl HF IH]; [done|]. cbn [omap list_omap].
    destruct (mapLine_prints l item Hl) as [_ ->]. destruct item as [e|]; cbn; by rewrite IH.
  - induction HF as [|l item ls items Hl HF IH]; constructor; [|done].
    by eapply mapLine_prints.
Qed.

Lemma parseMapSegments_listing_witness :
  parseMapSegments (listing false
    [str "     pid tid name"; str "   libc.so.6 @5313b75000 672K 8192";
     str "  0x08048000-0x08050000   r-x  /proc/boot/qconn"]) =
    [MkMapSegment 0x5313b75000 0 0 (str "672K 8192") (str "libc.so.6");
     MkMapSegment 0x8048000 0x8050000 0x8000 [] (str "/proc/boot/qconn")].
Proof.
  refine (eq_trans (parseMapSegments_listing false _
    [None; Some (EAt (str "libc.so.6") 0x5313b75000 [str "672K"; str "8192"]);
     Some (ERange 0x8048000 0x8050000 [str "r-x"; str "/proc/boot/qconn"])] _) eq_refl).
  repeat apply List.Forall2_cons; try apply List.Forall2_nil.
  - split; [split_and!; [repeat constructor; discriminate | discriminate | reflexivity]|].
    replace (Fields _) with [str "pid"; str "tid"; str "name"] by (vm_compute; reflexivity).
    repeat (apply List.Forall_cons; [split; [discriminate|]|]); try apply List.Forall_nil;
      intros Hin; rewrite list_elem_of_In in Hin; repeat destruct Hin as [Hin|Hin]; done.
  - split_and!; [done..|solve_word|discriminate|repeat (constructor; [solve_word|]); constructor|].
    exists 3%nat, [(0%nat, str "@5313b75000"); (0%nat, str "672K"); (0%nat, str "8192")], [], 0%nat.
    split_and!; [left|reflexivity|reflexivity].
  - split_and!; [done..|repeat (constructor; [solve_word|]); constructor
      |repeat (constructor; [discriminate|]); constructor|].
    exists 2%nat, [(2%nat, str "r-x"); (1%nat, str "/proc/boot/qconn")], (str "0x"), 1%nat, (str "0x"), 1%nat.
    split_and!; [right; left|right; left|reflexivity|reflexivity].
Defined.
