(* ===== verification/QconnExec.v ===== *)
(** * Running programs: the launcher service

    [internal/qconn/launcher.go] and the queries of [internal/qconn/sysinfo.go]
    and [internal/qconn/proc.go] that run [pidin] through it. Every execution
    dials a connection of its own, so the state is the network: the outcomes of
    the dials to come and the connections used so far. *)

From stdpp Require Import base list numbers strings gmap.
From Stdlib Require Import ZArith Lia Strings.Byte.
From S2P Require Import Prelude GoStrconv GoStrings Transport QconnFraming QconnClient QconnPidin.

Local Open Scope Z_scope.

Definition okPidRe : list re_item := [ReLit (str "OK"); ReSpaces; ReDigits].

Record ExecResult := MkExecResult { er_PID : Z; er_Output : list byte }.

Definition escapeArg (s : list byte) : list byte :=
  let s := ReplaceAll s x5c [x5c; x5c] in
  let s := ReplaceAll s x22 [x5c; x22] in
  let s := ReplaceAll s x0a [x20] in
  ReplaceAll s x0d [x20].

(** The line that starts a shell with the quoted argument. *)
Definition startText (arg : list byte) : list byte :=
  str "start/flags run /bin/sh /bin/sh -c " ++ [x22] ++ arg ++ [x22].

Definition startLine (command : list byte) : list byte := startText (escapeArg command).

(** The pid of a match of [okPidRe] at the head of a line. *)
Definition okPid (line : list byte) : option Z :=
  match reMatch okPidRe line with
  | Some ([_; _; digits], _) => Some (fst (Atoi digits))
  | _ => None
  end.

(** The result from the raw output of the launcher. *)
Definition execResult (raw : list byte) : ExecResult :=
  let out := stripLeadingNoise (TrimLeft raw [x20; x0d; x0a]) in
  match IndexByte out x0a with
  | Some i =>
      match okPid (TrimRight (take i out) [x0d]) with
      | Some pid => MkExecResult pid (drop (i + 1) out)
      | None => MkExecResult 0 out
      end
  | None =>
      match okPid (TrimSpace out) with
      | Some pid => MkExecResult pid []
      | None => MkExecResult 0 out
      end
  end.

(** A dial connects (with the fills of the reader's buffer, and how much of
    the output comes late) or fails. *)
Record network (P : Type) : Type := MkNetwork {
  n_dials : list (option (transport P * list nat * nat));
  n_used : list (frameConn P)
}.
Arguments MkNetwork {P}.
Arguments n_dials {P}.
Arguments n_used {P}.

Section launcher.
Context {P : Type} `{QPeer P}.

Definition X (A : Type) : Type := M qerror (network P) A.

Definition dial : X (transport P * list nat * nat) := λ w,
  match n_dials w with
  | Some d :: ds => (inr d, MkNetwork ds (n_used w))
  | None :: ds => (inl QExecDial, MkNetwork ds (n_used w))
  | [] => (inl QExecDial, w)
  end.

(** The part of [Exec] between the dial and the deferred close. *)
Definition execOn (late : nat) (command : list byte) : M qerror (frameConn P) ExecResult :=
  wrap_err QExecHandshake frame_handshake ≫= λ _,
  writeLine (str "service launcher") ≫= λ _,
  resp ← orFail readUntilPrompt;
  if HasPrefix (firstLine resp) (str "OK") then
    writeLine (startLine command) ≫= λ _,
    out ← readUntilIdle late;
    mret (execResult out)
  else throw (protoErr (str "service launcher") resp).

(** A session on a fresh connection, closed when it returns. *)
Definition onConn {A} (f : frameConn P) (m : M qerror (frameConn P) A) : X A := λ w,
  let '(r, f') := m f in (r, MkNetwork (n_dials w) (n_used w ++ [snd (close f')])).

Definition Exec (command : list byte) : X ExecResult :=
  '(t, fills, late) ← dial;
  onConn (newFrameConn t fills) (execOn late command).

Definition Run (program : list byte) (args : list (list byte)) : X Z :=
  let full := program ++ (if decide (args = []) then [] else x20 :: Join args [x20]) in
  r ← Exec (full ++ str " >/dev/null 2>&1 & echo $!");
  match Atoi (TrimSpace (er_Output r)) with
  | (pid, None) => mret pid
  | (_, Some _) => mret (er_PID r)
  end.

(** ** Queries *)

Definition ListProcesses : X (list Process * list byte) :=
  r ← Exec (str "pidin -F " ++ [x22] ++ str "%a %b %N %p %J %B" ++ [x22]);
  let procs := parsePidinThreads (er_Output r) in
  if decide (procs = []) then
    r2 ← attempt (Exec (str "pidin"));
    match r2 with
    | inr r2 => mret (parsePidinThreads (er_Output r2), er_Output r2)
    | inl _ => mret (procs, er_Output r)
    end
  else mret (procs, er_Output r).

(** The process with the pid, or the only one, or a bare one. *)
Definition pickProcess (pid : Z) (procs : list Process) : Process :=
  match list_find (λ p, pr_PID p = pid) procs with
  | Some (_, p) => p
  | None => match procs with [p] => p | _ => MkProcess pid [] 0 [] end
  end.

Definition ProcessInfo (pid : Z) : X (Process * list byte) :=
  r ← Exec (str "pidin -p " ++ fmt_d pid);
  mret (pickProcess pid (parsePidinThreads (er_Output r)), er_Output r).

Definition ProcessMemory (pid : Z) : X (list MemUsage * list byte) :=
  let cmd := if 0 <? pid then str "pidin -p " ++ fmt_d pid ++ str " mem" else str "pidin mem" in
  r ← Exec cmd;
  mret (parsePidinMem (er_Output r), er_Output r).

Definition SystemMemory : X (gmap (list byte) (list byte) * list byte) :=
  r ← Exec (str "pidin info");
  mret (parseKeyColon (er_Output r), er_Output r).

Definition Resources (pid : Z) (kind : list byte) : X (list (list byte) * list byte) :=
  let cmd := str "pidin" ++ (if 0 <? pid then str " -p " ++ fmt_d pid else []) ++
             (if decide (kind = []) then [] else x20 :: kind) in
  r ← Exec cmd;
  mret (splitLines (er_Output r), er_Output r).

Definition MemoryMap (pid : Z) : X (list MapSegment * list byte) :=
  r ← Exec (str "pidin -p " ++ fmt_d pid ++ str " mem");
  mret (parseMapSegments (er_Output r), er_Output r).
End launcher.

(** ** Quoting *)

(** Texts that hold no line end, and a quote or a backslash only behind a
    backslash that stands for nothing else. *)
Inductive quotable : list byte → Prop :=
  | quotable_nil : quotable []
  | quotable_plain b s : b ∉ [x5c; x22; x0a; x0d] → quotable s → quotable (b :: s)
  | quotable_escape b s : b ∈ [x5c; x22] → quotable s → quotable (x5c :: b :: s).

(** A command on one line. *)
Definition flatten (s : list byte) : list byte :=
  (λ b, if decide (b = x0a ∨ b = x0d) then x20 else b) <$> s.

Lemma ReplaceAll_app a b o n : ReplaceAll (a ++ b) o n = ReplaceAll a o n ++ ReplaceAll b o n.
Proof. apply bind_app. Qed.

Lemma escapeArg_cons b s : escapeArg (b :: s) = escapeArg [b] ++ escapeArg s.
Proof. change (b :: s) with ([b] ++ s). unfold escapeArg. by rewrite !ReplaceAll_app. Qed.

(** One byte, once line ends are spaces. *)
Lemma escapeArg_byte b :
  ∃ c, flatten [b] = [c] ∧ (c ∉ [x0a; x0d]) ∧
    escapeArg [b] = (if decide (c ∈ [x5c; x22]) then [x5c; c] else [c]).
Proof.
  exists (if decide (b = x0a ∨ b = x0d) then x20 else b). split; [done|].
  rewrite !not_elem_of_cons. split; [|by destruct b; vm_compute].
  case_decide as Hb; [split_and!; [done..|apply not_elem_of_nil]|]. split_and!; [tauto..|apply not_elem_of_nil].
Qed.

Lemma escapeArg_quotable s : quotable (escapeArg s).
Proof.
  induction s as [|b s IH]; [constructor|]. rewrite escapeArg_cons.
  destruct (escapeArg_byte b) as (c & _ & Hc & ->). case_decide as Hq; cbn [app]; constructor; [done..| |done].
  rewrite !not_elem_of_cons in *. tauto.
Qed.

Lemma escapeArg_flatten s : escapeArg (flatten s) = escapeArg s.
Proof.
  induction s as [|b s IH]; [done|]. unfold flatten in *. rewrite fmap_cons, escapeArg_cons, IH, (escapeArg_cons b).
  f_equal. by destruct b.
Qed.

Lemma escapeArg_inj s t : escapeArg s = escapeArg t → flatten s = flatten t.
Proof.
  revert t. induction s as [|b s IH]; intros [|b' t]; [done| | |].
  1: rewrite (escapeArg_cons b'). 2: rewrite (escapeArg_cons b). 3: rewrite (escapeArg_cons b), (escapeArg_cons b').
  - destruct (escapeArg_byte b') as (c' & _ & _ & ->). by case_decide.
  - destruct (escapeArg_byte b) as (c & _ & _ & ->). by case_decide.
  - destruct (escapeArg_byte b) as (c & Fc & _ & ->), (escapeArg_byte b') as (c' & Fc' & _ & ->).
    assert (x5c ∈ [x5c; x22]) as Hin by (by left).
    intros E. change (flatten (b :: s)) with (flatten [b] ++ flatten s).
    change (flatten (b' :: t)) with (flatten [b'] ++ flatten t). rewrite Fc, Fc'.
    repeat case_decide; cbn [app] in E; simplify_eq; try done; f_equal; by apply IH.
Qed.

Lemma escapeArg_line s : Forall (λ b, b ≠ x0a ∧ b ≠ x0d) (escapeArg s).
Proof.
  induction s as [|b s IH]; [constructor|]. rewrite escapeArg_cons. apply Forall_app. split; [|done].
  clear. destruct b; vm_compute escapeArg; repeat constructor; discriminate.
Qed.

(** C24: Quoting of a command for the launcher. Whatever the command holds
    (quotes, backslashes, line ends), the text between the two quotes of the
    start line has no line end, no bare quote and no bare backslash, so that no
    command ends its argument early, protects the closing quote or starts a
    second line; and two commands get the same text only when they differ in
    nothing but which of their blanks are line ends. *)
Theorem escapeArg_quoting (s t : list byte) :
  quotable (escapeArg s) ∧
  (escapeArg s = escapeArg t ↔ flatten s = flatten t) ∧
  startLine s = str "start/flags run /bin/sh /bin/sh -c " ++ [x22] ++ escapeArg s ++ [x22] ∧
  Forall (λ b, b ≠ x0a ∧ b ≠ x0d) (startLine s).
Proof.
  split_and!; [apply escapeArg_quotable| |done|].
  - split; [apply escapeArg_inj|]. intros E. by rewrite <- (escapeArg_flatten s), E, escapeArg_flatten.
  - unfold startLine, startText. rewrite !Forall_app. split_and!; [|by repeat constructor|apply escapeArg_line
      |by repeat constructor]. by repeat constructor.
Qed.

(** ** The result of an execution *)

Lemma stripIAC_plain l r : Forall (λ b, b ≠ iac) l → stripIAC (l ++ r) = l ++ stripIAC r.
Proof.
  unfold stripIAC. rewrite length_app. induction 1 as [|b l Hb Hl IH]; [done|].
  cbn [app length Nat.add stripIAC_loop]. by rewrite decide_True, IH.
Qed.

(** The first line of a launcher answer. *)
Definition okLine (pid : Z) : list byte := str "OK " ++ fmt_d pid.

Lemma span_digits n rest :
  0 <= n → (∀ b r, rest = b :: r → isDigit b = false) → span isDigit (fmt_uint 10 n ++ rest) = (fmt_uint 10 n, rest).
Proof.
  intros Hn Hrest.
  assert (Forall (λ b, isDigit b = true) (fmt_uint 10 n)) as Hd.
  { unfold fmt_uint.
    assert (∀ fuel m acc, 0 <= m → Forall (λ b, isDigit b = true) acc →
      Forall (λ b, isDigit b = true) (digits_loop fuel 10 m acc)) as Hg; [|by apply Hg].
    induction fuel as [|fuel IH]; intros m acc Hm Ha; [done|]. cbn [digits_loop].
    assert (isDigit (hexDigit (m `mod` 10)) = true) as Hdig.
    { pose proof (Z.mod_pos_bound m 10 ltac:(lia)).
      assert (Forall (λ n, isDigit (hexDigit n) = true) (seqZ 0 10)) as Hall by (repeat constructor).
      rewrite Forall_forall in Hall. apply Hall, elem_of_seqZ. lia. }
    destruct (m <? 10); [by constructor|]. apply IH; [apply Z.div_pos; lia|by constructor]. }
  induction Hd as [|b l Hb Hl IH]; cbn [app span].
  - destruct rest as [|b r]; [done|]. cbn [span]. by rewrite (Hrest b r).
  - by rewrite Hb, IH.
Qed.

Lemma fmt_d_nonneg n : 0 <= n → fmt_d n = fmt_uint 10 n.
Proof. intros Hn. unfold fmt_d, fmt_int. destruct (Z.ltb_spec n 0); [lia|done]. Qed.

Lemma okPid_okLine pid : 0 <= pid < 2 ^ 63 → okPid (okLine pid) = Some pid.
Proof.
  intros Hp. unfold okPid, okPidRe, okLine. cbn [reMatch].
  rewrite fmt_d_nonneg by lia. change (str "OK ") with (str "OK" ++ [x20]). rewrite <- app_assoc.
  rewrite HasPrefix_app, drop_app_length. rewrite decide_False by discriminate.
  destruct (fmt_uint_word 10 pid) as [Hne Hw]; [lia..|].
  assert (span reSpace ([x20] ++ fmt_uint 10 pid) = ([x20], fmt_uint 10 pid)) as ->.
  { cbn [app span]. change (reSpace x20) with true. cbv iota.
    destruct (fmt_uint 10 pid) as [|b l]; [done|]. cbn [span]. inversion Hw as [|?? Hb]; subst.
    replace (reSpace b) with false; [done|]. revert Hb. clear. destruct b; vm_compute; congruence. }
  rewrite decide_False by discriminate.
  assert (span isDigit (fmt_uint 10 pid) = (fmt_uint 10 pid, [])) as ->.
  { rewrite <- (app_nil_r (fmt_uint 10 pid)) at 1. apply span_digits; [lia|done]. }
  rewrite decide_False by done. cbn [mbind option_bind].
  rewrite <- fmt_d_nonneg, Atoi_fmt_d by lia. done.
Qed.

Lemma okLine_word pid : 0 <= pid → ∃ e, last (okLine pid) = Some e ∧ wordByte e = true ∧ e ≠ x0d.
Proof.
  intros Hp. destruct (word_last (fmt_d pid) (fmt_d_word pid)) as (e & He & Hw). exists e.
  unfold okLine. rewrite last_app, He. split_and!; [done..|]. by intros ->.
Qed.

Lemma okLine_bytes pid : 0 <= pid → Forall (λ b, b ≠ x0a ∧ b ≠ iac) (okLine pid).
Proof.
  intros Hp. unfold okLine. apply Forall_app. split; [by repeat constructor|].
  destruct (fmt_d_word pid) as [_ Hw]. eapply Forall_impl; [exact Hw|].
  intros b Hb. split; intros ->; discriminate Hb.
Qed.

Lemma execResult_ok k pid rest :
  0 <= pid < 2 ^ 63 →
  execResult (replicate k x20 ++ okLine pid ++ [x0d; x0a] ++ rest) = MkExecResult pid rest.
Proof.
  intros Hp. unfold execResult.
  destruct (okLine_word pid) as (e & He & Hwe & Hcr); [lia|].
  pose proof (okLine_bytes pid ltac:(lia)) as Hb.
  assert (TrimLeft (replicate k x20 ++ okLine pid ++ [x0d; x0a] ++ rest) [x20; x0d; x0a] =
    okLine pid ++ [x0d; x0a] ++ rest) as ->.
  { induction k as [|k IH]; [|cbn [replicate app TrimLeft]; by rewrite decide_True by left].
    cbn [replicate app]. change (okLine pid) with (x4f :: drop 1 (okLine pid)). cbn [app TrimLeft].
    rewrite decide_False; [done|]. rewrite list_elem_of_In. intros [?|[?|[?|[]]]]; done. }
  assert (okLine pid ++ [x0d; x0a] ++ rest = (okLine pid ++ [x0d]) ++ x0a :: rest) as E
    by (by rewrite <- app_assoc).
  assert (Forall (λ b, b ≠ x0a) (okLine pid ++ [x0d])) as Hnl.
  { apply Forall_app. split; [|by repeat constructor]. eapply Forall_impl; [exact Hb|]. by intros ? []. }
  assert (isNoise (okLine pid ++ [x0d]) = false) as Hnoise.
  { unfold isNoise. rewrite <- (app_nil_l (okLine pid ++ [x0d])).
    rewrite (TrimSpace_around [] (okLine pid) [x0d] x4f e);
      [|constructor|by repeat constructor|done..].
    by rewrite !bool_decide_eq_false_2 by discriminate. }
  assert (stripLeadingNoise (okLine pid ++ [x0d; x0a] ++ rest) = okLine pid ++ [x0d; x0a] ++ rest) as ->.
  { unfold stripLeadingNoise. cbn [stripLeadingNoise_loop]. rewrite E, IndexByte_app by done.
    by rewrite take_app_length, Hnoise. }
  rewrite E, IndexByte_app, take_app_length by done.
  rewrite TrimRight_cr by (rewrite He; congruence).
  rewrite okPid_okLine, drop_behind by done. done.
Qed.

(** ** Launchers *)

(** A daemon with a launcher: the broker enters it, and a command line that
    starts a shell is answered with the pid and whatever the program prints. *)
Class LauncherDaemon (P : Type) `{QconnDaemon P} : Type := {
  ld_shell : P → list byte → Z * list byte;
  ld_enter p :
    qd_ready p → qd_svc p = ServiceBroker →
    ∃ text p', qd_reply p (str "service launcher") = Some (text, p') ∧
      HasPrefix (firstLine text) (str "OK") = true ∧ qd_svc p' = ServiceLauncher;
  ld_run p arg :
    qd_ready p → qd_svc p = ServiceLauncher → Forall (λ b, b ≠ x0a ∧ b ≠ x0d) arg →
    0 <= (ld_shell p arg).1 < 2 ^ 63 ∧
    ∃ p', peer_write p (startText arg ++ [x0a]) =
      (true, okLine (ld_shell p arg).1 ++ [x0d; x0a] ++ (ld_shell p arg).2, p')
}.

(** A fresh connection with the daemon's greeting: text, the broker's prompt,
    and what may follow it. *)
Definition greeted {P} `{QconnDaemon P} (p : P) (t : transport P) : Prop :=
  qd_ready p ∧ qd_svc p = ServiceBroker ∧
  ∃ cs text k pre, t = Transport p (streamBytes cs ++ replicate k x20 ++ pre) [] true ∧
    streamOK cs ∧ noPrompt text ∧ accepts p (streamRefusals cs) ∧ preamble pre ∧
    streamData cs = text ++ promptOf ServiceBroker.

Lemma residue_suffix k pre bs rest :
  preamble pre → replicate k x20 ++ pre = bs ++ rest → Forall blank bs →
  ∃ k', rest = replicate k' x20 ++ pre.
Proof.
  intros Hpre E Hbs. revert k E. induction Hbs as [|b bs Hb Hbs IH]; intros k E; [by exists k|].
  destruct k as [|k].
  - exfalso. destruct Hpre as [-> | ->]; [done|]. injection E as <- _. by destruct Hb.
  - injection E as _ E. by apply (IH k).
Qed.

Section exec.
Context {P : Type} `{LauncherDaemon P}.

(** The telnet layer of a fresh connection reads the greeting. *)
Lemma greeting_read p t fills :
  greeted p t →
  ∃ out f tx k pre, readUntilPrompt (newFrameConn t fills) = (inr (out, None), f) ∧
    fat p tx (replicate k x20 ++ pre) f ∧ preamble pre ∧ qd_ready p.
Proof.
  intros (Hr & Hs & cs & text & k & pre & -> & Hcs & Hno & Hacc & Hpre & Hd).
  set (t := Transport p (streamBytes cs ++ replicate k x20 ++ pre) [] true).
  destruct (readUntilPrompt_fat (newFrameConn t fills) p [] cs (replicate k x20 ++ pre) text ServiceBroker)
    as (f & bs & rest & E & Er & Hbs & Hf); [done..| |done|done|by split|].
  { rewrite <- Hs. by apply qd_services. }
  destruct (residue_suffix k pre bs rest Hpre Er Hbs) as [k' ->].
  eexists _, f, _, k', pre. by split_and!.
Qed.

Lemma handshake_greeted p t fills :
  greeted p t →
  ∃ f tx k pre, frame_handshake (newFrameConn t fills) = (inr (), f) ∧
    fat p tx (replicate k x20 ++ pre) f ∧ preamble pre ∧ qd_ready p.
Proof.
  intros Hg. destruct (greeting_read p t fills Hg) as (out & f & tx & k & pre & E & Hf).
  exists f, tx, k, pre. split; [|done]. unfold frame_handshake, orFail, mbind, M_bind. by rewrite E.
Qed.

(** [Dial] of a greeted connection: the client is idle and agrees with the
    daemon on the current service. *)
Lemma dialed_greeted p t fills :
  greeted p t → ∃ c, dialed t fills = (inr (), c) ∧ qidle c ∧ agrees c ∧ q_peer c = p.
Proof.
  intros Hg. destruct (greeting_read p t fills Hg) as (out & f & tx & k & pre & E & Hf & Hpre & Hr).
  exists (MkClient f ServiceBroker None).
  assert (q_peer (MkClient f ServiceBroker None) = p) as Hp by (by eapply q_peer_fat).
  split_and!; [| |unfold agrees; rewrite Hp; by destruct Hg as (_ & <- & _)|done].
  - unfold dialed, handshake, mbind, M_bind, onFc. cbn [q_fc q_current q_info]. by rewrite E.
  - by exists p, tx, k, pre.
Qed.

(** One exchange on the framed connection itself. *)
Lemma exchange_fat f p tx k pre cmd text p' {A} (g : list byte → M qerror (frameConn P) A) :
  fat p tx (replicate k x20 ++ pre) f → preamble pre → qd_ready p →
  qd_reply p cmd = Some (text, p') →
  ∃ f' tx' k' pre', preamble pre' ∧ fat p' tx' (replicate k' x20) f' ∧ qd_ready p' ∧
    (writeLine cmd ≫= λ _, resp ← orFail readUntilPrompt; g resp) f = g (pre' ++ text) f'.
Proof.
  intros Hf Hpre Hr Hq. set (c := MkClient f ServiceBroker None).
  assert (q_peer c = p) as Hp by (by apply (q_peer_fat p tx (replicate k x20 ++ pre))).
  destruct (raw_daemon c cmd text p') as (c' & pre' & E & Hpre' & (p1 & tx' & k' & Hf' & Hr') & Hp' & _).
  { by exists p, tx, k, pre. }
  { by rewrite Hp. }
  assert (p1 = p') as ->. { rewrite <- Hp'. symmetry. by apply (q_peer_fat _ _ _ _ Hf'). }
  exists (q_fc c'), tx', k', pre'. split_and!; [done..|].
  revert E. unfold raw, onFc, orFail, mbind, M_bind. cbn [q_fc c].
  destruct (writeLine cmd f) as [[e|[]] f1]; [done|]. cbn [q_fc].
  destruct (readUntilPrompt f1) as [[e|[a e]] f2]; [done|]. intros [= -> -> <-]. done.
Qed.

Lemma run_fat f p tx k arg late :
  fat p tx (replicate k x20) f → qd_ready p → qd_svc p = ServiceLauncher →
  Forall (λ b, b ≠ x0a ∧ b ≠ x0d) arg → (late ≤ length (ld_shell p arg).2)%nat →
  let out := (ld_shell p arg).2 in
  ∃ f', (writeLine (startText arg) ≫= λ _, raw ← readUntilIdle late; mret (execResult raw)) f =
      (inr (MkExecResult (ld_shell p arg).1 (stripIAC (take (length out - late) out))), f') ∧
    t_tx (f_conn f') = tx ++ [startText arg ++ [x0a]].
Proof.
  intros [Ec Et] Hr Hs Ha Hlate. destruct (ld_run p arg Hr Hs Ha) as (Hpid & p' & Hw).
  set (pid := (ld_shell p arg).1) in *. set (out := (ld_shell p arg).2) in *. cbv zeta.
  set (head := replicate k x20 ++ okLine pid ++ [x0d; x0a]).
  set (f1 := f_set_conn (Transport p' (head ++ out) (tx ++ [startText arg ++ [x0a]]) true) f).
  assert (writeLine (startText arg) f = (inr (), f1)) as Ew.
  { unfold writeLine, writeRaw, t_write. rewrite Ec. cbn [t_open t_peer t_rx t_tx]. rewrite Hw.
    unfold f1, head. by rewrite <- !app_assoc. }
  step_ok Ew. unfold readUntilIdle, mbind, M_bind, mret, M_ret. eexists. split; [apply (f_equal2 pair); [|reflexivity]; f_equal|reflexivity].
  change (f_rx f1) with (head ++ out).
  assert (take (length (head ++ out) - late) (head ++ out) = head ++ take (length out - late) out) as ->.
  { rewrite length_app, take_app_ge by lia. do 2 f_equal. lia. }
  rewrite stripIAC_plain.
  - unfold head. rewrite <- !app_assoc. by apply execResult_ok.
  - unfold head. rewrite !Forall_app. split_and!; [by apply Forall_replicate| |by repeat constructor].
    eapply Forall_impl; [apply okLine_bytes; lia|]. by intros ? [].
Qed.
(** Up to the command line: the launcher is entered. *)
Lemma execOn_greeted p t fills late command :
  greeted p t →
  ∃ text p1 f1 tx1 k1, qd_reply p (str "service launcher") = Some (text, p1) ∧
    fat p1 tx1 (replicate k1 x20) f1 ∧ qd_ready p1 ∧ qd_svc p1 = ServiceLauncher ∧
    execOn late command (newFrameConn t fills) =
      (writeLine (startLine command) ≫= λ _, out ← readUntilIdle late; mret (execResult out)) f1.
Proof.
  intros Hg. destruct (handshake_greeted p t fills Hg) as (f0 & tx0 & k0 & pre0 & E0 & Hf0 & Hpre0 & Hr).
  destruct (ld_enter p Hr) as (text & p1 & Hq & Hok & Hs1); [by destruct Hg as (_ & ? & _)|].
  destruct (exchange_fat f0 p tx0 k0 pre0 (str "service launcher") text p1 (λ resp,
    if HasPrefix (firstLine resp) (str "OK") then
      writeLine (startLine command) ≫= λ _, out ← readUntilIdle late; mret (execResult out)
    else throw (protoErr (str "service launcher") resp))) as (f1 & tx1 & k1 & pre1 & Hpre1 & Hf1 & Hr1 & E1);
    [done..|].
  assert (wrap_err QExecHandshake frame_handshake (newFrameConn t fills) = (inr (), f0)) as Eh
    by (unfold wrap_err; by rewrite E0).
  exists text, p1, f1, tx1, k1. split_and!; [done..|].
  unfold execOn. step_ok Eh. etransitivity; [exact E1|]. cbv beta.
  by rewrite firstLine_preamble, Hok by done.
Qed.

(** The command line is sent, whatever comes back. *)
Lemma startLine_sent f p tx k command late :
  fat p tx (replicate k x20) f → qd_ready p → qd_svc p = ServiceLauncher →
  ∃ r f', (writeLine (startLine command) ≫= λ _, out ← readUntilIdle late; mret (execResult out)) f = (inr r, f') ∧
    t_tx (f_conn f') = tx ++ [startLine command ++ [x0a]] ∧
    ∃ out, peer_write p (startLine command ++ [x0a]) = (true, out, t_peer (f_conn f')).
Proof.
  intros [Ec Et] Hr Hs. destruct (ld_run p (escapeArg command) Hr Hs (escapeArg_line command)) as (_ & p' & Hw).
  fold (startLine command) in Hw.
  assert (∃ f1, writeLine (startLine command) f = (inr (), f1) ∧
    t_tx (f_conn f1) = tx ++ [startLine command ++ [x0a]] ∧ t_peer (f_conn f1) = p') as (f1 & Ew & Htx & Hp).
  { unfold writeLine, writeRaw, t_write. rewrite Ec. cbn [t_open t_peer t_rx t_tx]. rewrite Hw. by eexists. }
  step_ok Ew. eexists _, _. split; [reflexivity|]. split; [exact Htx|]. eexists. rewrite Hw. cbn. by rewrite Hp.
Qed.

(** On a fresh connection a command always gets as far as being sent, and is
    the last thing sent. *)
Lemma Exec_sent (w : network P) ds t fills late command p :
  n_dials w = Some (t, fills, late) :: ds → greeted p t →
  ∃ r f, Exec command w = (inr r, MkNetwork ds (n_used w ++ [f])) ∧
    t_open (f_conn f) = false ∧ last (t_tx (f_conn f)) = Some (startLine command ++ [x0a]) ∧
    ∃ text p1 out, qd_reply p (str "service launcher") = Some (text, p1) ∧
      peer_write p1 (startLine command ++ [x0a]) = (true, out, t_peer (f_conn f)).
Proof.
  intros Hd Hg. destruct (execOn_greeted p t fills late command Hg)
    as (text & p1 & f1 & tx1 & k1 & Hq & Hf1 & Hr1 & Hs1 & E).
  destruct (startLine_sent f1 p1 tx1 k1 command late) as (r & f & Es & Htx & out & Hw); [done..|].
  exists r, (snd (close f)). split_and!; [|done| |by exists text, p1, out].
  - rewrite <- E in Es. unfold Exec, dial, mbind, M_bind. rewrite Hd. unfold onConn. by rewrite Es.
  - cbn [close modify snd f_set_conn f_conn t_close t_tx]. rewrite Htx. by rewrite last_snoc.
Qed.
End exec.

(** C12: Executing a command. On a fresh connection to a daemon with a
    launcher, [Exec] enters the launcher, sends the quoted command, and returns
    the pid the launcher reported and exactly what the program printed (up to
    the pause after which reading stops, telnet commands removed); the
    connection is closed and the command was the last thing sent on it. *)
Theorem Exec_result {P} `{LauncherDaemon P} (w : network P) ds t fills late command p :
  n_dials w = Some (t, fills, late) :: ds → greeted p t →
  ∃ text p1, qd_reply p (str "service launcher") = Some (text, p1) ∧
    let '(pid, out) := ld_shell p1 (escapeArg command) in
    ((late ≤ length out)%nat →
     ∃ f, Exec command w =
         (inr (MkExecResult pid (stripIAC (take (length out - late) out))), MkNetwork ds (n_used w ++ [f])) ∧
       t_open (f_conn f) = false ∧ last (t_tx (f_conn f)) = Some (startLine command ++ [x0a])).
Proof.
  intros Hd Hg. destruct (execOn_greeted p t fills late command Hg)
    as (text & p1 & f1 & tx1 & k1 & Hq & Hf1 & Hr1 & Hs1 & E).
  exists text, p1. split; [done|]. destruct (ld_shell p1 (escapeArg command)) as [pid out] eqn:Esh.
  intros Hlate.
  destruct (run_fat f1 p1 tx1 k1 (escapeArg command) late) as (f2 & E2 & Htx);
    [done..|apply escapeArg_line|by rewrite Esh|].
  rewrite Esh in E2. cbn [fst snd] in E2.
  exists (snd (close f2)). split_and!; [|done|].
  - unfold startLine in E. rewrite <- E in E2. unfold Exec, dial, mbind, M_bind. rewrite Hd.
    unfold onConn. by rewrite E2.
  - cbn [close modify snd f_set_conn f_conn t_close t_tx]. rewrite Htx. by rewrite last_snoc.
Qed.
