(* ===== verification/QconnFile.v ===== *)
(** * The file and control services

    [internal/qconn/file.go], [internal/qconn/cntl.go] and the memory access
    of [internal/qconn/proc.go], on top of the client's command exchange. *)

From stdpp Require Import base list numbers strings gmap.
From Stdlib Require Import ZArith Lia Strings.Byte.
From S2P Require Import Prelude GoStrconv GoStrings Transport QconnFraming QconnClient.

Local Open Scope Z_scope.

(** ** Constants *)

Definition O_RDONLY : Z := 0x0000.
Definition O_WRONLY : Z := 0x0001.
Definition O_RDWR : Z := 0x0002.
Definition O_CREAT : Z := 0x0100.
Definition O_TRUNC : Z := 0x0200.
Definition S_IFDIR : Z := 0x4000.
Definition modeRWAll : Z := 0x1b6.    (* 0666 octal *)
Definition modeDir : Z := 0x1ff.      (* 0777 octal *)
Definition maxReadChunk : Z := 2 * 1024.
Definition maxWriteChunk : Z := 16 * 1024.
Definition SIGKILL : Z := 9.

(** ** Response patterns *)

Definition quote : byte := x22.

Record fileHandle := MkFileHandle { fh_fd : Z; fh_mode : Z; fh_size : Z; fh_path : list byte }.

Fixpoint spanBytes (p : byte → bool) (s : list byte) : list byte * list byte :=
  match s with
  | [] => ([], [])
  | b :: r => if p b then let '(l, r) := spanBytes p r in (b :: l, r) else ([], s)
  end.

(** The class [[0-9a-fA-F-]]. *)
Definition hexDash (b : byte) : bool := bool_decide (is_Some (digit_val b)) || bool_decide (b = x2d).

(** A non-empty field of that class and the colon behind it. *)
Definition hexField (s : list byte) : option (list byte * list byte) :=
  match spanBytes hexDash s with
  | (l, x3a :: r) => if decide (l = []) then None else Some (l, r)
  | _ => None
  end.

(** What is before the last quote, one byte at least. *)
Definition upToLastQuote (s : list byte) : option (list byte) :=
  match Cut (reverse s) quote with
  | Some (_, r) => if decide (r = []) then None else Some (reverse r)
  | None => None
  end.

(** [openRe]: [o:<fd>:<mode>:<size>:"<path>"]. *)
Definition openRe (s : list byte) : option (list byte * list byte * list byte * list byte) :=
  if HasPrefix s (str "o:") then
    '(a, s) ← hexField (drop 2 s);
    '(b, s) ← hexField s;
    '(c, s) ← hexField s;
    match s with
    | x22 :: s => p ← upToLastQuote s; Some (a, b, c, p)
    | _ => None
    end
  else None.

(** [okRe]: [o] and white space. *)
Definition okRe (s : list byte) : bool :=
  match s with x6f :: s => forallb reSpace s | _ => false end.

Definition hexInt (h : list byte) : Z := fst (ParseInt h 16 64).

(** ** Operations on one descriptor *)

Section file.
Context {P : Type} `{QPeer P}.
Implicit Types c : Client P.

Definition openFile (path : list byte) (flags mode : Z) : K fileHandle :=
  resp ← rawOrFail (str "o:" ++ [quote] ++ path ++ [quote] ++ str ":" ++ fmt_x flags ++ str ":" ++ fmt_x mode);
  match openRe (firstLine resp) with
  | None => throw (QOpen path (TrimSpace (firstLine resp)))
  | Some (a, b, cc, p) => mret (MkFileHandle (hexInt a) (hexInt b) (hexInt cc) p)
  end.

Definition closeFile (fd : Z) : K unit :=
  resp ← rawOrFail (str "c:" ++ fmt_x fd);
  if okRe (firstLine resp) then mret () else throw (protoErr (str "close") resp).

(** [defer c.closeFile(fd)]: runs after the result is known and does not
    change it. *)
Definition deferClose {A} (fd : Z) (m : K A) : K A := λ c,
  let '(r, c1) := m c in (r, snd (closeFile fd c1)).

(** The part of a status line up to the next colon. *)
Definition statusField (s : list byte) : list byte :=
  match Cut s x3a with Some (a, _) => a | None => s end.

Definition readAt (fd off n : Z) : K (list byte) :=
  let n := if maxReadChunk <? n then maxReadChunk else n in
  onFc (writeLine (str "r:" ++ fmt_x fd ++ str ":" ++ fmt_x off ++ str ":" ++ fmt_x n)) ≫= λ _,
  line ← onFc readResponseLine;
  if HasPrefix line (str "e:") then
    attempt (onFc readUntilPrompt) ≫= λ _, throw (QRead (TrimSpace (drop 2 line)))
  else if negb (HasPrefix line (str "o:")) then
    attempt (onFc readUntilPrompt) ≫= λ _, throw (protoErr (str "read") line)
  else
    match ParseInt (statusField (TrimPrefix line (str "o:"))) 16 64 with
    | (_, Some _) => throw (protoErr (str "read") line)
    | (numread, None) =>
        data ← (if 0 <? numread then onFc (readN (Z.to_nat numread)) else mret []);
        onFc (orFail readUntilPrompt) ≫= λ _, mret data
    end.

Definition writeAt (fd off : Z) (data : list byte) : K Z :=
  onFc (writeLine (str "w:" ++ fmt_x fd ++ str ":" ++ fmt_x off ++ str ":" ++
                   fmt_x (Z.of_nat (length data)))) ≫= λ _,
  onFc (writeRaw data) ≫= λ _,
  line ← onFc readResponseLine;
  if negb (HasPrefix line (str "o:")) then throw (protoErr (str "write") line)
  else
    let nw := hexInt (statusField (TrimPrefix line (str "o:"))) in
    onFc (orFail readUntilPrompt) ≫= λ _, mret nw.

(** ** File operations *)

Definition Stat (path : list byte) : K (Z * Z) :=
  ensure ServiceFile ≫= λ _,
  h ← openFile path O_RDONLY 0;
  deferClose (fh_fd h) (mret (fh_mode h, fh_size h)).

(** The loop of [ReadFile]: until an empty chunk or the size reported at the
    open. The far end decides how often it goes round. *)
Fixpoint ReadFile_loop (fuel : nat) (h : fileHandle) (out : list byte) (off : Z)
  : K (list byte * option qerror) :=
  match fuel with
  | O => mret (out, Some QFuel)
  | S fuel =>
      r ← attempt (readAt (fh_fd h) off maxReadChunk);
      match r with
      | inl e => mret (out, Some e)
      | inr chunk =>
          if decide (chunk = []) then mret (out, None)
          else
            let out := out ++ chunk in
            let off := i64 (off + Z.of_nat (length chunk)) in
            if (0 <? fh_size h) && (fh_size h <=? off) then mret (out, None)
            else ReadFile_loop fuel h out off
      end
  end.

Definition ReadFile (fuel : nat) (path : list byte) : K (list byte * option qerror) :=
  ensure ServiceFile ≫= λ _,
  h ← openFile path O_RDONLY 0;
  deferClose (fh_fd h) (ReadFile_loop fuel h [] 0).

Fixpoint ReadFileRange_loop (fuel : nat) (fd off n : Z) (out : list byte)
  : K (list byte * option qerror) :=
  match fuel with
  | O => mret (out, Some QFuel)
  | S fuel =>
      let len := Z.of_nat (length out) in
      if len <? n then
        let want := if maxReadChunk <? n - len then maxReadChunk else n - len in
        r ← attempt (readAt fd (i64 (off + len)) want);
        match r with
        | inl e => mret (out, Some e)
        | inr chunk => if decide (chunk = []) then mret (out, None)
                       else ReadFileRange_loop fuel fd off n (out ++ chunk)
        end
      else mret (out, None)
  end.

(** A chunk that keeps the loop going has a byte at least. *)
Definition ReadFileRange (path : list byte) (off n : Z) : K (list byte * option qerror) :=
  ensure ServiceFile ≫= λ _,
  h ← openFile path O_RDONLY 0;
  deferClose (fh_fd h) (ReadFileRange_loop (S (Z.to_nat n)) (fh_fd h) off n []).

Fixpoint writeChunks (fuel : nat) (fd off : Z) (data : list byte) (total : Z) : K (Z * option qerror) :=
  match fuel with
  | O => mret (total, Some QFuel)
  | S fuel =>
      let len := Z.of_nat (length data) in
      if total <? len then
        let end_ := if len <? total + maxWriteChunk then len else total + maxWriteChunk in
        r ← attempt (writeAt fd (i64 (off + total))
              (take (Z.to_nat (end_ - total)) (drop (Z.to_nat total) data)));
        match r with
        | inl e => mret (total, Some e)
        | inr nw => if nw <=? 0 then mret (total, None) else writeChunks fuel fd off data (total + nw)
        end
      else mret (total, None)
  end.

Definition WriteFile (path data : list byte) (mode : Z) : K (Z * option qerror) :=
  let mode := if mode =? 0 then modeRWAll else mode in
  ensure ServiceFile ≫= λ _,
  h ← openFile path (Z.lor (Z.lor O_CREAT O_TRUNC) O_WRONLY) mode;
  deferClose (fh_fd h) (writeChunks (S (length data)) (fh_fd h) 0 data 0).

Definition WriteFileAt (path : list byte) (off : Z) (data : list byte) : K (Z * option qerror) :=
  ensure ServiceFile ≫= λ _,
  h ← openFile path O_RDWR 0;
  deferClose (fh_fd h) (writeChunks (S (length data)) (fh_fd h) off data 0).

Definition Delete (path : list byte) : K unit :=
  ensure ServiceFile ≫= λ _,
  resp ← rawOrFail (str "d:" ++ [quote] ++ path ++ [quote] ++ str ":1");
  if okRe (firstLine resp) then mret () else throw (QDelete path (TrimSpace (firstLine resp))).

Definition Mkdir (path : list byte) (mode : Z) : K unit :=
  let mode := if mode =? 0 then modeDir else mode in
  ensure ServiceFile ≫= λ _,
  h ← openFile path (Z.lor O_CREAT O_WRONLY) (Z.lor S_IFDIR mode);
  closeFile (fh_fd h).

Definition Chmod (path : list byte) (mode : Z) : K unit :=
  ensure ServiceFile ≫= λ _,
  h ← openFile path O_RDONLY 0;
  deferClose (fh_fd h)
    (resp ← rawOrFail (str "a:" ++ fmt_x (fh_fd h) ++ str ":" ++ fmt_x mode);
     if okRe (firstLine resp) then mret () else throw (protoErr (str "chmod") resp)).

(** ** Process memory and signals *)

Definition procAs (pid : Z) : list byte := str "/proc/" ++ fmt_d pid ++ str "/as".

Definition ReadMemory (pid vaddr n : Z) : K (list byte * option qerror) :=
  ReadFileRange (procAs pid) (i64 vaddr) n.

Definition WriteMemory (pid vaddr : Z) (data : list byte) : K (Z * option qerror) :=
  WriteFileAt (procAs pid) (i64 vaddr) data.

(** [strings.EqualFold(s, "ok")]: the Kelvin sign folds to [k]. *)
Definition foldsToOk (s : list byte) : bool :=
  bool_decide (s ∈ [str "ok"; str "oK"; str "Ok"; str "OK"; [x6f; xe2; x84; xaa]; [x4f; xe2; x84; xaa]]).

Definition Signal (pid sig : Z) : K unit :=
  ensure ServiceCntl ≫= λ _,
  resp ← rawOrFail (str "kill " ++ fmt_d pid ++ str " " ++ fmt_d sig);
  if foldsToOk (TrimSpace (firstLine resp)) then mret () else throw (protoErr (str "kill") resp).

Definition Kill (pid : Z) : K unit := Signal pid SIGKILL.
End file.
