(* ===== verification/QconnClosed.v ===== *)
(** * Closed qconn connections

    A connection to the daemon that is closed stays closed, whatever method of
    [internal/qconn] is called on it afterwards; and the methods that open a
    connection of their own ([Exec] and what is built on it) close it on every
    path. *)

From stdpp Require Import base list numbers strings gmap.
From Stdlib Require Import ZArith Lia Strings.Byte.
From S2P Require Import Prelude GoStrconv GoStrings Transport QconnFraming QconnClient QconnPidin QconnExec QconnFile.

Local Open Scope Z_scope.

(** ** The framed connection *)

Definition f_closed {P} (f : frameConn P) : Prop := t_open (f_conn f) = false.

Section framing.
Context {P : Type} `{QPeer P}.

(** A method whose fuel is the length of the unread stream. *)
Lemma keeps_fuel {E S A} (Q : S → Prop) (g : S → nat) (m : nat → M E S A) :
  (∀ n, keeps Q (m n)) → keeps Q (λ s, m (g s) s).
Proof. intros Hm s. apply Hm. Qed.

Lemma closed_brReadByte : keeps f_closed (brReadByte (P := P)).
Proof.
  intros f Hf. unfold brReadByte. destruct (f_rx f) as [|b rx]; [done|]. by destruct (fillBuf f).
Qed.

Lemma closed_writeRaw b : keeps f_closed (writeRaw (P := P) b).
Proof. intros f Hf. unfold writeRaw. rewrite t_write_closed by done. done. Qed.

Hint Resolve closed_brReadByte closed_writeRaw : keeps.

Lemma closed_writeLine s : keeps f_closed (writeLine (P := P) s).
Proof. apply closed_writeRaw. Qed.

Lemma closed_skipSub fuel : keeps f_closed (skipSub (P := P) fuel).
Proof. induction fuel as [|fuel IH]; cbn [skipSub]; keeps_auto. Qed.

Lemma closed_handleIAC : keeps f_closed (handleIAC (P := P)).
Proof.
  unfold handleIAC. keeps_auto. apply (keeps_fuel _ (λ f, S (length (f_rx f)))). apply closed_skipSub.
Qed.

Hint Resolve closed_writeLine closed_handleIAC : keeps.

Lemma closed_readByte : keeps f_closed (readByte (P := P)).
Proof.
  apply (keeps_fuel _ (λ f, S (length (f_rx f)))).
  intros fuel. induction fuel as [|fuel IH]; cbn [readByte_loop]; keeps_auto.
Qed.

Lemma closed_dropBlanks fuel : keeps f_closed (dropBlanks (P := P) fuel).
Proof. induction fuel as [|fuel IH]; cbn [dropBlanks]; keeps_auto. Qed.

Hint Resolve closed_readByte closed_dropBlanks : keeps.

Lemma closed_readUntilPrompt : keeps f_closed (readUntilPrompt (P := P)).
Proof.
  apply (keeps_fuel _ (λ f, S (length (f_rx f))) (λ n, readUntilPrompt_loop n [] 0)).
  intros fuel. generalize (@nil byte), 0%nat.
  induction fuel as [|fuel IH]; intros text scan; cbn [readUntilPrompt_loop]; keeps_auto.
Qed.

Lemma closed_readN n : keeps f_closed (readN (P := P) n).
Proof.
  unfold readN. generalize (@nil byte). induction n as [|n IH]; intros buf; cbn [readN_loop]; keeps_auto.
Qed.

Lemma closed_readResponseLine : keeps f_closed (readResponseLine (P := P)).
Proof.
  apply (keeps_fuel _ (λ f, S (length (f_rx f))) (λ n, readResponseLine_loop n [])).
  intros fuel. generalize (@nil byte).
  induction fuel as [|fuel IH]; intros text; cbn [readResponseLine_loop]; keeps_auto.
Qed.

Lemma closed_orFail {A} (m : F (P := P) (A * option qerror)) : keeps f_closed m → keeps f_closed (orFail m).
Proof. intros Hm. unfold orFail. keeps_auto. Qed.

Lemma closed_close : keeps f_closed (close (P := P)).
Proof. by intros f _. Qed.

(** ** The client *)

Definition q_closed (c : Client P) : Prop := f_closed (q_fc c).

Lemma closed_onFc {A} (m : F (P := P) A) : keeps f_closed m → keeps q_closed (onFc m).
Proof. intros Hm c Hc. specialize (Hm _ Hc). unfold onFc. by destruct (m (q_fc c)). Qed.

Lemma closed_setCurrent s : keeps q_closed (setCurrent (P := P) s).
Proof. by apply keeps_modify. Qed.

Hint Resolve closed_readUntilPrompt closed_readN closed_readResponseLine closed_orFail closed_close
  closed_onFc closed_setCurrent : keeps.

Lemma closed_rawOrFail cmd : keeps q_closed (rawOrFail (P := P) cmd).
Proof. unfold rawOrFail, raw. keeps_auto. Qed.

Hint Resolve closed_rawOrFail : keeps.

Lemma closed_ensure s : keeps q_closed (ensure (P := P) s).
Proof. unfold ensure, leaveService. keeps_auto. Qed.

Hint Resolve closed_ensure : keeps.

Lemma closed_Versions : keeps q_closed (Versions (P := P)).
Proof. unfold Versions. keeps_auto. Qed.

Lemma closed_Info : keeps q_closed (Info (P := P)).
Proof. unfold Info. keeps_auto. by apply keeps_modify. Qed.

Lemma closed_Close : keeps q_closed (Close (P := P)).
Proof. unfold Close. keeps_auto. Qed.

(** [Close] closes, and so does [Dial] when the handshake fails. *)
Lemma closes_Close c : q_closed (snd (Close (P := P) c)).
Proof. unfold Close, mbind, M_bind. by rewrite attempt_run. Qed.

Lemma dialed_closes t fills e c : dialed (P := P) t fills = (inl e, c) → q_closed c.
Proof. unfold dialed. destruct (handshake _) as [[e'|u] c']; [|done]. by intros [= <- <-]. Qed.

(** ** Files, memory and signals *)

Lemma closed_openFile path flags mode : keeps q_closed (openFile (P := P) path flags mode).
Proof. unfold openFile. keeps_auto. Qed.

Lemma closed_closeFile fd : keeps q_closed (closeFile (P := P) fd).
Proof. unfold closeFile. keeps_auto. Qed.

Hint Resolve closed_openFile closed_closeFile : keeps.

Lemma closed_deferClose {A} fd (m : K (P := P) A) : keeps q_closed m → keeps q_closed (deferClose fd m).
Proof.
  intros Hm c Hc. specialize (Hm c Hc). unfold deferClose. destruct (m c) as [r c1].
  by apply closed_closeFile.
Qed.

Lemma closed_readAt fd off n : keeps q_closed (readAt (P := P) fd off n).
Proof. unfold readAt. keeps_auto. Qed.

Lemma closed_writeAt fd off data : keeps q_closed (writeAt (P := P) fd off data).
Proof. unfold writeAt. keeps_auto. Qed.

Hint Resolve closed_deferClose closed_readAt closed_writeAt : keeps.

Lemma closed_ReadFile_loop fuel h out off : keeps q_closed (ReadFile_loop (P := P) fuel h out off).
Proof. revert out off. induction fuel as [|fuel IH]; intros out off; cbn [ReadFile_loop]; keeps_auto. Qed.

Lemma closed_ReadFileRange_loop fuel fd off n out : keeps q_closed (ReadFileRange_loop (P := P) fuel fd off n out).
Proof. revert out. induction fuel as [|fuel IH]; intros out; cbn [ReadFileRange_loop]; keeps_auto. Qed.

Lemma closed_writeChunks fuel fd off data total : keeps q_closed (writeChunks (P := P) fuel fd off data total).
Proof. revert total. induction fuel as [|fuel IH]; intros total; cbn [writeChunks]; keeps_auto. Qed.

Hint Resolve closed_ReadFile_loop closed_ReadFileRange_loop closed_writeChunks : keeps.

Lemma closed_Stat path : keeps q_closed (Stat (P := P) path).
Proof. unfold Stat. keeps_auto. Qed.

Lemma closed_ReadFile fuel path : keeps q_closed (ReadFile (P := P) fuel path).
Proof. unfold ReadFile. keeps_auto. Qed.

Lemma closed_WriteFile path data mode : keeps q_closed (WriteFile (P := P) path data mode).
Proof. unfold WriteFile. keeps_auto. Qed.

Lemma closed_Delete path : keeps q_closed (Delete (P := P) path).
Proof. unfold Delete. keeps_auto. Qed.

Lemma closed_Mkdir path mode : keeps q_closed (Mkdir (P := P) path mode).
Proof. unfold Mkdir. keeps_auto. Qed.

Lemma closed_Chmod path mode : keeps q_closed (Chmod (P := P) path mode).
Proof. unfold Chmod. keeps_auto. apply closed_deferClose. keeps_auto. Qed.

Lemma closed_ReadMemory pid vaddr n : keeps q_closed (ReadMemory (P := P) pid vaddr n).
Proof. unfold ReadMemory, ReadFileRange. keeps_auto. Qed.

Lemma closed_WriteMemory pid vaddr data : keeps q_closed (WriteMemory (P := P) pid vaddr data).
Proof. unfold WriteMemory, WriteFileAt. keeps_auto. Qed.

Lemma closed_Signal pid sig : keeps q_closed (Signal (P := P) pid sig).
Proof. unfold Signal. keeps_auto. Qed.

(** ** Connections of their own *)

(** What was opened since [u] is closed again. *)
Definition releasing (u : list (frameConn P)) (w : network P) : Prop :=
  ∃ fs, n_used w = u ++ fs ∧ Forall f_closed fs.

Variable u : list (frameConn P).

Lemma releasing_dial : keeps (releasing u) (dial (P := P)).
Proof. intros w Hw. unfold dial. by destruct (n_dials w) as [|[d|] ds]. Qed.

Lemma releasing_onConn {A} f (m : M qerror (frameConn P) A) : keeps (releasing u) (onConn f m).
Proof.
  intros w (fs & E & Hfs). unfold onConn. destruct (m f) as [r f']. exists (fs ++ [snd (close f')]).
  cbn [snd n_used]. rewrite E, app_assoc. split; [done|]. apply Forall_app. by repeat constructor.
Qed.

Hint Resolve releasing_dial releasing_onConn : keeps.

Lemma releasing_Exec command : keeps (releasing u) (Exec (P := P) command).
Proof. unfold Exec. keeps_auto. Qed.

Hint Resolve releasing_Exec : keeps.

Lemma releasing_Run program args : keeps (releasing u) (Run (P := P) program args).
Proof. unfold Run. keeps_auto. Qed.

Lemma releasing_ListProcesses : keeps (releasing u) (ListProcesses (P := P)).
Proof. unfold ListProcesses. keeps_auto. Qed.

Lemma releasing_ProcessInfo pid : keeps (releasing u) (ProcessInfo (P := P) pid).
Proof. unfold ProcessInfo. keeps_auto. Qed.

Lemma releasing_ProcessMemory pid : keeps (releasing u) (ProcessMemory (P := P) pid).
Proof. unfold ProcessMemory. keeps_auto. Qed.

Lemma releasing_SystemMemory : keeps (releasing u) (SystemMemory (P := P)).
Proof. unfold SystemMemory. keeps_auto. Qed.

Lemma releasing_Resources pid kind : keeps (releasing u) (Resources (P := P) pid kind).
Proof. unfold Resources. keeps_auto. Qed.

Lemma releasing_MemoryMap pid : keeps (releasing u) (MemoryMap (P := P) pid).
Proof. unfold MemoryMap. keeps_auto. Qed.
End framing.

#[export] Hint Resolve closed_Versions closed_Info closed_Close closed_Stat closed_ReadFile closed_WriteFile
  closed_Delete closed_Mkdir closed_Chmod closed_ReadMemory closed_WriteMemory closed_Signal : keeps.
#[export] Hint Resolve releasing_Exec releasing_Run releasing_ListProcesses releasing_ProcessInfo
  releasing_ProcessMemory releasing_SystemMemory releasing_Resources releasing_MemoryMap : keeps.
