(* ===== verification/QconnFileFacts.v ===== *)
(** * Files through a conforming daemon

    What a daemon with a file service promises ([FileDaemon]), and what the
    client's chunked file transfer then does. *)

From stdpp Require Import base list numbers strings gmap.
From Stdlib Require Import ZArith Lia Strings.Byte.
From S2P Require Import Prelude GoStrconv GoStrings Transport QconnFraming QconnClient QconnFile.

Local Open Scope Z_scope.

(** ** Status lines *)

Lemma trim_keeps_head fuel s b :
  (∀ q, q ∈ spaceSeqs → head q ≠ Some b) → last s = Some b →
  last (trimSpaces (reverse <$> spaceSeqs) fuel s) = Some b.
Proof.
  intros Hb. revert s. induction fuel as [|fuel IH]; intros s Hs; [done|]. cbn [trimSpaces].
  destruct (spaceAt (reverse <$> spaceSeqs) s) as [|n] eqn:En; [done|]. apply IH.
  assert (∃ q, q ∈ spaceSeqs ∧ HasPrefix s (reverse q) = true ∧ S n = length (reverse q)) as (q & Hq & Hp & Hn).
  { revert En. generalize spaceSeqs. intros seqs. induction seqs as [|q seqs IHq]; [done|].
    cbn [fmap list_fmap spaceAt]. destruct (HasPrefix s (reverse q)) eqn:Hp.
    - intros E. exists q. split; [by left|]. split; [done|]. by rewrite <- E.
    - intros (q' & ? & ?)%IHq. exists q'. split; [by right|done]. }
  apply HasPrefix_true in Hp as [r ->]. rewrite Hn, drop_app_length.
  destruct r as [|x r _] using rev_ind.
  - exfalso. rewrite app_nil_r in Hs. apply (Hb q Hq).
    rewrite last_reverse in Hs. done.
  - rewrite app_assoc, last_snoc in Hs. by rewrite last_snoc.
Qed.

Lemma status_not_noise line : head line = Some x6f → isNoise line = false.
Proof.
  intros Hh.
  assert (head (TrimSpace line) = Some x6f) as Ht.
  { destruct line as [|b line]; [done|]. simpl in Hh. injection Hh as ->.
    unfold TrimSpace. cbn [length].
    change (trimSpaces spaceSeqs (S (length line)) (x6f :: line)) with (x6f :: line).
    cbv zeta. rewrite head_reverse. apply trim_keeps_head.
    - intros q Hq. rewrite list_elem_of_In in Hq. simpl in Hq. repeat destruct Hq as [<-|Hq]; done.
    - by rewrite last_reverse. }
  unfold isNoise. rewrite !bool_decide_eq_false_2; [done|..]; intros E; rewrite E in Ht; done.
Qed.

Lemma TrimRight_one l b : last l ≠ Some b → TrimRight (l ++ [b]) [b] = l.
Proof.
  intros Hl. unfold TrimRight. rewrite reverse_snoc. cbn [TrimLeft].
  rewrite decide_True by (by apply list_elem_of_singleton).
  destruct (reverse l) as [|x r] eqn:E.
  - apply (f_equal reverse) in E. rewrite reverse_involutive in E. by subst.
  - cbn [TrimLeft]. rewrite decide_False.
    + rewrite <- E. apply reverse_involutive.
    + intros ->%list_elem_of_singleton. apply Hl.
      rewrite <- (reverse_involutive l), E, last_reverse. done.
Qed.

Lemma no_last (l : list byte) b : Forall (λ x, x ≠ b) l → last l ≠ Some b.
Proof.
  intros Hl E. apply last_Some_elem_of in E. rewrite Forall_forall in Hl. by apply (Hl b).
Qed.

(** A response of one status line. *)
Lemma firstLine_status line :
  head line = Some x6f → Forall (λ b, b ≠ x0a ∧ b ≠ x0d) line →
  firstLine (line ++ [x0d; x0a]) = line.
Proof.
  intros Hh Hl. unfold firstLine, Split.
  change [x0d; x0a] with ([x0d] ++ [x0a]). rewrite app_assoc.
  rewrite split_loop_run.
  2: { apply Forall_app. split; [eapply Forall_impl; [exact Hl|]; simpl; tauto | by repeat constructor]. }
  cbn [app split_loop]. rewrite decide_True by done. cbn [firstLine_loop].
  rewrite TrimRight_one by (apply no_last; eapply Forall_impl; [exact Hl|]; simpl; tauto).
  by rewrite status_not_noise.
Qed.

(** ** The open response *)

Definition openCmd (path : list byte) (flags mode : Z) : list byte :=
  str "o:" ++ [quote] ++ path ++ [quote] ++ str ":" ++ fmt_x flags ++ str ":" ++ fmt_x mode.

Definition openLine (fd md sz : Z) (path : list byte) : list byte :=
  str "o:" ++ fmt_x fd ++ str ":" ++ fmt_x md ++ str ":" ++ fmt_x sz ++ str ":" ++
  [quote] ++ path ++ [quote].

Lemma spanBytes_run p l b r :
  Forall (λ x, p x = true) l → p b = false → spanBytes p (l ++ b :: r) = (l, b :: r).
Proof.
  intros Hl Hb. induction Hl as [|x l Hx Hl IH]; cbn [app spanBytes]; [by rewrite Hb|].
  by rewrite Hx, IH.
Qed.

Lemma hexField_num z r : 0 <= z → hexField (fmt_x z ++ x3a :: r) = Some (fmt_x z, r).
Proof.
  intros Hz. unfold hexField. rewrite spanBytes_run; [|..|done].
  - rewrite decide_False; [done|]. rewrite fmt_x_nonneg by done. apply fmt_uint_nonempty. lia.
  - rewrite fmt_x_nonneg by done. eapply Forall_impl; [apply fmt_uint_digits; lia|].
    intros b Hb. unfold hexDash. by rewrite bool_decide_eq_true_2.
Qed.

Lemma openRe_line fd md sz path :
  0 <= fd → 0 <= md → 0 <= sz → path ≠ [] →
  openRe (openLine fd md sz path) = Some (fmt_x fd, fmt_x md, fmt_x sz, path).
Proof.
  intros Hf Hm Hs Hp. unfold openRe, openLine. rewrite HasPrefix_app.
  change (drop 2 (str "o:" ++ ?x)) with x.
  change (str ":" ++ ?x) with (x3a :: x).
  rewrite hexField_num by done. simpl. rewrite hexField_num by done. simpl.
  rewrite hexField_num by done. simpl.
  unfold upToLastQuote. rewrite reverse_snoc. cbn [Cut]. rewrite decide_True by done.
  rewrite decide_False; [by rewrite reverse_involutive|].
  intros E. apply Hp. by rewrite <- (reverse_involutive path), E.
Qed.

Lemma hexInt_num z : 0 <= z < 2 ^ 63 → hexInt (fmt_x z) = z.
Proof. intros Hz. unfold hexInt, fmt_x. rewrite ParseInt_fmt_int by lia. done. Qed.

(** ** Reading lines and blocks *)

Section lines.
Context {P : Type} `{QPeer P}.
Implicit Types (f : frameConn P) (p : P).

Lemma readByte_plain p tx b rx f :
  b ≠ iac → fat p tx (b :: rx) f → ∃ f', readByte f = (inr b, f') ∧ fat p tx rx f'.
Proof.
  intros Hb Hfat.
  destruct (readByte_fat p [] b rx tx f) as (f' & E & Hf'); [constructor..|by left|done|done|].
  exists f'. cbn in Hf'. by rewrite app_nil_r in Hf'.
Qed.

Lemma readResponseLine_loop_fat p tx l rest text f fuel :
  Forall (λ b, b ≠ iac ∧ b ≠ x0a) l → (length l < fuel)%nat →
  fat p tx (l ++ x0a :: rest) f →
  ∃ f', readResponseLine_loop fuel text f =
          (inr (TrimLeft (TrimRight (text ++ l) [x0d]) [x20]), f') ∧ fat p tx rest f'.
Proof.
  intros Hl. revert text f fuel. induction Hl as [|b l [Hb Hn] Hl IH]; intros text f [|fuel] Hf Hfat;
    simpl in Hf; try lia; cbn [readResponseLine_loop app] in *.
  - destruct (readByte_plain p tx x0a rest f ltac:(done) Hfat) as (f' & E & Hf').
    exists f'. split; [|done]. step_ok E. rewrite decide_True by done. by rewrite app_nil_r.
  - destruct (readByte_plain p tx b _ f Hb Hfat) as (f1 & E & Hf1). step_ok E.
    rewrite decide_False by done.
    destruct (IH (text ++ [b]) f1 fuel ltac:(lia) Hf1) as (f' & E' & Hf').
    exists f'. rewrite E', <- app_assoc. done.
Qed.

(** A status line behind left-over spaces. *)
Lemma readResponseLine_fat p tx k line rest f :
  Forall (λ b, b ≠ iac ∧ b ≠ x0a ∧ b ≠ x0d) line → head line ≠ Some x20 → line ≠ [] →
  fat p tx (replicate k x20 ++ line ++ [x0d; x0a] ++ rest) f →
  ∃ f', readResponseLine f = (inr line, f') ∧ fat p tx rest f'.
Proof.
  intros Hl Hh Hne Hfat.
  replace (replicate k x20 ++ line ++ [x0d; x0a] ++ rest)
    with (((replicate k x20 ++ line) ++ [x0d]) ++ x0a :: rest) in Hfat
    by (by rewrite <- !app_assoc).
  destruct (readResponseLine_loop_fat p tx ((replicate k x20 ++ line) ++ [x0d]) rest [] f
    (S (length (f_rx f)))) as (f' & E & Hf').
  - rewrite !Forall_app. split_and!; [by apply Forall_replicate| |by repeat constructor].
    eapply Forall_impl; [exact Hl|]. simpl. tauto.
  - unfold f_rx. rewrite (proj1 Hfat). simpl. rewrite (length_app _ (x0a :: rest)). lia.
  - done.
  - exists f'. split; [|done]. unfold readResponseLine. rewrite E. cbn [app].
    rewrite TrimRight_one.
    + by rewrite TrimLeft_spaces, TrimLeft_head.
    + rewrite last_app. destruct (last line) as [x|] eqn:El; [|by apply last_None in El].
      intros [= ->]. revert El. apply no_last. eapply Forall_impl; [exact Hl|]. simpl. tauto.
Qed.

(** A block of raw bytes. *)
Lemma readN_loop_fat p tx data rest buf f :
  fat p tx (data ++ rest) f →
  ∃ f', readN_loop (length data) buf f = (inr (buf ++ data), f') ∧ fat p tx rest f'.
Proof.
  revert buf f. induction data as [|b data IH]; intros buf f Hfat.
  - exists f. by rewrite app_nil_r.
  - cbn [length readN_loop app] in *. destruct (brReadByte_fat p tx b _ f Hfat) as (f1 & E & Hf1).
    assert (wrap_err (λ e, match e with QEOF => if decide (buf = []) then QEOF else QShort | e => e end)
      brReadByte f = (inr b, f1)) as Ew by (unfold wrap_err; by rewrite E).
    step_ok Ew. destruct (IH (buf ++ [b]) f1 Hf1) as (f' & E' & Hf').
    exists f'. by rewrite E', <- app_assoc.
Qed.

(** A bare prompt and spaces. *)
Lemma readPrompt_fat p tx svc k f :
  svc ∈ services → fat p tx (promptOf svc ++ replicate k x20) f →
  ∃ f' j, orFail readUntilPrompt f = (inr [], f') ∧ fat p tx (replicate j x20) f' ∧ (j ≤ k)%nat.
Proof.
  intros Hsvc Hfat.
  assert (Forall (λ b, b ≠ iac) (promptOf svc)) as Hi.
  { rewrite list_elem_of_In in Hsvc. simpl in Hsvc.
    destruct Hsvc as [<-|[<-|[<-|[<-|[<-|[]]]]]]; by repeat constructor. }
  destruct (stream_plain (promptOf svc) Hi) as (H1 & H2 & H3 & H4).
  destruct (readUntilPrompt_fat f p tx (plain (promptOf svc)) (replicate k x20) [] svc)
    as (f' & bs & rest' & E & Er & _ & Hf'); [done| |done| |by rewrite H3|by rewrite H2|].
  - apply noPrompt_plain. constructor.
  - left. done.
  - pose proof (f_equal length Er) as El. rewrite length_replicate, length_app in El.
    apply replicate_suffix in Er. rewrite H4, app_nil_r, Er in Hf'.
    exists f', (length rest'). split; [|split; [done|lia]]. unfold orFail. by step_ok E.
Qed.
End lines.

(** ** Daemons with a file service *)

(** Paths that can be sent and echoed on a line. *)
Definition cleanPath (path : list byte) : Prop :=
  path ≠ [] ∧ Forall (λ b, b ∉ [quote; x0a; x0d; x3c; iac]) path ∧
  HasPrefix path (str "/proc/") = false.

(** The bytes of a file from an offset on, at most [n]. *)
Definition fileSlice (off n : Z) (content : list byte) : list byte :=
  take (Z.to_nat n) (drop (Z.to_nat off) content).

(** A file with a block written into it. *)
Definition fileSplice (off : Z) (data content : list byte) : list byte :=
  take (Z.to_nat off) content ++ data ++ drop (Z.to_nat off + length data) content.

Definition ioCmd (op : list byte) (fd off n : Z) : list byte :=
  op ++ fmt_x fd ++ str ":" ++ fmt_x off ++ str ":" ++ fmt_x n.

(** The rest of a status line behind the count. *)
Definition statusTail (tail : list byte) : Prop :=
  head tail = Some x3a ∧ Forall (λ b, b ≠ iac ∧ b ≠ x0a ∧ b ≠ x0d) tail.

(** The access a descriptor is opened with. *)
Definition asksRead (flags : Z) : bool := negb (Z.land flags 3 =? O_WRONLY).
Definition asksWrite (flags : Z) : bool := negb (Z.land flags 3 =? O_RDONLY).
Definition asksCreate (flags : Z) : bool := negb (Z.land flags O_CREAT =? 0).

(** A daemon with a file service. Which paths it opens, and for what, is up to
    it: missing files, missing directories and permissions are its affair. It
    can read what it has created. *)
Class FileDaemon (P : Type) `{SwitchingDaemon P} : Type := {
  fd_files : P → list byte → option (list byte);   (* contents by path *)
  fd_may : P → list byte → Z → Prop;               (* the path opens with these flags *)
  fd_reads : P → Z → option (list byte);           (* descriptors open for reading *)
  fd_writes : P → Z → option (list byte);          (* descriptors open for writing *)
  fd_room : P → Z;                                 (* descriptors still to give *)
  (* the service is offered, and switching leaves the files alone *)
  fd_offered p text p' :
    qd_ready p → qd_svc p = ServiceBroker →
    qd_reply p (str "service " ++ ServiceFile) = Some (text, p') →
    HasPrefix (firstLine text) (str "OK") = true;
  fd_switch p cmd text p' :
    qd_ready p → switchCmd cmd → qd_reply p cmd = Some (text, p') →
    fd_files p' = fd_files p ∧ fd_may p' = fd_may p ∧ fd_room p' = fd_room p;
  (* opening: existing contents are kept unless truncation is asked for, a new
     file is empty *)
  fd_open p path flags mode :
    qd_ready p → qd_svc p = ServiceFile → cleanPath path → 0 <= flags → 0 <= mode → 0 < fd_room p →
    fd_may p path flags →
    Z.land flags O_TRUNC = 0 ∨ fd_files p path = None →
    Z.of_nat (length (default [] (fd_files p path))) < 2 ^ 63 →
    ∃ fd md p',
      qd_reply p (openCmd path flags mode) =
        Some (openLine fd md (Z.of_nat (length (default [] (fd_files p path)))) path ++ [x0d; x0a], p') ∧
      0 <= fd < 2 ^ 63 ∧ 0 <= md < 2 ^ 63 ∧ qd_svc p' = ServiceFile ∧
      (asksRead flags = true → fd_reads p' fd = Some path) ∧
      (asksWrite flags = true → fd_writes p' fd = Some path) ∧
      default [] (fd_files p' path) = default [] (fd_files p path) ∧
      (∀ q, q ≠ path ∨ asksCreate flags = false → fd_files p' q = fd_files p q) ∧
      (∀ q fl, fd_may p q fl → fd_may p' q fl) ∧
      (asksCreate flags = true → fd_may p' path O_RDONLY) ∧ fd_room p' = fd_room p - 1;
  fd_close p fd path :
    qd_ready p → qd_svc p = ServiceFile → 0 <= fd < 2 ^ 63 →
    fd_reads p fd = Some path ∨ fd_writes p fd = Some path →
    ∃ p', qd_reply p (str "c:" ++ fmt_x fd) = Some (str "o" ++ [x0d; x0a], p') ∧
      qd_svc p' = ServiceFile ∧ fd_files p' = fd_files p ∧ fd_may p' = fd_may p ∧ fd_room p' = fd_room p;
  (* reading: the count, the raw bytes and the prompt *)
  fd_read p fd path off n :
    qd_ready p → qd_svc p = ServiceFile → 0 <= fd < 2 ^ 63 → fd_reads p fd = Some path →
    0 <= off < 2 ^ 62 → 0 < n <= maxReadChunk →
    let data := fileSlice off n (default [] (fd_files p path)) in
    ∃ tail k, statusTail tail ∧
      peer_write p (ioCmd (str "r:") fd off n ++ [x0a]) =
        (true, str "o:" ++ fmt_x (Z.of_nat (length data)) ++ tail ++ [x0d; x0a] ++ data ++
               promptOf ServiceFile ++ replicate k x20, p);
  (* writing: nothing is said before the payload is in *)
  fd_write p fd path off data :
    qd_ready p → qd_svc p = ServiceFile → 0 <= fd < 2 ^ 63 → fd_writes p fd = Some path →
    0 <= off <= Z.of_nat (length (default [] (fd_files p path))) → off < 2 ^ 62 →
    data ≠ [] → Z.of_nat (length data) <= maxWriteChunk →
    ∃ p1 p' tail k, statusTail tail ∧
      peer_write p (ioCmd (str "w:") fd off (Z.of_nat (length data)) ++ [x0a]) = (true, [], p1) ∧
      peer_write p1 data =
        (true, str "o:" ++ fmt_x (Z.of_nat (length data)) ++ tail ++ [x0d; x0a] ++
               promptOf ServiceFile ++ replicate k x20, p') ∧
      qd_ready p' ∧ qd_svc p' = ServiceFile ∧ fd_writes p' fd = Some path ∧
      fd_room p' = fd_room p ∧ fd_may p' = fd_may p ∧
      fd_files p' path = Some (fileSplice off data (default [] (fd_files p path))) ∧
      (∀ q, q ≠ path → fd_files p' q = fd_files p q)
}.

(** ** One operation against such a daemon *)

Section file_daemon.
Context {P : Type} `{FileDaemon P}.
Implicit Types (c : Client P) (p : P).

Lemma file_in_services : ServiceFile ∈ services.
Proof. rewrite list_elem_of_In. simpl. tauto. Qed.

(** In the file service, between two commands. *)
Definition inFile c : Prop := qclean c ∧ agrees c ∧ q_current c = ServiceFile.

Lemma inFile_peer c : inFile c → qd_ready (q_peer c) ∧ qd_svc (q_peer c) = ServiceFile.
Proof.
  intros (Hc & Ha & Hs). split; [by apply qidle_ready, qclean_idle|]. by rewrite <- Ha.
Qed.

Lemma inFile_intro p tx k f info :
  fat p tx (replicate k x20) f → qd_ready p → qd_svc p = ServiceFile →
  inFile (MkClient f ServiceFile info) ∧ q_peer (MkClient f ServiceFile info) = p.
Proof.
  intros Hfat Hr Hs.
  assert (q_peer (MkClient f ServiceFile info) = p) as Ep by (unfold q_peer; simpl; by rewrite (proj1 Hfat)).
  split; [|done]. split_and!; [by exists p, tx, k| |done]. unfold agrees. by rewrite Ep.
Qed.

Lemma openFile_daemon c path flags mode :
  qidle c → agrees c → q_current c = ServiceFile → cleanPath path → 0 <= flags → 0 <= mode →
  0 < fd_room (q_peer c) → fd_may (q_peer c) path flags →
  Z.land flags O_TRUNC = 0 ∨ fd_files (q_peer c) path = None →
  let len := Z.of_nat (length (default [] (fd_files (q_peer c) path))) in
  len < 2 ^ 63 →
  ∃ h c', openFile path flags mode c = (inr h, c') ∧ inFile c' ∧
    0 <= fh_fd h < 2 ^ 63 ∧ fh_size h = len ∧
    (asksRead flags = true → fd_reads (q_peer c') (fh_fd h) = Some path) ∧
    (asksWrite flags = true → fd_writes (q_peer c') (fh_fd h) = Some path) ∧
    default [] (fd_files (q_peer c') path) = default [] (fd_files (q_peer c) path) ∧
    (∀ q, q ≠ path ∨ asksCreate flags = false → fd_files (q_peer c') q = fd_files (q_peer c) q) ∧
    (∀ q fl, fd_may (q_peer c) q fl → fd_may (q_peer c') q fl) ∧
    (asksCreate flags = true → fd_may (q_peer c') path O_RDONLY) ∧
    fd_room (q_peer c') = fd_room (q_peer c) - 1.
Proof.
  intros Hi Ha Hs Hp Hfl Hm Hroom Hmay Htr len Hlen.
  assert (qd_svc (q_peer c) = ServiceFile) as Hsvc by (by rewrite <- Ha).
  destruct (fd_open (q_peer c) path flags mode (qidle_ready c Hi) Hsvc Hp Hfl Hm Hroom Hmay Htr Hlen)
    as (fd & md & p' & Hq & Hfd & Hmd & Hs' & Hrest).
  destruct (rawOrFail_daemon c _ _ _ Hi Hq) as (c' & pre & E & Hpre & Hc' & Hp' & Hcur & _).
  exists (MkFileHandle fd md len path), c'.
  split; [|split; [split_and!; [done|unfold agrees|]; congruence|]].
  - unfold openFile. step_ok E. rewrite firstLine_preamble by done.
    destruct Hp as (Hne & Hpb & _).
    assert (∀ z, 0 <= z → Forall (λ b, b ≠ x0a ∧ b ≠ x0d) (fmt_x z)) as Hnum.
    { intros z Hz. rewrite fmt_x_nonneg by done.
      eapply Forall_impl; [by apply fmt_uint_digits|]. intros b [v Hv]. split; by intros ->. }
    rewrite firstLine_status; [|done|].
    + rewrite openRe_line by (done || lia). by rewrite !hexInt_num by lia.
    + unfold openLine. rewrite !Forall_app. split_and!; try (by repeat constructor); try (apply Hnum; lia).
      eapply Forall_impl; [exact Hpb|]. simpl. intros b Hb. split; intros ->; apply Hb; by repeat constructor.
  - rewrite Hp'. split; [done|]. by split.
Qed.

Lemma closeFile_daemon c fd path :
  inFile c → 0 <= fd < 2 ^ 63 → fd_reads (q_peer c) fd = Some path ∨ fd_writes (q_peer c) fd = Some path →
  ∃ c', closeFile fd c = (inr (), c') ∧ inFile c' ∧ fd_files (q_peer c') = fd_files (q_peer c) ∧
    fd_may (q_peer c') = fd_may (q_peer c) ∧ fd_room (q_peer c') = fd_room (q_peer c).
Proof.
  intros Hin Hfd Hpath. destruct (inFile_peer c Hin) as [Hr Hsvc].
  destruct (fd_close (q_peer c) fd path Hr Hsvc Hfd Hpath) as (p' & Hq & Hs' & Hrest).
  destruct Hin as (Hc & Ha & Hs).
  destruct (rawOrFail_daemon c _ _ _ (qclean_idle c Hc) Hq) as (c' & pre & E & Hpre & Hc' & Hp' & Hcur & _).
  exists c'. rewrite Hp'. split; [|split; [split_and!; [done|unfold agrees|]; congruence|done]].
  unfold closeFile. step_ok E. by rewrite firstLine_preamble.
Qed.

(** The count of a status line. *)
Lemma status_count n tail :
  0 <= n < 2 ^ 63 → statusTail tail →
  let line := str "o:" ++ fmt_x n ++ tail in
  Forall (λ b, b ≠ iac ∧ b ≠ x0a ∧ b ≠ x0d) line ∧ head line ≠ Some x20 ∧ line ≠ [] ∧
  HasPrefix line (str "e:") = false ∧ HasPrefix line (str "o:") = true ∧
  ParseInt (statusField (TrimPrefix line (str "o:"))) 16 64 = (n, None).
Proof.
  intros Hn [Hh Ht] line. destruct tail as [|b tail]; [done|]. injection Hh as ->.
  split_and!; [|done..|].
  - unfold line. rewrite !Forall_app. split_and!; [by repeat constructor| |done].
    rewrite fmt_x_nonneg by lia. eapply Forall_impl; [apply fmt_uint_digits; lia|].
    intros b [v Hv]. split_and!; by intros ->.
  - unfold line, TrimPrefix. rewrite HasPrefix_app. change (drop _ (str "o:" ++ ?x)) with x.
    unfold statusField. rewrite Cut_app.
    + apply ParseInt_fmt_int; lia.
    + rewrite fmt_x_nonneg by lia. apply digits_no_sep; [lia|lia|done].
Qed.

Lemma readAt_daemon c fd path off n :
  inFile c → 0 <= fd < 2 ^ 63 → fd_reads (q_peer c) fd = Some path →
  0 <= off < 2 ^ 62 → 0 < n <= maxReadChunk →
  ∃ c', readAt fd off n c = (inr (fileSlice off n (default [] (fd_files (q_peer c) path))), c') ∧
    inFile c' ∧ q_peer c' = q_peer c.
Proof.
  intros Hin Hfd Hpath Hoff Hn. destruct (inFile_peer c Hin) as [Hr Hsvc].
  destruct Hin as ((p & tx & j & Hfat & _) & Ha & Hs).
  rewrite (q_peer_fat _ _ _ _ Hfat) in *. destruct c as [f cur info].
  cbn [q_fc q_current q_info] in *. subst cur.
  destruct (fd_read p fd path off n Hr Hsvc Hfd Hpath Hoff Hn) as (tail & k & Htail & Hw).
  set (data := fileSlice off n (default [] (fd_files p path))) in *.
  assert (Z.of_nat (length data) <= n) as Hdl.
  { unfold data, fileSlice. rewrite length_take. lia. }
  destruct (status_count (Z.of_nat (length data)) tail) as (Hl1 & Hl2 & Hl3 & Hle & Hlo & Hpi);
    [unfold maxReadChunk in *; lia|done|].
  set (line := str "o:" ++ fmt_x (Z.of_nat (length data)) ++ tail) in *.
  set (f1 := f_set_conn (Transport p (replicate j x20 ++ line ++ [x0d; x0a] ++ data ++
    promptOf ServiceFile ++ replicate k x20) (tx ++ [ioCmd (str "r:") fd off n ++ [x0a]]) true) f).
  assert (writeLine (ioCmd (str "r:") fd off n) f = (inr (), f1)) as Ew.
  { destruct Hfat as [Ec _]. unfold writeLine, writeRaw, t_write. rewrite Ec.
    cbn [t_open t_peer t_rx t_tx]. rewrite Hw. unfold f1, line. by rewrite <- !app_assoc. }
  assert (fat p (tx ++ [ioCmd (str "r:") fd off n ++ [x0a]]) (replicate j x20 ++ line ++ [x0d; x0a] ++
    data ++ promptOf ServiceFile ++ replicate k x20) f1) as Hf1 by (destruct Hfat as [_ Et]; by split).
  destruct (readResponseLine_fat _ _ _ _ _ _ Hl1 Hl2 Hl3 Hf1) as (f2 & E2 & Hf2).
  assert (∃ f3, (if 0 <? Z.of_nat (length data) then readN (Z.to_nat (Z.of_nat (length data))) else mret [])
    f2 = (inr data, f3) ∧ fat p (tx ++ [ioCmd (str "r:") fd off n ++ [x0a]])
      (promptOf ServiceFile ++ replicate k x20) f3) as (f3 & E3 & Hf3).
  { destruct data as [|b data'] eqn:Ed; [by exists f2|].
    rewrite Nat2Z.id. destruct (Z.ltb_spec 0 (Z.of_nat (length (b :: data')))); [|simpl in *; lia].
    apply (readN_loop_fat p _ (b :: data') _ [] f2 Hf2). }
  destruct (readPrompt_fat _ _ _ _ _ file_in_services Hf3) as (f4 & j' & E4 & Hf4 & _).
  destruct (inFile_intro p _ j' f4 info Hf4 Hr Hsvc) as [Hin' Hp'].
  exists (MkClient f4 ServiceFile info). split; [|done].
  unfold readAt. replace (maxReadChunk <? n) with false by (symmetry; apply Z.ltb_ge; lia).
  change (str "r:" ++ fmt_x fd ++ str ":" ++ fmt_x off ++ str ":" ++ fmt_x n) with (ioCmd (str "r:") fd off n).
  unfold mbind, M_bind, onFc. cbn [q_fc q_current q_info].
  rewrite Ew. cbn [q_fc q_current q_info]. rewrite E2, Hle, Hlo, Hpi. cbn [negb q_fc q_current q_info].
  destruct (0 <? Z.of_nat (length data)); cbn [q_fc q_current q_info].
  - rewrite E3. cbn [q_fc q_current q_info]. by rewrite E4.
  - injection E3 as Ed ->. unfold mret, M_ret. cbn [q_fc q_current q_info]. rewrite E4. by rewrite Ed.
Qed.

Lemma writeAt_daemon c fd path off data :
  inFile c → 0 <= fd < 2 ^ 63 → fd_writes (q_peer c) fd = Some path →
  0 <= off <= Z.of_nat (length (default [] (fd_files (q_peer c) path))) → off < 2 ^ 62 →
  data ≠ [] → Z.of_nat (length data) <= maxWriteChunk →
  ∃ c', writeAt fd off data c = (inr (Z.of_nat (length data)), c') ∧ inFile c' ∧
    fd_writes (q_peer c') fd = Some path ∧
    fd_room (q_peer c') = fd_room (q_peer c) ∧ fd_may (q_peer c') = fd_may (q_peer c) ∧
    fd_files (q_peer c') path = Some (fileSplice off data (default [] (fd_files (q_peer c) path))) ∧
    (∀ q, q ≠ path → fd_files (q_peer c') q = fd_files (q_peer c) q).
Proof.
  intros Hin Hfd Hpath Hoff Hoff2 Hne Hlen. destruct (inFile_peer c Hin) as [Hr Hsvc].
  destruct Hin as ((p & tx & j & Hfat & _) & Ha & Hs).
  rewrite (q_peer_fat _ _ _ _ Hfat) in *. destruct c as [f cur info].
  cbn [q_fc q_current q_info] in *. subst cur.
  destruct (fd_write p fd path off data Hr Hsvc Hfd Hpath Hoff Hoff2 Hne Hlen)
    as (p1 & p' & tail & k & Htail & Hw1 & Hw2 & Hr' & Hs' & Hrest).
  destruct (status_count (Z.of_nat (length data)) tail) as (Hl1 & Hl2 & Hl3 & _ & Hlo & Hpi);
    [unfold maxWriteChunk in *; lia|done|].
  set (line := str "o:" ++ fmt_x (Z.of_nat (length data)) ++ tail) in *.
  set (cmd := ioCmd (str "w:") fd off (Z.of_nat (length data))) in *.
  set (f1 := f_set_conn (Transport p1 (replicate j x20) (tx ++ [cmd ++ [x0a]]) true) f).
  assert (writeLine cmd f = (inr (), f1)) as Ew1.
  { destruct Hfat as [Ec _]. unfold writeLine, writeRaw, t_write. rewrite Ec.
    cbn [t_open t_peer t_rx t_tx]. rewrite Hw1. unfold f1. by rewrite app_nil_r. }
  set (f2 := f_set_conn (Transport p' (replicate j x20 ++ line ++ [x0d; x0a] ++
    promptOf ServiceFile ++ replicate k x20) ((tx ++ [cmd ++ [x0a]]) ++ [data]) true) f1).
  assert (writeRaw data f1 = (inr (), f2)) as Ew2.
  { unfold writeRaw, t_write.
    change (f_conn f1) with (Transport p1 (replicate j x20) (tx ++ [cmd ++ [x0a]]) true).
    cbn [t_open t_peer t_rx t_tx]. rewrite Hw2. unfold f2, line. by rewrite <- !app_assoc. }
  assert (fat p' ((tx ++ [cmd ++ [x0a]]) ++ [data]) (replicate j x20 ++ line ++ [x0d; x0a] ++
    promptOf ServiceFile ++ replicate k x20) f2) as Hf2 by (destruct Hfat as [_ Et]; by split).
  destruct (readResponseLine_fat _ _ _ _ _ _ Hl1 Hl2 Hl3 Hf2) as (f3 & E3 & Hf3).
  destruct (readPrompt_fat _ _ _ _ _ file_in_services Hf3) as (f4 & j' & E4 & Hf4 & _).
  destruct (inFile_intro p' _ j' f4 info Hf4 Hr' Hs') as [Hin' Hp'].
  exists (MkClient f4 ServiceFile info). rewrite Hp'. split; [|split; [done|]].
  2: { destruct Hrest as (? & ? & ? & ?). done. }
  unfold writeAt.
  change (str "w:" ++ fmt_x fd ++ str ":" ++ fmt_x off ++ str ":" ++ fmt_x (Z.of_nat (length data))) with cmd.
  unfold mbind, M_bind, onFc. cbn [q_fc q_current q_info].
  rewrite Ew1. cbn [q_fc q_current q_info]. rewrite Ew2. cbn [q_fc q_current q_info].
  rewrite E3, Hlo. cbn [negb q_fc q_current q_info]. rewrite E4.
  unfold hexInt. by rewrite Hpi.
Qed.
End file_daemon.
