(* ===== verification/QconnTransfer.v ===== *)
(** * File transfer through a conforming daemon

    The chunk loops of [ReadFile] and [WriteFile] against a [FileDaemon]: what
    is written is what is read back, whatever bytes the file holds. *)

From stdpp Require Import base list numbers strings gmap.
From Stdlib Require Import ZArith Lia Strings.Byte.
From S2P Require Import Prelude GoStrconv GoStrings Transport QconnFraming QconnClient QconnFile.
From S2P Require Import QconnFileFacts.

Local Open Scope Z_scope.

(** ** Slices *)

Lemma fileSlice_next (off : nat) n content :
  0 <= n → take off content ++ fileSlice (Z.of_nat off) n content = take (off + Z.to_nat n) content.
Proof. intros Hn. unfold fileSlice. rewrite Nat2Z.id. by rewrite take_take_drop. Qed.

Lemma fileSplice_next (total k : nat) data :
  (total ≤ length data)%nat →
  fileSplice (Z.of_nat total) (take k (drop total data)) (take total data) = take (total + k) data.
Proof.
  intros Ht. unfold fileSplice. rewrite Nat2Z.id, take_take, Nat.min_id.
  rewrite (drop_ge (take total data)) by (rewrite length_take; lia).
  by rewrite app_nil_r, take_take_drop.
Qed.

Section transfer.
Context {P : Type} `{FileDaemon P}.
Implicit Types (c : Client P).

(** The contents of a file as the daemon has it. *)
Definition contents c path : list byte := default [] (fd_files (q_peer c) path).

(** ** Reading *)

Lemma ReadFile_loop_daemon fuel c h path (off : nat) :
  inFile c → 0 <= fh_fd h < 2 ^ 63 → fd_reads (q_peer c) (fh_fd h) = Some path →
  fh_size h = Z.of_nat (length (contents c path)) → fh_size h < 2 ^ 62 →
  (off ≤ length (contents c path))%nat →
  (Z.to_nat ((fh_size h - Z.of_nat off) / maxReadChunk) + 1 < fuel)%nat →
  ∃ c', ReadFile_loop fuel h (take off (contents c path)) (Z.of_nat off) c =
          (inr (contents c path, None), c') ∧ inFile c' ∧ q_peer c' = q_peer c.
Proof.
  revert c off. induction fuel as [|fuel IH]; intros c off Hin Hfd Hpath Hsz Hbig Hoff Hf; [lia|].
  set (content := contents c path) in *.
  destruct (readAt_daemon c (fh_fd h) path (Z.of_nat off) maxReadChunk Hin Hfd Hpath)
    as (c1 & E1 & Hin1 & Hp1); [unfold maxReadChunk; lia..|].
  change (default [] (fd_files (q_peer c) path)) with content in E1.
  assert (attempt (readAt (fh_fd h) (Z.of_nat off) maxReadChunk) c =
    (inr (inr (fileSlice (Z.of_nat off) maxReadChunk content)), c1)) as Ea
    by (unfold attempt; by rewrite E1).
  cbn [ReadFile_loop]. step_ok Ea.
  set (chunk := fileSlice (Z.of_nat off) maxReadChunk content).
  assert (length chunk = Z.to_nat maxReadChunk `min` (length content - off))%nat as Hcl.
  { unfold chunk, fileSlice. rewrite length_take, length_drop, Nat2Z.id. done. }
  assert (take off content ++ chunk = take (off + length chunk) content) as Hout.
  { unfold chunk. rewrite fileSlice_next by (unfold maxReadChunk; lia). fold chunk. rewrite Hcl.
    destruct (decide (Z.to_nat maxReadChunk ≤ length content - off)%nat).
    - by rewrite Nat.min_l by done.
    - rewrite Nat.min_r by lia. rewrite !take_ge by lia. done. }
  case_decide as Hemp.
  { exists c1. split; [|done]. rewrite Hemp in Hcl. cbn [length] in Hcl.
    rewrite take_ge by (unfold maxReadChunk in *; lia). done. }
  assert (0 < length chunk)%nat as Hpos by (destruct chunk; [done|simpl; lia]).
  rewrite i64_small by lia. rewrite Hout.
  replace (Z.of_nat off + Z.of_nat (length chunk)) with (Z.of_nat (off + length chunk)) by lia.
  destruct (decide (off + length chunk < length content)%nat) as [Hmore|Hend].
  - assert (length chunk = Z.to_nat maxReadChunk) as Hfull by lia.
    replace ((0 <? fh_size h) && (fh_size h <=? Z.of_nat (off + length chunk))) with false
      by (symmetry; apply andb_false_intro2, Z.leb_gt; lia).
    destruct (IH c1 (off + length chunk)%nat) as (c2 & E2 & Hin2 & Hp2);
      unfold contents in *; rewrite ?Hp1; fold content; try done; [lia| |].
    + rewrite Hfull in *. unfold maxReadChunk in *.
      replace (fh_size h - Z.of_nat (off + Z.to_nat (2 * 1024)))
        with ((fh_size h - Z.of_nat off) + (-1) * (2 * 1024)) by lia.
      rewrite Z.div_add by lia.
      assert (1 <= (fh_size h - Z.of_nat off) / (2 * 1024)).
      { apply Z.div_le_lower_bound; lia. }
      lia.
    + exists c2. rewrite Hp1 in E2. fold content in E2. split; [done|]. by rewrite Hp2.
  - exists c1. replace ((0 <? fh_size h) && (fh_size h <=? Z.of_nat (off + length chunk))) with true.
    + by rewrite take_ge by lia.
    + symmetry. apply andb_true_intro. split; [apply Z.ltb_lt|apply Z.leb_le]; lia.
Qed.

(** ** Writing *)

Lemma writeChunks_daemon fuel c fd path data (total : nat) :
  inFile c → 0 <= fd < 2 ^ 63 → fd_writes (q_peer c) fd = Some path →
  contents c path = take total data → (total ≤ length data)%nat →
  Z.of_nat (length data) < 2 ^ 62 → (length data - total < fuel)%nat →
  ∃ c', writeChunks fuel fd 0 data (Z.of_nat total) c = (inr (Z.of_nat (length data), None), c') ∧
    inFile c' ∧ fd_writes (q_peer c') fd = Some path ∧
    fd_room (q_peer c') = fd_room (q_peer c) ∧ fd_may (q_peer c') = fd_may (q_peer c) ∧
    contents c' path = data ∧ (∀ q, q ≠ path → fd_files (q_peer c') q = fd_files (q_peer c) q).
Proof.
  revert c total. induction fuel as [|fuel IH]; intros c total Hin Hfd Hpath Hct Htot Hbig Hf; [lia|].
  cbn [writeChunks]. destruct (Z.ltb_spec (Z.of_nat total) (Z.of_nat (length data))) as [Hlt|Hge].
  2: { exists c. assert (total = length data) as -> by lia. split; [done|].
       rewrite firstn_all in Hct. done. }
  set (k := (Z.to_nat maxWriteChunk `min` (length data - total))%nat).
  assert (0 < k ≤ length data - total)%nat as Hk by (unfold k, maxWriteChunk; lia).
  set (chunk := take k (drop total data)).
  replace (take (Z.to_nat ((if Z.of_nat (length data) <? Z.of_nat total + maxWriteChunk
      then Z.of_nat (length data) else Z.of_nat total + maxWriteChunk) - Z.of_nat total))
      (drop (Z.to_nat (Z.of_nat total)) data)) with chunk.
  2: { unfold chunk. rewrite Nat2Z.id. f_equal. unfold k.
       destruct (Z.ltb_spec (Z.of_nat (length data)) (Z.of_nat total + maxWriteChunk)); lia. }
  assert (length chunk = k) as Hcl.
  { unfold chunk. rewrite length_take, length_drop. lia. }
  rewrite i64_small by lia. rewrite Z.add_0_l.
  destruct (writeAt_daemon c fd path (Z.of_nat total) chunk Hin Hfd Hpath)
    as (c1 & E1 & Hin1 & Hpath1 & Hroom1 & Hmay1 & Hf1 & Ho1).
  { unfold contents in Hct. rewrite Hct, length_take. lia. }
  { lia. }
  { intros E. rewrite E in Hcl. simpl in Hcl. lia. }
  { rewrite Hcl. unfold k, maxWriteChunk. lia. }
  assert (attempt (writeAt fd (Z.of_nat total) chunk) c = (inr (inr (Z.of_nat (length chunk))), c1)) as Ea
    by (unfold attempt; by rewrite E1).
  step_ok Ea. rewrite Hcl. destruct (Z.leb_spec (Z.of_nat k) 0); [lia|].
  replace (Z.of_nat total + Z.of_nat k) with (Z.of_nat (total + k)) by lia.
  destruct (IH c1 (total + k)%nat) as (c2 & E2 & Hin2 & Hpath2 & Hroom2 & Hmay2 & Hc2 & Ho2); try done; try lia.
  { unfold contents in *. rewrite Hf1, Hct. simpl. unfold chunk. by apply fileSplice_next. }
  exists c2. rewrite E2, Hroom2, Hroom1, Hmay2, Hmay1. split_and!; try done.
  intros q Hq. by rewrite Ho2, Ho1.
Qed.

(** ** Whole operations *)

(** Entering the file service leaves the files alone. *)
Lemma ensure_file c :
  qidle c → agrees c →
  ∃ c', ensure ServiceFile c = (inr (), c') ∧ qidle c' ∧ agrees c' ∧ q_current c' = ServiceFile ∧
    fd_files (q_peer c') = fd_files (q_peer c) ∧ fd_may (q_peer c') = fd_may (q_peer c) ∧ fd_room (q_peer c') = fd_room (q_peer c).
Proof.
  intros Hi Ha.
  set (Inv := λ p, fd_files p = fd_files (q_peer c) ∧ fd_may p = fd_may (q_peer c) ∧ fd_room p = fd_room (q_peer c)).
  assert (∀ p cmd text p', qd_ready p → switchCmd cmd → qd_reply p cmd = Some (text, p') →
    Inv p → Inv p') as Hsw.
  { intros p cmd text p' Hr Hc Hq (H1' & H2' & H3'). destruct (fd_switch p cmd text p' Hr Hc Hq) as (E1 & E2 & E3).
    split_and!; congruence. }
  destruct (ensure_daemon Inv Hsw c ServiceFile file_in_services) as (r & c' & E & (Hi' & Ha' & HI) & _ & Hr).
  { by split_and!. }
  destruct r as [e|[]].
  - exfalso. destruct Hr as (_ & p & text & p' & Hrd & Hb & _ & Hq & Hno).
    by rewrite (fd_offered p text p' Hrd Hb Hq) in Hno.
  - exists c'. destruct HI. done.
Qed.

(** Closing behind an operation. *)
Lemma deferClose_daemon {A} c fd path (m : Client P → (qerror + A) * Client P) r c1 :
  m c = (r, c1) → inFile c1 → 0 <= fd < 2 ^ 63 →
  fd_reads (q_peer c1) fd = Some path ∨ fd_writes (q_peer c1) fd = Some path →
  ∃ c2, deferClose fd m c = (r, c2) ∧ inFile c2 ∧ fd_files (q_peer c2) = fd_files (q_peer c1) ∧
    fd_may (q_peer c2) = fd_may (q_peer c1) ∧ fd_room (q_peer c2) = fd_room (q_peer c1).
Proof.
  intros E Hin Hfd Hpath.
  destruct (closeFile_daemon c1 fd path Hin Hfd Hpath) as (c2 & E2 & Hin2 & Hrest).
  exists c2. split; [|done]. unfold deferClose. by rewrite E, E2.
Qed.

Lemma inFile_idle c : inFile c → qidle c ∧ agrees c.
Proof. intros (Hc & Ha & _). split; [by apply qclean_idle|done]. Qed.

Lemma ReadFile_daemon c path fuel :
  qidle c → agrees c → cleanPath path → 0 < fd_room (q_peer c) → fd_may (q_peer c) path O_RDONLY →
  let len := Z.of_nat (length (contents c path)) in
  len < 2 ^ 62 → (Z.to_nat (len / maxReadChunk) + 1 < fuel)%nat →
  ∃ c', ReadFile fuel path c = (inr (contents c path, None), c') ∧ inFile c' ∧
    (∀ q, fd_files (q_peer c') q = fd_files (q_peer c) q) ∧ fd_room (q_peer c') = fd_room (q_peer c) - 1.
Proof.
  intros Hi Ha Hp Hroom Hmay len Hlen Hf.
  destruct (ensure_file c Hi Ha) as (c1 & E1 & Hi1 & Ha1 & Hs1 & Hf1 & Hm1 & Hr1).
  assert (contents c1 path = contents c path) as Hct by (unfold contents; by rewrite Hf1).
  destruct (openFile_daemon c1 path O_RDONLY 0 Hi1 Ha1 Hs1 Hp)
    as (h & c2 & E2 & Hin2 & Hfd & Hsz & Hpath & _ & Hd2 & Ho2 & _ & _ & Hr2);
    [done|done|lia|by rewrite Hm1|by left|fold (contents c1 path); rewrite Hct; lia|].
  specialize (Hpath eq_refl). fold (contents c1 path) in Hsz. rewrite Hct in Hsz.
  assert (contents c2 path = contents c path) as Hct2 by (unfold contents; by rewrite Hd2, Hf1).
  destruct (ReadFile_loop_daemon fuel c2 h path 0 Hin2 Hfd Hpath) as (c3 & E3 & Hin3 & Hp3);
    [by rewrite Hct2|lia|lia|rewrite Hsz, Z.sub_0_r; done|].
  rewrite take_0, Hct2 in E3.
  destruct (deferClose_daemon c2 (fh_fd h) path (ReadFile_loop fuel h [] 0) _ c3 E3 Hin3 Hfd)
    as (c4 & E4 & Hin4 & Hf4 & _ & Hr4); [left; by rewrite Hp3|].
  exists c4. split_and!; [|done| |rewrite Hr4, Hp3, Hr2, Hr1; done].
  - unfold ReadFile. step_ok E1. by step_ok E2.
  - intros q. rewrite Hf4, Hp3, Ho2, Hf1 by (by right). done.
Qed.

(** How [WriteFile] opens a file. *)
Definition writeFlags : Z := Z.lor (Z.lor O_CREAT O_TRUNC) O_WRONLY.

Lemma WriteFile_daemon c path data mode :
  qidle c → agrees c → cleanPath path → 0 <= mode → 0 < fd_room (q_peer c) → fd_may (q_peer c) path writeFlags →
  fd_files (q_peer c) path = None → Z.of_nat (length data) < 2 ^ 62 →
  ∃ c', WriteFile path data mode c = (inr (Z.of_nat (length data), None), c') ∧ inFile c' ∧
    contents c' path = data ∧ fd_may (q_peer c') path O_RDONLY ∧ fd_room (q_peer c') = fd_room (q_peer c) - 1 ∧
    (∀ q, q ≠ path → fd_files (q_peer c') q = fd_files (q_peer c) q).
Proof.
  intros Hi Ha Hp Hmode Hroom Hmay Hnew Hlen.
  destruct (ensure_file c Hi Ha) as (c1 & E1 & Hi1 & Ha1 & Hs1 & Hf1 & Hm1 & Hr1).
  set (md := if mode =? 0 then modeRWAll else mode).
  destruct (openFile_daemon c1 path writeFlags md Hi1 Ha1 Hs1 Hp)
    as (h & c2 & E2 & Hin2 & Hfd & _ & _ & Hpath & Hd2 & Ho2 & _ & Hm2 & Hr2);
    [done|unfold md; destruct (mode =? 0); done|lia|by rewrite Hm1|right; by rewrite Hf1
    |rewrite Hf1, Hnew; done|].
  specialize (Hpath eq_refl). specialize (Hm2 eq_refl).
  destruct (writeChunks_daemon (S (length data)) c2 (fh_fd h) path data 0 Hin2 Hfd Hpath)
    as (c3 & E3 & Hin3 & Hpath3 & Hr3 & Hm3 & Hc3 & Ho3);
    [unfold contents; by rewrite Hd2, Hf1, Hnew|lia|done|lia|].
  destruct (deferClose_daemon c2 (fh_fd h) path (writeChunks (S (length data)) (fh_fd h) 0 data 0)
    _ c3 E3 Hin3 Hfd) as (c4 & E4 & Hin4 & Hf4 & Hm4 & Hr4); [by right|].
  exists c4. split_and!; [|done|unfold contents in *; by rewrite Hf4|by rewrite Hm4, Hm3|lia|].
  - unfold WriteFile. fold md writeFlags. step_ok E1. by step_ok E2.
  - intros q Hq. rewrite Hf4, Ho3, Ho2, Hf1 by auto. done.
Qed.
End transfer.

(** C9: What is written is what is read back. Against any daemon with a
    conforming file service that lets the file be created, writing a new file
    and reading it again returns exactly the bytes written, whatever they are
    (prompts, telnet bytes and line ends included) and however many chunks they
    take; the other files are untouched, and the connection is idle and in
    agreement afterwards. *)
Theorem WriteFile_ReadFile {P} `{FileDaemon P} (c : Client P) path data mode fuel :
  qidle c → agrees c → cleanPath path → 0 <= mode → 1 < fd_room (q_peer c) →
  fd_may (q_peer c) path writeFlags → fd_files (q_peer c) path = None → Z.of_nat (length data) < 2 ^ 62 →
  (Z.to_nat (Z.of_nat (length data) / maxReadChunk) + 1 < fuel)%nat →
  ∃ c1 c2,
    WriteFile path data mode c = (inr (Z.of_nat (length data), None), c1) ∧
    ReadFile fuel path c1 = (inr (data, None), c2) ∧ qidle c2 ∧ agrees c2 ∧
    (∀ q, q ≠ path → fd_files (q_peer c2) q = fd_files (q_peer c) q).
Proof.
  intros Hi Ha Hp Hmode Hroom Hmay Hnew Hlen Hfuel.
  destruct (WriteFile_daemon c path data mode Hi Ha Hp Hmode)
    as (c1 & E1 & Hin1 & Hc1 & Hm1 & Hr1 & Ho1); [lia|done..|].
  destruct (inFile_idle c1 Hin1) as [Hi1 Ha1].
  destruct (ReadFile_daemon c1 path fuel Hi1 Ha1 Hp) as (c2 & E2 & Hin2 & Hf2 & _);
    [lia|done|by rewrite Hc1|by rewrite Hc1|].
  destruct (inFile_idle c2 Hin2) as [Hi2 Ha2].
  exists c1, c2. rewrite Hc1 in E2. split_and!; try done. intros q Hq. rewrite Hf2. by apply Ho1.
Qed.
