(* ===== verification/MockServer.v ===== *)
(** * The mock qconn daemon

    [internal/mockqnx/server.go] and [internal/mockqnx/shell.go]: one
    connection of the test double as a peer of the client's transport. Its
    state is the service, the open descriptors, the files, and the input it
    has not consumed. A command whose input is not complete yet has no effect,
    so a blocked read is re-entered from the start of the command.

    Allocation failures are not modelled; an out-of-range slice, which panics
    in Go, ends the connection. *)

From stdpp Require Import base list numbers strings gmap.
From Stdlib Require Import ZArith Lia Strings.Byte.
From S2P Require Import Prelude GoStrconv GoStrings Transport QconnFraming QconnClient.

Local Open Scope Z_scope.

Definition crlf : list byte := [x0d; x0a].

(** ** The shell *)

Definition mockInfo : list byte :=
  str "ARCHITECTURE=x86_64 CPU=x86_64 ENDIAN=le HASVERSION=1 HOSTNAME=qnxmock " ++
  str "MACHINE=x86pc NUM_SRVCS=1 OS=nto RELEASE=8.0 SYSNAME=QNX " ++
  str "TIMEZONE=UTC0 VERSION=2024/01/01-00:00:00UTC".

Definition lines (ls : list (list byte)) : list byte := terminated x0a ls.

Definition pidinThreads : list byte := lines [
  str "     pid tid name               prio STATE       Blocked";
  str "       1   1 /procnto-smp-instr  255r RUNNING";
  str "       1   2 /procnto-smp-instr   10r RECEIVE     1";
  str "    4099   1 /proc/boot/devc-con   10r RECEIVE     1";
  str "    8200   1 /proc/boot/qconn      10r REPLY       1";
  str "    8200   2 /proc/boot/qconn      10r RECEIVE     1";
  str "    8300   1 /bin/sh               10r REPLY       1"].

Definition pidinMem : list byte := lines [
  str "     pid tid name               prio STATE             code  data        stack";
  str "       1   1 procnto-smp-instr   255r RUNNING            644K  6321K    4096(516K)";
  str "    8200   1 qconn                10r REPLY              52K   148K     4096(132K)"].

Definition pidinInfo : list byte := lines [
  str "CPU:X86_64 Release:8.0";
  str "Processes: 6 Threads: 8";
  str "FreeMemory: 805306368 TotalMemory: 1073741824";
  str "BootTime: 2024/01/01-00:00:00"].

Definition pidinPmem : list byte := lines [
  str "     pid tid name               prio STATE";
  str "    8200   1 qconn                10r REPLY";
  str "                0x08048000-0x08050000   r-x  /proc/boot/qconn";
  str "                0x08050000-0x08052000   rw-  /proc/boot/qconn";
  str "                0xb8300000-0xb8320000   rw-  [stack]"].

(** [strings.Contains(s, sub)]. *)
Fixpoint Contains (s sub : list byte) : bool :=
  HasPrefix s sub || match s with [] => false | _ :: s => Contains s sub end.

Definition isHexDigit (b : byte) : bool := bool_decide (is_Some (digit_val b)).

Definition pdebugRe : list re_item := [ReLit (str "pdebug"); ReSpaces; ReDigits].
Definition pidinPRe : list re_item :=
  [ReLit (str "pidin"); ReSpaces; ReLit (str "-p"); ReSpaces; ReDigits].

Definition filterPidin (listing pid : list byte) : list byte :=
  Split listing x0a ≫= λ ln,
    match Fields ln with
    | [] => []
    | f :: _ => if decide (f = str "pid" ∨ f = pid) then ln ++ [x0a] else []
    end.

(** The port on which a command starts the mock stub of [MockRsp], if it does;
    the number is cut off at the end of its digits. *)
Definition startsPdebug (cmd : list byte) : option Z :=
  '(ls, _) ← reFind pdebugRe (TrimSpace cmd);
  digits ← last ls;
  Some (fst (Atoi digits)).

(** The text a command prints. *)
Definition runShell (cmd : list byte) : list byte :=
  let cmd := TrimSpace cmd in
  match reFind pdebugRe cmd with
  | Some _ => str "4242" ++ crlf
  | None =>
      if Contains cmd (str "pidin") && Contains cmd (str "mem") &&
         bool_decide (is_Some (reFind pidinPRe cmd)) then pidinPmem
      else if Contains cmd (str "pidin") && Contains cmd (str "mem") then pidinMem
      else if Contains cmd (str "pidin") && Contains cmd (str "info") then pidinInfo
      else match reFind pidinPRe cmd with
      | Some (ls, _) => filterPidin pidinThreads (default [] (last ls))
      | None =>
          if Contains cmd (str "pidin") then pidinThreads
          else if HasPrefix cmd (str "ls ") then
            str "total 0" ++ crlf ++ str "drwxr-xr-x  2 root root 0 Jan  1 00:00 ." ++ crlf ++
            str "-rwxr-xr-x  1 root root 52K Jan  1 00:00 qconn" ++ crlf
          else if HasPrefix cmd (str "uname") then
            str "QNX qnxmock 8.0 2024/01/01-00:00:00UTC x86pc x86_64" ++ crlf
          else if HasPrefix cmd (str "echo ") then TrimPrefix cmd (str "echo ") ++ crlf
          else str "mock-shell: " ++ cmd ++ crlf
      end
  end.

(** ** Session state *)

Record vfile := MkVfile { vf_path : list byte; vf_isProc : bool }.

Record qsession := MkSession {
  qs_svc : Service;
  qs_fds : gmap Z vfile;
  qs_files : gmap (list byte) (list byte);
  qs_nfd : Z;
  qs_pending : list byte;     (* received, not consumed *)
  qs_closed : bool;
  qs_started : list Z         (* ports on which its programs started a stub *)
}.

Definition set_svc (svc : Service) (s : qsession) : qsession :=
  MkSession svc (qs_fds s) (qs_files s) (qs_nfd s) (qs_pending s) (qs_closed s) (qs_started s).
Definition set_files (fs : gmap (list byte) (list byte)) (s : qsession) : qsession :=
  MkSession (qs_svc s) (qs_fds s) fs (qs_nfd s) (qs_pending s) (qs_closed s) (qs_started s).
Definition add_fd (fd : Z) (vf : vfile) (s : qsession) : qsession :=
  MkSession (qs_svc s) (<[fd := vf]> (qs_fds s)) (qs_files s) (qs_nfd s + 1) (qs_pending s) (qs_closed s) (qs_started s).
Definition set_pending (l : list byte) (s : qsession) : qsession :=
  MkSession (qs_svc s) (qs_fds s) (qs_files s) (qs_nfd s) l (qs_closed s) (qs_started s).
Definition set_started (ports : list Z) (s : qsession) : qsession :=
  MkSession (qs_svc s) (qs_fds s) (qs_files s) (qs_nfd s) (qs_pending s) (qs_closed s) ports.
Definition set_closed (s : qsession) : qsession :=
  MkSession (qs_svc s) (qs_fds s) (qs_files s) (qs_nfd s) (qs_pending s) true (qs_started s).

Definition prompt (s : qsession) : list byte := str "<qconn-" ++ qs_svc s ++ str ">".

(** What one command does: the bytes written, the session and the input left,
    and whether the connection goes on. *)
Record outcome := MkOutcome { oc_out : list byte; oc_sess : qsession; oc_rest : list byte; oc_more : bool }.

(** Write a text and the prompt. *)
Definition answer (text : list byte) (s : qsession) (rest : list byte) : outcome :=
  MkOutcome (text ++ prompt s) s rest true.

(** ** Services *)

Definition broker (cmd : list byte) (s : qsession) (rest : list byte) : outcome :=
  if decide (cmd = str "quit") then MkOutcome [] s rest false
  else if decide (cmd = str "versions ?") then
    answer (str "versions: broker/256 launcher/256 file/256 cntl/256 sinfo/256" ++ crlf) s rest
  else if HasPrefix cmd (str "versions ") then answer (str "256" ++ crlf) s rest
  else if decide (cmd = str "info") then answer (mockInfo ++ crlf) s rest
  else if decide (cmd = str "service launcher") then
    answer (str "OK" ++ crlf) (set_svc ServiceLauncher s) rest
  else if decide (cmd = str "service file") then
    answer (str "OK" ++ crlf) (set_svc ServiceFile s) rest
  else if decide (cmd = str "service cntl") then
    answer (str "OK" ++ crlf) (set_svc ServiceCntl s) rest
  else answer (str "error unknown-command" ++ crlf) s rest.

(** [startRe]: the command between the first quote and the last. *)
Definition startRe (cmd : list byte) : option (list byte) :=
  '(_, r) ← reMatch [ReLit (str "start/flags"); ReSpaces; ReWord; ReSpaces; ReWord; ReSpaces; ReWord;
                     ReSpaces; ReLit (str "-c"); ReSpaces; ReLit [x22]] cmd;
  match snd (span reSpace (reverse r)) with
  | x22 :: c => Some (reverse c)
  | _ => None
  end.

Definition launcher (cmd : list byte) (s : qsession) (rest : list byte) : outcome :=
  if decide (cmd = str "done" ∨ cmd = str "quit") then answer [] (set_svc ServiceBroker s) rest
  else if decide (cmd = str "chdir /") then answer (str "OK" ++ crlf) s rest
  else if HasPrefix cmd (str "start/flags") then
    match startRe cmd with
    | Some m =>
        MkOutcome (str "OK 8300" ++ crlf ++ runShell m)
          (set_started (qs_started s ++ option_list (startsPdebug m)) s) rest false
    | None => MkOutcome (str "OK 8300" ++ crlf) s rest false
    end
  else answer (str "error unknown-command" ++ crlf) s rest.

Definition cntl (cmd : list byte) (s : qsession) (rest : list byte) : outcome :=
  if decide (cmd = str "done" ∨ cmd = str "quit") then answer [] (set_svc ServiceBroker s) rest
  else if HasPrefix cmd (str "kill ") then answer (str "ok" ++ crlf) s rest
  else answer (str "error unknown-command" ++ crlf) s rest.

(** ** The file service *)

Definition allHex (s : list byte) : bool := bool_decide (s ≠ []) && forallb isHexDigit s.

(** [openRe]: the path between the quotes, then two hex fields. *)
Definition mockOpenRe (cmd : list byte) : option (list byte) :=
  if HasPrefix cmd (str "o:" ++ [x22]) then
    '(path, r) ← Cut (drop 3 cmd) x22;
    match Split r x3a with
    | [e; a; b] =>
        if decide (path ≠ [] ∧ e = []) then if allHex a && allHex b then Some path else None else None
    | _ => None
    end
  else None.

(** [rwRe] for a command known to start with [r:] or [w:]. *)
Definition rwRe (cmd : list byte) : option (list byte * list byte * list byte) :=
  match Split cmd x3a with
  | [op; a; b; c] =>
      if decide (op = [x72] ∨ op = [x77]) then
        if allHex a && allHex b && allHex c then Some (a, b, c) else None
      else None
  | _ => None
  end.

(** [readFull] into a buffer of [n] bytes; [None] while they have not come. *)
Definition readFull (n : Z) (inp : list byte) : option (list byte * list byte) :=
  if decide (n <= Z.of_nat (length inp)) then Some (take (Z.to_nat n) inp, drop (Z.to_nat n) inp) else None.

(** [strings.HasSuffix(s, p)]. *)
Definition HasSuffix (s p : list byte) : bool := HasPrefix (reverse s) (reverse p).

(** [None]: the slice is out of range. *)
Definition readVfile (fd off n : Z) (s : qsession) : option (list byte) :=
  match qs_fds s !! fd with
  | None => Some []
  | Some vf =>
      if vf_isProc vf then Some ((λ i, byte_of_Z (Z.land (i64 (off + i)) 0xff)) <$> seqZ 0 n)
      else
        let buf := default [] (qs_files s !! vf_path vf) in
        let len := Z.of_nat (length buf) in
        if len <=? off then Some []
        else
          let end_ := i64 (off + n) in
          let end_ := if len <? end_ then len else end_ in
          if off <=? end_ then Some (take (Z.to_nat (end_ - off)) (drop (Z.to_nat off) buf)) else None
  end.

Definition storeVfile (fd off : Z) (data : list byte) (s : qsession) : option qsession :=
  match qs_fds s !! fd with
  | None => Some s
  | Some vf =>
      if vf_isProc vf then Some s
      else
        let buf := default [] (qs_files s !! vf_path vf) in
        let need := i64 (off + Z.of_nat (length data)) in
        let buf := if Z.of_nat (length buf) <? need then buf ++ zeros (Z.to_nat need - length buf) else buf in
        if off <=? Z.of_nat (length buf) then
          Some (set_files (<[vf_path vf :=
            take (Z.to_nat off) buf ++ take (length buf - Z.to_nat off) data ++
            drop (Z.to_nat off + length data) buf]> (qs_files s)) s)
        else None
  end.

Definition modeReg : Z := 0x81a4.   (* 0100644 octal *)

Definition hex64 (h : list byte) : Z := fst (ParseInt h 16 64).

(** [None]: the payload of a write is not complete. *)
Definition file (cmd : list byte) (s : qsession) (rest : list byte) : option outcome :=
  if decide (cmd = str "q" ∨ cmd = str "done" ∨ cmd = str "quit") then
    Some (answer [] (set_svc ServiceBroker s) rest)
  else if HasPrefix cmd (str "o:") then
    match mockOpenRe cmd with
    | None => Some (answer (str "error bad-open" ++ crlf) s rest)
    | Some path =>
        let fd := qs_nfd s + 3 in
        let isProc := HasPrefix path (str "/proc/") && HasSuffix path (str "/as") in
        let s1 :=
          if negb isProc && HasPrefix path (str "/proc/")
          then set_files (<[path := str "synthetic proc node" ++ [x0a]]> (qs_files s)) s else s in
        let size := if isProc then 0x7fffffff
                    else Z.of_nat (length (default [] (qs_files s1 !! path))) in
        let s2 := add_fd fd (MkVfile path isProc) s1 in
        Some (answer (str "o:" ++ fmt_x fd ++ str ":" ++ fmt_x modeReg ++ str ":" ++ fmt_x size ++
                      str ":" ++ [x22] ++ path ++ [x22] ++ crlf) s2 rest)
    end
  else if HasPrefix cmd (str "c:") || HasPrefix cmd (str "d:") || HasPrefix cmd (str "a:") then
    Some (answer (str "o" ++ crlf) s rest)
  else if HasPrefix cmd (str "r:") then
    match rwRe cmd with
    | None => Some (answer (str "error bad-read" ++ crlf) s rest)
    | Some (a, b, c) =>
        match readVfile (hex64 a) (hex64 b) (hex64 c) s with
        | None => Some (MkOutcome [] s rest false)
        | Some data =>
            Some (answer (str "o:" ++ fmt_x (Z.of_nat (length data)) ++ str ":0:0" ++ crlf ++ data) s rest)
        end
    end
  else if HasPrefix cmd (str "w:") then
    match rwRe cmd with
    | None => Some (answer (str "error bad-write" ++ crlf) s rest)
    | Some (a, b, c) =>
        let n := hex64 c in
        '(data, rest1) ← readFull n rest;
        match storeVfile (hex64 a) (hex64 b) data s with
        | None => Some (MkOutcome [] s rest false)
        | Some s1 => Some (answer (str "o:" ++ fmt_x n ++ str ":0" ++ crlf) s1 rest1)
        end
    end
  else Some (answer (str "error unknown-command" ++ crlf) s rest).

(** ** The connection *)

Definition dispatch (cmd : list byte) (s : qsession) (rest : list byte) : option outcome :=
  if decide (qs_svc s = ServiceBroker) then Some (broker cmd s rest)
  else if decide (qs_svc s = ServiceLauncher) then Some (launcher cmd s rest)
  else if decide (qs_svc s = ServiceFile) then file cmd s rest
  else if decide (qs_svc s = ServiceCntl) then Some (cntl cmd s rest)
  else Some (MkOutcome [] s rest false).

(** The loop of [Serve]; every iteration consumes a line. *)
Fixpoint Serve_loop (fuel : nat) (s : qsession) (inp : list byte) : list byte * qsession :=
  match fuel with
  | O => ([], set_pending inp s)
  | S fuel =>
      match Cut inp x0a with
      | None => ([], set_pending inp s)
      | Some (line, rest) =>
          match dispatch (TrimRight line crlf) s rest with
          | None => ([], set_pending inp s)
          | Some oc =>
              if oc_more oc then
                let '(out, s') := Serve_loop fuel (oc_sess oc) (oc_rest oc) in
                (oc_out oc ++ out, s')
              else (oc_out oc, set_closed (oc_sess oc))
          end
      end
  end.

#[export] Instance qsession_peer : Peer qsession := λ s b,
  if qs_closed s then (true, [], s)
  else
    let inp := qs_pending s ++ b in
    let '(out, s') := Serve_loop (S (length inp)) s inp in (true, out, s').

#[export] Instance qsession_qpeer : QPeer qsession := qs_closed.

(** The session a connection starts with and what it sends first. *)
Definition Serve_init : qsession := MkSession ServiceBroker ∅ ∅ 0 [] false [].
Definition Serve_greeting : list byte :=
  str "QCONN" ++ crlf ++ prompt Serve_init ++ str "error linemode-or-echo-not-supported" ++ crlf.

(** A fresh connection to the mock. *)
Definition mockStream : transport qsession := Transport Serve_init Serve_greeting [] true.

(** ** The mock as a conforming daemon *)

Definition mockServices : list Service := [ServiceBroker; ServiceLauncher; ServiceFile; ServiceCntl].

Definition mock_waiting (s : qsession) : Prop :=
  qs_pending s = [] ∧ qs_closed s = false ∧ qs_svc s ∈ mockServices ∧ 0 <= qs_nfd s.

Lemma Serve_init_waiting : mock_waiting Serve_init.
Proof. split_and!; [done|done|by left|done]. Qed.

(** A text a client can read up to the prompt. *)
Definition readable (text : list byte) : Prop :=
  Forall (λ b, b ≠ x3c ∧ b ≠ iac) text ∧ head text ≠ Some x20.

#[export] Instance readable_dec text : Decision (readable text).
Proof. unfold readable. apply _. Defined.

(** The answer to one command line, when the connection goes on. *)
Definition lineReply (s : qsession) (cmd : list byte) : option (list byte * qsession) :=
  match dispatch (TrimRight cmd crlf) s [] with
  | Some (MkOutcome out s' [] true) =>
      let text := take (length out - length (prompt s')) out in
      if decide (Forall (λ b, b ≠ x0a) cmd ∧ out = text ++ prompt s' ∧ readable text ∧
                 qs_pending s' = [] ∧ qs_closed s' = false ∧ qs_svc s' ∈ mockServices ∧ 0 <= qs_nfd s')
      then Some (text, s') else None
  | _ => None
  end.

(** A complete command line. *)
Lemma Serve_loop_line n s cmd rest oc :
  Forall (λ b, b ≠ x0a) cmd → dispatch (TrimRight cmd crlf) s rest = Some oc →
  oc_more oc = true → oc_rest oc = [] →
  Serve_loop (S n) s (cmd ++ x0a :: rest) = (oc_out oc, set_pending [] (oc_sess oc)).
Proof.
  intros Hcmd Hd Hm Hr. cbn [Serve_loop]. rewrite Cut_app, Hd, Hm, Hr by done.
  destruct n; cbn [Serve_loop Cut]; by rewrite app_nil_r.
Qed.

Lemma set_pending_id s : qs_pending s = [] → set_pending [] s = s.
Proof. destruct s; simpl. by intros ->. Qed.

Lemma Serve_line s cmd rest oc :
  qs_pending s = [] → qs_closed s = false → Forall (λ b, b ≠ x0a) cmd →
  dispatch (TrimRight cmd crlf) s rest = Some oc → oc_more oc = true → oc_rest oc = [] →
  qs_pending (oc_sess oc) = [] →
  peer_write s (cmd ++ x0a :: rest) = (true, oc_out oc, oc_sess oc).
Proof.
  intros Hp Hc Hcmd Hd Hm Hr Hp'. unfold peer_write, qsession_peer. rewrite Hc, Hp. cbn [app].
  by rewrite (Serve_loop_line _ _ _ _ oc), set_pending_id.
Qed.

#[export, refine] Instance qsession_daemon : QconnDaemon qsession := {
  qd_ready := mock_waiting;
  qd_svc := qs_svc;
  qd_reply := lineReply
}.
Proof.
  - intros s (_ & _ & Hin & _). revert Hin. rewrite !list_elem_of_In. simpl. tauto.
  - intros s cmd text s' (Hp & Hc & _) Hq. unfold lineReply in Hq.
    destruct (dispatch (TrimRight cmd crlf) s []) as [[out s1 [|] []]|] eqn:Ed; try done.
    case_decide as Hk; [|done]. injection Hq as <- <-.
    destruct Hk as (Hcmd & Eout & [Hread Hhd] & Hp1 & Hc1 & Hs1 & Hn1).
    set (text := take (length out - length (prompt s1)) out) in *.
    split; [done|]. split; [|split; [done|]].
    { apply noPrompt_plain. eapply Forall_impl; [exact Hread|]. simpl. tauto. }
    exists (plain out), 0%nat.
    assert (Forall (λ b, b ≠ iac) out) as Hout.
    { rewrite Eout. apply Forall_app. split; [eapply Forall_impl; [exact Hread|]; simpl; tauto|].
      revert Hs1. unfold prompt. generalize (qs_svc s1). intros svc Hin.
      rewrite list_elem_of_In in Hin. simpl in Hin.
      destruct Hin as [<-|[<-|[<-|[<-|[]]]]]; by repeat constructor. }
    destruct (stream_plain out Hout) as (H1 & H2 & H3 & H4).
    rewrite H2, H3, H4, app_nil_r. split; [|split; [done|split; [by left|done]]].
    by apply (Serve_line s cmd [] (MkOutcome out s1 [] true)).
Defined.

(** The reply to a command that is answered with a readable text. *)
Lemma lineReply_answer s cmd text s' :
  dispatch (TrimRight cmd crlf) s [] = Some (answer text s' []) →
  Forall (λ b, b ≠ x0a) cmd → readable text → mock_waiting s' →
  lineReply s cmd = Some (text, s').
Proof.
  intros Hd Hcmd Hr (Hp & Hc & Hs & Hn). unfold lineReply. rewrite Hd. unfold answer.
  rewrite length_app. replace (length text + length (prompt s') - length (prompt s'))%nat
    with (length text) by lia.
  rewrite take_app_length. by rewrite decide_True.
Qed.

Lemma set_svc_waiting svc s : svc ∈ mockServices → mock_waiting s → mock_waiting (set_svc svc s).
Proof. intros Hs (Hp & Hc & _ & Hn). done. Qed.

Lemma readable_literal text : bool_decide (readable text) = true → readable text.
Proof. apply bool_decide_eq_true. Qed.

#[export] Instance qsession_switching : SwitchingDaemon qsession.
Proof.
  split.
  - intros s Hw Hb. exists [], (set_svc ServiceBroker s). split; [|done].
    assert (mock_waiting (set_svc ServiceBroker s)) as Hw' by (apply set_svc_waiting; [by left|done]).
    destruct Hw as (_ & _ & Hin & _). rewrite list_elem_of_In in Hin. simpl in Hin.
    destruct s as [svc fds files nfd pend cl]. cbn [qs_svc] in *.
    destruct Hin as [<-|[<-|[<-|[<-|[]]]]]; [done|..];
      (apply lineReply_answer; [reflexivity|by repeat constructor|by apply readable_literal|done]).
  - intros s x Hw Hb Hin.
    assert (∀ svc, svc ∈ mockServices → mock_waiting (set_svc svc s)) as Hw'
      by (intros; by apply set_svc_waiting).
    destruct s as [svc fds files nfd pend cl]. cbn [qs_svc qd_svc] in Hb. simpl in Hb. subst svc.
    rewrite list_elem_of_In in Hin. simpl in Hin.
    destruct Hin as [<-|[<-|[<-|[<-|[<-|[]]]]]];
      (eexists _, _; split;
       [apply lineReply_answer; [reflexivity|by repeat constructor|by apply readable_literal|]
       |reflexivity]); try done; apply Hw'; rewrite list_elem_of_In; simpl; tauto.
Qed.
