(* ===== verification/MockFiles.v ===== *)
(** * The mock daemon's file service

    [MockServer.file] keeps the promises of [FileDaemon], so the transfer
    theorems hold of the client and the mock, byte by byte. *)

From stdpp Require Import base list numbers strings gmap.
From Stdlib Require Import ZArith Lia Strings.Byte.
From S2P Require Import Prelude GoStrconv GoStrings Transport QconnFraming QconnClient QconnFile.
From S2P Require Import QconnFileFacts QconnTransfer MockServer.

Local Open Scope Z_scope.

(** ** Command lines *)

Lemma fmt_x_hex z : 0 <= z → Forall (λ b, is_Some (digit_val b)) (fmt_x z).
Proof. intros Hz. rewrite fmt_x_nonneg by done. apply fmt_uint_digits; lia. Qed.

Lemma fmt_x_no z sep : 0 <= z → digit_val sep = None → Forall (λ b, b ≠ sep) (fmt_x z).
Proof. intros Hz Hs. rewrite fmt_x_nonneg by done. by apply digits_no_sep. Qed.

Lemma fmt_x_nonempty z : 0 <= z → fmt_x z ≠ [].
Proof. intros Hz. rewrite fmt_x_nonneg by done. apply fmt_uint_nonempty. lia. Qed.

Lemma allHex_num z : 0 <= z → allHex (fmt_x z) = true.
Proof.
  intros Hz. unfold allHex. rewrite bool_decide_eq_true_2 by (by apply fmt_x_nonempty).
  apply forallb_forall. intros b Hb. apply list_elem_of_In in Hb.
  pose proof (fmt_x_hex z Hz) as Hf. rewrite Forall_forall in Hf. unfold isHexDigit.
  apply bool_decide_eq_true_2. by apply Hf.
Qed.

Lemma hex64_num z : 0 <= z < 2 ^ 63 → hex64 (fmt_x z) = z.
Proof. apply hexInt_num. Qed.

(** A command that ends in a number has no line end to trim. *)
Lemma TrimRight_last l b : b ∉ crlf → TrimRight (l ++ [b]) crlf = l ++ [b].
Proof.
  intros Hb. unfold TrimRight. rewrite reverse_snoc. cbn [TrimLeft].
  rewrite decide_False by done. by rewrite reverse_cons, reverse_involutive.
Qed.

Lemma TrimRight_num a z : 0 <= z → TrimRight (a ++ fmt_x z) crlf = a ++ fmt_x z.
Proof.
  intros Hz. pose proof (fmt_x_hex z Hz) as Hf. pose proof (fmt_x_nonempty z Hz) as Hn.
  destruct (fmt_x z) as [|b l _] using rev_ind; [done|].
  rewrite Forall_app, Forall_singleton in Hf. destruct Hf as [_ [v Hv]].
  rewrite app_assoc. apply TrimRight_last. intros Hin. rewrite list_elem_of_In in Hin. simpl in Hin.
  destruct Hin as [<-|[<-|[]]]; done.
Qed.

Lemma rwRe_num op fd off n :
  op = [x72] ∨ op = [x77] → 0 <= fd → 0 <= off → 0 <= n →
  rwRe (ioCmd (op ++ [x3a]) fd off n) = Some (fmt_x fd, fmt_x off, fmt_x n).
Proof.
  intros Hop Hfd Hoff Hn. unfold rwRe.
  replace (ioCmd (op ++ [x3a]) fd off n) with (terminated x3a [op; fmt_x fd; fmt_x off] ++ fmt_x n).
  2: { unfold ioCmd, terminated. cbn [mbind list_bind]. change (str ":") with [x3a].
       rewrite app_nil_r, <- !app_assoc. done. }
  rewrite Split_terminated.
  - cbn [app]. rewrite decide_True by done. by rewrite !allHex_num.
  - repeat constructor; try by apply fmt_x_no. destruct Hop as [-> | ->]; by repeat constructor.
  - by apply fmt_x_no.
Qed.

Lemma ioCmd_line op fd off n :
  Forall (λ b, b ≠ x0a) op → 0 <= fd → 0 <= off → 0 <= n →
  Forall (λ b, b ≠ x0a) (ioCmd op fd off n) ∧
  TrimRight (ioCmd op fd off n) crlf = ioCmd op fd off n.
Proof.
  intros Hop Hfd Hoff Hn. split.
  - unfold ioCmd. rewrite !Forall_app. split_and!; try done; try (by apply fmt_x_no); by repeat constructor.
  - unfold ioCmd. rewrite !app_assoc. by apply TrimRight_num.
Qed.

Lemma mockOpenRe_cmd path flags mode :
  cleanPath path → 0 <= flags → 0 <= mode → mockOpenRe (openCmd path flags mode) = Some path.
Proof.
  intros (Hne & Hp & _) Hf Hm.
  assert (Split (str ":" ++ fmt_x flags ++ str ":" ++ fmt_x mode) x3a =
    [[]; fmt_x flags; fmt_x mode]) as HS.
  { replace (str ":" ++ fmt_x flags ++ str ":" ++ fmt_x mode)
      with (terminated x3a [[]; fmt_x flags] ++ fmt_x mode)
      by (unfold terminated; cbn [mbind list_bind app]; by rewrite app_nil_r, <- app_assoc).
    rewrite Split_terminated; [done| |by apply fmt_x_no].
    repeat constructor. by apply fmt_x_no. }
  unfold mockOpenRe, openCmd. rewrite (app_assoc (str "o:")), HasPrefix_app.
  change (drop 3 ((str "o:" ++ [quote]) ++ ?x)) with x.
  change ([quote] ++ ?x) with (x22 :: x). rewrite Cut_app.
  2: { eapply Forall_impl; [exact Hp|]. simpl. intros b Hb ->. apply Hb. by left. }
  cbn [mbind option_bind]. rewrite HS. rewrite decide_True by done. by rewrite !allHex_num.
Qed.

(** ** Contents *)

Lemma readVfile_slice s fd path off n content :
  qs_fds s !! fd = Some (MkVfile path false) → default [] (qs_files s !! path) = content →
  0 <= off < 2 ^ 62 → 0 < n <= maxReadChunk →
  readVfile fd off n s = Some (fileSlice off n content).
Proof.
  intros Hfd Hc Hoff Hn. unfold readVfile. rewrite Hfd. simpl. rewrite Hc.
  unfold fileSlice, maxReadChunk in *. destruct (Z.leb_spec (Z.of_nat (length content)) off).
  - rewrite (drop_ge content) by lia. by rewrite take_nil.
  - rewrite i64_small by lia. destruct (Z.ltb_spec (Z.of_nat (length content)) (off + n)).
    + destruct (Z.leb_spec off (Z.of_nat (length content))); [|lia]. f_equal.
      rewrite !take_ge; [done|..]; rewrite length_drop; lia.
    + destruct (Z.leb_spec off (off + n)); [|lia]. f_equal. f_equal. lia.
Qed.

Lemma storeVfile_splice s fd path off data content :
  qs_fds s !! fd = Some (MkVfile path false) → default [] (qs_files s !! path) = content →
  0 <= off <= Z.of_nat (length content) → off < 2 ^ 62 → Z.of_nat (length data) <= maxWriteChunk →
  storeVfile fd off data s = Some (set_files (<[path := fileSplice off data content]> (qs_files s)) s).
Proof.
  intros Hfd Hc Hoff Hoff2 Hd. unfold storeVfile. rewrite Hfd. simpl. rewrite Hc.
  unfold maxWriteChunk in *. rewrite i64_small by lia. unfold fileSplice.
  destruct (Z.ltb_spec (Z.of_nat (length content)) (off + Z.of_nat (length data))) as [Hg|Hg].
  - rewrite length_app. unfold zeros. rewrite length_replicate.
    destruct (Z.leb_spec off (Z.of_nat (length content + (Z.to_nat (off + Z.of_nat (length data)) - length content))));
      [|lia].
    do 3 f_equal. rewrite take_app_le by lia. f_equal.
    rewrite (take_ge data) by lia. f_equal.
    rewrite !drop_ge; [done|lia|]. rewrite length_app, length_replicate. lia.
  - destruct (Z.leb_spec off (Z.of_nat (length content))); [|lia].
    do 4 f_equal. by rewrite take_ge by lia.
Qed.

(** ** The interface *)

Definition mockPath (s : qsession) (fd : Z) : option (list byte) :=
  match qs_fds s !! fd with
  | Some vf => if vf_isProc vf then None else Some (vf_path vf)
  | None => None
  end.

Lemma mockPath_fd s fd path : mockPath s fd = Some path → qs_fds s !! fd = Some (MkVfile path false).
Proof. unfold mockPath. destruct (qs_fds s !! fd) as [[q []]|]; [done| |done]. by intros [= ->]. Qed.

Lemma lineReply_inv s cmd text s' :
  lineReply s cmd = Some (text, s') →
  ∃ oc, dispatch (TrimRight cmd crlf) s [] = Some oc ∧ oc_sess oc = s'.
Proof.
  unfold lineReply. destruct (dispatch _ s []) as [[out s1 [|] []]|] eqn:E; try done.
  case_decide; [|done]. intros [= _ <-]. eauto.
Qed.

(** The services other than file do not touch the files. *)
Lemma services_keep cmd s rest :
  let keeps oc := qs_files (oc_sess oc) = qs_files s ∧ qs_nfd (oc_sess oc) = qs_nfd s in
  keeps (broker cmd s rest) ∧ keeps (launcher cmd s rest) ∧ keeps (cntl cmd s rest).
Proof.
  intros keeps. unfold broker, launcher, cntl. split_and!; repeat case_match; done.
Qed.

Lemma mock_switch_keeps s cmd text s' :
  mock_waiting s → switchCmd cmd → lineReply s cmd = Some (text, s') →
  qs_files s' = qs_files s ∧ qs_nfd s' = qs_nfd s.
Proof.
  intros (_ & _ & Hin & _) Hc (oc & Hd & <-)%lineReply_inv. unfold dispatch in Hd.
  destruct (services_keep (TrimRight cmd crlf) s []) as (Hb & Hl & Hk).
  case_decide; [by injection Hd as <-|]. case_decide; [by injection Hd as <-|].
  case_decide; [|case_decide; by injection Hd as <-].
  destruct Hc as [-> | [-> | (x & Hx & ->)]]; [by injection Hd as <-..|].
  rewrite list_elem_of_In in Hx. simpl in Hx.
  destruct Hx as [<-|[<-|[<-|[<-|[<-|[]]]]]]; by injection Hd as <-.
Qed.

(** In the file service a command is the service's. *)
Lemma dispatch_file cmd s rest : qs_svc s = ServiceFile → dispatch cmd s rest = file cmd s rest.
Proof. intros Hs. unfold dispatch. rewrite Hs. reflexivity. Qed.

Lemma readable_openLine fd md sz path :
  0 <= fd → 0 <= md → 0 <= sz → cleanPath path → readable (openLine fd md sz path ++ [x0d; x0a]).
Proof.
  intros Hf Hm Hs (Hne & Hp & _). split; [|done]. unfold openLine.
  assert (∀ z, 0 <= z → Forall (λ b, b ≠ x3c ∧ b ≠ iac) (fmt_x z)) as Hnum.
  { intros z Hz. eapply Forall_impl; [by apply fmt_x_hex|]. intros b [v Hv]. split; by intros ->. }
  rewrite !Forall_app. split_and!; try (by apply Hnum); try (by repeat constructor).
  eapply Forall_impl; [exact Hp|]. simpl. intros b Hb.
  split; intros ->; apply Hb; rewrite list_elem_of_In; simpl; tauto.
Qed.

Lemma openCmd_line path flags mode :
  cleanPath path → 0 <= flags → 0 <= mode →
  Forall (λ b, b ≠ x0a) (openCmd path flags mode) ∧
  TrimRight (openCmd path flags mode) crlf = openCmd path flags mode.
Proof.
  intros (Hne & Hp & _) Hf Hm. unfold openCmd. split.
  - rewrite !Forall_app. split_and!; try (by apply fmt_x_no); try (by repeat constructor).
    eapply Forall_impl; [exact Hp|]. simpl. intros b Hb ->. apply Hb. rewrite list_elem_of_In. simpl. tauto.
  - rewrite !app_assoc. by apply TrimRight_num.
Qed.

Lemma mock_open s path flags mode :
  mock_waiting s → qs_svc s = ServiceFile → cleanPath path → 0 <= flags → 0 <= mode →
  let size := Z.of_nat (length (default [] (qs_files s !! path))) in
  lineReply s (openCmd path flags mode) =
    Some (openLine (qs_nfd s + 3) modeReg size path ++ [x0d; x0a],
          add_fd (qs_nfd s + 3) (MkVfile path false) s).
Proof.
  intros Hw Hs Hp Hf Hm size. destruct (openCmd_line path flags mode Hp Hf Hm) as [Hnl Htr].
  destruct Hw as (Hpe & Hcl & Hin & Hn).
  apply lineReply_answer.
  - rewrite Htr, dispatch_file by done. unfold file.
    rewrite decide_False by (unfold openCmd; by intros [?|[?|?]]).
    replace (HasPrefix (openCmd path flags mode) (str "o:")) with true
      by (symmetry; apply HasPrefix_app).
    rewrite mockOpenRe_cmd by done. destruct Hp as (_ & _ & Hpr). rewrite Hpr. cbn [andb negb].
    unfold answer, openLine, crlf. by rewrite <- !app_assoc.
  - done.
  - apply readable_openLine; try done; lia.
  - split_and!; try done. cbn. lia.
Qed.

Lemma mock_close s fd :
  mock_waiting s → qs_svc s = ServiceFile → 0 <= fd →
  lineReply s (str "c:" ++ fmt_x fd) = Some (str "o" ++ [x0d; x0a], s).
Proof.
  intros Hw Hs Hfd. apply lineReply_answer; [|..|by apply readable_literal|done].
  - rewrite TrimRight_num, dispatch_file by done. unfold file.
    rewrite decide_False by (by intros [?|[?|?]]).
    by rewrite HasPrefix_app.
  - apply Forall_app. split; [by repeat constructor|by apply fmt_x_no].
Qed.

Lemma file_read s fd path off n :
  qs_fds s !! fd = Some (MkVfile path false) → 0 <= fd < 2 ^ 63 → 0 <= off < 2 ^ 62 → 0 < n <= maxReadChunk →
  let data := fileSlice off n (default [] (qs_files s !! path)) in
  file (ioCmd (str "r:") fd off n) s [] =
    Some (answer (str "o:" ++ fmt_x (Z.of_nat (length data)) ++ str ":0:0" ++ crlf ++ data) s []).
Proof.
  intros Hp Hfd Hoff Hn data. unfold file.
  rewrite decide_False by (unfold ioCmd; by intros [?|[?|?]]).
  change (HasPrefix (ioCmd (str "r:") fd off n) (str "o:")) with false.
  change (HasPrefix (ioCmd (str "r:") fd off n) (str "c:")) with false.
  change (HasPrefix (ioCmd (str "r:") fd off n) (str "d:")) with false.
  change (HasPrefix (ioCmd (str "r:") fd off n) (str "a:")) with false.
  change (HasPrefix (ioCmd (str "r:") fd off n) (str "r:")) with true. cbn [orb].
  change (str "r:") with ([x72] ++ [x3a]). rewrite rwRe_num by (auto; lia).
  unfold maxReadChunk in *. rewrite !hex64_num by lia.
  by rewrite (readVfile_slice s fd path off n _ Hp eq_refl).
Qed.

Lemma file_write s fd path off (data rest : list byte) :
  qs_fds s !! fd = Some (MkVfile path false) → 0 <= fd < 2 ^ 63 →
  0 <= off <= Z.of_nat (length (default [] (qs_files s !! path))) → off < 2 ^ 62 →
  Z.of_nat (length data) <= maxWriteChunk →
  let n := Z.of_nat (length data) in
  file (ioCmd (str "w:") fd off n) s rest =
    if decide (n <= Z.of_nat (length rest)) then
      match storeVfile fd off (take (length data) rest) s with
      | None => Some (MkOutcome [] s rest false)
      | Some s1 => Some (answer (str "o:" ++ fmt_x n ++ str ":0" ++ crlf) s1 (drop (length data) rest))
      end
    else None.
Proof.
  intros Hp Hfd Hoff Hoff2 Hd n. unfold file.
  rewrite decide_False by (unfold ioCmd; by intros [?|[?|?]]).
  change (HasPrefix (ioCmd (str "w:") fd off n) (str "o:")) with false.
  change (HasPrefix (ioCmd (str "w:") fd off n) (str "c:")) with false.
  change (HasPrefix (ioCmd (str "w:") fd off n) (str "d:")) with false.
  change (HasPrefix (ioCmd (str "w:") fd off n) (str "a:")) with false.
  change (HasPrefix (ioCmd (str "w:") fd off n) (str "r:")) with false.
  change (HasPrefix (ioCmd (str "w:") fd off n) (str "w:")) with true. cbn [orb].
  change (str "w:") with ([x77] ++ [x3a]). rewrite rwRe_num by (auto; lia).
  unfold maxWriteChunk in *. rewrite !hex64_num by lia. unfold n, readFull. rewrite Nat2Z.id. by case_decide.
Qed.

Lemma mock_write s fd path off data :
  mock_waiting s → qs_svc s = ServiceFile → qs_fds s !! fd = Some (MkVfile path false) →
  0 <= fd < 2 ^ 63 → 0 <= off <= Z.of_nat (length (default [] (qs_files s !! path))) → off < 2 ^ 62 →
  data ≠ [] → Z.of_nat (length data) <= maxWriteChunk →
  let cmd := ioCmd (str "w:") fd off (Z.of_nat (length data)) in
  let s' := set_files (<[path := fileSplice off data (default [] (qs_files s !! path))]> (qs_files s)) s in
  peer_write s (cmd ++ [x0a]) = (true, [], set_pending (cmd ++ [x0a]) s) ∧
  peer_write (set_pending (cmd ++ [x0a]) s) data =
    (true, (str "o:" ++ fmt_x (Z.of_nat (length data)) ++ str ":0" ++ crlf) ++ prompt s', s').
Proof.
  intros (Hpe & Hcl & _ & _) Hs Hp Hfd Hoff Hoff2 Hne Hd cmd s'.
  destruct (ioCmd_line (str "w:") fd off (Z.of_nat (length data))) as [Hnl Htr];
    [by repeat constructor|lia..|]. fold cmd in Hnl, Htr.
  assert (0 < length data)%nat by (destruct data; [done|simpl; lia]).
  split.
  - unfold peer_write, qsession_peer. rewrite Hcl, Hpe. cbn [app Serve_loop].
    rewrite Cut_app, Htr, dispatch_file by done. unfold cmd.
    rewrite (file_write s fd path off data []) by done.
    by rewrite decide_False by (simpl; lia).
  - unfold peer_write, qsession_peer.
    change (qs_closed (set_pending (cmd ++ [x0a]) s)) with (qs_closed s).
    change (qs_pending (set_pending (cmd ++ [x0a]) s)) with (cmd ++ [x0a]).
    rewrite Hcl, <- app_assoc. cbn [app].
    rewrite (Serve_loop_line _ _ cmd data (answer (str "o:" ++ fmt_x (Z.of_nat (length data)) ++ str ":0" ++ crlf)
      (set_files (qs_files s') (set_pending (cmd ++ [x0a]) s)) [])); [|done| |done|done].
    + cbn [oc_out oc_sess answer]. f_equal. unfold s'. destruct s. simpl in *. by subst.
    + rewrite Htr, dispatch_file by done. unfold cmd.
      rewrite (file_write (set_pending _ s) fd path off data data) by done.
      rewrite decide_True by lia. rewrite firstn_all, drop_all.
      by rewrite (storeVfile_splice _ fd path off data (default [] (qs_files s !! path))).
Qed.

#[export, refine] Instance qsession_files : FileDaemon qsession := {
  fd_files s := λ path, qs_files s !! path;
  fd_may _ _ _ := True;
  fd_reads := mockPath;
  fd_writes := mockPath;
  fd_room s := 2 ^ 62 - qs_nfd s
}.
Proof.
  - intros s text s' Hw Hs Hq. destruct s as [svc fds files nfd pend cl st]. simpl in Hs. subst svc.
    apply lineReply_inv in Hq as Hd. destruct Hd as (oc & Hd & Es). unfold qd_reply in Hq. simpl in Hq.
    assert (lineReply (MkSession ServiceBroker fds files nfd pend cl st) (str "service " ++ ServiceFile) =
      Some (str "OK" ++ crlf, set_svc ServiceFile (MkSession ServiceBroker fds files nfd pend cl st))) as E.
    { apply lineReply_answer; [reflexivity|by repeat constructor|by apply readable_literal|].
      apply set_svc_waiting; [|done]. rewrite list_elem_of_In. simpl. tauto. }
    assert (Some (text, s') = Some (str "OK" ++ crlf,
      set_svc ServiceFile (MkSession ServiceBroker fds files nfd pend cl st))) as E2 by (by rewrite <- E).
    injection E2 as -> _. reflexivity.
  - intros s cmd text s' Hw Hc Hq. by destruct (mock_switch_keeps s cmd text s' Hw Hc Hq) as [-> ->].
  - intros s path flags mode Hw Hs Hp Hf Hm Hroom _ _ Hlen.
    exists (qs_nfd s + 3), modeReg, (add_fd (qs_nfd s + 3) (MkVfile path false) s).
    pose proof Hw as (_ & _ & _ & Hn).
    assert (mockPath (add_fd (qs_nfd s + 3) (MkVfile path false) s) (qs_nfd s + 3) = Some path) as Hfd.
    { unfold mockPath. cbn. by rewrite lookup_insert_eq. }
    split; [by apply mock_open|]. split_and!; try done; [lia..|cbn; lia].
  - intros s fd path Hw Hs Hfd Hp. exists s. split; [apply mock_close; done || lia|done].
  - intros s fd path off n Hw Hs Hfd Hp%mockPath_fd Hoff Hn data.
    change (qs_svc s = ServiceFile) in Hs. exists (str ":0:0"), 0%nat.
    split; [by repeat constructor|]. pose proof Hw as (Hpe & Hcl & _).
    destruct (ioCmd_line (str "r:") fd off n) as [Hnl Htr]; [by repeat constructor|lia..|].
    rewrite (Serve_line s (ioCmd (str "r:") fd off n) []
      (answer (str "o:" ++ fmt_x (Z.of_nat (length data)) ++ str ":0:0" ++ crlf ++ data) s [])); try done.
    + cbn [oc_out oc_sess answer]. unfold prompt. rewrite Hs. simpl (replicate 0 _).
      rewrite <- !app_assoc, app_nil_r. done.
    + rewrite Htr, dispatch_file by done. by apply file_read.
  - intros s fd path off data Hw Hs Hfd Hp%mockPath_fd Hoff Hoff2 Hne Hd.
    change (qs_svc s = ServiceFile) in Hs.
    destruct (mock_write s fd path off data Hw Hs Hp Hfd Hoff Hoff2 Hne Hd) as [E1 E2].
    eexists _, _, (str ":0"), 0%nat. split; [by repeat constructor|]. split; [exact E1|]. split.
    { rewrite E2. f_equal. f_equal. unfold prompt. cbn [qs_svc set_files]. rewrite Hs. simpl (replicate 0 _).
      rewrite <- !app_assoc, app_nil_r. done. }
    split_and!; [done|done| |done|done|cbn; by rewrite lookup_insert_eq|].
    + unfold mockPath. cbn. by rewrite Hp.
    + intros q Hq. cbn. by rewrite lookup_insert_ne.
Defined.
