(* ===== verification/MockShell.v ===== *)
(** * Running programs on the mock daemon

    The launcher of [internal/mockqnx/server.go] keeps the promises of
    [LauncherDaemon], with the canned shell of [internal/mockqnx/shell.go] as
    what programs print; the queries of the client evaluated on it. *)

From stdpp Require Import base list numbers strings gmap.
From Stdlib Require Import ZArith Lia Strings.Byte.
From S2P Require Import Prelude GoStrconv GoStrings Transport QconnFraming QconnClient.
From S2P Require Import QconnPidin QconnExec MockServer.

Local Open Scope Z_scope.

Lemma startRe_startText arg : startRe (startText arg) = Some arg.
Proof.
  unfold startRe, startText.
  assert (∀ r, reMatch [ReLit (str "start/flags"); ReSpaces; ReWord; ReSpaces; ReWord; ReSpaces; ReWord;
                     ReSpaces; ReLit (str "-c"); ReSpaces; ReLit [x22]]
    (str "start/flags run /bin/sh /bin/sh -c " ++ [x22] ++ r) =
    Some ([str "start/flags"; [x20]; str "run"; [x20]; str "/bin/sh"; [x20]; str "/bin/sh"; [x20];
           str "-c"; [x20]; [x22]], r)) as -> by reflexivity.
  cbn [mbind option_bind]. rewrite reverse_snoc. cbn [span].
  change (reSpace x22) with false. cbn. by rewrite reverse_involutive.
Qed.

Lemma launcher_start arg s rest :
  launcher (startText arg) s rest = 
    MkOutcome (str "OK 8300" ++ crlf ++ runShell arg)
      (set_started (qs_started s ++ option_list (startsPdebug arg)) s) rest false.
Proof.
  unfold launcher. rewrite startRe_startText.
  rewrite decide_False by (intros [E|E]; discriminate E).
  rewrite decide_False by discriminate. done.
Qed.

(** A command line at the launcher: the answer, and the session afterwards. *)
Lemma launcher_write s arg :
  mock_waiting s → qs_svc s = ServiceLauncher → Forall (λ b, b ≠ x0a ∧ b ≠ x0d) arg →
  peer_write s (startText arg ++ [x0a]) =
    (true, okLine 8300 ++ crlf ++ runShell arg,
     set_closed (set_started (qs_started s ++ option_list (startsPdebug arg)) s)).
Proof.
  intros (Hp & Hc & _) Hs Ha. unfold peer_write, qsession_peer. rewrite Hc, Hp. cbn [app Serve_loop].
  assert (Forall (λ b, b ≠ x0a) (startText arg)) as Hn.
  { unfold startText. rewrite !Forall_app. split_and!; try by repeat constructor.
    eapply Forall_impl; [exact Ha|]. by intros ? []. }
  rewrite Cut_app by done.
  assert (TrimRight (startText arg) crlf = startText arg) as ->.
  { unfold startText, TrimRight. rewrite !app_assoc, reverse_snoc. cbn [TrimLeft].
    rewrite decide_False by (rewrite list_elem_of_In; intros [E|[E|[]]]; discriminate E).
    by rewrite <- reverse_snoc, reverse_involutive. }
  unfold dispatch. cbn in Hs. rewrite Hs. rewrite decide_False by discriminate.
  rewrite decide_True by done. by rewrite launcher_start.
Qed.

#[export, refine] Instance qsession_launcher : LauncherDaemon qsession := {
  ld_shell _ arg := (8300, runShell arg)
}.
Proof.
  - intros s Hw Hs.
    assert (mock_waiting (set_svc ServiceLauncher s)) as Hw'
      by (apply set_svc_waiting; [rewrite list_elem_of_In; simpl; tauto|done]).
    exists (str "OK" ++ crlf), (set_svc ServiceLauncher s). split_and!; [|done..].
    destruct s as [svc fds files nfd pend cl st]. cbn in Hs. subst svc.
    apply lineReply_answer; [reflexivity|by repeat constructor|by apply readable_literal|done].
  - intros s arg Hw Hs Ha. cbn [fst snd]. split; [lia|]. eexists. by apply launcher_write.
Defined.

Lemma mockStream_greeted : greeted Serve_init mockStream.
Proof.
  split; [exact Serve_init_waiting|]. split; [done|].
  assert (Forall (λ b, b ≠ iac) (str "QCONN" ++ crlf ++ promptOf ServiceBroker)) as Hp by (by repeat constructor).
  destruct (stream_plain _ Hp) as (H1 & H2 & H3 & H4).
  exists (plain (str "QCONN" ++ crlf ++ promptOf ServiceBroker)), (str "QCONN" ++ crlf), 0%nat, noiseLine.
  split_and!; [by rewrite H2|done| |by left|by right|by rewrite H3].
  apply noPrompt_plain. by repeat constructor.
Qed.

Lemma Exec_result_witness :
  ∃ f, Exec (str "echo hi") (MkNetwork [Some (mockStream, replicate 100 0%nat, 0%nat)] []) =
      (inr (MkExecResult 8300 (str "hi" ++ [x0d; x0a])), MkNetwork [] [f]) ∧
    t_open (f_conn f) = false ∧ last (t_tx (f_conn f)) = Some (startLine (str "echo hi") ++ [x0a]).
Proof.
  destruct (Exec_result (MkNetwork [Some (mockStream, replicate 100 0%nat, 0%nat)] []) [] mockStream
    (replicate 100 0%nat) 0 (str "echo hi") Serve_init eq_refl mockStream_greeted) as (text & p1 & _ & Hrun).
  destruct Hrun as (f & E & Ho & Hl); [apply Nat.le_0_l|].
  exists f. split; [exact E|]. split; [exact Ho|exact Hl].
Defined.
