(* ===== verification/QconnE2E.v ===== *)
(** * The qconn client against concrete far ends

    Connecting to the mock daemon, the instances of the interface theorems on
    it, and the client's behaviour when the file service reports an error. *)

From stdpp Require Import base list numbers strings gmap.
From Stdlib Require Import ZArith Lia Strings.Byte.
From S2P Require Import Prelude GoStrconv GoStrings Transport QconnFraming QconnClient QconnFile.
From S2P Require Import QconnFileFacts QconnTransfer MockServer MockFiles.

Local Open Scope Z_scope.

(** ** Connecting *)

Lemma dialed_mock fills :
  ∃ c, dialed mockStream fills = (inr (), c) ∧ qidle c ∧ agrees c ∧ q_peer c = Serve_init ∧
       t_tx (f_conn (q_fc c)) = [].
Proof.
  set (text := str "QCONN" ++ crlf).
  set (f0 := newFrameConn mockStream fills).
  assert (Forall (λ b, b ≠ iac) (text ++ promptOf ServiceBroker)) as Hp by (by repeat constructor).
  destruct (stream_plain _ Hp) as (H1 & H2 & H3 & H4).
  destruct (readUntilPrompt_fat f0 Serve_init [] (plain (text ++ promptOf ServiceBroker)) noiseLine
    text ServiceBroker) as (f1 & bs & rest' & E & Er & Hbs & Hf1); [done| | |by left|done|by split|].
  { apply noPrompt_plain. by repeat constructor. }
  { rewrite list_elem_of_In. simpl. tauto. }
  assert (rest' = noiseLine) as ->.
  { destruct Hbs as [|b bs Hb _]; [done|]. injection Er as <- _. by destruct Hb. }
  rewrite H4, app_nil_r in Hf1.
  exists (MkClient f1 ServiceBroker None).
  assert (q_peer (MkClient f1 ServiceBroker None) = Serve_init) as Hq
    by (unfold q_peer; simpl; by rewrite (proj1 Hf1)).
  split_and!; [| |unfold agrees; by rewrite Hq|done|simpl; by rewrite (proj1 Hf1)].
  - unfold dialed, handshake, mbind, M_bind, onFc. cbn [q_fc q_current q_info]. fold f0. by rewrite E.
  - exists Serve_init, [], 0%nat, noiseLine. split_and!; [done|by right|apply Serve_init_waiting].
Qed.

(** Connecting to the mock daemon. However the greeting arrives, dialling
    succeeds; the client is idle and agrees with the daemon that it is in the
    broker, with the noise line the daemon sends after its first prompt still
    to be skipped. *)
Theorem dialed_agrees (fills : list nat) :
  let '(r, c) := dialed mockStream fills in
  r = inr () ∧ qidle c ∧ agrees c ∧ q_current c = ServiceBroker ∧ t_tx (f_conn (q_fc c)) = [].
Proof.
  destruct (dialed_mock fills) as (c & E & Hi & Ha & Hp & Htx). rewrite E. split_and!; [done..| |done].
  unfold agrees in Ha. by rewrite Ha, Hp.
Qed.

(** The client after dialling, with every fill of the buffer bringing one byte. *)
Definition mockClient : Client qsession := snd (dialed mockStream (replicate 100 0%nat)).

Lemma mockClient_ready : qidle mockClient ∧ agrees mockClient ∧ q_peer mockClient = Serve_init.
Proof.
  unfold mockClient. destruct (dialed_mock (replicate 100 0%nat)) as (c & E & Hi & Ha & Hp & _).
  rewrite E. split; [exact Hi|]. split; [exact Ha|exact Hp].
Qed.

Lemma ensure_tracks_witness :
  ∃ r c', ensure ServiceSinfo mockClient = (r, c') ∧ qidle c' ∧ agrees c' ∧
    q_info c' = q_info mockClient ∧
    match r with inr _ => q_current c' = ServiceSinfo | inl _ => q_current c' = ServiceBroker end.
Proof.
  destruct mockClient_ready as (Hi & Ha & _).
  apply (ensure_tracks mockClient ServiceSinfo); [|exact Hi|exact Ha].
  rewrite list_elem_of_In. simpl. tauto.
Defined.

Lemma WriteFile_ReadFile_witness :
  ∃ c1 c2,
    WriteFile (str "/tmp/x") ([xff; x0a] ++ str "<qconn-file> ") 0 mockClient = (inr (15, None), c1) ∧
    ReadFile 3 (str "/tmp/x") c1 = (inr ([xff; x0a] ++ str "<qconn-file> ", None), c2) ∧
    qidle c2 ∧ agrees c2 ∧
    (∀ q, q ≠ str "/tmp/x" → fd_files (q_peer c2) q = fd_files (q_peer mockClient) q).
Proof.
  destruct mockClient_ready as (Hi & Ha & Hp).
  apply (WriteFile_ReadFile mockClient (str "/tmp/x") ([xff; x0a] ++ str "<qconn-file> ") 0 3 Hi Ha).
  - split_and!; [done| |done]. repeat constructor; intros Hin; rewrite list_elem_of_In in Hin; simpl in Hin;
      repeat destruct Hin as [Hin|Hin]; done.
  - lia.
  - rewrite Hp. reflexivity.
  - exact I.
  - rewrite Hp. reflexivity.
  - reflexivity.
  - vm_compute. lia.
Defined.

(** ** A far end with prepared answers *)

(** The answers to the writes to come. *)
Definition canned : Type := list (list byte).

#[local] Instance canned_peer : Peer canned := λ rs _,
  match rs with [] => (true, [], []) | r :: rs => (true, r, rs) end.
#[local] Instance canned_qpeer : QPeer canned := λ _, false.

Definition cannedClient (rs : canned) : Client canned :=
  MkClient (newFrameConn (Transport rs [] [] true) []) ServiceFile None.

Lemma readUntilPrompt_response_witness :
  ∃ f' blanks rest',
    readUntilPrompt (newFrameConn (Transport ([] : canned)
      ([iac; doo; x03; x4f; x4b; x0d; x0a] ++ promptOf ServiceFile ++ [x20]) [] true) [4%nat; 0%nat]) =
      (inr (TrimLeft [x4f; x4b; x0d; x0a] [x20], None), f') ∧
    [x20] = blanks ++ rest' ∧ Forall blank blanks ∧ fat [] ([] ++ [[iac; wont; x03]]) rest' f'.
Proof.
  apply (readUntilPrompt_response _ [] []
    (([TNeg doo x03], x4f) :: plain ([x4b; x0d; x0a] ++ promptOf ServiceFile)) [x20]
    [x4f; x4b; x0d; x0a] ServiceFile).
  - repeat constructor; done.
  - apply noPrompt_plain. by repeat constructor.
  - rewrite list_elem_of_In. simpl. tauto.
  - right. done.
  - done.
  - done.
Defined.

(** ** Errors of the file service *)

(** An error report: [e:<message>], then the prompt. *)
Definition errorReport (msg : list byte) : list byte :=
  (str "e:" ++ msg) ++ [x0d; x0a] ++ promptOf ServiceFile.

Definition messageOK (msg : list byte) : Prop := Forall (λ b, b ≠ iac ∧ b ≠ x0a ∧ b ≠ x0d) msg.

(** The status line of an error report, whatever was written before. *)
Lemma error_line tx msg f :
  messageOK msg → fat ([] : canned) tx (errorReport msg) f →
  ∃ f', readResponseLine f = (inr (str "e:" ++ msg), f') ∧
        fat ([] : canned) tx (promptOf ServiceFile ++ replicate 0 x20) f'.
Proof.
  intros Hm Hfat. apply (readResponseLine_fat [] tx 0 (str "e:" ++ msg)); [|done|done|].
  - apply Forall_app. split; [by repeat constructor|done].
  - by rewrite app_nil_r.
Qed.

Lemma readAt_error msg fd off n :
  messageOK msg →
  ∃ c, readAt fd off n (cannedClient [errorReport msg]) = (inl (QRead (TrimSpace msg)), c) ∧
       f_rx (q_fc c) = [].
Proof.
  intros Hm. set (m := if maxReadChunk <? n then maxReadChunk else n).
  set (cmd := str "r:" ++ fmt_x fd ++ str ":" ++ fmt_x off ++ str ":" ++ fmt_x m).
  set (f1 := MkFrameConn (Transport ([] : canned) (errorReport msg) [cmd ++ [x0a]] true) 0 [] true).
  destruct (error_line [cmd ++ [x0a]] msg f1 Hm) as (f2 & E2 & Hf2); [by split|].
  destruct (readPrompt_fat _ _ _ _ _ file_in_services Hf2) as (f3 & j & E3 & Hf3 & Hj).
  exists (MkClient f3 ServiceFile None). split.
  - unfold readAt. fold m. fold cmd. unfold mbind, M_bind, onFc, attempt.
    change (writeLine cmd (q_fc (cannedClient [errorReport msg]))) with (inr () : qerror + unit, f1).
    cbn [q_fc q_current q_info cannedClient]. rewrite E2, HasPrefix_app. cbn [q_fc q_current q_info].
    unfold orFail, mbind, M_bind in E3.
    destruct (readUntilPrompt f2) as [[e|[t [e|]]] f3'] eqn:Er; try done.
    by injection E3 as -> ->.
  - unfold f_rx. cbn [q_fc]. rewrite (proj1 Hf3). by replace j with 0%nat by lia.
Qed.

Lemma writeAt_error msg fd off data :
  messageOK msg →
  ∃ c, writeAt fd off data (cannedClient [[]; errorReport msg]) =
         (inl (protoErr (str "write") (str "e:" ++ msg)), c) ∧
       f_rx (q_fc c) = promptOf ServiceFile.
Proof.
  intros Hm.
  set (cmd := str "w:" ++ fmt_x fd ++ str ":" ++ fmt_x off ++ str ":" ++ fmt_x (Z.of_nat (length data))).
  set (f1 := MkFrameConn (Transport ([errorReport msg] : canned) [] [cmd ++ [x0a]] true) 0 [] true).
  set (f2 := MkFrameConn (Transport ([] : canned) (errorReport msg) [cmd ++ [x0a]; data] true) 0 [] true).
  destruct (error_line [cmd ++ [x0a]; data] msg f2 Hm) as (f3 & E3 & Hf3); [by split|].
  exists (MkClient f3 ServiceFile None). split.
  - unfold writeAt. fold cmd. unfold mbind, M_bind, onFc.
    change (writeLine cmd (q_fc (cannedClient [[]; errorReport msg]))) with (inr () : qerror + unit, f1).
    cbn [q_fc q_current q_info cannedClient].
    change (writeRaw data f1) with (inr () : qerror + unit, f2).
    cbn [q_fc q_current q_info]. by rewrite E3.
  - unfold f_rx. cbn [q_fc]. rewrite (proj1 Hf3). apply app_nil_r.
Qed.

(** C32: After an error report of the file service a read has consumed the
    prompt behind it, and the connection is synchronised; a write has not: the
    prompt stays unread and ends the response to the next command before that
    response has arrived. *)
Theorem writeAt_error_leaves_prompt (msg : list byte) (fd off n : Z) (data : list byte) :
  messageOK msg →
  (∃ c, readAt fd off n (cannedClient [errorReport msg]) = (inl (QRead (TrimSpace msg)), c) ∧
        f_rx (q_fc c) = []) ∧
  (∃ c, writeAt fd off data (cannedClient [[]; errorReport msg]) =
          (inl (protoErr (str "write") (str "e:" ++ msg)), c) ∧
        f_rx (q_fc c) = promptOf ServiceFile).
Proof. intros Hm. split; [by apply readAt_error | by apply writeAt_error]. Qed.

Lemma writeAt_error_leaves_prompt_witness :
  (∃ c, readAt 3 0 16 (cannedClient [errorReport (str "No space")]) = (inl (QRead (TrimSpace (str "No space"))), c) ∧
        f_rx (q_fc c) = []) ∧
  (∃ c, writeAt 3 0 [x41] (cannedClient [[]; errorReport (str "No space")]) =
          (inl (protoErr (str "write") (str "e:" ++ str "No space")), c) ∧
        f_rx (q_fc c) = promptOf ServiceFile).
Proof. apply (writeAt_error_leaves_prompt (str "No space") 3 0 16 [x41]). by repeat constructor. Defined.
