(* ===== verification/Pdebug.v ===== *)
(** * Reaching a debug agent

    [internal/debug/pdebug.go] (starting [pdebug] through qconn and attaching
    over RSP), [Connect] of [internal/qnxdbg/client.go] and
    [internal/qnxdbg/serial.go]. The outcomes of dials and of the calls that
    open and configure a tty are part of the state or parameters. *)

From stdpp Require Import base list numbers strings gmap.
From Stdlib Require Import ZArith Lia Strings.Byte.
From S2P Require Import Prelude GoStrconv GoStrings Transport DsmsgClient Rsp RspSession.
From S2P Require Import QconnFraming QconnClient QconnPidin QconnExec QconnClosed.

Local Open Scope Z_scope.

(** ** [fmt.Sprintf(template, port)] *)

(** A template whose verbs are [%d] and [%%]. *)
Fixpoint simpleTemplate (s : list byte) : bool :=
  match s with
  | [] => true
  | x25 :: c :: s => bool_decide (c = x64 ∨ c = x25) && simpleTemplate s
  | x25 :: [] => false
  | _ :: s => simpleTemplate s
  end.

(** The expansion of such a template; [arg] is the argument not used yet. *)
Fixpoint expand (s : list byte) (arg : option Z) : list byte :=
  match s with
  | [] => match arg with Some n => str "%!(EXTRA int=" ++ fmt_d n ++ str ")" | None => [] end
  | x25 :: x25 :: s => x25 :: expand s arg
  | x25 :: x64 :: s =>
      match arg with
      | Some n => fmt_d n ++ expand s None
      | None => str "%!d(MISSING)" ++ expand s None
      end
  | b :: s => b :: expand s arg
  end.

Section sprintf.
(** The formatter on templates with other verbs. *)
Variable fmtRest : list byte → Z → list byte.

Definition Sprintf (template : list byte) (n : Z) : list byte :=
  if simpleTemplate template then expand template (Some n) else fmtRest template n.
End sprintf.

(** ** The manager *)

Definition defaultPdebugCmd : list byte := str "on -d pdebug %d </dev/null >/dev/null 2>&1".

Record Manager := MkManager { m_Host : list byte; m_PdebugCmd : list byte }.

Definition NewManager (host : list byte) : Manager := MkManager host defaultPdebugCmd.

Inductive attach_err :=
  | ASpawn (e : qerror)
  | ADial (host : list byte) (port : Z)
  | AAttach (pid : Z) (e : rsp_error)
  | APanic.                                   (* the run-time panic of [parseStop] *)

Section manager.
Context {P R : Type} `{QPeer P} `{Peer R}.
Variable fmtRest : list byte → Z → list byte.

Definition SpawnPdebug (m : Manager) (port : Z) : M qerror (network P) unit :=
  Run (Sprintf fmtRest (m_PdebugCmd m) port) [] ≫= λ _, mret ().

(** The network to the target, the dials of its debug port to come, and the
    sessions that were given up, as they were left. *)
Record world : Type := MkWorld {
  w_net : network P;
  w_dials : list (option (transport R));
  w_dropped : list (Session (RSP R))
}.

Definition DialRSP (host : list byte) (port : Z) : M attach_err world (Session (RSP R)) := λ w,
  match w_dials w with
  | Some t :: ds => (inr (NewSession (NewRSP t)), MkWorld (w_net w) ds (w_dropped w))
  | None :: ds => (inl (ADial host port), MkWorld (w_net w) ds (w_dropped w))
  | [] => (inl (ADial host port), w)
  end.

(** [SpawnPdebug] on the network of the world. *)
Definition spawn (m : Manager) (port : Z) : M attach_err world unit := λ w,
  let '(r, net) := SpawnPdebug m port (w_net w) in
  (match r with inl e => inl (ASpawn e) | inr _ => inr () end,
   MkWorld net (w_dials w) (w_dropped w)).

Definition ManagerAttach (m : Manager) (pid port : Z) : M attach_err world (Session (RSP R)) :=
  let host := if decide (m_Host m = []) then str "127.0.0.1" else m_Host m in
  spawn m port ≫= λ _,
  sess ← DialRSP host port;
  let drop s e := modify (λ w, MkWorld (w_net w) (w_dials w) (w_dropped w ++ [s])) ≫= λ _, throw e in
  match RspSession.Attach pid sess with
  | (inr _, sess) => mret sess
  | (inl RPanic, sess) => drop sess APanic                  (* unwinds past the close *)
  | (inl e, sess) => drop (snd (RspSession.Close sess)) (AAttach pid e)
  end.
End manager.

(** ** Starting the agent *)

(** The command line that starts [pdebug] on a port. *)
Definition spawnLine (fmtRest : list byte → Z → list byte) (m : Manager) (port : Z) : list byte :=
  startLine (Sprintf fmtRest (m_PdebugCmd m) port ++ str " >/dev/null 2>&1 & echo $!").

Lemma SpawnPdebug_sent {P} `{LauncherDaemon P} fmtRest (m : Manager) port (w : network P) ds t fills late p :
  n_dials w = Some (t, fills, late) :: ds → greeted p t →
  ∃ f, SpawnPdebug fmtRest m port w = (inr (), MkNetwork ds (n_used w ++ [f])) ∧
    t_open (f_conn f) = false ∧ last (t_tx (f_conn f)) = Some (spawnLine fmtRest m port ++ [x0a]) ∧
    ∃ text p1 out, qd_reply p (str "service launcher") = Some (text, p1) ∧
      peer_write p1 (spawnLine fmtRest m port ++ [x0a]) = (true, out, t_peer (f_conn f)).
Proof.
  intros Hd Hg. unfold spawnLine. set (cmd := Sprintf fmtRest (m_PdebugCmd m) port).
  destruct (Exec_sent w ds t fills late (cmd ++ str " >/dev/null 2>&1 & echo $!") p Hd Hg)
    as (r & f & E & Hc & Hl).
  exists f. split; [|done]. unfold SpawnPdebug, Run. fold cmd. rewrite decide_True, app_nil_r by done.
  unfold mbind, M_bind. rewrite E. by destruct (Atoi _) as [pid [e|]].
Qed.

(** The connection to the launcher is closed again. *)
Lemma releasing_SpawnPdebug {P} `{QPeer P} fmtRest (m : Manager) port u :
  keeps (releasing u) (SpawnPdebug (P := P) fmtRest m port).
Proof. unfold SpawnPdebug. keeps_auto. Qed.

(** ** DSMSG over TCP and over a serial line *)

Inductive connect_err :=
  | CDial
  | CHandshake (e : dbg_error)
  | CBaud (baud : Z)
  | COpen (device : list byte)
  | CTermios.

Section connect.
Context {D : Type} `{Peer D}.

(** What connecting gives: a client, or an error next to the stream that was
    opened on the way, if there was one. *)
Definition connected : Type := (connect_err * option (transport D)) + DsmsgClient.Client D.

(** [newClient] on a stream; after a failed handshake the stream is as
    [newClient] left it. *)
Definition clientOn (t : transport D) : connected :=
  match newClient t with
  | (inr _, c) => inr c
  | (inl e, c) => inl (CHandshake e, Some (c_conn c))
  end.

(** [Connect], given the outcome of the dial. *)
Definition Connect (dial : option (transport D)) : connected :=
  match dial with
  | None => inl (CDial, None)
  | Some t => clientOn t
  end.

Definition baudRates : list Z :=
  [9600; 19200; 38400; 57600; 115200; 230400; 460800; 921600; 1000000].

(** What the tty is configured with: eight bits, receiver on, no modem lines,
    blocking for one byte, and the two speeds. *)
Record termios := MkTermios {
  tio_CREAD : bool; tio_CLOCAL : bool; tio_CS8 : bool; tio_speed : Z; tio_VMIN : Z; tio_VTIME : Z
}.

(** The system calls: opening a device for reading and writing without
    becoming its controlling terminal, and setting its attributes. *)
Variable open : list byte → option (transport D).
Variable setTermios : list byte → termios → bool.

(** The stream, and a stream that was opened and closed again. *)
Definition openSerial (device : list byte) (baud : Z) : (connect_err + transport D) * option (transport D) :=
  if decide (baud ∈ baudRates) then
    match open device with
    | None => (inl (COpen device), None)
    | Some t =>
        if setTermios device (MkTermios true true true baud 1 0) then (inr t, None)
        else (inl CTermios, Some (t_close t))
    end
  else (inl (CBaud baud), None).

(** The second [f.Close] of the error path does nothing: [newClient] has closed
    the file. *)
Definition ConnectSerial (device : list byte) (baud : Z) : connected :=
  match openSerial device baud with
  | (inl e, o) => inl (e, o)
  | (inr t, _) =>
      match clientOn t with
      | inl (e, o) => inl (e, t_close <$> o)
      | inr c => inr c
      end
  end.

(** ** A connection that is given up is closed *)

Definition gives_up_closed (r : connected) : Prop :=
  match r with
  | inl (_, Some t) => t_open t = false
  | _ => True
  end.

Lemma clientOn_closes t : gives_up_closed (clientOn t).
Proof. unfold clientOn, newClient. by destruct (DsmsgClient.handshake _) as [[e|u] c]. Qed.

Lemma Connect_closes dial : gives_up_closed (Connect dial).
Proof. destruct dial as [t|]; [apply clientOn_closes|done]. Qed.

Lemma clientOn_close_again t :
  match clientOn t with
  | inl (e, o) => inl (e, t_close <$> o)
  | inr c => inr c
  end = clientOn t.
Proof. unfold clientOn, newClient. by destruct (DsmsgClient.handshake _) as [[e|u] c]. Qed.

(** Over a serial line the tty may fail; otherwise all is as over TCP. *)
Lemma ConnectSerial_cases device baud :
  (∃ e o, ConnectSerial device baud = inl (e, o) ∧ gives_up_closed (inl (e, o))) ∨
  ∃ t, open device = Some t ∧ ConnectSerial device baud = clientOn t.
Proof.
  unfold ConnectSerial, openSerial. case_decide; [|left; by do 2 eexists].
  destruct (open device) as [t|]; [|left; by do 2 eexists].
  destruct (setTermios _ _); [right|left; by do 2 eexists].
  exists t. split; [done|]. apply clientOn_close_again.
Qed.

Lemma ConnectSerial_closes device baud : gives_up_closed (ConnectSerial device baud).
Proof.
  destruct (ConnectSerial_cases device baud) as [(e & o & -> & ?)|(t & _ & ->)]; [done|apply clientOn_closes].
Qed.
End connect.
