(* ===== verification/MockTarget.v ===== *)
(** * The mock target as a whole

    [internal/mockqnx]: the accept loops of [server.go], [rsp.go] and
    [dsmsg.go], the connections they serve, and the stubs that programs started
    on the mock open on other ports ([startMockPdebug] of [shell.go], with the
    shared table [rspOnce]). Connections and stubs run concurrently: the target
    is a step relation. *)

From stdpp Require Import base list numbers strings gmap relations.
From Stdlib Require Import ZArith Lia Strings.Byte.
From S2P Require Import Prelude GoStrconv GoStrings GoNet Transport QconnFraming QconnClient QconnPidin QconnExec.
From S2P Require Import MockRsp MockServer MockShell Pdebug.
From S2P Require MockDsmsg.

Local Open Scope Z_scope.

(** ** Accept loops *)

(** [Accept]: [Serve] on every connection. *)
Definition Accept {E : Type} (accepts : list (E + ())) : list qsession * option E :=
  acceptLoop (λ _, Serve_init) accepts.

Definition ListenAndServe {E : Type} (bind : option E) (accepts : list (E + ())) : list qsession * option E :=
  listenLoop (λ _, Serve_init) bind accepts.

(** [ListenDSMSG]: the debug agents; the error is dropped. *)
Definition ListenDSMSG {E : Type} (accepts : list (E + ())) : list MockDsmsg.mock :=
  fst (acceptLoop (λ _, MockDsmsg.mock_init) accepts).

(** [serveMockRSP]. *)
Definition serveMockRSP {E : Type} (bind : option E) (accepts : list (E + ())) : list mockRsp * option E :=
  listenLoop (λ _, MkMockRsp [] false) bind accepts.

(** ** Stubs *)

(** A goroutine of [startMockPdebug]: about to listen, listening, or done
    with an error it has still to report. *)
Inductive phase := Starting | Listening | Stopping.

#[export] Instance phase_eq_dec : EqDecision phase.
Proof. solve_decision. Defined.

Record stub := MkStub { st_port : Z; st_phase : phase }.

(** The connections to the daemon, the ports marked in [rspOnce], the
    goroutines, and the connections to the stubs. *)
Record target := MkTarget {
  tg_conns : list qsession;
  tg_once : gset Z;
  tg_stubs : list stub;
  tg_rsp : list (Z * mockRsp)
}.

Definition target_init : target := MkTarget [] ∅ [] [].

(** [startMockPdebug]: at most one goroutine per port. *)
Definition startMockPdebug (port : Z) (tg : target) : target :=
  if decide (port ∈ tg_once tg) then tg
  else MkTarget (tg_conns tg) ({[port]} ∪ tg_once tg) (tg_stubs tg ++ [MkStub port Starting]) (tg_rsp tg).

Definition set_stub (k : nat) (st : stub) (tg : target) : target :=
  MkTarget (tg_conns tg) (tg_once tg) (<[k := st]> (tg_stubs tg)) (tg_rsp tg).

(** Bytes arrive on connection [i]; the programs they run may start stubs. *)
Definition deliver (i : nat) (b : list byte) (tg : target) : target :=
  match tg_conns tg !! i with
  | None => tg
  | Some s =>
      let s' := snd (peer_write s b) in
      foldl (λ tg port, startMockPdebug port tg)
        (MkTarget (<[i := s']> (tg_conns tg)) (tg_once tg) (tg_stubs tg) (tg_rsp tg))
        (drop (length (qs_started s)) (qs_started s'))
  end.

Inductive target_step : target → target → Prop :=
  | tg_accept tg :                                      (* [Accept], then [go Serve(c)] *)
      target_step tg (MkTarget (tg_conns tg ++ [Serve_init]) (tg_once tg) (tg_stubs tg) (tg_rsp tg))
  | tg_deliver tg i b : target_step tg (deliver i b tg)
  | tg_listen tg k port :                               (* [net.Listen] succeeds *)
      tg_stubs tg !! k = Some (MkStub port Starting) →
      target_step tg (set_stub k (MkStub port Listening) tg)
  | tg_listen_fails tg k port :
      tg_stubs tg !! k = Some (MkStub port Starting) →
      target_step tg (set_stub k (MkStub port Stopping) tg)
  | tg_accept_rsp tg k port :                           (* [go handleRSP(conn)] *)
      tg_stubs tg !! k = Some (MkStub port Listening) →
      target_step tg (MkTarget (tg_conns tg) (tg_once tg) (tg_stubs tg)
        (tg_rsp tg ++ [(port, MkMockRsp [] false)]))
  | tg_accept_fails tg k port :                         (* the listener is closed *)
      tg_stubs tg !! k = Some (MkStub port Listening) →
      target_step tg (set_stub k (MkStub port Stopping) tg)
  | tg_deliver_rsp tg j port m b :
      tg_rsp tg !! j = Some (port, m) →
      target_step tg (MkTarget (tg_conns tg) (tg_once tg) (tg_stubs tg)
        (<[j := (port, snd (peer_write m b))]> (tg_rsp tg)))
  | tg_forget tg k port :                               (* [rspOnce.Delete(port)] *)
      tg_stubs tg !! k = Some (MkStub port Stopping) →
      target_step tg (MkTarget (tg_conns tg) (tg_once tg ∖ {[port]}) (delete k (tg_stubs tg)) (tg_rsp tg)).

(** ** One stub per port *)

Record once (tg : target) : Prop := {
  once_nodup : NoDup (st_port <$> tg_stubs tg);
  once_marked p : p ∈ tg_once tg ↔ p ∈ st_port <$> tg_stubs tg
}.

Lemma once_same_stubs tg tg' :
  tg_stubs tg' = tg_stubs tg → tg_once tg' = tg_once tg → once tg → once tg'.
Proof. intros Es Eo []. split; by rewrite ?Es, ?Eo. Qed.

Lemma once_start port tg : once tg → once (startMockPdebug port tg).
Proof.
  intros [Hnd Hm]. unfold startMockPdebug. case_decide as Hp; [done|]. split; simpl; rewrite fmap_app;
    change (st_port <$> [MkStub port Starting]) with [port].
  - apply NoDup_app. split_and!; [done| |apply NoDup_singleton].
    intros p Hin ->%list_elem_of_singleton. by apply Hp, Hm.
  - intros p. rewrite elem_of_union, elem_of_singleton, elem_of_app, list_elem_of_singleton, Hm. tauto.
Qed.

Lemma once_deliver i b tg : once tg → once (deliver i b tg).
Proof.
  intros Ho. unfold deliver. destruct (tg_conns tg !! i) as [s|]; [|done].
  set (tg1 := MkTarget _ _ _ _). assert (once tg1) as H1 by (by apply (once_same_stubs tg)).
  generalize dependent tg1. induction (drop _ _) as [|p ps IH]; intros tg1 H1; [done|].
  apply IH. by apply once_start.
Qed.

(** A goroutine that goes on with its port. *)
Lemma once_set_stub k st ph tg :
  tg_stubs tg !! k = Some st → once tg → once (set_stub k (MkStub (st_port st) ph) tg).
Proof.
  intros Hk [Hnd Hm].
  assert (st_port <$> <[k := MkStub (st_port st) ph]> (tg_stubs tg) = st_port <$> tg_stubs tg) as E.
  { rewrite list_fmap_insert. apply list_insert_id. rewrite list_lookup_fmap, Hk. done. }
  split; simpl; by rewrite E.
Qed.

Lemma once_forget k port tg :
  tg_stubs tg !! k = Some (MkStub port Stopping) → once tg →
  once (MkTarget (tg_conns tg) (tg_once tg ∖ {[port]}) (delete k (tg_stubs tg)) (tg_rsp tg)).
Proof.
  intros Hk [Hnd Hm]. pose proof (delete_Permutation _ _ _ Hk) as Hp.
  apply (fmap_Permutation st_port) in Hp. rewrite fmap_cons in Hp. cbn [st_port] in Hp.
  rewrite Hp in Hnd. apply NoDup_cons in Hnd as [Hnot Hnd]. split; simpl; [done|].
  intros p. rewrite elem_of_difference, elem_of_singleton, Hm, Hp, elem_of_cons. split.
  - intros [[->|Hin] Hne]; [by destruct Hne|done].
  - intros Hin. split; [by right|]. by intros ->.
Qed.

Lemma once_reachable tg : rtc target_step target_init tg → once tg.
Proof.
  apply (rtc_ind_r once).
  - split; [constructor|]. intros p. cbn [target_init tg_once tg_stubs fmap list_fmap].
    by rewrite elem_of_empty, elem_of_nil.
  - intros tg1 tg2 _ Hst Ho. destruct Hst as [t1|t1 i b|t1 k port Hk|t1 k port Hk|t1 k port Hk|t1 k port Hk|t1 j port m b Hj|t1 k port Hk];
      try by apply (once_same_stubs t1).
    + by apply once_deliver.
    + by apply (once_set_stub k (MkStub port Starting)).
    + by apply (once_set_stub k (MkStub port Starting)).
    + by apply (once_set_stub k (MkStub port Listening)).
    + by apply once_forget.
Qed.

(** C28: One stub per port. However the connections of the mock target, its
    programs and its stubs interleave, a port is marked in the shared table
    exactly while a goroutine for it exists, and no two goroutines, so no two
    listeners, ever have the same port; starting the stub of a marked port
    changes nothing, and of any other port adds exactly one. *)
Theorem mock_stub_once tg :
  rtc target_step target_init tg →
  (∀ p, p ∈ tg_once tg ↔ ∃ k ph, tg_stubs tg !! k = Some (MkStub p ph)) ∧
  (∀ k1 k2 p ph1 ph2, tg_stubs tg !! k1 = Some (MkStub p ph1) → tg_stubs tg !! k2 = Some (MkStub p ph2) → k1 = k2) ∧
  (∀ p, tg_stubs (startMockPdebug p tg) =
     if decide (p ∈ tg_once tg) then tg_stubs tg else tg_stubs tg ++ [MkStub p Starting]).
Proof.
  intros [Hnd Hm]%once_reachable. split_and!.
  - intros p. rewrite Hm, list_elem_of_fmap. split.
    + intros ([p' ph] & -> & Hin). apply list_elem_of_lookup in Hin as [k Hk]. by exists k, ph.
    + intros (k & ph & Hk). exists (MkStub p ph). split; [done|]. by eapply list_elem_of_lookup_2.
  - intros k1 k2 p ph1 ph2 H1 H2. eapply (NoDup_lookup (st_port <$> tg_stubs tg) k1 k2 p); [done|..];
      rewrite list_lookup_fmap; by rewrite ?H1, ?H2.
  - intros p. unfold startMockPdebug. by case_decide.
Qed.

(** ** Starting the stub through the launcher *)

(** A run of blanks in front of a word. *)
Lemma span_blank w rest : isWord w → span reSpace (x20 :: w ++ rest) = ([x20], w ++ rest).
Proof.
  intros [Hne Hw]. cbn [span]. change (reSpace x20) with true. cbv iota.
  destruct w as [|b w]; [done|]. cbn [app span]. inversion Hw as [|?? Hb]; subst.
  replace (reSpace b) with false; [done|]. revert Hb. clear. destruct b; vm_compute; congruence.
Qed.

Lemma reFind_skip re b s : reMatch re (b :: s) = None → reFind re (b :: s) = reFind re s.
Proof. cbn [reFind]. by intros ->. Qed.

Lemma reFind_here re s m : reMatch re s = Some m → reFind re s = Some m.
Proof. destruct s; cbn [reFind]; by intros ->. Qed.

Lemma escapeArg_plain s : Forall (λ b, b ∉ [x5c; x22; x0a; x0d]) s → escapeArg s = s.
Proof.
  intros Hs. induction Hs as [|b s Hb Hs IH]; [done|]. rewrite escapeArg_cons, IH.
  assert (escapeArg [b] = [b]) as ->; [|done]. rewrite !not_elem_of_cons in Hb. destruct Hb as (? & ? & ? & ? & _).
  destruct b; first [reflexivity|done].
Qed.

(** The default command in front of and behind the port. *)
Definition spawnHead : list byte := str "on -d pdebug ".
Definition spawnTail : list byte := str " </dev/null >/dev/null 2>&1 >/dev/null 2>&1 & echo $!".

Lemma spawn_command fmtRest port :
  Sprintf fmtRest defaultPdebugCmd port ++ str " >/dev/null 2>&1 & echo $!" = spawnHead ++ fmt_d port ++ spawnTail.
Proof.
  unfold Sprintf. change (simpleTemplate defaultPdebugCmd) with true. cbv iota.
  assert (expand defaultPdebugCmd (Some port) =
    spawnHead ++ fmt_d port ++ str " </dev/null >/dev/null 2>&1") as -> by reflexivity.
  by rewrite <- !app_assoc.
Qed.

Lemma startsPdebug_spawn port :
  0 <= port < 2 ^ 63 → startsPdebug (spawnHead ++ fmt_d port ++ spawnTail) = Some port.
Proof.
  intros Hp. unfold startsPdebug.
  assert (TrimSpace (spawnHead ++ fmt_d port ++ spawnTail) = spawnHead ++ fmt_d port ++ spawnTail) as ->.
  { pose proof (TrimSpace_around [] (spawnHead ++ fmt_d port ++ spawnTail) [] x6f x21) as E.
    rewrite app_nil_r in E. apply E; [constructor|constructor|done| |done|done].
    rewrite !last_app. done. }
  assert (reMatch pdebugRe (str "pdebug " ++ fmt_d port ++ spawnTail) =
    Some ([str "pdebug"; [x20]; fmt_d port], spawnTail)) as E.
  { unfold pdebugRe. change (str "pdebug ") with (str "pdebug" ++ [x20]). rewrite <- app_assoc.
    cbn [reMatch]. rewrite HasPrefix_app, drop_app_length, decide_False by discriminate.
    change ([x20] ++ fmt_d port ++ spawnTail) with (x20 :: fmt_d port ++ spawnTail).
    rewrite span_blank by apply fmt_d_word. rewrite decide_False by discriminate.
    rewrite fmt_d_nonneg, span_digits by (try lia; by intros b r [= <- <-]).
    rewrite decide_False by (destruct (fmt_uint_word 10 port) as [? _]; [lia..|done]). done. }
  assert (reFind pdebugRe (spawnHead ++ fmt_d port ++ spawnTail) =
    Some ([str "pdebug"; [x20]; fmt_d port], spawnTail)) as ->.
  { change (spawnHead ++ fmt_d port ++ spawnTail) with
      (x6f :: x6e :: x20 :: x2d :: x64 :: x20 :: str "pdebug " ++ fmt_d port ++ spawnTail).
    do 6 (rewrite reFind_skip by reflexivity). by rewrite (reFind_here _ _ _ E). }
  cbn [mbind option_bind last]. by rewrite Atoi_fmt_d by lia.
Qed.

(** A client that starts the agent on port 8001, twice. *)
Definition twoSpawns : target :=
  let line := spawnLine (λ t _, t) (NewManager []) 8001 ++ [x0a] in
  let enter := str "service launcher" ++ [x0a] in
  deliver 1 line (deliver 1 enter (deliver 0 line (deliver 0 enter (MkTarget [Serve_init; Serve_init] ∅ [] [])))).

Lemma deliver_reachable i b tg :
  rtc target_step target_init tg → rtc target_step target_init (deliver i b tg).
Proof. intros Hr. eapply rtc_r; [exact Hr|]. apply tg_deliver. Qed.

Lemma twoSpawns_reachable : rtc target_step target_init twoSpawns.
Proof.
  unfold twoSpawns. do 4 apply deliver_reachable.
  eapply rtc_l; [apply tg_accept|]. eapply rtc_l; [apply tg_accept|]. apply rtc_refl.
Qed.

Lemma mock_stub_once_witness :
  8001 ∈ tg_once twoSpawns ∧ tg_stubs (startMockPdebug 8001 twoSpawns) = tg_stubs twoSpawns ∧
  ∃ k ph, tg_stubs twoSpawns !! k = Some (MkStub 8001 ph).
Proof.
  destruct (mock_stub_once twoSpawns twoSpawns_reachable) as (H1 & _ & H3).
  assert (8001 ∈ tg_once twoSpawns) as Hin by (apply (bool_decide_unpack _); by vm_compute).
  split; [exact Hin|]. split; [|by apply H1]. rewrite H3. by rewrite decide_True.
Defined.
