(* ===== verification/PdebugFacts.v ===== *)
(** * Attaching through the pdebug manager

    [internal/debug/pdebug.go] over any qconn daemon with a launcher and any
    RSP stub, and over the mock target. *)

From stdpp Require Import base list numbers strings gmap.
From Stdlib Require Import ZArith Lia Strings.Byte.
From S2P Require Import Prelude GoStrconv GoStrings Transport Rsp RspSession MockRsp.
From S2P Require Import QconnFraming QconnPidin QconnExec QconnClosed MockServer MockShell Pdebug MockTarget.
From S2P Require QconnClient.

Local Open Scope Z_scope.

(** ** Nothing is left open *)

Section releases.
Context {P R : Type} `{QPeer P} `{Peer R}.
Variable fmtRest : list byte → Z → list byte.

Lemma Close_session_closed (s : Session (RSP R)) :
  t_open (r_conn (ss_rsp (snd (RspSession.Close s)))) = false.
Proof.
  unfold RspSession.Close, get_state. unfold mbind at 1, M_bind at 1. cbv beta iota.
  assert (∀ s0, t_open (r_conn (ss_rsp (snd (onRsp rsp_Close s0)))) = false) as Hc by done.
  case_decide; [|apply Hc]. unfold mbind, M_bind. rewrite attempt_run. apply Hc.
Qed.

(** Talking over a connection neither opens nor closes it. *)
Definition opened (b : bool) (r : RSP R) : Prop := t_open (r_conn r) = b.

Lemma opened_write b data : keeps (opened b) (r_write (P := R) data).
Proof.
  intros r <-. unfold r_write, t_write, opened. destruct (t_open (r_conn r)) eqn:E; [|done].
  by destruct (peer_write _ data) as [[ok out] p].
Qed.

Lemma opened_readAck b : keeps (opened b) (readAck (P := R)).
Proof. intros r Hr. unfold readAck. by destruct (scanAck _) as [[c rx]|]. Qed.

Hint Resolve opened_write opened_readAck : keeps.

Lemma opened_SendPacket b payload : keeps (opened b) (SendPacket (P := R) payload).
Proof.
  unfold SendPacket. generalize 5%nat. intros n. induction n as [|n IH]; cbn [SendPacket_loop]; keeps_auto.
Qed.

Lemma opened_ReadPacket b : keeps (opened b) (ReadPacket (P := R)).
Proof.
  intros r Hr. unfold ReadPacket. destruct (scanPacket _) as [[[raw want] rx]|]; [|done].
  case_decide; (destruct (r_noAck (r_set_rx rx r)); [done|]).
  - apply (keeps_bind (opened b)); [apply opened_write|intros _; apply keeps_ret|done].
  - apply (keeps_bind (opened b)); [apply keeps_attempt, opened_write|intros _; apply keeps_throw|done].
Qed.

Lemma opened_Command b payload : keeps (opened b) (Command (P := R) payload).
Proof. unfold Command. apply keeps_bind; [apply opened_SendPacket|intros _; apply opened_ReadPacket]. Qed.

Lemma opened_session_command b payload :
  keeps (λ s : Session (RSP R), opened b (ss_rsp s)) (command payload).
Proof.
  intros s Hs. unfold command, onRsp. cbn [rsp_Command wire_link]. specialize (opened_Command b payload _ Hs).
  by destruct (Command payload (ss_rsp s)).
Qed.

Lemma opened_Attach b pid : keeps (λ s : Session (RSP R), opened b (ss_rsp s)) (RspSession.Attach pid).
Proof.
  unfold RspSession.Attach. apply keeps_bind; [apply opened_session_command|intros resp].
  apply keeps_bind.
  { case_decide; [|apply keeps_ret]. apply keeps_bind; [apply keeps_attempt|intros _]; apply opened_session_command. }
  intros resp'. apply keeps_bind; [by apply keeps_modify|]. intros _. unfold stopOrPanic. keeps_auto.
Qed.

Lemma Attach_pid pid (s : Session (RSP R)) :
  match RspSession.Attach pid s with (inr _, s') => ss_pid s' = pid | _ => True end.
Proof.
  unfold RspSession.Attach, mbind, M_bind. destruct (command _ s) as [[e|resp] s1]; [done|].
  destruct (_ : (rsp_error + list byte) * _) as [[e|resp'] s2]; [done|].
  cbn [setPid modify]. unfold stopOrPanic. by destruct (parseStop resp').
Qed.

(** The connections an attach made to the launcher. *)
Lemma ManagerAttach_net m pid port (w : world (P := P) (R := R)) :
  releasing (n_used (w_net w)) (w_net (snd (ManagerAttach fmtRest m pid port w))).
Proof.
  assert (releasing (n_used (w_net w)) (w_net w)) as Hw by (exists []; by rewrite app_nil_r).
  assert (keeps (λ w' : world (P := P) (R := R), releasing (n_used (w_net w)) (w_net w'))
    (ManagerAttach fmtRest m pid port)) as Hk; [|by apply Hk].
  unfold ManagerAttach. apply keeps_bind; [|intros _; apply keeps_bind; [|intros sess]].
  - intros w' Hw'. unfold spawn. pose proof (releasing_SpawnPdebug fmtRest m port _ _ Hw') as Hn.
    by destruct (SpawnPdebug fmtRest m port (w_net w')) as [[e|u] net].
  - intros w' Hw'. unfold DialRSP. by destruct (w_dials w') as [|[t|] ds].
  - destruct (RspSession.Attach pid sess) as [[[]|sr] s']; auto with keeps;
      (apply keeps_bind; [by apply keeps_modify|intros _; apply keeps_throw]).
Qed.

(** Whatever the daemon and the stub do, an attach that fails leaves no
    connection to the stub open. *)
Lemma ManagerAttach_cases m pid port (w : world (P := P) (R := R)) :
  let '(r, w') := ManagerAttach fmtRest m pid port w in
  match r with
  | inr sess => ss_pid sess = pid ∧ w_dropped w' = w_dropped w ∧ ∃ t, w_dials w = Some t :: w_dials w'
  | inl (AAttach pid' _) => pid' = pid ∧ ∃ t sess, w_dials w = Some t :: w_dials w' ∧
      w_dropped w' = w_dropped w ++ [sess] ∧ t_open (r_conn (ss_rsp sess)) = false
  | inl APanic => ∃ t sess, w_dials w = Some t :: w_dials w' ∧
      w_dropped w' = w_dropped w ++ [sess] ∧ t_open (r_conn (ss_rsp sess)) = t_open t
  | inl (ASpawn _) => w_dropped w' = w_dropped w ∧ w_dials w' = w_dials w
  | inl (ADial _ port') => port' = port ∧ w_dropped w' = w_dropped w ∧
      (w_dials w = [] ∨ w_dials w = None :: w_dials w')
  end.
Proof.
  unfold ManagerAttach, spawn. unfold mbind at 1, M_bind at 1.
  destruct (SpawnPdebug fmtRest m port (w_net w)) as [[e|u] net]; [done|].
  unfold mbind at 1, M_bind at 1, DialRSP. cbn [w_dials w_net w_dropped].
  destruct (w_dials w) as [|[t|] ds] eqn:Ed; [by split_and!; [..|left]| |by split_and!; [..|right]].
  set (sess := NewSession (NewRSP t)). cbv beta iota.
  pose proof (Attach_pid pid sess) as Hpid. pose proof (opened_Attach (t_open t) pid sess) as Ho.
  destruct (RspSession.Attach pid sess) as [[e|sr] s'].
  - destruct e; cbn [modify throw]; try (split; [done|]; do 2 eexists; split_and!; [done..|apply Close_session_closed]).
    exists t, s'. split_and!; [done..|]. apply Ho. by apply opened_Command.
  - cbn [mret M_ret]. split_and!; [done..|]. by exists t.
Qed.
End releases.

(** C34: A failed attach leaves nothing open. Whatever the qconn daemon and the
    stub do, every connection [Manager.Attach] opened to the launcher is closed
    when it is over; it returns a session for the process it was asked for, on
    the one connection to the stub it dialled, or an error; when it dialled the
    stub and then failed to attach, that connection is closed before it
    returns, when it failed earlier there is none. The exception is the
    run-time panic of [parseStop], which unwinds past the close: the connection
    is then left as the dial gave it, open. *)
Theorem ManagerAttach_releases {P R} `{QPeer P} `{Peer R} fmtRest m pid port (w : world (P := P) (R := R)) :
  let '(r, w') := ManagerAttach fmtRest m pid port w in
  (∃ used, n_used (w_net w') = n_used (w_net w) ++ used ∧ Forall (λ f, t_open (f_conn f) = false) used) ∧
  match r with
  | inr sess => ss_pid sess = pid ∧ w_dropped w' = w_dropped w ∧ ∃ t, w_dials w = Some t :: w_dials w'
  | inl (AAttach pid' _) => pid' = pid ∧ ∃ t sess, w_dials w = Some t :: w_dials w' ∧
      w_dropped w' = w_dropped w ++ [sess] ∧ t_open (r_conn (ss_rsp sess)) = false
  | inl APanic => ∃ t sess, w_dials w = Some t :: w_dials w' ∧
      w_dropped w' = w_dropped w ++ [sess] ∧ t_open (r_conn (ss_rsp sess)) = t_open t
  | inl (ASpawn _) => w_dropped w' = w_dropped w ∧ w_dials w' = w_dials w
  | inl (ADial _ port') => port' = port ∧ w_dropped w' = w_dropped w ∧
      (w_dials w = [] ∨ w_dials w = None :: w_dials w')
  end.
Proof.
  pose proof (ManagerAttach_net fmtRest m pid port w) as Hn. pose proof (ManagerAttach_cases fmtRest m pid port w) as Hc.
  by destruct (ManagerAttach fmtRest m pid port w).
Qed.

(** ** Attaching works *)

Section attach.
Context {P R : Type} `{LauncherDaemon P} `{RspStub R}.
Variable fmtRest : list byte → Z → list byte.

(** A stub that has just accepted a connection. *)
Definition stubStream (p : R) : transport R := Transport p [] [] true.

(** One command of a session over a conforming stub. *)
Lemma command_stub (s : Session (RSP R)) q reply p' :
  ridle (ss_rsp s) → stub_reply (t_peer (r_conn (ss_rsp s))) q = Some (reply, p') → q ≠ noAckRequest →
  ∃ s', command q s = (inr reply, s') ∧ ridle (ss_rsp s') ∧ t_peer (r_conn (ss_rsp s')) = p'.
Proof.
  intros Hi Hq Hne. destruct (Command_stub_run (ss_rsp s) q reply p' Hi Hq) as [E Hi'].
  exists (RspSession.MkSession (rspAfter (ss_rsp s) q p') (ss_pid s)). split; [|by split; [apply Hi'; left|]].
  unfold command, onRsp. cbn [rsp_Command wire_link]. by rewrite E.
Qed.

Lemma ManagerAttach_ok m pid port (w : world (P := P) (R := R)) t fills late ds p0 stub es hello p1 stop p2 sr :
  n_dials (w_net w) = Some (t, fills, late) :: ds → greeted p0 t →
  w_dials w = Some (stubStream stub) :: es → stub_ready stub → stub_acks stub = true →
  stub_reply stub (str "qSupported:multiprocess+;vContSupported+") = Some (hello, p1) →
  stub_reply p1 (str "vAttach;" ++ fmt_x pid) = Some (stop, p2) →
  isError stop = false → stop ≠ [] → parseStop stop = Some sr →
  ∃ sess f, ManagerAttach fmtRest m pid port w =
      (inr sess, MkWorld (MkNetwork ds (n_used (w_net w) ++ [f])) es (w_dropped w)) ∧
    ss_pid sess = pid ∧ ridle (ss_rsp sess) ∧ t_peer (r_conn (ss_rsp sess)) = p2 ∧
    ∃ text q out, QconnClient.qd_reply p0 (str "service launcher") = Some (text, q) ∧
      peer_write q (spawnLine fmtRest m port ++ [x0a]) = (true, out, t_peer (f_conn f)).
Proof.
  intros Hd Hg Hes Hr Hack Hq1 Hq2 He Hne Hps.
  destruct (SpawnPdebug_sent fmtRest m port (w_net w) ds t fills late p0 Hd Hg) as (f & Esp & _ & _ & Hw).
  assert (ridle (NewRSP (stubStream stub))) as Hi0 by (by split_and!).
  destruct (Command_stub_run _ _ hello p1 Hi0 Hq1) as [E1 Hi1].
  set (s1 := NewSession (NewRSP (stubStream stub))).
  assert (ridle (ss_rsp s1) ∧ t_peer (r_conn (ss_rsp s1)) = p1) as [His1 Hp1].
  { unfold s1, NewSession. cbn [rsp_Command wire_link ss_rsp]. rewrite E1. split; [apply Hi1; by left|done]. }
  rewrite <- Hp1 in Hq2. destruct (command_stub s1 _ stop p2 His1 Hq2 ltac:(done)) as (s2 & E2 & Hi2 & Hp2).
  exists (RspSession.MkSession (ss_rsp s2) pid), f. split; [|done].
  unfold ManagerAttach, spawn. unfold mbind at 1, M_bind at 1. rewrite Esp. cbv iota beta.
  unfold mbind at 1, M_bind at 1, DialRSP. cbn [w_dials w_net w_dropped]. rewrite Hes. cbv iota beta. fold s1.
  assert (RspSession.Attach pid s1 = (inr sr, RspSession.MkSession (ss_rsp s2) pid)) as ->; [|done].
  unfold RspSession.Attach. step_ok E2. rewrite decide_False by (rewrite He; intros [?|?]; done).
  unfold mbind, M_bind, mret, M_ret, setPid, modify, stopOrPanic. by rewrite Hps.
Qed.
End attach.

(** Attaching through the mock target. The manager, pointed at the mock
    daemon, for every port and process: the launcher connection it uses ends
    with exactly the stub of that port started (and the target, on receiving
    the same line, starts a goroutine for the port unless one exists); dialling
    that stub it gets a session that is attached to the process and idle. *)
Theorem manager_attach_mock fmtRest host pid port fills late :
  0 <= port < 2 ^ 63 →
  (∃ sess f, ManagerAttach fmtRest (NewManager host) pid port
      (MkWorld (MkNetwork [Some (mockStream, fills, late)] []) [Some (stubStream (MkMockRsp [] false))] []) =
      (inr sess, MkWorld (MkNetwork [] [f]) [] []) ∧
    ss_pid sess = pid ∧ sidle sess ∧
    qs_started (t_peer (f_conn f)) = [port] ∧ qs_closed (t_peer (f_conn f)) = true) ∧
  (∀ tg i s, tg_conns tg !! i = Some s → mock_waiting s → qs_svc s = QconnClient.ServiceLauncher →
     tg_stubs (deliver i (spawnLine fmtRest (NewManager host) port ++ [x0a]) tg) =
       if decide (port ∈ tg_once tg) then tg_stubs tg else tg_stubs tg ++ [MkStub port Starting]).
Proof.
  intros Hp.
  assert (∀ s, mock_waiting s → qs_svc s = QconnClient.ServiceLauncher →
    snd (peer_write s (spawnLine fmtRest (NewManager host) port ++ [x0a])) =
      set_closed (set_started (qs_started s ++ [port]) s)) as Hline.
  { intros s Hw Hs. unfold spawnLine, startLine. rewrite launcher_write by (try done; apply escapeArg_line).
    cbn [snd NewManager m_PdebugCmd]. rewrite spawn_command, escapeArg_plain.
    - by rewrite startsPdebug_spawn.
    - rewrite !Forall_app. split_and!;
        [apply (bool_decide_unpack _); by vm_compute| |apply (bool_decide_unpack _); by vm_compute].
      rewrite fmt_d_nonneg by lia. eapply Forall_impl; [apply fmt_uint_digits; lia|].
      intros b [v Hv]. rewrite !not_elem_of_cons. split_and!; [intros ->; discriminate Hv..|]. apply not_elem_of_nil. }
  split.
  - destruct (ManagerAttach_ok fmtRest (NewManager host) pid port
      (MkWorld (MkNetwork [Some (mockStream, fills, late)] []) [Some (stubStream (MkMockRsp [] false))] [])
      mockStream fills late [] Serve_init (MkMockRsp [] false) [] (rspHandle (str "qSupported"))
      (MkMockRsp [] false) (str "T05thread:1;") (MkMockRsp [] false)
      (MkStopReply 5 (str "1") {[str "thread" := str "1"]} (str "T05thread:1;")) eq_refl mockStream_greeted)
      as (sess & f & E & Hpid & Hi & Hpeer & text & q & out & Hq & Hw); [done..|].
    exists sess, f. split; [exact E|]. split; [done|]. split; [done|].
    assert (q = MockServer.set_svc QconnClient.ServiceLauncher Serve_init) as ->.
    { vm_compute in Hq. by injection Hq as _ <-. }
    assert (t_peer (f_conn f) = snd (peer_write (MockServer.set_svc QconnClient.ServiceLauncher Serve_init)
      (spawnLine fmtRest (NewManager host) port ++ [x0a]))) as -> by (by rewrite Hw).
    rewrite Hline; [done| |done]. apply set_svc_waiting; [rewrite list_elem_of_In; simpl; tauto|exact Serve_init_waiting].
  - intros tg i s Hs Hw Hsvc. unfold deliver. rewrite Hs, Hline by done.
    assert (drop (length (qs_started s)) (qs_started (set_closed (set_started (qs_started s ++ [port]) s))) = [port])
      as -> by apply drop_app_length.
    cbn [foldl]. unfold startMockPdebug. cbn [tg_once]. by case_decide.
Qed.

Lemma manager_attach_mock_witness :
  (∃ sess f, ManagerAttach (λ t _, t) (NewManager (str "127.0.0.1")) 8200 18001
      (MkWorld (MkNetwork [Some (mockStream, replicate 300 0%nat, 0%nat)] []) [Some (stubStream (MkMockRsp [] false))] []) =
      (inr sess, MkWorld (MkNetwork [] [f]) [] []) ∧
    ss_pid sess = 8200 ∧ sidle sess ∧
    qs_started (t_peer (f_conn f)) = [18001] ∧ qs_closed (t_peer (f_conn f)) = true) ∧
  tg_stubs (deliver 0 (spawnLine (λ t _, t) (NewManager (str "127.0.0.1")) 18001 ++ [x0a])
      (MkTarget [MockServer.set_svc QconnClient.ServiceLauncher Serve_init] ∅ [] [])) = [MkStub 18001 Starting].
Proof.
  destruct (manager_attach_mock (λ t _, t) (str "127.0.0.1") 8200 18001 (replicate 300 0%nat) 0 ltac:(lia)) as [H1 H2].
  split; [exact H1|].
  rewrite (H2 (MkTarget [MockServer.set_svc QconnClient.ServiceLauncher Serve_init] ∅ [] []) 0%nat _ eq_refl); [done| |done].
  apply set_svc_waiting; [rewrite list_elem_of_In; simpl; tauto|exact Serve_init_waiting].
Defined.
