(* ===== verification/DsmsgConnect.v ===== *)
(** * Connecting on messages

    The connect handshake of [internal/qnxdbg/client.go] at the level of
    messages, its refinement by the one on bytes, and the class of agents that
    accept a debugger. *)

From stdpp Require Import base list numbers strings.
From Stdlib Require Import ZArith Lia Strings.Byte.
From S2P Require Import Prelude GoStrconv Transport Dsmsg DsmsgClient DsmsgLink DsmsgCommands.
From S2P Require Import DsmsgCommandFacts DsmsgMemory Pdebug.

Local Open Scope Z_scope.

(** What a dial reaches: an agent, with the messages it sends first. *)
Definition endpoint (P : Type) : Type := P * list (list byte).

Definition wire_of {P} (e : endpoint P) : transport P := Transport (fst e) (frames (snd e)) [] true.

Section handshake.
Context {P : Type} `{DsmsgTarget P}.
Implicit Types s : session P.

(** The next message, whatever it is. *)
Definition msg_readFrame : M dbg_error (session P) (list byte) := λ s,
  match s_inbox s with
  | [] => (inl EIO, s)
  | p :: ps => (inr p, Session (s_peer s) ps (s_sent s) (s_mid s) (s_output s))
  end.

Definition msg_writeFrame (p : list byte) : M dbg_error (session P) unit := λ s, (inr (), msg_send p s).

Definition msg_setMid (mid : byte) : M dbg_error (session P) unit :=
  modify (λ s, Session (s_peer s) (s_inbox s) (s_sent s) mid (s_output s)).

(** The reset is echoed; Connect and Protover go out as numbers 0 and 1. *)
Definition msg_handshake : M dbg_error (session P) unit :=
  reset ← wrap_err (EHandshake HsReset) msg_readFrame;
  msg_writeFrame reset ≫= λ _,
  msg_setMid x00 ≫= λ _,
  msg_writeFrame connectMsg ≫= λ _,
  wrap_err (EHandshake HsConnect) msg_readResponse ≫= λ _,
  msg_setMid x01 ≫= λ _,
  msg_writeFrame protoverMsg ≫= λ _,
  wrap_err (EHandshake HsProtover) msg_readResponse ≫= λ _,
  mret ().

(** A session just connected, or why there is none. *)
Definition msg_connect (e : endpoint P) : connect_err + session P :=
  match msg_handshake (Session (fst e) (snd e) [] x00 []) with
  | (inr _, s) => inr s
  | (inl err, _) => inl (CHandshake err)
  end.

Lemma refines_wrap {A} w (m : M _ _ A) am : refines (P := P) m am → refines (wrap_err w m) (wrap_err w am).
Proof.
  intros Hm s Hr. destruct (Hm s Hr) as [E Hr']. unfold wrap_err. rewrite E.
  by destruct (am s) as [[]].
Qed.

Lemma refines_readFrame : refines (P := P) readFrame msg_readFrame.
Proof.
  intros s Hr. unfold msg_readFrame. destruct s as [p [|m ms] sent mid out]; [done|]. split; [|done].
  cbn [s_inbox]. set (c := MkClient (Transport p [] (frame <$> sent) true) mid out).
  exact (readFrame_head c m (frames ms)).
Qed.

Lemma refines_writeFrame p : refines (P := P) (writeFrame p) (msg_writeFrame p).
Proof. intros s Hr. by apply writeFrame_client_of. Qed.

Lemma refines_setMid mid : refines (P := P) (modify (set_mid mid)) (msg_setMid mid).
Proof. by intros s Hr. Qed.

(** A request with a number of its own. *)
Lemma refines_numbered mid cmd body k ak :
  refines (P := P) k ak →
  refines (modify (set_mid mid) ≫= λ _, c ← get_state; writeFrame (header cmd x00 body c) ≫= λ _, k)
    (msg_setMid mid ≫= λ _, msg_writeFrame ([cmd; x00; mid; chanDebug] ++ body) ≫= λ _, (ak : M _ _ unit)).
Proof.
  intros Hk s Hr.
  set (s1 := Session (s_peer s) (s_inbox s) (s_sent s) mid (s_output s)).
  exact (refines_bind _ _ _ _ (refines_writeFrame ([cmd; x00; mid; chanDebug] ++ body)) (λ _, Hk) s1 Hr).
Qed.

Lemma refines_handshake : refines (P := P) handshake msg_handshake.
Proof.
  unfold handshake, msg_handshake.
  apply refines_bind; [apply refines_wrap, refines_readFrame|intros reset].
  apply refines_bind; [apply refines_writeFrame|intros _].
  apply refines_numbered. apply refines_bind; [apply refines_wrap, refines_readResponse|intros _].
  apply refines_numbered. apply refines_bind; [apply refines_wrap, refines_readResponse|intros _].
  apply refines_ret.
Qed.

(** [Connect] to an agent that speaks DSMSG. *)
Lemma clientOn_refines (e : endpoint P) :
  tgt_ready (fst e) →
  match msg_connect e with
  | inr s => clientOn (wire_of e) = inr (client_of s) ∧ tgt_ready (s_peer s)
  | inl err => ∃ t, clientOn (wire_of e) = inl (err, Some t) ∧ t_open t = false
  end.
Proof.
  intros Hr. unfold msg_connect, clientOn, newClient.
  set (s0 := Session (fst e) (snd e) [] x00 []).
  change (MkClient (wire_of e) x00 []) with (client_of s0).
  destruct (refines_handshake s0 Hr) as [-> Hr'].
  destruct (msg_handshake s0) as [[err|u] s]; [by eexists|done].
Qed.
End handshake.

(** ** Agents that accept a debugger *)

(** The requests of connecting, and those of attaching to a process that is
    admitted. *)
Inductive welcome (admits : Z → Prop) : byte → list byte → Prop :=
  | welcome_connect body : welcome admits cmdConnect body
  | welcome_protover body : welcome admits cmdProtover body
  | welcome_attach pid : admits pid → welcome admits cmdAttach (le32 (u32 pid))
  | welcome_select pid tid : admits pid → welcome admits cmdSelect (le32 (u32 pid) ++ le32 (u32 tid)).

(** An agent that opens with a reset message, expects it back, answers every
    request of connecting, and of attaching to a process it admits, with one
    reply that is no error, and leaves the memory of the process alone and its
    mind unchanged meanwhile. *)
Class DebugAgent (P : Type) `{ReadableTarget P} : Type := {
  da_reset : list byte;
  da_admits : P → Z → Prop;
  da_echo s : tgt_ready s →
    ∃ s', tgt_handle s da_reset = ([], s') ∧ rt_mem s' = rt_mem s ∧
      ∀ pid, da_admits s pid → da_admits s' pid;
  da_accept s cmd mid body : tgt_ready s → welcome (da_admits s) cmd body →
    ∃ code rbody s', tgt_handle s ([cmd; x00; mid; chanDebug] ++ body) =
        ([[code; x00; mid; chanDebug] ++ rbody], s') ∧ code ≠ respErr ∧ rt_mem s' = rt_mem s ∧
      ∀ pid, da_admits s pid → da_admits s' pid
}.

Section agent.
Context {P : Type} `{DebugAgent P}.
Implicit Types s : session P.

(** The session is at rest, in front of the memory of agent [p], and what it
    admitted is admitted still. *)
Definition resting (p : P) s : Prop :=
  idle s ∧ rt_mem (s_peer s) = rt_mem p ∧ ∀ pid, da_admits p pid → da_admits (s_peer s) pid.

(** One request of the handshake. *)
Lemma numbered_accepted p mid cmd body w s :
  welcome (da_admits (s_peer s)) cmd body → resting p s →
  ∃ s', resting p s' ∧
    (msg_setMid mid ≫= λ _, msg_writeFrame ([cmd; x00; mid; chanDebug] ++ body) ≫= λ _,
     wrap_err w msg_readResponse ≫= λ _, mret ()) s = (inr (), s').
Proof.
  intros Hw ([Hin Hr] & Hm & Ha).
  destruct (da_accept (s_peer s) cmd mid body Hr Hw) as (code & rb & p' & Hh & _ & Hm' & Ha').
  pose proof (tgt_handle_ready (s_peer s) ([cmd; x00; mid; chanDebug] ++ body) Hr) as Hr'.
  rewrite Hh in Hr'. exists (Session p' [] (s_sent s ++ [[cmd; x00; mid; chanDebug] ++ body]) mid (s_output s)).
  split; [split_and!; simpl; [done|congruence|auto]|].
  unfold msg_setMid, msg_writeFrame, msg_send, modify, wrap_err, msg_readResponse, mbind, M_bind.
  cbn [s_peer s_inbox s_sent s_mid s_output]. rewrite Hh, Hin. reflexivity.
Qed.

Lemma msg_connect_accepted p :
  tgt_ready p → ∃ s, msg_connect (p, [da_reset]) = inr s ∧ resting p s.
Proof.
  intros Hr. destruct (da_echo p Hr) as (p1 & He & Hm1 & Ha1).
  pose proof (tgt_handle_ready p da_reset Hr) as Hr1. rewrite He in Hr1. cbn [snd] in Hr1.
  unfold msg_connect, msg_handshake. cbn [fst snd].
  set (s0 := Session p [da_reset] [] x00 []). set (s1 := Session p [] [] x00 []).
  assert (wrap_err (EHandshake HsReset) msg_readFrame s0 = (inr da_reset, s1)) as E1 by done.
  assert (msg_writeFrame da_reset s1 = (inr (), Session p1 [] [da_reset] x00 [])) as E2
    by (unfold msg_writeFrame, msg_send; simpl; by rewrite He).
  set (s2 := Session p1 [] [da_reset] x00 []) in *.
  destruct (numbered_accepted p x00 cmdConnect [x00; x07; x00; x00] (EHandshake HsConnect) s2)
    as (s3 & Hs3 & E3); [constructor|done|].
  destruct (numbered_accepted p x01 cmdProtover [x00; x07] (EHandshake HsProtover) s3)
    as (s4 & Hs4 & E4); [constructor|done|].
  exists s4. split; [|done]. rewrite (bind_ok _ _ _ _ _ E1), (bind_ok _ _ _ _ _ E2).
  revert E3. unfold mbind at 1 2 3 4, M_bind at 1 2 3 4.
  change ([cmdConnect; x00; x00; chanDebug] ++ [x00; x07; x00; x00]) with connectMsg.
  change ([cmdProtover; x00; x01; chanDebug] ++ [x00; x07]) with protoverMsg in E4.
  cbn [msg_setMid modify msg_writeFrame]. intros E3.
  unfold mbind, M_bind in E3 |- *. cbn [msg_setMid modify msg_writeFrame] in E3 |- *.
  destruct (wrap_err (EHandshake HsConnect) msg_readResponse _) as [[e|r] s']; [done|].
  injection E3 as <-. unfold mbind, M_bind in E4. cbn [msg_setMid modify msg_writeFrame] in E4.
  by rewrite E4.
Qed.

(** A request of attaching. *)
Lemma accepted_transact p cmd body s :
  welcome (da_admits (s_peer s)) cmd body → resting p s →
  ∃ rsp s', transact cmd body s = (inr rsp, s') ∧ respCode rsp ≠ respErr ∧ resting p s'.
Proof.
  intros Hw ([Hin Hr] & Hm & Ha).
  destruct (da_accept (s_peer s) cmd (byte_add (s_mid s) x01) body Hr Hw) as (code & rb & p' & Hh & Hc & Hm' & Ha').
  pose proof (tgt_handle_ready (s_peer s) ([cmd; x00; byte_add (s_mid s) x01; chanDebug] ++ body) Hr) as Hr'.
  rewrite Hh in Hr'. eexists _, _.
  split; [apply (msg_transact_reply s cmd x00 body _ _ _ (conj Hin Hr) Hh eq_refl)|].
  split; [done|]. split_and!; simpl; [done|congruence|auto].
Qed.

Lemma orTargetError_accepted p e s : respCode p ≠ respErr → orTargetError p e s = (inr (), s).
Proof. intros Hc. unfold orTargetError. by rewrite decide_False. Qed.

Lemma Attach_accepted p pid s :
  da_admits p pid → resting p s → ∃ s', Attach pid s = (inr (), s') ∧ resting p s'.
Proof.
  intros Hp Hs. destruct (accepted_transact p cmdAttach (le32 (u32 pid)) s) as (rsp & s' & E & Hc & Hs');
    [constructor; by apply Hs|done|].
  exists s'. split; [|done]. unfold Attach. step_ok E. by apply orTargetError_accepted.
Qed.

Lemma Select_accepted p pid tid s :
  da_admits p pid → resting p s → ∃ s', Select pid tid s = (inr (), s') ∧ resting p s'.
Proof.
  intros Hp Hs. destruct (accepted_transact p cmdSelect (le32 (u32 pid) ++ le32 (u32 tid)) s)
    as (rsp & s' & E & Hc & Hs'); [constructor; by apply Hs|done|].
  exists s'. split; [|done]. unfold Select. step_ok E. by apply orTargetError_accepted.
Qed.
End agent.
