(* ===== verification/Dbgprobe.v ===== *)
(** * The debug probe

    [cmd/dbgprobe/main.go]: the two runs of the probe, attaching to a process
    and launching one, over any link to a debug agent. Every command's error
    is printed and, except where the probe gives up, passed over; what is
    printed is a list of events. *)

From stdpp Require Import base list numbers strings.
From Stdlib Require Import ZArith Lia Strings.Byte.
From S2P Require Import Prelude GoStrconv GoStrings Transport Dsmsg DsmsgClient DsmsgLink DsmsgCommands Pdebug MockDsmsg.

Local Open Scope Z_scope.

(** What the probe prints. *)
Inductive pevent :=
  | ConnectFailed (e : connect_err)
  | HandshakeOK
  | Failed (what : list byte) (e : dbg_error)
  | FailedAt (addr : Z) (e : dbg_error)
  | Launched (path : list byte) (pid tid : Z)
  | EntryPC (pc : Z)
  | Segment (s : MapSegment)
  | HandlesigAccepted
  | StoppedAtMain (code : byte) (pc want : Z)
  | Attached (pid : Z)
  | SelectedTid1
  | Registers (b : list byte)
  | Mem (addr : Z) (b : list byte)
  | PC (pc : Z)
  | BreakSet (addr : Z)
  | Stopped (st : Stop)
  | PCAtStop (pc want : Z)
  | Stepped (code : byte) (pc was : Z)
  | Detached.

Record options := MkOptions {
  o_pid : Z; o_rd : list byte; o_exec : bool; o_brk : list byte; o_launch : list byte; o_main : list byte
}.

Definition trimHex (s : list byte) : list byte :=
  if decide ((2 < length s)%nat ∧ (take 2 s = str "0x" ∨ take 2 s = str "0X")) then drop 2 s else s.

(** [strconv.ParseUint(trimHex(s), 16, 64)] with its error ignored. *)
Definition hexArg (s : list byte) : Z := fst (ParseUint (trimHex s) 16 64).

(** ** Running commands and printing *)

(** A run of the probe: the link and what is printed. It has no error of its
    own. *)
Definition Io (S A : Type) : Type := S * list pevent → A * (S * list pevent).

#[export] Instance Io_ret {S} : MRet (Io S) := λ A a s, (a, s).
#[export] Instance Io_bind {S} : MBind (Io S) := λ A B f m s, let '(a, s) := m s in f a s.

Definition say {S} (e : pevent) : Io S unit := λ s, ((), (fst s, snd s ++ [e])).

(** A command; its error is the caller's business. *)
Definition cmd {S A} (m : M dbg_error S A) : Io S (dbg_error + A) := λ s,
  let '(r, s1) := m (fst s) in (r, (s1, snd s)).

(** [if err := m; err != nil { println } else { ok }]. *)
Definition report {S A} (m : M dbg_error S A) (bad : dbg_error → pevent) (ok : A → Io S unit) : Io S unit :=
  r ← cmd m; match r with inl e => say (bad e) | inr a => ok a end.

Section probe.
Context {S : Type} `{Link S}.

(** [readPC]: zero when the register cannot be read. *)
Definition readPC : Io S Z :=
  r ← cmd (ReadRegisters 0x100 8);
  mret (match r with inr b => if decide (length b = 8%nat) then le_get b else 0 | inl _ => 0 end).

Definition noErr {A} (m : M dbg_error S (A * option dbg_error)) : M dbg_error S A :=
  '(a, e) ← m; match e with Some e => throw e | None => mret a end.

(** ** Launching *)

Definition sayAll (es : list pevent) : Io S unit := λ s, ((), (fst s, snd s ++ es)).

(** From a successful launch on. *)
Definition launched (o : options) (res : LaunchResult) : Io S unit :=
  say (Launched (o_launch o) (lr_pid res) (lr_tid res)) ≫= λ _,
  report (Select (lr_pid res) (lr_tid res)) (Failed (str "select:")) (λ _, mret ()) ≫= λ _,
  pc ← readPC;
  say (EntryPC pc) ≫= λ _,
  report (MapInfo (lr_pid res)) (Failed (str "mapinfo:")) (λ raw, sayAll (Segment <$> ParseMapInfo raw)) ≫= λ _,
  report (HandleSig (replicate NumSignals x01)) (Failed (str "handlesig:")) (λ _, say HandlesigAccepted) ≫= λ _,
  let m := hexArg (o_main o) in
  (if m =? 0 then mret ()
   else report (SetBreakpoint m 0) (Failed (str "break main:")) (λ _,
     report Continue (Failed (str "continue:")) (λ st,
       pc ← readPC; say (StoppedAtMain (st_code st) pc m)))) ≫= λ _,
  cmd (Kill (lr_pid res)) ≫= λ _, mret ().

(** The exit code. *)
Definition launchRun (o : options) : Io S Z :=
  r ← cmd (Launch (o_launch o) [] None);
  match r with
  | inl e => say (Failed (str "launch:") e) ≫= λ _, mret 1
  | inr res => launched o res ≫= λ _, mret 0
  end.

(** ** Attaching *)

Definition execTest (rdAddr : Z) : Io S unit :=
  r ← cmd (ReadRegisters 0x100 8);
  pcAddr ← match r with
    | inr pcb =>
        if decide (length pcb = 8%nat) then
          let pc := le_get pcb in
          say (PC pc) ≫= λ _, mret (if pc =? 0 then rdAddr else pc)
        else mret rdAddr
    | inl _ => mret rdAddr
    end;
  report (SetBreakpoint pcAddr 4) (FailedAt pcAddr) (λ _,
    say (BreakSet pcAddr) ≫= λ _, cmd (ClearBreakpoint pcAddr) ≫= λ _, mret ()).

Definition runTo (brkAddr : Z) : Io S unit :=
  report (SetBreakpoint brkAddr 0) (FailedAt brkAddr) (λ _,
    say (BreakSet brkAddr) ≫= λ _,
    report Continue (Failed (str "continue:")) (λ st,
      say (Stopped st) ≫= λ _,
      pc ← readPC;
      say (PCAtStop pc brkAddr) ≫= λ _,
      report (ClearBreakpoint brkAddr) (Failed (str "clear before step:")) (λ _, mret ()) ≫= λ _,
      report (Step 1) (Failed (str "step:")) (λ sst,
        pc ← readPC; say (Stepped (st_code sst) pc brkAddr)))).

(** From a successful attach on. *)
Definition attached (o : options) : Io S unit :=
  say (Attached (o_pid o)) ≫= λ _,
  report (Select (o_pid o) 1) (Failed (str "select:")) (λ _, say SelectedTid1) ≫= λ _,
  report (ReadRegisters 0 0x230) (Failed (str "regrd:")) (λ regs, say (Registers regs)) ≫= λ _,
  let rdAddr := hexArg (o_rd o) in
  (if rdAddr =? 0 then mret ()
   else report (noErr (ReadMemory rdAddr 32)) (Failed (str "memrd:")) (λ mem, say (Mem rdAddr mem))) ≫= λ _,
  (if o_exec o then execTest rdAddr else mret ()) ≫= λ _,
  let brkAddr := hexArg (o_brk o) in
  (if brkAddr =? 0 then mret () else runTo brkAddr) ≫= λ _,
  report (Detach (o_pid o)) (Failed (str "detach:")) (λ _, say Detached).

Definition attachRun (o : options) : Io S unit :=
  if o_pid o =? 0 then mret ()
  else report (Attach (o_pid o)) (Failed (str "attach:")) (λ _, attached o).
End probe.

(** ** The program *)

(** The exit code, the client unless the connection failed, and the output.
    Leaving through [os.Exit] skips the deferred close. *)
Definition main {D} `{Peer D} (o : options) (dial : option (transport D))
  : Z * option (Client D) * list pevent :=
  match Connect dial with
  | inl (e, _) => (1, None, [ConnectFailed e])
  | inr c =>
      if decide (o_launch o ≠ []) then
        let '(code, (c, out)) := launchRun o (c, [HandshakeOK]) in
        (code, Some (if code =? 0 then snd (Close c) else c), out)
      else
        let '(_, (c, out)) := attachRun o (c, [HandshakeOK]) in (0, Some (snd (Close c)), out)
  end.

(** ** What the probe asks of the agent *)

Definition request : Type := byte * byte * list byte.

(** A link that keeps the requests that pass through it. *)
#[export] Instance recorder {S} `{Link S} : Link (S * list request) := {
  link_transactSub c sub body := λ s,
    let '(r, s1) := link_transactSub c sub body (fst s) in (r, (s1, snd s ++ [(c, sub, body)]));
  link_readResponse := λ s, let '(r, s1) := link_readResponse (fst s) in (r, (s1, snd s))
}.

Section requests.
Context {S : Type} `{Link S}.

(** Whatever happens, [r] is the last request of the run. *)
Definition ends {A} (r : request) (m : Io (S * list request) A) : Prop :=
  ∀ s, last (snd (fst (snd (m s)))) = Some r.

Lemma ends_bind {A B} r (m : Io (S * list request) A) (f : A → Io (S * list request) B) :
  (∀ a, ends r (f a)) → ends r (m ≫= f).
Proof. intros Hf s. unfold mbind, Io_bind. destruct (m s). apply Hf. Qed.

Lemma ends_ret {A} r (m : Io (S * list request) A) (a : A → unit) :
  ends r m → ends r (m ≫= λ x, mret (a x)).
Proof. intros Hm s. specialize (Hm s). unfold mbind, Io_bind. by destruct (m s). Qed.

(** A request with a reply that is only looked at. *)
Lemma record_transact {A} c sub body (k : list byte → M dbg_error (S * list request) A) s :
  (∀ p s', snd (k p s') = s') →
  snd (snd ((link_transactSub c sub body ≫= k) s)) = snd s ++ [(c, sub, body)].
Proof.
  intros Hk. unfold mbind, M_bind. simpl. destruct (link_transactSub c sub body (fst s)) as [[e|p] s1]; [done|].
  by rewrite Hk.
Qed.

Lemma orTargetError_state p e (s : S * list request) : snd (orTargetError p e s) = s.
Proof. unfold orTargetError. by case_decide. Qed.

Lemma record_Attach pid (s : S * list request) :
  snd (snd (Attach pid s)) = snd s ++ [(cmdAttach, x00, le32 (u32 pid))].
Proof. apply record_transact. intros. apply orTargetError_state. Qed.

Lemma record_Detach pid (s : S * list request) :
  snd (snd (Detach pid s)) = snd s ++ [(cmdDetach, x00, le32 (u32 pid))].
Proof. apply record_transact. intros. apply orTargetError_state. Qed.

Lemma record_Kill pid (s : S * list request) :
  snd (snd (Kill pid s)) = snd s ++ [(cmdKill, x00, le32 (u32 pid))].
Proof. apply record_transact. intros. apply orTargetError_state. Qed.

Lemma ends_cmd {A} r (m : M dbg_error (S * list request) A) :
  (∀ s, last (snd (snd (m s))) = Some r) → ends r (cmd m).
Proof. intros Hm s. unfold cmd. specialize (Hm (fst s)). by destruct (m (fst s)). Qed.

Lemma attached_ends o : ends (cmdDetach, x00, le32 (u32 (o_pid o))) (attached o).
Proof.
  unfold attached. cbv zeta. do 6 (apply ends_bind; intros ?).
  intros s. unfold report, mbind, Io_bind, cmd.
  pose proof (record_Detach (o_pid o) (fst s)) as Hd.
  destruct (Detach (o_pid o) (fst s)) as [[e|u] s1]; simpl in *; by rewrite Hd, last_snoc.
Qed.

Lemma launched_ends o res : ends (cmdKill, x00, le32 (u32 (lr_pid res))) (launched o res).
Proof.
  unfold launched. cbv zeta. do 7 (apply ends_bind; intros ?).
  apply (ends_ret _ _ (λ _, ())), ends_cmd. intros s. by rewrite record_Kill, last_snoc.
Qed.
End requests.

(** C37: The probe lets go of what it took hold of. Over any agent, whatever
    fails on the way: after a successful attach the last request is the detach
    of that process, and after a refused one the attach was the only request;
    after a successful launch the last request kills the launched process. *)
Theorem probe_releases {S} `{Link S} (o : options) (s : S) :
  (o_pid o ≠ 0 →
   let reqs := snd (fst (snd (attachRun o ((s, []), [])))) in
   match fst (Attach (o_pid o) (s, [] : list request)) with
   | inr _ => last reqs = Some (cmdDetach, x00, le32 (u32 (o_pid o)))
   | inl _ => reqs = [(cmdAttach, x00, le32 (u32 (o_pid o)))]
   end) ∧
  (let '(code, (_, reqs, _)) := launchRun o ((s, []), []) in
   match fst (Launch (o_launch o) [] None (s, [] : list request)) with
   | inr res => code = 0 ∧ last reqs = Some (cmdKill, x00, le32 (u32 (lr_pid res)))
   | inl _ => code = 1
   end).
Proof.
  split.
  - intros Hpid. unfold attachRun. rewrite (proj2 (Z.eqb_neq _ _) Hpid).
    pose proof (record_Attach (o_pid o) (s, [])) as Ha.
    unfold report, mbind, Io_bind, cmd. simpl.
    destruct (Attach (o_pid o) (s, [])) as [[e|u] s1]; simpl in *; [done|]. apply attached_ends.
  - unfold launchRun, mbind, Io_bind, cmd. simpl.
    destruct (Launch (o_launch o) [] None (s, [])) as [[e|res] s1]; simpl; [by destruct s1|].
    pose proof (launched_ends o res (s1, [])) as Hl. unfold request in *.
    destruct (launched o res (s1, [])) as [u [[s2 reqs] out]]. by split.
Qed.

(** The probe on the mock agent: attach, run to a breakpoint, detach. *)
Definition mockProbe : options := MkOptions 77 (str "0x1000") true (str "2000") [] [].

Lemma probe_releases_witness :
  let reqs := snd (fst (snd (attachRun mockProbe ((mock_connected, []), [])))) in
  length reqs = 14%nat ∧ last reqs = Some (cmdDetach, x00, le32 (u32 (o_pid mockProbe))).
Proof.
  assert (fst (Attach (o_pid mockProbe) (mock_connected, [] : list request)) = inr ()) as E by (by vm_compute).
  destruct (probe_releases mockProbe mock_connected) as [Ha _].
  cbv zeta in *. rewrite E in Ha. split; [vm_compute; reflexivity|]. apply Ha. discriminate.
Defined.
