(* ===== verification/McpText.v ===== *)
(** * What the MCP tools make of raw blocks

    The pure helpers of [internal/mcpserver/tools_debug.go] and
    [tools_files.go]: strings found in a reply block, the register block, and
    the test for inline text; and the bearer-token check of [server.go]. *)

From stdpp Require Import base list numbers strings gmap.
From Stdlib Require Import ZArith Lia Strings.Byte.
From S2P Require Import Prelude GoStrconv GoStrings DsmsgClient DsmsgCommands.

Local Open Scope Z_scope.

(** ** Strings in a block *)

Definition printable (c : byte) : bool := (0x20 <=? Z_of_byte c) && (Z_of_byte c <? 0x7f).

(** [flush]: keep a run of two or more. *)
Definition flush (out : list (list byte)) (cur : list byte) : list (list byte) :=
  if decide (2 ≤ length cur)%nat then out ++ [cur] else out.

Fixpoint printableStrings_loop (out : list (list byte)) (cur b : list byte) : list (list byte) :=
  match b with
  | [] => flush out cur
  | c :: b =>
      if printable c then printableStrings_loop out (cur ++ [c]) b
      else printableStrings_loop (flush out cur) [] b
  end.

Definition printableStrings (b : list byte) : list (list byte) := printableStrings_loop [] [] b.

Definition longestString (ss : list (list byte)) : list byte :=
  foldl (λ best s, if decide (length best < length s)%nat then s else best) [] ss.

(** [isPrintable]: a megabyte at most, no control bytes but white space. *)
Definition isPrintable (b : list byte) : bool :=
  if decide (Z.shiftl 1 20 < Z.of_nat (length b)) then false
  else forallb (λ c, negb ((Z_of_byte c =? 0) || (Z_of_byte c <? 0x09) ||
                           ((0x0d <? Z_of_byte c) && (Z_of_byte c <? 0x20)))) b.

(** What that comes to: nothing is asked about the encoding. *)
Definition inlinable (b : list byte) : Prop :=
  Z.of_nat (length b) <= 2 ^ 20 ∧ Forall (λ c, 9 <= Z_of_byte c <= 13 ∨ 32 <= Z_of_byte c) b.

Lemma isPrintable_spec b : isPrintable b = true ↔ inlinable b.
Proof.
  unfold isPrintable, inlinable. change (Z.shiftl 1 20) with (2 ^ 20). case_decide; [split; [done|lia]|].
  rewrite forallb_forall, Forall_forall. setoid_rewrite list_elem_of_In.
  assert (∀ c, negb ((Z_of_byte c =? 0) || (Z_of_byte c <? 9) || ((13 <? Z_of_byte c) && (Z_of_byte c <? 32))) = true ↔
    9 <= Z_of_byte c <= 13 ∨ 32 <= Z_of_byte c) as Hc.
  { intros c. pose proof (Z_of_byte_range c). rewrite negb_true_iff, !orb_false_iff, andb_false_iff,
      Z.eqb_neq, !Z.ltb_ge. lia. }
  split; [intros Hb|intros [_ Hb]]; [split; [lia|]|]; intros c Hin; apply Hc, Hb, Hin.
Qed.

(** ** Registers *)

(** [rd(off)]. *)
Definition rd (b : list byte) (off : nat) : option Z :=
  if decide (length b < off + 8)%nat then None else Some (le_get (slice off (off + 8) b)).

Definition putReg (b : list byte) (name : list byte) (off : nat) (out : gmap (list byte) (list byte))
  : gmap (list byte) (list byte) :=
  match rd b off with Some v => <[name := fmt_sharp_x v]> out | None => out end.

Definition decodeAArch64 (b : list byte) : gmap (list byte) (list byte) :=
  let out := foldl (λ out i, putReg b (str "x" ++ fmt_d (Z.of_nat i)) (i * 8) out) ∅ (seq 0 31) in
  let out := putReg b (str "sp") (31 * 8) out in
  let out := putReg b (str "pc") 0x100 out in
  putReg b (str "pstate") 0x108 out.

(** ** Authentication *)

(** [subtle.ConstantTimeCompare(x, y)]: the differences of all bytes, or-ed. *)
Definition ConstantTimeCompare (x y : list byte) : Z :=
  if decide (length x = length y) then
    if foldl (λ v xy, Z.lor v (Z.lxor (Z_of_byte xy.1) (Z_of_byte xy.2))) 0 (zip x y) =? 0 then 1 else 0
  else 0.

(** [withAuth]: does a request with this Authorization header pass? *)
Definition withAuth (token authorization : list byte) : bool :=
  if decide (token = []) then true
  else bool_decide (ConstantTimeCompare authorization (str "Bearer " ++ token) = 1).

(** ** Facts: strings *)

(** A block: printable runs, each behind bytes that are not. *)
Definition block (runs : list (list byte * list byte)) (tail : list byte) : list byte :=
  (runs ≫= λ r, r.1 ++ r.2) ++ tail.

Definition isRun (s : list byte) : Prop := Forall (λ c, printable c = true) s.
Definition isGap (s : list byte) : Prop := Forall (λ c, printable c = false) s.

Lemma flush_nil out : flush out [] = out.
Proof. done. Qed.

Lemma loop_run out cur s b :
  isRun s → printableStrings_loop out cur (s ++ b) = printableStrings_loop out (cur ++ s) b.
Proof.
  intros Hs. revert cur. induction Hs as [|c s Hc Hs IH]; intros cur; [by rewrite app_nil_r|].
  cbn [app printableStrings_loop]. by rewrite Hc, IH, <- app_assoc.
Qed.

Lemma loop_gap out cur s b :
  isGap s → s ≠ [] → printableStrings_loop out cur (s ++ b) = printableStrings_loop (flush out cur) [] b.
Proof.
  intros Hs. revert out cur. induction Hs as [|c s Hc Hs IH]; intros out cur Hne; [done|].
  cbn [app printableStrings_loop]. rewrite Hc. destruct s as [|d s]; [done|].
  rewrite IH by done. by rewrite flush_nil.
Qed.

(** The strings of a block. A block is runs of printable bytes separated
    by others; exactly the runs of two bytes or more are returned, in order. *)
Theorem printableStrings_runs (runs : list (list byte * list byte)) (tail : list byte) :
  Forall (λ r, isGap r.1 ∧ r.1 ≠ [] ∧ isRun r.2) runs → isGap tail →
  printableStrings (block runs tail) = filter (λ s, (2 ≤ length s)%nat) runs.*2.
Proof.
  intros Hr Ht. unfold printableStrings, block.
  assert (∀ out cur, isRun cur →
    printableStrings_loop out cur ((runs ≫= λ r, r.1 ++ r.2) ++ tail) =
      flush out cur ++ filter (λ s, (2 ≤ length s)%nat) runs.*2) as Hg.
  { induction Hr as [|[gap run] runs (Hgap & Hne & Hrun) Hr IH]; intros out cur Hcur.
    - cbn [mbind list_bind fmap list_fmap filter list_filter]. rewrite app_nil_r. cbn [app].
      destruct tail as [|c tail]; [done|]. rewrite <- (app_nil_r (c :: tail)), loop_gap by done. done.
    - change (((gap, run) :: runs) ≫= λ r, r.1 ++ r.2) with ((gap ++ run) ++ (runs ≫= λ r, r.1 ++ r.2)).
      rewrite <- !app_assoc. cbn [fst snd] in *. rewrite loop_gap, loop_run by done. cbn [app].
      rewrite IH by done. cbn [fmap list_fmap snd]. rewrite filter_cons. unfold flush.
      repeat case_decide; by rewrite <- ?app_assoc. }
  rewrite Hg by constructor. done.
Qed.

Lemma printableStrings_runs_witness :
  printableStrings ([x00; x01] ++ str "main" ++ [x00] ++ str "x" ++ [x00] ++ str "worker-1" ++ [x00]) =
    [str "main"; str "worker-1"].
Proof.
  refine (eq_trans (printableStrings_runs [([x00; x01], str "main"); ([x00], str "x"); ([x00], str "worker-1")]
    [x00] _ _) eq_refl); [|by repeat constructor].
  repeat (apply List.Forall_cons; [split_and!; [by repeat constructor|done|by repeat constructor]|]).
  apply List.Forall_nil.
Defined.

(** ** Facts: registers *)

(** The registers in the order of the block. *)
Definition regNames : list (list byte) :=
  ((λ i, str "x" ++ fmt_d (Z.of_nat i)) <$> seq 0 31) ++ [str "sp"; str "pc"; str "pstate"].

Lemma regNames_nodup : NoDup regNames.
Proof. apply (bool_decide_unpack _). vm_compute. done. Qed.

(** The decoder is one store per register, in order. *)
Lemma decodeAArch64_fold b :
  decodeAArch64 b = foldl (λ out ir, putReg b ir.2 (ir.1 * 8)%nat out) ∅ (zip (seq 0 34) regNames).
Proof. reflexivity. Qed.

Lemma putReg_lookup b name off out n :
  putReg b name off out !! n = if decide (n = name ∧ is_Some (rd b off)) then fmt_sharp_x <$> rd b off else out !! n.
Proof.
  unfold putReg. destruct (rd b off) as [v|].
  - destruct (decide (n = name)) as [->|Hne].
    + rewrite lookup_insert_eq, decide_True by eauto. done.
    + rewrite lookup_insert_ne, decide_False by (done || by intros []). done.
  - rewrite decide_False by (intros [_ [? ?]]; done). done.
Qed.

Lemma putRegs_lookup b l n i out :
  NoDup l.*2 → l !! i = Some n →
  foldl (λ out ir, putReg b ir.2 (ir.1 * 8)%nat out) out l !! n.2 =
    match rd b (n.1 * 8) with Some v => Some (fmt_sharp_x v) | None => out !! n.2 end.
Proof.
  revert i out. induction l as [|[k m] l IH]; intros i out Hnd Hi; [done|].
  cbn [fmap list_fmap snd] in Hnd. apply NoDup_cons in Hnd as [Hm Hnd]. cbn [foldl fst snd].
  assert (∀ o, m ∉ l.*2 → foldl (λ out ir, putReg b ir.2 (ir.1 * 8)%nat out) o l !! m = o !! m) as Hkeep.
  { clear. induction l as [|[k' m'] l IH]; intros o Hm; [done|]. cbn [foldl fst snd].
    cbn [fmap list_fmap snd] in Hm. apply not_elem_of_cons in Hm as [Hne Hm].
    rewrite IH, putReg_lookup, decide_False by (done || by intros []). done. }
  destruct i as [|i]; cbn in Hi.
  - injection Hi as <-. cbn [fst snd]. rewrite Hkeep, putReg_lookup by done.
    destruct (rd b (k * 8)) eqn:E; [by rewrite decide_True by (split; eauto)|].
    rewrite decide_False; [done|]. by intros [_ [? ?]].
  - rewrite (IH i) by done. destruct (rd b (n.1 * 8)); [done|].
    rewrite putReg_lookup, decide_False; [done|]. intros [En _].
    apply Hm. rewrite <- En. apply list_elem_of_fmap. exists n. split; [done|]. by eapply list_elem_of_lookup_2.
Qed.

(** Register [i] of a block of 64-bit values, with a piece of one behind. *)
Lemma rd_block vs tail i :
  (length tail < 8)%nat → rd (concat (le64 <$> vs) ++ tail) (i * 8) = (λ v, v `mod` 2 ^ 64) <$> vs !! i.
Proof.
  intros Ht. revert i. induction vs as [|v vs IH]; intros i; [unfold rd; by rewrite decide_True by (simpl; lia)|].
  cbn [fmap list_fmap concat]. assert (length (le64 v) = 8%nat) as Hl by apply length_le_put.
  rewrite <- app_assoc. unfold rd in *. rewrite length_app, Hl. destruct i as [|i].
  - rewrite decide_False by lia. unfold slice. rewrite drop_0, take_app_le, take_ge by (rewrite Hl; lia).
    unfold le64. by rewrite le_get_put.
  - specialize (IH i). change ((v :: vs) !! S i) with (vs !! i). rewrite <- IH.
    assert (slice (S i * 8) (S i * 8 + 8) (le64 v ++ concat (le64 <$> vs) ++ tail) =
      slice (i * 8) (i * 8 + 8) (concat (le64 <$> vs) ++ tail)) as ->.
    { unfold slice. rewrite drop_app_ge by lia. rewrite Hl. replace (S i * 8 - 8)%nat with (i * 8)%nat by lia. done. }
    repeat case_decide; try done; lia.
Qed.

(** C36: Register decoding. A block of any length is a number of 64-bit
    registers and fewer than eight bytes behind them. Of such a block x0 to
    x30, sp, pc and pstate are each reported with the value at their place,
    registers of which not all eight bytes are there are left out, and nothing
    else is reported. *)
Theorem decodeAArch64_registers (vs : list Z) (tail : list byte) :
  (length tail < 8)%nat →
  let b := concat (le64 <$> vs) ++ tail in
  (∀ i name, regNames !! i = Some name →
    decodeAArch64 b !! name = (λ v, fmt_sharp_x (v `mod` 2 ^ 64)) <$> vs !! i) ∧
  (∀ name, name ∉ regNames → decodeAArch64 b !! name = None).
Proof.
  intros Ht b. rewrite decodeAArch64_fold.
  assert ((zip (seq 0 34) regNames).*2 = regNames) as Hz by (by apply snd_zip).
  split.
  - intros i name Hi.
    assert (zip (seq 0 34) regNames !! i = Some (i, name)) as Hl.
    { apply lookup_zip_Some. split; [|done]. apply lookup_seq. split; [done|].
      apply lookup_lt_Some in Hi. exact Hi. }
    rewrite (putRegs_lookup _ _ (i, name) i) by (by rewrite ?Hz; try apply regNames_nodup).
    cbn [fst snd]. unfold b. rewrite rd_block by done. by destruct (vs !! i).
  - intros name Hn. rewrite <- Hz in Hn. revert Hn. generalize (zip (seq 0 34) regNames). intros l.
    assert (∀ o, name ∉ l.*2 → o !! name = None →
      foldl (λ out ir, putReg b ir.2 (ir.1 * 8)%nat out) o l !! name = None) as Hg;
      [|intros Hl; apply Hg; [exact Hl | apply lookup_empty]].
    induction l as [|[k m] l IH]; intros o Hn Ho; [done|]. cbn [foldl fst snd].
    cbn [fmap list_fmap snd] in Hn. apply not_elem_of_cons in Hn as [Hne Hn].
    apply IH; [done|]. rewrite putReg_lookup, decide_False by (by intros []). done.
Qed.

(** Twelve bytes: x0, and half of x1. *)
Lemma decodeAArch64_registers_witness :
  decodeAArch64 ([x2a; x00; x00; x00; x00; x00; x00; x00] ++ [x01; x02; x03; x04]) !! str "x0" = Some (str "0x2a") ∧
  decodeAArch64 ([x2a; x00; x00; x00; x00; x00; x00; x00] ++ [x01; x02; x03; x04]) !! str "x1" = None.
Proof.
  destruct (decodeAArch64_registers [42] [x01; x02; x03; x04]) as [Hr _]; [simpl; lia|].
  split; [exact (Hr 0%nat (str "x0") eq_refl)|exact (Hr 1%nat (str "x1") eq_refl)].
Defined.

(** ** Facts: authentication *)

Lemma lor_fold_zero l v :
  0 <= v →
  foldl (λ v (xy : byte * byte), Z.lor v (Z.lxor (Z_of_byte xy.1) (Z_of_byte xy.2))) v l = 0 ↔
  v = 0 ∧ Forall (λ xy, xy.1 = xy.2) l.
Proof.
  revert v. induction l as [|[x y] l IH]; intros v Hv; cbn [foldl fst snd].
  - split; [by intros ->|by intros []].
  - pose proof (Z_of_byte_range x). pose proof (Z_of_byte_range y).
    assert (0 <= Z.lxor (Z_of_byte x) (Z_of_byte y)) as Hx by (apply Z.lxor_nonneg; lia).
    rewrite IH by (by apply Z.lor_nonneg). rewrite Z.lor_eq_0_iff, Z.lxor_eq_0_iff, Forall_cons.
    cbn [fst snd]. split; [|by intros (-> & -> & ?)].
    intros ((-> & E) & ?). split_and!; [done|by apply Z_of_byte_inj|done].
Qed.

Lemma ConstantTimeCompare_eq x y : ConstantTimeCompare x y = 1 ↔ x = y.
Proof.
  unfold ConstantTimeCompare. case_decide as Hl; [|by split; [|intros ->]].
  destruct (Z.eqb_spec (foldl (λ v xy, Z.lor v (Z.lxor (Z_of_byte xy.1) (Z_of_byte xy.2))) 0 (zip x y)) 0) as [E|E];
    rewrite lor_fold_zero in E by lia.
  - destruct E as [_ E]. split; [|done]. intros _. revert y Hl E.
    induction x as [|a x IH]; intros [|b y] Hl E; try done.
    cbn in E. apply Forall_cons in E as [Eab E]. cbn in Eab. subst. f_equal. apply IH; [by injection Hl|done].
  - split; [done|]. intros ->. destruct E. split; [done|]. clear.
    induction y as [|b y IH]; constructor; done.
Qed.

(** Authentication. With a token configured a request passes exactly when
    its Authorization header is [Bearer] and the token, byte for byte, although
    the comparison looks at every byte; without one every request passes. *)
Theorem withAuth_exact (token authorization : list byte) :
  withAuth token authorization = true ↔ token = [] ∨ authorization = str "Bearer " ++ token.
Proof.
  unfold withAuth. case_decide as Ht; [tauto|]. rewrite bool_decide_eq_true, ConstantTimeCompare_eq.
  tauto.
Qed.
