(* ===== verification/McpTypes.v ===== *)
(** * The requests and results of the MCP tools

    The input and output structs of [internal/mcpserver/tools_*.go], one record
    per struct with its fields in their order; a [string] is its bytes, an
    [int] or [uint64] a number. *)

From stdpp Require Import base list numbers strings gmap.
From Stdlib Require Import ZArith Strings.Byte.
From S2P Require Import Prelude GoEncoding DsmsgClient DsmsgCommands.
From S2P Require QconnPidin.

Local Open Scope Z_scope.

(** ** System, processes *)

Record systemInfoOut := MkSystemInfoOut {
  sio_Target : list byte;
  sio_Attributes : gmap (list byte) (list byte)
}.

Record listServicesOut := MkListServicesOut { lso_Services : gmap (list byte) Z }.

Record systemMemoryOut := MkSystemMemoryOut {
  smo_Summary : gmap (list byte) (list byte);
  smo_Raw : list byte
}.

Record listProcessesOut := MkListProcessesOut {
  lpo_Processes : list QconnPidin.Process;
  lpo_Count : Z;
  lpo_Raw : list byte
}.

Record pidIn := MkPidIn { pi_PID : Z }.

Record processInfoOut := MkProcessInfoOut {
  pio_Process : QconnPidin.Process;
  pio_Raw : list byte
}.

Record processMemoryOut := MkProcessMemoryOut {
  pmo_Usage : list QconnPidin.MemUsage;
  pmo_Raw : list byte
}.

Record resourcesIn := MkResourcesIn { ri_PID : Z; ri_Kind : list byte }.

Record resourcesOut := MkResourcesOut {
  ro_Lines : list (list byte);
  ro_Raw : list byte
}.

(** ** Memory *)

Record memMapOut := MkMemMapOut {
  mmo_Segments : list QconnPidin.MapSegment;
  mmo_Raw : list byte
}.

Record readMemIn := MkReadMemIn { rmi_PID : Z; rmi_Addr : Z; rmi_Length : Z }.

Record readMemOut := MkReadMemOut {
  rmo_Addr : Z;
  rmo_Length : Z;
  rmo_Hex : list byte;
  rmo_Base64 : list byte
}.

Record writeMemIn := MkWriteMemIn { wmi_PID : Z; wmi_Addr : Z; wmi_HexData : list byte }.

Record writeMemOut := MkWriteMemOut { wmo_Written : Z }.

(** ** Launching and control *)

Record execIn := MkExecIn { ei_Command : list byte }.

Record execOut := MkExecOut { eo_PID : Z; eo_Output : list byte }.

Record runIn := MkRunIn { rui_Program : list byte; rui_Args : list (list byte) }.

Record runOut := MkRunOut { ruo_PID : Z }.

Record signalIn := MkSignalIn { si_PID : Z; si_Signal : Z }.

Record okOut := MkOkOut { ok_OK : bool }.

(** ** Files *)

Record readFileIn := MkReadFileIn { rfi_Path : list byte }.

Record readFileOut := MkReadFileOut {
  rfo_Path : list byte;
  rfo_Size : Z;
  rfo_Base64 : list byte;
  rfo_Text : list byte
}.

Record writeFileIn := MkWriteFileIn {
  wfi_Path : list byte;
  wfi_Base64 : list byte;
  wfi_Text : list byte;
  wfi_Mode : Z
}.

Record writeFileOut := MkWriteFileOut { wfo_Written : Z }.

Record pathIn := MkPathIn { pa_Path : list byte }.

Record statOut := MkStatOut { so_Path : list byte; so_Mode : Z; so_Size : Z }.

Record listDirOut := MkListDirOut {
  ldo_Path : list byte;
  ldo_Entries : list (list byte);
  ldo_Raw : list byte
}.

Record mkdirIn := MkMkdirIn { mi_Path : list byte; mi_Mode : Z }.

Record chmodIn := MkChmodIn { ci_Path : list byte; ci_Mode : Z }.

(** ** Debugging *)

Record attachIn := MkAttachIn { ai_PID : Z; ai_DebugPort : Z }.

Record attachOut := MkAttachOut {
  ao_SessionID : list byte;
  ao_PID : Z;
  ao_Note : list byte
}.

Record sessionIn := MkSessionIn { se_SessionID : list byte }.

Record launchIn := MkLaunchIn {
  li_Path : list byte;
  li_Args : list (list byte);
  li_DebugPort : Z
}.

Record launchOut := MkLaunchOut {
  lo_SessionID : list byte;
  lo_PID : Z;
  lo_TID : Z;
  lo_Note : list byte
}.

Record stopOut := MkStopOut { st_Stop : Stop }.

Record regsOut := MkRegsOut {
  rg_Hex : list byte;
  rg_Registers : gmap (list byte) (list byte)
}.

Record dbgMemReadIn := MkDbgMemReadIn { dri_SessionID : list byte; dri_Addr : Z; dri_Length : Z }.

Record dbgReadMemOut := MkDbgReadMemOut { dro_Hex : list byte }.

Record dbgMemWriteIn := MkDbgMemWriteIn {
  dwi_SessionID : list byte;
  dwi_Addr : Z;
  dwi_HexData : list byte
}.

Record breakIn := MkBreakIn { bi_SessionID : list byte; bi_Addr : Z }.

Record dbgRegWriteIn := MkDbgRegWriteIn {
  rwi_SessionID : list byte;
  rwi_Offset : Z;
  rwi_HexData : list byte
}.

Record selectThreadIn := MkSelectThreadIn { sti_SessionID : list byte; sti_TID : Z }.

Record rawInfoOut := MkRawInfoOut { rio_Hex : list byte; rio_Strings : list (list byte) }.

Record mapInfoOut := MkMapInfoOut { mio_Segments : list MapSegment; mio_Hex : list byte }.

Record handleSigIn := MkHandleSigIn {
  hsi_SessionID : list byte;
  hsi_Signal : Z;
  hsi_Stop : bool
}.

Record threadsOut := MkThreadsOut {
  to_PID : Z;
  to_Name : list byte;
  to_ThreadNames : list (list byte);
  to_ProcInfoHex : list byte;
  to_ThreadNamesHex : list byte
}.

(** ** Any of them *)

(** What a tool is called with. *)
Inductive call :=
  | CSystemInfo | CListServices | CSystemMemory | CListProcesses
  | CProcessInfo (i : pidIn) | CProcessMemory (i : pidIn) | CResources (i : resourcesIn)
  | CMemoryMap (i : pidIn) | CReadMemory (i : readMemIn) | CWriteMemory (i : writeMemIn)
  | CExec (i : execIn) | CRun (i : runIn) | CSignal (i : signalIn) | CKill (i : pidIn)
  | CReadFile (i : readFileIn) | CWriteFile (i : writeFileIn) | CStat (i : pathIn)
  | CListDir (i : pathIn) | CDelete (i : pathIn) | CMkdir (i : mkdirIn) | CChmod (i : chmodIn)
  | CDebugAttach (i : attachIn) | CDebugLaunch (i : launchIn)
  | CDebugReadRegisters (i : sessionIn) | CDebugReadMemory (i : dbgMemReadIn)
  | CDebugWriteMemory (i : dbgMemWriteIn) | CDebugContinue (i : sessionIn) | CDebugStep (i : sessionIn)
  | CDebugBreakSet (i : breakIn) | CDebugBreakClear (i : breakIn)
  | CDebugWriteRegisters (i : dbgRegWriteIn) | CDebugSelectThread (i : selectThreadIn)
  | CDebugMapInfo (i : sessionIn) | CDebugHandleSignal (i : handleSigIn)
  | CDebugTargetInfo (i : sessionIn) | CDebugThreads (i : sessionIn) | CDebugDetach (i : sessionIn)
  | CClose.

(** What a tool returns. *)
Inductive tool_out :=
  | OSystemInfo (o : systemInfoOut) | OServices (o : listServicesOut) | OSystemMemory (o : systemMemoryOut)
  | OProcesses (o : listProcessesOut) | OProcess (o : processInfoOut)
  | OProcessMemory (o : processMemoryOut) | OResources (o : resourcesOut)
  | OMemoryMap (o : memMapOut) | OReadMem (o : readMemOut) | OWriteMem (o : writeMemOut)
  | OExec (o : execOut) | ORun (o : runOut) | OOk (o : okOut)
  | OReadFile (o : readFileOut) | OWriteFile (o : writeFileOut) | OStat (o : statOut)
  | OListDir (o : listDirOut)
  | OAttach (o : attachOut) | OLaunch (o : launchOut) | ORegs (o : regsOut)
  | OHex (o : dbgReadMemOut) | OStop (o : stopOut) | OMapInfo (o : mapInfoOut)
  | ORawInfo (o : rawInfoOut) | OThreads (o : threadsOut).

(** [okOut{OK: true}]. *)
Definition done_ok : tool_out := OOk (MkOkOut true).
