(* ===== verification/McpServer.v ===== *)
(** * The MCP server and its tools

    [internal/mcpserver]: the server state of [server.go] and the handlers the
    [register...Tools] functions install. Clients and debug sessions are shared
    objects reached through pointers, so they live in heaps and a pointer is an
    index; the registry maps session ids to pointers.

    A handler is a process: a sequence of atomic steps on the server, where a
    step is a section under one mutex, an atomic operation, an unguarded read,
    or work on objects nobody else can reach. Running the steps in a row is a
    lone request; their interleavings are concurrent requests. *)

From stdpp Require Import base list numbers strings gmap.
From Stdlib Require Import ZArith Lia Strings.Byte.
From S2P Require Import Prelude GoStrconv GoStrings GoEncoding Transport QconnFraming.
From S2P Require Import DsmsgClient DsmsgLink DsmsgCommands Pdebug McpText McpTypes.
From S2P Require QconnClient QconnFile QconnPidin QconnExec.

Local Open Scope Z_scope.

(** ** Configuration *)

Record mcpConfig := MkMcpConfig {
  mc_QconnHost : list byte;
  mc_QconnPort : Z;
  mc_Timeout : Z;
  mc_BindAddr : list byte;
  mc_Path : list byte;
  mc_Token : list byte;
  mc_DebugPort : Z;
  mc_PdebugCmd : list byte;
  mc_DebugSerial : list byte;
  mc_DebugBaud : Z
}.

(** The defaults [New] fills in. *)
Definition withDefaults (c : mcpConfig) : mcpConfig := {|
  mc_QconnHost := mc_QconnHost c;
  mc_QconnPort := if mc_QconnPort c =? 0 then QconnClient.DefaultPort else mc_QconnPort c;
  mc_Timeout := if mc_Timeout c =? 0 then 30 * 1000000000 else mc_Timeout c;
  mc_BindAddr := mc_BindAddr c;
  mc_Path := if decide (mc_Path c = []) then str "/mcp" else mc_Path c;
  mc_Token := mc_Token c;
  mc_DebugPort := if mc_DebugPort c =? 0 then 8001 else mc_DebugPort c;
  mc_PdebugCmd := mc_PdebugCmd c;
  mc_DebugSerial := mc_DebugSerial c;
  mc_DebugBaud := if mc_DebugBaud c =? 0 then 115200 else mc_DebugBaud c
|}.

(** ** Results *)

Inductive tool_err :=
  | TQconn (e : qerror)
  | TPdebug (e : connect_err)
  | TDbg (e : dbg_error)
  | TUnknownSession (id : list byte)
  | TPanic.                                   (* a nil pointer is followed *)

(** The reasons of [fail2]. *)
Inductive fail_reason := BadHex (e : hex_err) | BadBase64 | SignalRange (signal : Z).

Inductive tool_result :=
  | RErr (e : tool_err)
  | RFail (why : fail_reason)
  | ROut (o : tool_out).

(** ** State *)

Record qnxSession := MkQnxSession {
  qs_client : nat;                    (* pointer to the DSMSG client *)
  qs_pid : Z;
  qs_sigTable : option (list byte)
}.

Record Server (P D : Type) : Type := MkServer {
  s_cfg : mcpConfig;
  s_conn : option nat;                              (* pointer to the qconn client *)
  s_mgr : option Manager;
  s_clients : list (QconnClient.Client P);          (* heap of qconn clients *)
  s_net : QconnExec.network P;
  s_dials : list (option (transport D));            (* outcomes of dials to pdebug *)
  s_dbgs : list (Client D);                         (* heap of DSMSG clients *)
  s_dropped : list (transport D);                   (* connections to pdebug given up while connecting *)
  s_heap : list qnxSession;                         (* heap of sessions *)
  s_sessions : gmap (list byte) nat;
  s_seq : Z
}.
Arguments MkServer {P D}.
Arguments s_cfg {P D}.
Arguments s_conn {P D}.
Arguments s_mgr {P D}.
Arguments s_clients {P D}.
Arguments s_net {P D}.
Arguments s_dials {P D}.
Arguments s_dbgs {P D}.
Arguments s_dropped {P D}.
Arguments s_heap {P D}.
Arguments s_sessions {P D}.
Arguments s_seq {P D}.

(** What the handlers take from outside: the formatter and the print table
    of the standard library, the tty ioctl, and a bound on the chunks of a
    file, whose end the far end decides. *)
Class Platform : Type := {
  pf_fmt : list byte → Z → list byte;
  pf_isPrint : Z → bool;
  pf_setTermios : list byte → termios → bool;
  pf_chunks : nat
}.

(** The queries of [qconn_debug_threads], each ignored when it fails. *)
Definition threadsQuery {S} `{Link S} (pid : Z) : M dbg_error S threadsOut :=
  pi ← attempt (ProcInfo pid 1);
  tn ← attempt ThreadNames;
  mret (MkThreadsOut pid
    (match pi with inr b => longestString (printableStrings b) | inl _ => [] end)
    (match tn with inr b => printableStrings b | inl _ => [] end)
    (match pi with inr b => hex_of_bytes b | inl _ => [] end)
    (match tn with inr b => hex_of_bytes b | inl _ => [] end)).

Section server.
Context {P D : Type} `{QPeer P} `{Peer D} `{Platform}.
Implicit Types s : Server P D.

Definition New (cfg : mcpConfig) (net : QconnExec.network P) (dials : list (option (transport D)))
  : Server P D :=
  MkServer (withDefaults cfg) None None [] net dials [] [] [] ∅ 0.

Definition set_conn (c : option nat) (m : option Manager) s : Server P D :=
  MkServer (s_cfg s) c m (s_clients s) (s_net s) (s_dials s) (s_dbgs s) (s_dropped s) (s_heap s)
    (s_sessions s) (s_seq s).
Definition set_clients (l : list (QconnClient.Client P)) s : Server P D :=
  MkServer (s_cfg s) (s_conn s) (s_mgr s) l (s_net s) (s_dials s) (s_dbgs s) (s_dropped s) (s_heap s)
    (s_sessions s) (s_seq s).
Definition set_net (n : QconnExec.network P) s : Server P D :=
  MkServer (s_cfg s) (s_conn s) (s_mgr s) (s_clients s) n (s_dials s) (s_dbgs s) (s_dropped s) (s_heap s)
    (s_sessions s) (s_seq s).
Definition set_dials (l : list (option (transport D))) s : Server P D :=
  MkServer (s_cfg s) (s_conn s) (s_mgr s) (s_clients s) (s_net s) l (s_dbgs s) (s_dropped s) (s_heap s)
    (s_sessions s) (s_seq s).
Definition set_dbgs (l : list (Client D)) s : Server P D :=
  MkServer (s_cfg s) (s_conn s) (s_mgr s) (s_clients s) (s_net s) (s_dials s) l (s_dropped s) (s_heap s)
    (s_sessions s) (s_seq s).
Definition set_dropped (l : list (transport D)) s : Server P D :=
  MkServer (s_cfg s) (s_conn s) (s_mgr s) (s_clients s) (s_net s) (s_dials s) (s_dbgs s) l (s_heap s)
    (s_sessions s) (s_seq s).
Definition set_heap (l : list qnxSession) s : Server P D :=
  MkServer (s_cfg s) (s_conn s) (s_mgr s) (s_clients s) (s_net s) (s_dials s) (s_dbgs s) (s_dropped s) l
    (s_sessions s) (s_seq s).
Definition set_sessions (m : gmap (list byte) nat) s : Server P D :=
  MkServer (s_cfg s) (s_conn s) (s_mgr s) (s_clients s) (s_net s) (s_dials s) (s_dbgs s) (s_dropped s) (s_heap s)
    m (s_seq s).
Definition set_seq (n : Z) s : Server P D :=
  MkServer (s_cfg s) (s_conn s) (s_mgr s) (s_clients s) (s_net s) (s_dials s) (s_dbgs s) (s_dropped s) (s_heap s)
    (s_sessions s) n.

(** An atomic step. *)
Definition act (A : Type) : Type := Server P D → A * Server P D.

(** ** Processes *)

Inductive proc : Type :=
  | PDone (r : tool_result)
  | PStep (A : Type) (m : act A) (k : A → proc).

Fixpoint run (p : proc) : act tool_result := λ s,
  match p with
  | PDone r => (r, s)
  | PStep _ m k => let '(a, s') := m s in run (k a) s'
  end.

(** ** Steps on the qconn side *)

(** [client], under [s.mu]. A connection that [Dial] opened and gave up is
    kept with the used ones. *)
Definition client : act (qerror + nat) := λ s,
  match s_conn s with
  | Some c => (inr c, s)
  | None =>
      match QconnExec.dial (s_net s) with
      | (inl _, net) => (inl QDial, set_net net s)
      | (inr (t, fills, _), net) =>
          match QconnClient.dialed t fills with
          | (inl e, c) =>
              (inl e, set_net (QconnExec.MkNetwork (QconnExec.n_dials net)
                        (QconnExec.n_used net ++ [QconnClient.q_fc c])) s)
          | (inr _, c) =>
              let ptr := length (s_clients s) in
              let pcmd := if decide (mc_PdebugCmd (s_cfg s) = []) then defaultPdebugCmd
                          else mc_PdebugCmd (s_cfg s) in
              (inr ptr,
               set_conn (Some ptr) (Some (MkManager (mc_QconnHost (s_cfg s)) pcmd))
                 (set_clients (s_clients s ++ [c]) (set_net net s)))
          end
      end
  end.

(** A method of a qconn client, under its mutex. *)
Definition onClient {A} (ptr : nat) (m : M qerror (QconnClient.Client P) A) : act (qerror + A) := λ s,
  match s_clients s !! ptr with
  | Some c => let '(r, c') := m c in (r, set_clients (<[ptr := c']> (s_clients s)) s)
  | None => (inl QIO, s)
  end.

(** A method that dials a connection of its own. *)
Definition onNet {A} (m : M qerror (QconnExec.network P) A) : act (qerror + A) := λ s,
  let '(r, net) := m (s_net s) in (r, set_net net s).

Definition resetClient : act unit := λ s,
  match s_conn s with
  | Some c => ((), set_conn None None (snd (onClient c QconnClient.Close s)))
  | None => ((), s)
  end.

(** [cli]: a failed dial resets, in a critical section of its own. *)
Definition cli (k : nat → proc) : proc :=
  PStep _ client (λ r,
    match r with
    | inr c => k c
    | inl e => PStep _ resetClient (λ _, PDone (RErr (TQconn e)))
    end).

Definition result {A} (out : A → tool_out) (r : qerror + A) : proc :=
  PDone (match r with inr a => ROut (out a) | inl e => RErr (TQconn e) end).

(** A tool that calls one method of the client. *)
Definition callClient {A} (m : M qerror (QconnClient.Client P) A) (out : A → tool_out) : proc :=
  cli (λ c, PStep _ (onClient c m) (result out)).

Definition callNet {A} (m : M qerror (QconnExec.network P) A) (out : A → tool_out) : proc :=
  cli (λ _, PStep _ (onNet m) (result out)).

(** A method that returns a value next to its error; the tools drop it. *)
Definition orError {E S A} (m : M E S (A * option E)) : M E S A :=
  '(a, e) ← m; match e with Some e => throw e | None => mret a end.

(** ** Steps on the debug side *)

Definition getSession (id : list byte) : act (option nat) := λ s, (s_sessions s !! id, s).

Definition onDbg {A} (ptr : nat) (m : M dbg_error (Client D) A) : act (dbg_error + A) := λ s,
  match s_dbgs s !! ptr with
  | Some c => let '(r, c') := m c in (r, set_dbgs (<[ptr := c']> (s_dbgs s)) s)
  | None => (inl EIO, s)
  end.

(** A method of a session's client, under the session's mutex; it may use the
    pid of the session. *)
Definition onSession {A} (q : nat) (m : Z → M dbg_error (Client D) A) : act (dbg_error + A) := λ s,
  match s_heap s !! q with
  | Some sess => onDbg (qs_client sess) (m (qs_pid sess)) s
  | None => (inl EIO, s)
  end.

Definition withSession (id : list byte) (k : nat → proc) : proc :=
  PStep _ (getSession id) (λ r,
    match r with Some q => k q | None => PDone (RErr (TUnknownSession id)) end).

Definition callSession {A} (id : list byte) (m : Z → M dbg_error (Client D) A) (out : A → tool_out)
  : proc :=
  withSession id (λ q, PStep _ (onSession q m) (λ r,
    PDone (match r with inr a => ROut (out a) | inl e => RErr (TDbg e) end))).

(** The outcome of the next dial to pdebug. *)
Definition nextDial : act (option (transport D)) := λ s,
  match s_dials s with
  | [] => (None, s)
  | d :: ds => (d, set_dials ds s)
  end.

(** Connecting a DSMSG client; the new object is reachable by its creator
    only. A connection that was opened and given up is remembered. *)
Definition connectDbg (conn : option (transport D) → connected (D := D)) : act (connect_err + nat) := λ s,
  let '(d, s) := nextDial s in
  match conn d with
  | inl (e, o) => (inl e, set_dropped (s_dropped s ++ option_list o) s)
  | inr c => (inr (length (s_dbgs s)), set_dbgs (s_dbgs s ++ [c]) s)
  end.

(** [dialPdebug]. The manager is read without holding [s.mu]. *)
Definition dialPdebug (debugPort : Z) (k : nat → proc) : proc :=
  PStep _ (λ s, (s_cfg s, s)) (λ cfg,
  if decide (mc_DebugSerial cfg ≠ []) then
    PStep _ (connectDbg (λ d, ConnectSerial (λ _, d) pf_setTermios (mc_DebugSerial cfg) (mc_DebugBaud cfg)))
      (λ r, match r with inr c => k c | inl e => PDone (RErr (TPdebug e)) end)
  else
    let port := if debugPort =? 0 then mc_DebugPort cfg else debugPort in
    PStep _ (λ s, (s_mgr s, s)) (λ mgr,
    match mgr with
    | None => PDone (RErr TPanic)
    | Some m =>
        PStep _ (onNet (SpawnPdebug pf_fmt m port)) (λ r,
        match r with
        | inl e => PDone (RErr (TQconn e))
        | inr _ =>
            PStep _ (connectDbg Connect) (λ r,
            match r with inr c => k c | inl e => PDone (RErr (TPdebug e)) end)
        end)
    end)).

(** [sessionSeq.Add(1)], and the id made from it. *)
Definition nextSeq : act Z := λ s, (s_seq s + 1, set_seq (s_seq s + 1) s).
Definition sessionId (n : Z) : list byte := str "dbg-" ++ fmt_d n.

(** A new session, entered in the registry under [s.dbgMu]. *)
Definition register (id : list byte) (c : nat) (pid : Z) : act unit := λ s,
  ((), set_sessions (<[id := length (s_heap s)]> (s_sessions s))
         (set_heap (s_heap s ++ [MkQnxSession c pid None]) s)).

Definition unregister (id : list byte) : act unit := λ s,
  ((), set_sessions (delete id (s_sessions s)) s).

(** ** The debug tools *)

(** What [qconn_debug_attach] does with a connected client. *)
Definition attachSession (i : attachIn) (c : nat) : proc :=
  PStep _ (onDbg c (Attach (ai_PID i))) (λ r,
  match r with
  | inl e => PStep _ (onDbg c Close) (λ _, PDone (RErr (TDbg e)))
  | inr _ =>
      PStep _ (onDbg c (Select (ai_PID i) 1)) (λ _,
      PStep _ nextSeq (λ n,
      PStep _ (register (sessionId n) c (ai_PID i)) (λ _,
      PDone (ROut (OAttach (MkAttachOut (sessionId n) (ai_PID i) []))))))
  end).

Definition debug_attach (i : attachIn) : proc :=
  cli (λ _, dialPdebug (ai_DebugPort i) (attachSession i)).

Definition launchNote : list byte :=
  str "process is stopped at its entry point; set a breakpoint at main and qconn_debug_continue".

Definition launchSession (i : launchIn) (c : nat) : proc :=
  PStep _ (onDbg c (Launch (li_Path i) (li_Args i) None)) (λ r,
  match r with
  | inl e => PStep _ (onDbg c Close) (λ _, PDone (RErr (TDbg e)))
  | inr res =>
      PStep _ (onDbg c (Select (lr_pid res) (lr_tid res))) (λ _,
      PStep _ nextSeq (λ n,
      PStep _ (register (sessionId n) c (lr_pid res)) (λ _,
      PDone (ROut (OLaunch (MkLaunchOut (sessionId n) (lr_pid res) (lr_tid res) launchNote))))))
  end).

Definition debug_launch (i : launchIn) : proc :=
  cli (λ _, dialPdebug (li_DebugPort i) (launchSession i)).

Definition debug_read_registers (i : sessionIn) : proc :=
  callSession (se_SessionID i) (λ _, ReadRegisters 0 0x110) (λ b,
    ORegs (MkRegsOut (hex_of_bytes b) (decodeAArch64 b))).

Definition debug_read_memory (i : dbgMemReadIn) : proc :=
  callSession (dri_SessionID i) (λ _, orError (ReadMemory (dri_Addr i) (dri_Length i))) (λ b,
    OHex (MkDbgReadMemOut (hex_of_bytes b))).

Definition debug_write_memory (i : dbgMemWriteIn) : proc :=
  match hexDecodeString (dwi_HexData i) with
  | inl e => PDone (RFail (BadHex e))
  | inr data => callSession (dwi_SessionID i) (λ _, orError (WriteMemory (dwi_Addr i) data)) (λ _, done_ok)
  end.

Definition debug_continue (i : sessionIn) : proc :=
  callSession (se_SessionID i) (λ _, Continue) (λ st, OStop (MkStopOut st)).

Definition debug_step (i : sessionIn) : proc :=
  callSession (se_SessionID i) (λ _, Step 1) (λ st, OStop (MkStopOut st)).

Definition debug_break_set (i : breakIn) : proc :=
  callSession (bi_SessionID i) (λ _, SetBreakpoint (bi_Addr i) 0) (λ _, done_ok).

Definition debug_break_clear (i : breakIn) : proc :=
  callSession (bi_SessionID i) (λ _, ClearBreakpoint (bi_Addr i)) (λ _, done_ok).

Definition debug_write_registers (i : dbgRegWriteIn) : proc :=
  match hexDecodeString (rwi_HexData i) with
  | inl e => PDone (RFail (BadHex e))
  | inr data => callSession (rwi_SessionID i) (λ _, WriteRegisters (rwi_Offset i) data) (λ _, done_ok)
  end.

Definition debug_select_thread (i : selectThreadIn) : proc :=
  callSession (sti_SessionID i) (λ pid, Select pid (sti_TID i)) (λ _, done_ok).

Definition debug_mapinfo (i : sessionIn) : proc :=
  callSession (se_SessionID i) MapInfo (λ raw, OMapInfo (MkMapInfoOut (ParseMapInfo raw) (hex_of_bytes raw))).

(** [signalTable]: intercept everything on first use. *)
Definition signalTable (sess : qnxSession) : list byte :=
  default (replicate NumSignals x01) (qs_sigTable sess).

(** The section of [qconn_debug_handle_signal] under the session's mutex. *)
Definition handleSignal (q : nat) (signal : Z) (stop : bool) : act (dbg_error + unit) := λ s,
  match s_heap s !! q with
  | Some sess =>
      let tbl := <[Z.to_nat (signal - 1) := (if stop then x01 else x00)]> (signalTable sess) in
      onDbg (qs_client sess) (HandleSig tbl)
        (set_heap (<[q := MkQnxSession (qs_client sess) (qs_pid sess) (Some tbl)]> (s_heap s)) s)
  | None => (inl EIO, s)
  end.

Definition debug_handle_signal (i : handleSigIn) : proc :=
  if (hsi_Signal i <? 1) || (Z.of_nat NumSignals <? hsi_Signal i)
  then PDone (RFail (SignalRange (hsi_Signal i)))
  else withSession (hsi_SessionID i) (λ q, PStep _ (handleSignal q (hsi_Signal i) (hsi_Stop i)) (λ r,
    PDone (match r with inr _ => ROut done_ok | inl e => RErr (TDbg e) end))).

Definition debug_target_info (i : sessionIn) : proc :=
  callSession (se_SessionID i) (λ _, CPUInfo) (λ b, ORawInfo (MkRawInfoOut (hex_of_bytes b) (printableStrings b))).

Definition debug_threads (i : sessionIn) : proc := callSession (se_SessionID i) threadsQuery OThreads.

Definition debug_detach (i : sessionIn) : proc :=
  withSession (se_SessionID i) (λ q,
    PStep _ (onSession q (λ pid, attempt (Detach pid) ≫= λ _, Close)) (λ _,
    PStep _ (unregister (se_SessionID i)) (λ _, PDone (ROut done_ok)))).

(** ** The file tools *)

Definition read_file (i : readFileIn) : proc :=
  callClient (orError (QconnFile.ReadFile pf_chunks (rfi_Path i))) (λ b,
    OReadFile (MkReadFileOut (rfi_Path i) (Z.of_nat (length b)) (base64Encode b)
                 (if isPrintable b then b else []))).

Definition write_file (i : writeFileIn) : proc :=
  match (if decide (wfi_Base64 i = []) then Some (wfi_Text i) else base64Decode (wfi_Base64 i)) with
  | None => PDone (RFail BadBase64)
  | Some data =>
      callClient (orError (QconnFile.WriteFile (wfi_Path i) data (wfi_Mode i))) (λ n, OWriteFile (MkWriteFileOut n))
  end.

Definition stat (i : pathIn) : proc :=
  callClient (QconnFile.Stat (pa_Path i)) (λ '(mode, size), OStat (MkStatOut (pa_Path i) mode size)).

(** The lines of a listing that are not blank. *)
Definition dirEntries (output : list byte) : list (list byte) :=
  filter (λ ln, TrimSpace ln ≠ []) ((λ ln, TrimRight ln [x0d]) <$> Split output x0a).

Definition list_dir (i : pathIn) : proc :=
  callNet (QconnExec.Exec (str "ls -la " ++ Quote pf_isPrint (pa_Path i))) (λ r,
    OListDir (MkListDirOut (pa_Path i) (dirEntries (QconnExec.er_Output r)) (QconnExec.er_Output r))).

Definition delete_ (i : pathIn) : proc := callClient (QconnFile.Delete (pa_Path i)) (λ _, done_ok).
Definition mkdir (i : mkdirIn) : proc := callClient (QconnFile.Mkdir (mi_Path i) (mi_Mode i)) (λ _, done_ok).
Definition chmod (i : chmodIn) : proc := callClient (QconnFile.Chmod (ci_Path i) (ci_Mode i)) (λ _, done_ok).

(** ** The memory, control and exec tools *)

Definition memory_map (i : pidIn) : proc :=
  callNet (QconnExec.MemoryMap (pi_PID i)) (λ '(segs, raw), OMemoryMap (MkMemMapOut segs raw)).

Definition read_memory (i : readMemIn) : proc :=
  callClient (orError (QconnFile.ReadMemory (rmi_PID i) (rmi_Addr i) (rmi_Length i))) (λ b,
    OReadMem (MkReadMemOut (rmi_Addr i) (Z.of_nat (length b)) (hex_of_bytes b) (base64Encode b))).

Definition write_memory (i : writeMemIn) : proc :=
  match hexDecodeString (wmi_HexData i) with
  | inl e => PDone (RFail (BadHex e))
  | inr data =>
      callClient (orError (QconnFile.WriteMemory (wmi_PID i) (wmi_Addr i) data)) (λ n, OWriteMem (MkWriteMemOut n))
  end.

Definition signal (i : signalIn) : proc :=
  callClient (QconnFile.Signal (si_PID i) (si_Signal i)) (λ _, done_ok).
Definition kill (i : pidIn) : proc := callClient (QconnFile.Kill (pi_PID i)) (λ _, done_ok).

Definition exec (i : execIn) : proc :=
  callNet (QconnExec.Exec (ei_Command i)) (λ r,
    OExec (MkExecOut (QconnExec.er_PID r) (QconnExec.er_Output r))).

Definition run_ (i : runIn) : proc :=
  callNet (QconnExec.Run (rui_Program i) (rui_Args i)) (λ pid, ORun (MkRunOut pid)).

(** ** The process and system tools *)

Definition list_processes : proc :=
  callNet QconnExec.ListProcesses (λ '(ps, raw), OProcesses (MkListProcessesOut ps (Z.of_nat (length ps)) raw)).

Definition process_info (i : pidIn) : proc :=
  callNet (QconnExec.ProcessInfo (pi_PID i)) (λ '(p, raw), OProcess (MkProcessInfoOut p raw)).

Definition process_memory (i : pidIn) : proc :=
  callNet (QconnExec.ProcessMemory (pi_PID i)) (λ '(u, raw), OProcessMemory (MkProcessMemoryOut u raw)).

Definition resources (i : resourcesIn) : proc :=
  callNet (QconnExec.Resources (ri_PID i) (ri_Kind i)) (λ '(lines, raw), OResources (MkResourcesOut lines raw)).

(** The configuration of the qconn client. *)
Definition qconnConfig (cfg : mcpConfig) : QconnClient.Config :=
  QconnClient.MkConfig (mc_QconnHost cfg) (mc_QconnPort cfg) (mc_Timeout cfg).

Definition system_info : proc :=
  PStep _ (λ s, (s_cfg s, s)) (λ cfg,
    callClient QconnClient.Info (λ attrs, OSystemInfo (MkSystemInfoOut (QconnClient.Target (qconnConfig cfg)) attrs))).

Definition list_services : proc := callClient QconnClient.Versions (λ v, OServices (MkListServicesOut v)).

Definition system_memory : proc :=
  callNet QconnExec.SystemMemory (λ '(m, raw), OSystemMemory (MkSystemMemoryOut m raw)).

(** ** Closing the server *)

(** Close the clients of all sessions and forget them, under [s.dbgMu]. *)
Definition closeSessions : act unit := λ s,
  let close_one q s := snd (onSession q (λ _, Close) s) in
  ((), set_sessions ∅ (foldr close_one s (snd <$> map_to_list (s_sessions s)))).

Definition closeServer : proc :=
  PStep _ closeSessions (λ _, PStep _ resetClient (λ _, PDone (ROut done_ok))).

(** ** All requests *)

(** [registerTools] and [Close]: what each request runs. *)
Definition handler (c : call) : proc :=
  match c with
  | CSystemInfo => system_info
  | CListServices => list_services
  | CSystemMemory => system_memory
  | CListProcesses => list_processes
  | CProcessInfo i => process_info i
  | CProcessMemory i => process_memory i
  | CResources i => resources i
  | CMemoryMap i => memory_map i
  | CReadMemory i => read_memory i
  | CWriteMemory i => write_memory i
  | CExec i => exec i
  | CRun i => run_ i
  | CSignal i => signal i
  | CKill i => kill i
  | CReadFile i => read_file i
  | CWriteFile i => write_file i
  | CStat i => stat i
  | CListDir i => list_dir i
  | CDelete i => delete_ i
  | CMkdir i => mkdir i
  | CChmod i => chmod i
  | CDebugAttach i => debug_attach i
  | CDebugLaunch i => debug_launch i
  | CDebugReadRegisters i => debug_read_registers i
  | CDebugReadMemory i => debug_read_memory i
  | CDebugWriteMemory i => debug_write_memory i
  | CDebugContinue i => debug_continue i
  | CDebugStep i => debug_step i
  | CDebugBreakSet i => debug_break_set i
  | CDebugBreakClear i => debug_break_clear i
  | CDebugWriteRegisters i => debug_write_registers i
  | CDebugSelectThread i => debug_select_thread i
  | CDebugMapInfo i => debug_mapinfo i
  | CDebugHandleSignal i => debug_handle_signal i
  | CDebugTargetInfo i => debug_target_info i
  | CDebugThreads i => debug_threads i
  | CDebugDetach i => debug_detach i
  | CClose => closeServer
  end.

(** ** Concurrent requests *)

(** The server with the requests in flight. *)
Definition pool : Type := Server P D * list proc.

(** The next step of a request, if it is not done. *)
Definition stepProc (p : proc) s : option (proc * Server P D) :=
  match p with
  | PDone _ => None
  | PStep _ m k => let '(a, s') := m s in Some (k a, s')
  end.

(** A request arrives, or one in flight takes a step. *)
Inductive pool_step : pool → pool → Prop :=
  | step_call s ps c : pool_step (s, ps) (s, ps ++ [handler c])
  | step_run s ps i p p' s' :
      ps !! i = Some p → stepProc p s = Some (p', s') →
      pool_step (s, ps) (s', <[i := p']> ps).
End server.
