(* ===== verification/McpSessions.v ===== *)
(** * Ownership of debug connections

    The handlers of the debug tools create DSMSG clients, hand them to the
    registry, close them and take them out again, concurrently. This file gives
    each handler a usage discipline (what a request in flight may hold and what
    each of its steps does with it), shows that every handler follows it, and
    that steps which follow it preserve the invariant of the server under every
    interleaving. *)

From stdpp Require Import base list numbers strings gmap relations.
From Stdlib Require Import ZArith Lia Strings.Byte.
From S2P Require Import Prelude GoStrconv GoEncoding Transport QconnFraming.
From S2P Require Import DsmsgClient DsmsgLink DsmsgCommands DsmsgClosed Pdebug McpTypes McpServer.

Local Open Scope Z_scope.

Section ownership.
Context {P D : Type} `{QPeer P} `{Peer D} `{Platform}.
Implicit Types (s : Server P D) (p : proc (P := P) (D := D)).

(** ** What a request may hold *)

Inductive res :=
  | RNone
  | ROwn (c : nat)                          (* a client nobody else knows *)
  | RTicket (c : nat) (n : Z)               (* ... and a session number drawn *)
  | RFound (id : list byte) (q : nat)       (* a session looked up *)
  | RShut (id : list byte) (q : nat).       (* ... whose client it has closed *)

Definition owned (r : res) : option nat :=
  match r with ROwn c | RTicket c _ => Some c | _ => None end.
Definition ticket (r : res) : option Z := match r with RTicket _ n => Some n | _ => None end.
Definition seen (r : res) : option (list byte * nat) :=
  match r with RFound id q | RShut id q => Some (id, q) | _ => None end.
Definition shut (r : res) : option nat := match r with RShut _ q => Some q | _ => None end.

(** ** The discipline *)

(** A step that leaves the debug side alone. *)
Definition quiet {A} (m : act (P := P) (D := D) A) : Prop := ∀ s,
  s_dbgs (snd (m s)) = s_dbgs s ∧ s_heap (snd (m s)) = s_heap s ∧
  s_sessions (snd (m s)) = s_sessions s ∧ s_seq (snd (m s)) = s_seq s ∧
  s_dropped (snd (m s)) = s_dropped s.

(** A method that does not reopen a closed client. *)
Definition calm {A} (m : M dbg_error (Client D) A) : Prop := ∀ c, closed c → closed (snd (m c)).

Inductive follows : res → proc (P := P) (D := D) → Prop :=
  | fl_done r : follows RNone (PDone r)
  | fl_quiet r A (m : act A) k :
      quiet m → (∀ a, follows r (k a)) → follows r (PStep A m k)
  | fl_forget id q p : follows RNone p → follows (RFound id q) p
  | fl_connect conn k :
      (∀ d, gives_up_closed (conn d)) → (∀ e, follows RNone (k (inl e))) → (∀ c, follows (ROwn c) (k (inr c))) →
      follows RNone (PStep _ (connectDbg conn) k)
  | fl_use c A (m : M dbg_error (Client D) A) k :
      calm m → (∀ a, follows (ROwn c) (k a)) → follows (ROwn c) (PStep _ (onDbg c m) k)
  | fl_close c k :
      (∀ a, follows RNone (k a)) → follows (ROwn c) (PStep _ (onDbg c Close) k)
  | fl_draw c k :
      (∀ n, follows (RTicket c n) (k n)) → follows (ROwn c) (PStep _ nextSeq k)
  | fl_register c n pid k :
      follows RNone (k ()) → follows (RTicket c n) (PStep _ (register (sessionId n) c pid) k)
  | fl_lookup id k :
      follows RNone (k None) → (∀ q, follows (RFound id q) (k (Some q))) →
      follows RNone (PStep _ (getSession id) k)
  | fl_session r q A (m : Z → M dbg_error (Client D) A) k :
      (∀ pid, calm (m pid)) → (∀ a, follows r (k a)) → follows r (PStep _ (onSession q m) k)
  | fl_signal q sig stop k :
      (∀ a, follows RNone (k a)) → follows RNone (PStep _ (handleSignal q sig stop) k)
  | fl_shut id q A (m : Z → M dbg_error (Client D) A) k :
      (∀ pid c, closed (snd (m pid c))) → (∀ a, follows (RShut id q) (k a)) →
      follows (RFound id q) (PStep _ (onSession q m) k)
  | fl_unregister id q k :
      follows RNone (k ()) → follows (RShut id q) (PStep _ (unregister id) k)
  | fl_shutdown k :
      follows RNone (k ()) → follows RNone (PStep _ closeSessions k).

(** ** Every handler follows it *)

Lemma quiet_const {A} (f : Server P D → A) : quiet (λ s, (f s, s)).
Proof. by intros s. Qed.

Lemma quiet_onClient {A} ptr (m : M qerror (QconnClient.Client P) A) : quiet (onClient ptr m).
Proof.
  intros s. unfold onClient. destruct (s_clients s !! ptr) as [c|]; [|done].
  by destruct (m c).
Qed.

Lemma quiet_onNet {A} (m : M qerror (QconnExec.network P) A) : quiet (onNet m).
Proof. intros s. unfold onNet. by destruct (m (s_net s)). Qed.

Lemma quiet_client : quiet client.
Proof.
  intros s. unfold client. destruct (s_conn s); [done|].
  destruct (QconnExec.dial (s_net s)) as [[e|[[t fills] z]] net]; [done|].
  by destruct (QconnClient.dialed t fills) as [[e|u] c].
Qed.

Lemma quiet_resetClient : quiet resetClient.
Proof.
  intros s. unfold resetClient. destruct (s_conn s) as [c|]; [|done].
  apply (quiet_onClient c QconnClient.Close s).
Qed.

Create HintDb mcp.
Hint Resolve quiet_const quiet_onClient quiet_onNet quiet_client quiet_resetClient : mcp.

Lemma calm_keeps {A} (m : M dbg_error (Client D) A) :
  (∀ tx q, keeps (closed_at tx q) m) → calm m.
Proof.
  intros Hm c Hc. by apply (Hm (t_tx (c_conn c)) (t_peer (c_conn c)) c).
Qed.

Lemma calm_orError {A} (m : M dbg_error (Client D) (A * option dbg_error)) :
  (∀ tx q, keeps (closed_at tx q) m) → calm (orError m).
Proof.
  intros Hm. apply calm_keeps. intros tx q. unfold orError. apply keeps_bind; [auto|].
  intros [a [e|]]; eauto with keeps.
Qed.

Lemma fl_cli k : (∀ c, follows RNone (k c)) → follows RNone (cli k).
Proof.
  intros Hk. apply fl_quiet; [auto with mcp|]. intros [e|c]; [|done].
  apply fl_quiet; [auto with mcp|]. intros ?. apply fl_done.
Qed.

Lemma fl_callClient {A} (m : M qerror (QconnClient.Client P) A) out : follows RNone (callClient m out).
Proof. apply fl_cli. intros c. apply fl_quiet; [auto with mcp|]. intros a. apply fl_done. Qed.

Lemma fl_callNet {A} (m : M qerror (QconnExec.network P) A) out : follows RNone (callNet m out).
Proof. apply fl_cli. intros c. apply fl_quiet; [auto with mcp|]. intros a. apply fl_done. Qed.

Lemma fl_withSession id k : (∀ q, follows (RFound id q) (k q)) → follows RNone (withSession id k).
Proof. intros Hk. apply fl_lookup; [apply fl_done|done]. Qed.

Lemma fl_callSession {A} id (m : Z → M dbg_error (Client D) A) out :
  (∀ pid, calm (m pid)) → follows RNone (callSession id m out).
Proof.
  intros Hm. apply fl_withSession. intros q. apply fl_forget, fl_session; [done|].
  intros a. apply fl_done.
Qed.

Lemma fl_dialPdebug port k : (∀ c, follows (ROwn c) (k c)) → follows RNone (dialPdebug port k).
Proof.
  intros Hk. apply fl_quiet; [auto with mcp|]. intros cfg. case_decide.
  - apply fl_connect; [intros d; apply ConnectSerial_closes | intros e; apply fl_done | done].
  - apply fl_quiet; [auto with mcp|]. intros [m|]; [|apply fl_done].
    apply fl_quiet; [auto with mcp|]. intros [e|u]; [apply fl_done|].
    apply fl_connect; [apply Connect_closes | intros e; apply fl_done | done].
Qed.

(** The end of an attach or a launch that worked. *)
Lemma fl_enter c pid tid pid' out :
  follows (ROwn c)
    (PStep _ (onDbg c (Select pid tid)) (λ _,
     PStep _ nextSeq (λ n,
     PStep _ (register (sessionId n) c pid') (λ _, PDone (out n))))).
Proof.
  apply fl_use; [apply calm_keeps; eauto with keeps|]. intros ?.
  apply fl_draw. intros n. apply fl_register, fl_done.
Qed.

Lemma fl_fail c e :
  follows (ROwn c) (PStep _ (onDbg c Close) (λ _, PDone (RErr (TDbg e)))).
Proof. apply fl_close. intros ?. apply fl_done. Qed.

Hint Resolve fl_done fl_callClient fl_callNet : mcp.
Hint Resolve calm_orError calm_keeps : mcp.

Lemma calm_threadsQuery pid : calm (threadsQuery (S := Client D) pid).
Proof.
  apply calm_keeps. intros tx q. unfold threadsQuery. keeps_auto.
Qed.

Lemma fl_debug_attach i : follows RNone (debug_attach i).
Proof.
  apply fl_cli. intros ?. apply fl_dialPdebug. intros d.
  apply fl_use; [apply calm_keeps; eauto with keeps|]. intros [e|u]; [apply fl_fail|].
  apply (fl_enter d _ 1 _ (λ n, ROut (OAttach (MkAttachOut (sessionId n) (ai_PID i) [])))).
Qed.

Lemma fl_debug_launch i : follows RNone (debug_launch i).
Proof.
  apply fl_cli. intros ?. apply fl_dialPdebug. intros d.
  apply fl_use; [apply calm_keeps; eauto with keeps|]. intros [e|l]; [apply fl_fail|].
  apply (fl_enter d _ _ _ (λ n, ROut (OLaunch (MkLaunchOut (sessionId n) (lr_pid l) (lr_tid l) launchNote)))).
Qed.

Lemma fl_debug_detach i : follows RNone (debug_detach i).
Proof.
  apply fl_withSession. intros q. apply fl_shut.
  - intros pid c. unfold mbind, M_bind, attempt. by destruct (Detach pid c).
  - intros ?. apply fl_unregister, fl_done.
Qed.

Lemma fl_handle_signal i : follows RNone (debug_handle_signal i).
Proof.
  unfold debug_handle_signal. case_match; [apply fl_done|].
  apply fl_withSession. intros q. apply fl_forget, fl_signal. intros ?. apply fl_done.
Qed.

Lemma fl_closeServer : follows RNone closeServer.
Proof.
  apply fl_shutdown, fl_quiet; [auto with mcp|]. intros ?. apply fl_done.
Qed.

Hint Resolve fl_debug_attach fl_debug_launch fl_debug_detach fl_handle_signal fl_closeServer : mcp.
Hint Resolve calm_threadsQuery : mcp.

Lemma handler_follows c : follows RNone (handler c).
Proof.
  destruct c; cbn [handler]; try solve [auto with mcp | apply fl_callClient | apply fl_callNet];
    try solve [apply fl_callSession; intros ?; eauto with mcp keeps].
  - (* system_info *) apply fl_quiet; [auto with mcp|]. intros ?. apply fl_callClient.
  - (* write_memory *) unfold write_memory. case_match; auto with mcp.
  - (* write_file *) unfold write_file. case_match; auto with mcp.
  - (* debug_write_memory *) unfold debug_write_memory. case_match; [auto with mcp|].
    apply fl_callSession. intros ?. eauto with mcp keeps.
  - (* debug_write_registers *) unfold debug_write_registers. case_match; [auto with mcp|].
    apply fl_callSession. intros ?. eauto with mcp keeps.
Qed.

(** ** The invariant *)

(** A disposition table: one byte per signal, each 0 or 1. *)
Definition sig_ok (ss : qnxSession) : Prop :=
  ∀ tbl, qs_sigTable ss = Some tbl →
    length tbl = NumSignals ∧ Forall (λ b, b = x00 ∨ b = x01) tbl.

(** An id the server has handed out. *)
Definition issued s (id : list byte) : Prop := ∃ n, id = sessionId n ∧ 0 < n <= s_seq s.

(** Session [ss] is in the registry. *)
Definition registered s (ss : qnxSession) : Prop :=
  ∃ id q, s_sessions s !! id = Some q ∧ s_heap s !! q = Some ss.

(** The server next to what the requests in flight hold. *)
Record inv s (rs : list res) : Prop := {
  inv_seq : 0 <= s_seq s;
  inv_reg id q : s_sessions s !! id = Some q → issued s id ∧ (q < length (s_heap s))%nat;
  inv_inj id1 id2 q : s_sessions s !! id1 = Some q → s_sessions s !! id2 = Some q → id1 = id2;
  inv_heap q ss : s_heap s !! q = Some ss → (qs_client ss < length (s_dbgs s))%nat ∧ sig_ok ss;
  inv_private q1 q2 ss1 ss2 : s_heap s !! q1 = Some ss1 → s_heap s !! q2 = Some ss2 →
    qs_client ss1 = qs_client ss2 → q1 = q2;
  inv_owned i r c : rs !! i = Some r → owned r = Some c →
    (c < length (s_dbgs s))%nat ∧ ∀ q ss, s_heap s !! q = Some ss → qs_client ss ≠ c;
  inv_owned_once i j r r' c : rs !! i = Some r → rs !! j = Some r' →
    owned r = Some c → owned r' = Some c → i = j;
  inv_ticket i r n : rs !! i = Some r → ticket r = Some n →
    0 < n <= s_seq s ∧ s_sessions s !! sessionId n = None;
  inv_ticket_once i j r r' n : rs !! i = Some r → rs !! j = Some r' →
    ticket r = Some n → ticket r' = Some n → i = j;
  inv_seen i r id q : rs !! i = Some r → seen r = Some (id, q) →
    issued s id ∧ (q < length (s_heap s))%nat ∧ ∀ q', s_sessions s !! id = Some q' → q' = q;
  inv_seen_ticket i j r r' n q : rs !! i = Some r → rs !! j = Some r' →
    ticket r = Some n → seen r' ≠ Some (sessionId n, q);
  inv_shut i r q : rs !! i = Some r → shut r = Some q →
    ∃ ss d, s_heap s !! q = Some ss ∧ s_dbgs s !! qs_client ss = Some d ∧ closed d;
  inv_leak c d : s_dbgs s !! c = Some d →
    closed d ∨ (∃ ss, registered s ss ∧ qs_client ss = c) ∨
    ∃ i r, rs !! i = Some r ∧ owned r = Some c;
  inv_dropped : Forall (λ t, t_open t = false) (s_dropped s)
}.

Lemma sessionId_inj n m : 0 < n → 0 < m → sessionId n = sessionId m → n = m.
Proof.
  intros Hn Hm E. apply app_inv_head in E. unfold fmt_d, fmt_int in E.
  rewrite !(proj2 (Z.ltb_ge _ _)) in E by lia.
  pose proof (parse_fmt_uint 10 (Z.max n m) ltac:(lia) n) as En.
  pose proof (parse_fmt_uint 10 (Z.max n m) ltac:(lia) m) as Em.
  rewrite E, Em in En by lia. specialize (En ltac:(lia)). congruence.
Qed.

(** The next number has not been handed out. *)
Lemma issued_fresh s : 0 <= s_seq s → ¬ issued s (sessionId (s_seq s + 1)).
Proof. intros Hs (n & E & Hn). apply sessionId_inj in E; lia. Qed.

Lemma issued_later s id : issued s id → issued (set_seq (s_seq s + 1) s) id.
Proof. intros (n & -> & Hn). exists n. split; [done|]. simpl. lia. Qed.

(** A request that arrives holds nothing. *)
Lemma inv_call s rs : inv s rs → inv s (rs ++ [RNone]).
Proof.
  intros I. destruct I. split; auto.
  all: intros; repeat match goal with
    | Hl : (_ ++ [_]) !! _ = Some _ |- _ => apply lookup_snoc_Some in Hl as [[_ Hl]|[_ <-]]; [|done]
    end; eauto.
  destruct (inv_leak0 c d) as [?|[?|(i & r & Hi & Ho)]]; [auto..|].
  right; right. exists i, r. split; [|done]. by apply lookup_app_l_Some.
Qed.

(** Working on clients changes nothing else, as long as none reopens. *)
Definition calm_change (l l' : list (Client D)) : Prop :=
  length l' = length l ∧
  ∀ c d d', l !! c = Some d → l' !! c = Some d' → closed d → closed d'.

Lemma inv_calm s s' rs :
  inv s rs → calm_change (s_dbgs s) (s_dbgs s') → s_heap s' = s_heap s →
  s_sessions s' = s_sessions s → s_seq s' = s_seq s → s_dropped s' = s_dropped s → inv s' rs.
Proof.
  intros [] [El Hc] Eh Em Eq Ed.
  split; unfold issued, registered in *; rewrite ?El, ?Eh, ?Em, ?Eq, ?Ed; auto.
  - intros i r q Hi Hq. destruct (inv_shut0 i r q Hi Hq) as (ss & d & Hss & Hd & Hcl).
    destruct (lookup_lt_is_Some_2 (s_dbgs s') (qs_client ss)) as [d' Hd'].
    { rewrite El. by eapply lookup_lt_Some. }
    exists ss, d'. eauto.
  - intros c d' Hd'. destruct (lookup_lt_is_Some_2 (s_dbgs s) c) as [d Hd].
    { rewrite <- El. by eapply lookup_lt_Some. }
    destruct (inv_leak0 c d Hd) as [Hcl|?]; eauto.
Qed.

(** Which entry of an updated list is looked up. *)
Ltac insert_cases :=
  repeat match goal with
  | Hl : <[_ := _]> _ !! _ = Some _ |- _ =>
      apply list_lookup_insert_Some in Hl as [(<- & <- & _)|[? Hl]]
  | Hl : (_ ++ [_]) !! _ = Some _ |- _ =>
      apply lookup_snoc_Some in Hl as [[? Hl]|[-> <-]]
  | Hl : <[_ := _]> _ !! _ = Some _ |- _ =>
      apply lookup_insert_Some in Hl as [[? ?]|[? Hl]]
  | Hl : delete _ _ !! _ = Some _ |- _ => apply lookup_delete_Some in Hl as [? Hl]
  end.

(** Some request owns [c]. *)
Definition owner (rs : list res) (c : nat) : Prop := ∃ i r, rs !! i = Some r ∧ owned r = Some c.

Lemma owner_insert rs i r r' c :
  rs !! i = Some r → (owned r = Some c → owned r' = Some c) → owner rs c → owner (<[i := r']> rs) c.
Proof.
  intros Hi Ho (j & rj & Hj & Hoj). destruct (decide (j = i)) as [->|].
  - simplify_eq. exists i, r'. split; [|auto].
    apply list_lookup_insert_eq. by eapply lookup_lt_Some.
  - exists j, rj. by rewrite list_lookup_insert_ne.
Qed.

Lemma owner_new rs i r r' c :
  rs !! i = Some r → owned r' = Some c → owner (<[i := r']> rs) c.
Proof.
  intros Hi Ho. exists i, r'. split; [|done].
  apply list_lookup_insert_eq. by eapply lookup_lt_Some.
Qed.

(** A request changes what it holds, the server staying as it is. *)
Lemma inv_replace s rs i r r' :
  inv s rs → rs !! i = Some r →
  (∀ c, owned r' = Some c → owned r = Some c) →
  (∀ c d, owned r = Some c → owned r' = None → s_dbgs s !! c = Some d → closed d) →
  (∀ n, ticket r' = Some n → ticket r = Some n) →
  (∀ id q, seen r' = Some (id, q) → s_sessions s !! id = Some q ∨ seen r = Some (id, q)) →
  (∀ q, shut r' = Some q →
     ∃ ss d, s_heap s !! q = Some ss ∧ s_dbgs s !! qs_client ss = Some d ∧ closed d) →
  inv s (<[i := r']> rs).
Proof.
  intros [] Hi Ho Hd Ht Hs Hq. split; auto; intros; insert_cases; eauto.
  - destruct (Hs id q) as [Hid|]; [done| |eauto].
    destruct (inv_reg0 id q Hid). split_and!; [done..|]. congruence.
  - by destruct r'.
  - intros Hse. destruct (Hs _ _ Hse) as [Hid|Hr]; [|by eapply (inv_seen_ticket0 i0 i)].
    destruct (inv_ticket0 i0 r0 n); congruence.
  - destruct (inv_leak0 c d) as [?|[?|Ho']]; [auto..|].
    destruct (decide (owned r = Some c)) as [Er|Er].
    + destruct (owned r') as [c'|] eqn:Eo; [|left; by eapply Hd].
      specialize (Ho c' eq_refl). right; right. eapply owner_insert; [done| |done]. congruence.
    + right; right. eapply owner_insert; [done| |done]. congruence.
Qed.

(** A new client belongs to the request that connected it. *)
Lemma inv_connect s rs i d :
  inv s rs → rs !! i = Some RNone →
  inv (set_dbgs (s_dbgs s ++ [d]) s) (<[i := ROwn (length (s_dbgs s))]> rs).
Proof.
  intros I Hi. destruct I. split; unfold issued, registered in *; simpl; auto;
    intros; insert_cases; simplify_eq/=; rewrite ?length_app; simpl; eauto.
  - destruct (inv_heap0 q ss); [done|]. split; [lia|done].
  - split; [lia|]. intros q ss Hq. destruct (inv_heap0 q ss); [done|]. lia.
  - destruct (inv_owned0 i0 r c); [done..|]. split; [lia|done].
  - destruct (inv_owned0 i0 r (length (s_dbgs s))); [done..|]. lia.
  - destruct (inv_owned0 j r' (length (s_dbgs s))); [done..|]. lia.
  - destruct (inv_shut0 i0 r q) as (ss & d' & Hss & Hd & Hcl); [done..|].
    exists ss, d'. split_and!; [done| |done]. by apply lookup_app_l_Some.
  - destruct (inv_leak0 c d0) as [?|[?|Ho]]; [done|auto..|].
    right; right. eapply owner_insert; [done|done|done].
  - right; right. by eapply owner_new.
Qed.

(** Drawing a number: it has never been drawn before. *)
Lemma inv_draw s rs i c :
  inv s rs → rs !! i = Some (ROwn c) →
  inv (set_seq (s_seq s + 1) s) (<[i := RTicket c (s_seq s + 1)]> rs).
Proof.
  intros I Hi. destruct I. pose proof (issued_fresh s inv_seq0) as Hfresh.
  split; unfold registered in *; simpl; auto; intros; insert_cases; simplify_eq/=; eauto.
  - lia.
  - destruct (inv_reg0 id q); auto using issued_later.
  - split; [lia|]. apply eq_None_not_Some. intros [q Hq]. by destruct (inv_reg0 _ _ Hq).
  - destruct (inv_ticket0 i0 r n); [done..|]. split; [lia|done].
  - destruct (inv_ticket0 i0 r (s_seq s + 1)); [done..|]. lia.
  - destruct (inv_ticket0 j r' (s_seq s + 1)); [done..|]. lia.
  - destruct (inv_seen0 i0 r id q) as (? & ? & ?); [done..|]. auto using issued_later.
  - intros Hse. by destruct (inv_seen0 j r' _ q ltac:(done) Hse).
  - destruct (inv_leak0 c0 d) as [?|[?|Ho]]; [done|auto..|].
    right; right. by eapply owner_insert.
Qed.

(** The owned client becomes the client of a new session. *)
Lemma inv_register s rs i c n pid :
  inv s rs → rs !! i = Some (RTicket c n) →
  inv (snd (register (sessionId n) c pid s)) (<[i := RNone]> rs).
Proof.
  intros I Hi. destruct I.
  destruct (inv_owned0 i _ c Hi eq_refl) as [Hc Hpriv].
  destruct (inv_ticket0 i _ n Hi eq_refl) as [Hn Hfree].
  assert (issued s (sessionId n)) as Hid by (by exists n).
  split; unfold registered in *; simpl; auto;
    intros; insert_cases; simplify_eq/=; rewrite ?length_app; simpl; eauto.
  - split; [done|lia].
  - destruct (inv_reg0 id q); [done|]. split; [done|lia].
  - destruct (inv_reg0 id1 (length (s_heap s))); [done|]. lia.
  - destruct (inv_reg0 id2 (length (s_heap s))); [done|]. lia.
  - by split.
  - by exfalso; eapply Hpriv.
  - by exfalso; eapply Hpriv.
  - destruct (inv_owned0 i0 r c0) as [? Hp]; [done..|]. split; [done|].
    intros q ss Hq. insert_cases; [by eapply Hp|]. simpl. intros ->.
    by assert (i = i0) by (by eapply inv_owned_once0).
  - destruct (inv_ticket0 i0 r n0); [done..|]. split; [done|].
    apply lookup_insert_None. split; [done|]. intros En.
    apply sessionId_inj in En; [|lia..]. subst. 
    by assert (i = i0) by (by eapply inv_ticket_once0).
  - destruct (inv_seen0 i0 r id q) as (? & ? & Hu); [done..|]. split_and!; [done|lia|].
    intros q' Hq'. insert_cases; [|auto]. subst. by destruct (inv_seen_ticket0 i i0 (RTicket c n) r n q).
  - destruct (inv_shut0 i0 r q) as (ss & d & Hss & Hd & Hcl); [done..|].
    exists ss, d. split_and!; [|done..]. by apply lookup_app_l_Some.
  - destruct (decide (c0 = c)) as [->|Hne].
    { right; left. exists (MkQnxSession c pid None). split; [|done]. exists (sessionId n), (length (s_heap s)).
      split; [by rewrite lookup_insert_eq | by rewrite lookup_app_r, Nat.sub_diag]. }
    destruct (inv_leak0 c0 d) as [?|[(ss & (id & q & Hq & Hss) & <-)|Ho]]; [done|by left| |].
    + right; left. exists ss. split; [|done]. exists id, q.
      split; [|by apply lookup_app_l_Some]. rewrite lookup_insert_ne; [done|]. congruence.
    + right; right. eapply owner_insert; [done| |done]. simpl. congruence.
Qed.

Lemma inv_unregister s rs i id q :
  inv s rs → rs !! i = Some (RShut id q) →
  inv (snd (unregister id s)) (<[i := RNone]> rs).
Proof.
  intros I Hi. destruct I. split; unfold issued, registered in *; simpl; auto;
    intros; insert_cases; simplify_eq/=; eauto.
  - destruct (inv_ticket0 i0 r n); [done..|]. split; [done|]. rewrite lookup_delete_None. auto.
  - destruct (inv_seen0 i0 r id0 q0) as (? & ? & ?); [done..|]. split_and!; [done..|].
    intros q' Hq'. insert_cases. auto.
  - destruct (inv_leak0 c d) as [?|[(ss & (id' & q' & Hq' & Hss) & <-)|Ho]]; [done|by left| |].
    + destruct (decide (id' = id)) as [->|].
      * destruct (inv_seen0 i _ id q Hi eq_refl) as (_ & _ & Hu). rewrite (Hu q' Hq') in Hss.
        destruct (inv_shut0 i _ q Hi eq_refl) as (ss' & d' & ? & ? & ?). simplify_eq. by left.
      * right; left. exists ss. split; [|done]. exists id', q'. by rewrite lookup_delete_ne.
    + right; right. by eapply owner_insert.
Qed.

(** ** Steps on clients and sessions *)

(** Only clients change, and none reopens. *)
Definition touches s s' : Prop :=
  calm_change (s_dbgs s) (s_dbgs s') ∧ s_heap s' = s_heap s ∧
  s_sessions s' = s_sessions s ∧ s_seq s' = s_seq s ∧ s_dropped s' = s_dropped s.

Lemma touches_refl s : touches s s.
Proof. repeat split; try done. intros; by simplify_eq. Qed.

Lemma touches_trans s1 s2 s3 : touches s1 s2 → touches s2 s3 → touches s1 s3.
Proof.
  intros ([L1 C1] & ? & ? & ? & ?) ([L2 C2] & ? & ? & ? & ?). split; [|by split_and!; etrans].
  split; [by etrans|]. intros c d d3 Hd Hd3 Hc.
  destruct (lookup_lt_is_Some_2 (s_dbgs s2) c) as [d2 Hd2]; [|eauto].
  rewrite L1. by eapply lookup_lt_Some.
Qed.

Lemma inv_touches s s' rs : inv s rs → touches s s' → inv s' rs.
Proof. intros I (Hc & Hh & Hm & Hq & Hd). by eapply inv_calm. Qed.

Lemma quiet_touches {A} (m : act A) s : quiet m → touches s (snd (m s)).
Proof.
  intros Hm. destruct (Hm s) as (Ed & Eh & Em & Eq & Ep). unfold touches. rewrite Ed.
  split_and!; try done. apply (touches_refl s).
Qed.

Lemma onDbg_touches {A} c (m : M dbg_error (Client D) A) s :
  calm m → touches s (snd (onDbg c m s)).
Proof.
  intros Hm. unfold onDbg. destruct (s_dbgs s !! c) as [d|] eqn:Hd; [|apply touches_refl].
  specialize (Hm d). destruct (m d) as [a d']. simpl in *. split; [|done]. simpl.
  split; [by rewrite length_insert|]. intros. insert_cases; simplify_eq; auto.
Qed.

Lemma onSession_touches {A} q (m : Z → M dbg_error (Client D) A) s :
  (∀ pid, calm (m pid)) → touches s (snd (onSession q m s)).
Proof.
  intros Hm. unfold onSession. destruct (s_heap s !! q); [|apply touches_refl].
  by apply onDbg_touches.
Qed.

(** A method that ends closed, on a session. *)
Lemma onSession_shuts {A} q (m : Z → M dbg_error (Client D) A) s ss d :
  (∀ pid c, closed (snd (m pid c))) →
  s_heap s !! q = Some ss → s_dbgs s !! qs_client ss = Some d →
  ∃ d', s_dbgs (snd (onSession q m s)) !! qs_client ss = Some d' ∧ closed d'.
Proof.
  intros Hm Hq Hd. unfold onSession. rewrite Hq. unfold onDbg. rewrite Hd.
  specialize (Hm (qs_pid ss) d). destruct (m (qs_pid ss) d) as [a d'].
  exists d'. split; [|done]. simpl. apply list_lookup_insert_eq. by eapply lookup_lt_Some.
Qed.

Lemma calm_shuts {A} (m : M dbg_error (Client D) A) : (∀ c, closed (snd (m c))) → calm m.
Proof. by intros Hm c _. Qed.

(** The disposition table of a session, updated. *)
Lemma sig_ok_update ss sig b :
  sig_ok ss → b = x00 ∨ b = x01 →
  sig_ok (MkQnxSession (qs_client ss) (qs_pid ss) (Some (<[sig := b]> (signalTable ss)))).
Proof.
  intros Hs Hb tbl [= <-]. rewrite length_insert. unfold signalTable.
  destruct (qs_sigTable ss) as [tbl|] eqn:E; cbn [from_option]; unfold id.
  - destruct (Hs tbl E). split; [done|]. by apply Forall_insert.
  - split; [apply length_replicate|]. apply Forall_insert; [|done]. apply Forall_replicate. by right.
Qed.

Lemma inv_set_session s rs q ss ss' :
  inv s rs → s_heap s !! q = Some ss → qs_client ss' = qs_client ss → sig_ok ss' →
  inv (set_heap (<[q := ss']> (s_heap s)) s) rs.
Proof.
  intros I Hq Ec Hs. destruct I.
  assert (∀ q' t, <[q := ss']> (s_heap s) !! q' = Some t →
    ∃ t', s_heap s !! q' = Some t' ∧ qs_client t' = qs_client t) as Hback.
  { intros q' t Ht. insert_cases; simplify_eq; eauto. }
  split; unfold issued, registered in *; simpl; rewrite ?length_insert; auto.
  - intros q' t Ht. insert_cases; [rewrite Ec; split; [by eapply inv_heap0|done]|by eapply inv_heap0].
  - intros q1 q2 t1 t2 (t1' & H1' & <-)%Hback (t2' & H2' & <-)%Hback. by apply inv_private0.
  - intros i r c Hi Ho. destruct (inv_owned0 i r c Hi Ho) as [? Hp]. split; [done|].
    intros q' t (t' & Ht' & <-)%Hback. eauto.
  - intros i r q' Hi Hsh. destruct (inv_shut0 i r q' Hi Hsh) as (t & d & Ht & Hd & Hcl).
    destruct (decide (q' = q)) as [->|].
    + simplify_eq. exists ss', d. rewrite Ec. split_and!; [|done..].
      apply list_lookup_insert_eq. by eapply lookup_lt_Some.
    + exists t, d. by rewrite list_lookup_insert_ne.
  - intros c d Hd. destruct (inv_leak0 c d Hd) as [?|[(t & (id & q' & Hid & Ht) & <-)|?]]; [auto| |auto].
    right; left. destruct (decide (q' = q)) as [->|].
    + simplify_eq. exists ss'. split; [|done]. exists id, q. split; [done|].
      apply list_lookup_insert_eq. by eapply lookup_lt_Some.
    + exists t. split; [|done]. exists id, q'. by rewrite list_lookup_insert_ne.
Qed.

Lemma inv_signal s rs q sig stop :
  inv s rs → inv (snd (handleSignal q sig stop s)) rs.
Proof.
  intros I. unfold handleSignal. destruct (s_heap s !! q) as [ss|] eqn:Hq; [|done].
  destruct (inv_heap s rs I q ss Hq) as [_ Hs].
  eapply inv_touches; [|apply onDbg_touches, calm_keeps; eauto with keeps].
  eapply inv_set_session; [done|done|done|]. apply sig_ok_update; [done|]. destruct stop; auto.
Qed.

(** Closing some sessions, one after the other. *)
Lemma close_all_touches qs s :
  touches s (foldr (λ q s, snd (onSession q (λ _, Close) s)) s qs) ∧
  ∀ q ss d, q ∈ qs → s_heap s !! q = Some ss →
    s_dbgs (foldr (λ q s, snd (onSession q (λ _, Close) s)) s qs) !! qs_client ss = Some d → closed d.
Proof.
  induction qs as [|q qs [Ht Hc]]; simpl.
  { split; [apply touches_refl|]. by intros ??? ?%elem_of_nil. }
  set (s1 := foldr _ s qs) in *.
  assert (touches s1 (snd (onSession q (λ _, Close) s1))) as Ht1.
  { apply onSession_touches. intros _. by apply calm_shuts. }
  split; [by eapply touches_trans|]. intros q' ss d Hin Hss Hd.
  destruct Ht as (_ & Eh & _). destruct Ht1 as ([El Hk] & _).
  destruct (lookup_lt_is_Some_2 (s_dbgs s1) (qs_client ss)) as [d1 Hd1].
  { rewrite <- El. by eapply lookup_lt_Some. }
  apply elem_of_cons in Hin as [->|Hin]; [|by eauto].
  destruct (onSession_shuts q (λ _, Close) s1 ss d1) as (d' & Hd' & Hcl); [done|by rewrite Eh|done|].
  by simplify_eq.
Qed.

Lemma inv_shutdown s rs : inv s rs → inv (snd (closeSessions s)) rs.
Proof.
  intros I. unfold closeSessions. simpl.
  destruct (close_all_touches (snd <$> map_to_list (s_sessions s)) s) as [Ht Hc].
  set (s1 := foldr _ s _) in *. pose proof (inv_touches _ _ _ I Ht) as I1.
  destruct Ht as (_ & Eh & Em & _). destruct I1.
  split; unfold issued, registered in *; simpl; auto; try by setoid_rewrite lookup_empty.
  - intros i r n Hi Hn. by destruct (inv_ticket0 i r n Hi Hn).
  - intros i r id q Hi Hn. by destruct (inv_seen0 i r id q Hi Hn) as (? & ? & _).
  - intros c d Hd. destruct (inv_leak0 c d Hd) as [?|[(t & (id & q & Hid & Ht) & <-)|?]]; [auto| |auto].
    left. eapply (Hc q t); [|by rewrite <- Eh|done].
    apply list_elem_of_fmap. exists (id, q). split; [done|].
    apply elem_of_map_to_list. by rewrite <- Em.
Qed.

(** ** Steps preserve the invariant *)

Lemma stepProc_inv A (m : act A) k s p' s' :
  stepProc (PStep A m k) s = Some (p', s') → p' = k (fst (m s)) ∧ s' = snd (m s).
Proof. simpl. destruct (m s). by intros [= <- <-]. Qed.

(** A step that only works on clients keeps what the request holds. *)
Lemma step_touches s s' rs i r p :
  inv s rs → rs !! i = Some r → touches s s' → follows r p →
  ∃ r', follows r' p ∧ inv s' (<[i := r']> rs).
Proof.
  intros I Hi Ht Hf. exists r. split; [done|]. rewrite list_insert_id by done.
  by eapply inv_touches.
Qed.

(** Giving a connection up. *)
Lemma inv_drop s rs o :
  inv s rs → gives_up_closed (D := D) (inl (CDial, o)) →
  inv (set_dropped (s_dropped s ++ option_list o) s) rs.
Proof.
  intros [] Ho. split; auto. apply Forall_app. split; [done|]. destruct o; by repeat constructor.
Qed.

Lemma nextDial_touches s : touches s (snd (nextDial s)).
Proof. apply quiet_touches. intros s'. unfold nextDial. by destruct (s_dials s'). Qed.

Lemma connect_step conn k s rs i :
  inv s rs → rs !! i = Some RNone → (∀ d, gives_up_closed (conn d)) →
  (∀ e, follows RNone (k (inl e))) → (∀ c, follows (ROwn c) (k (inr c))) →
  ∃ r', follows r' (k (fst (connectDbg conn s))) ∧ inv (snd (connectDbg conn s)) (<[i := r']> rs).
Proof.
  intros I Hi Hc He Hk. unfold connectDbg. pose proof (inv_touches _ _ _ I (nextDial_touches s)) as I'.
  destruct (nextDial s) as [d s']. specialize (Hc d). destruct (conn d) as [[e o]|c]; simpl.
  - exists RNone. rewrite list_insert_id by done. split; [done|]. by apply inv_drop.
  - exists (ROwn (length (s_dbgs s'))). split; [done|]. by apply inv_connect.
Qed.

(** After closing, a client is no longer anybody's to close. *)
Lemma close_step s rs i c :
  inv s rs → rs !! i = Some (ROwn c) → inv (snd (onDbg c Close s)) (<[i := RNone]> rs).
Proof.
  intros I Hi. assert (touches s (snd (onDbg c Close s))) as Ht.
  { apply onDbg_touches. by apply calm_shuts. }
  apply (inv_touches _ _ _ I) in Ht as I'. eapply inv_replace; [done|done|done| |done..].
  intros c' d [= <-] _. destruct (inv_owned s rs I i _ c Hi eq_refl) as [Hc _].
  apply lookup_lt_is_Some_2 in Hc as [d0 Hd0]. unfold onDbg. rewrite Hd0. simpl.
  rewrite list_lookup_insert_eq by (by eapply lookup_lt_Some). by intros [= <-].
Qed.

Lemma shut_step {A} s rs i id q (m : Z → M dbg_error (Client D) A) :
  inv s rs → rs !! i = Some (RFound id q) → (∀ pid c, closed (snd (m pid c))) →
  inv (snd (onSession q m s)) (<[i := RShut id q]> rs).
Proof.
  intros I Hi Hm. assert (touches s (snd (onSession q m s))) as Ht.
  { apply onSession_touches. intros pid. by apply calm_shuts. }
  apply (inv_touches _ _ _ I) in Ht as I'. eapply inv_replace; [done|done|done|done|done|by right|].
  intros q' [= <-]. destruct (inv_seen s rs I i _ id q Hi eq_refl) as (_ & Hq & _).
  apply lookup_lt_is_Some_2 in Hq as [ss Hss]. destruct (inv_heap s rs I q ss Hss) as [Hc _].
  apply lookup_lt_is_Some_2 in Hc as [d Hd].
  destruct (onSession_shuts q m s ss d) as (d' & Hd' & Hcl); [done..|].
  exists ss, d'. destruct Ht as (_ & Eh & _). by rewrite Eh.
Qed.

Lemma follows_step r p s p' s' rs i :
  follows r p → inv s rs → rs !! i = Some r → stepProc p s = Some (p', s') →
  ∃ r', follows r' p' ∧ inv s' (<[i := r']> rs).
Proof.
  intros Hf. revert s p' s' rs.
  induction Hf; intros s p1 s1 rs I Hi Hs; try apply stepProc_inv in Hs as [-> ->].
  - done.
  - eapply step_touches; [done|done|by apply quiet_touches|done].
  - destruct (IHHf s p1 s1 (<[i := RNone]> rs)) as (r' & Hr' & I'); [| |done|].
    + by eapply inv_replace.
    + apply list_lookup_insert_eq. by eapply lookup_lt_Some.
    + exists r'. by rewrite list_insert_insert_eq in I'.
  - by apply connect_step.
  - eapply step_touches; [done|done|by apply onDbg_touches|done].
  - exists RNone. split; [done|]. by apply close_step.
  - exists (RTicket c (s_seq s + 1)). split; [done|]. by apply inv_draw.
  - exists RNone. split; [done|]. by apply inv_register.
  - simpl. destruct (s_sessions s !! id) as [q|] eqn:Hq.
    + exists (RFound id q). split; [done|]. eapply inv_replace; [done..| |done].
      intros ?? [= <- <-]. by left.
    + exists RNone. split; [done|]. by rewrite list_insert_id.
  - eapply step_touches; [done|done|by apply onSession_touches|done].
  - exists RNone. split; [done|]. rewrite list_insert_id by done. by apply inv_signal.
  - exists (RShut id q). split; [done|]. by apply shut_step.
  - exists RNone. split; [done|]. by eapply inv_unregister.
  - exists RNone. split; [done|]. rewrite list_insert_id by done. by apply inv_shutdown.
Qed.

(** Steps preserve the invariant, together with what is remembered about the
    past: [gs] is held by nobody in the pool. *)
Lemma pool_step_inv gs s ps s' ps' rs :
  pool_step (s, ps) (s', ps') → Forall2 follows rs ps → inv s (gs ++ rs) →
  ∃ rs', Forall2 follows rs' ps' ∧ inv s' (gs ++ rs').
Proof.
  intros Hst Hf I. inversion Hst as [s1 ps1 c|s1 ps1 i p p' s2 Hp Hs]; subst.
  - exists (rs ++ [RNone]). rewrite app_assoc. split; [|by apply inv_call].
    apply Forall2_app; [done|]. constructor; [apply handler_follows|constructor].
  - destruct (Forall2_lookup_r _ _ _ _ _ Hf Hp) as (r & Hr & Hfr).
    destruct (follows_step r p s p' s' (gs ++ rs) (length gs + i)) as (r' & Hr' & I'); [done|done| |done|].
    { by rewrite lookup_app_r, Nat.add_comm, Nat.add_sub by lia. }
    exists (<[i := r']> rs). rewrite <- insert_app_r. split; [|done]. by apply Forall2_insert.
Qed.

Lemma pool_steps_inv gs s ps s' ps' rs :
  rtc pool_step (s, ps) (s', ps') → Forall2 follows rs ps → inv s (gs ++ rs) →
  ∃ rs', Forall2 follows rs' ps' ∧ inv s' (gs ++ rs').
Proof.
  intros Hr Hf I.
  apply (rtc_ind_r (λ sp, ∃ rs, Forall2 follows rs (snd sp) ∧ inv (fst sp) (gs ++ rs)) (s, ps)) in Hr;
    [done|by exists rs|].
  intros [s1 ps1] [s2 ps2] _ Hst (rs1 & Hf1 & I1). by eapply pool_step_inv.
Qed.

(** Remembering that an id was seen in the registry. *)
Lemma inv_cons s rs : inv s rs → inv s (RNone :: rs).
Proof.
  intros []. split; auto; try solve [intros [|i]; intros; simplify_eq/=; eauto].
  - intros [|i] [|j] r r' c Hi Hj Ho Ho'; simplify_eq/=; [done..|]. f_equal. eauto.
  - intros [|i] [|j] r r' c Hi Hj Ho Ho'; simplify_eq/=; [done..|]. f_equal. eauto.
  - intros [|i] [|j] r r' c q Hi Hj Ho; simplify_eq/=; eauto.
  - intros c d Hd. destruct (inv_leak0 c d Hd) as [?|[?|(i & r & Hi & Ho)]]; [auto..|].
    right; right. by exists (S i), r.
Qed.

Lemma inv_remember s rs id q :
  inv s rs → s_sessions s !! id = Some q → inv s ([RFound id q] ++ rs).
Proof.
  intros I%inv_cons Hq. apply (inv_replace s (RNone :: rs) 0 RNone (RFound id q)); try done.
  intros ?? [= <- <-]. by left.
Qed.

(** Every reachable server, with the requests in flight. *)
Definition reachable (cfg : mcpConfig) (net : QconnExec.network P)
    (dials : list (option (transport D))) : pool (P := P) (D := D) → Prop :=
  rtc pool_step (New cfg net dials, []).

Lemma inv_New cfg net dials : inv (New cfg net dials) [].
Proof. by split. Qed.

Lemma reachable_inv cfg net dials s ps :
  reachable cfg net dials (s, ps) → ∃ rs, Forall2 follows rs ps ∧ inv s rs.
Proof. intros Hr. by eapply (pool_steps_inv [] _ _ _ _ []); [done| |apply inv_New]. Qed.

(** A request that is done owns nothing. *)
Lemma follows_done r p x : follows r p → p = PDone x → owned r = None.
Proof. induction 1; by simplify_eq. Qed.
End ownership.
