(* ===== verification/McpFacts.v ===== *)
(** * What the MCP server promises about debug sessions

    Theorems on every reachable state of the server, whatever requests arrive
    and however their steps interleave, over any qconn daemon and any debug
    agent; and on requests that run alone. *)

From stdpp Require Import base list numbers strings gmap relations.
From Stdlib Require Import ZArith Lia Strings.Byte.
From S2P Require Import Prelude GoStrconv GoStrings GoEncoding Transport QconnFraming.
From S2P Require Import DsmsgClient DsmsgLink DsmsgCommands DsmsgClosed QconnClosed Pdebug McpTypes McpServer McpSessions.
From S2P Require Import MockDsmsg DsmsgE2E MockServer.
From S2P Require QconnClient QconnExec.

Local Open Scope Z_scope.

(** ** Schedules *)

Section schedules.
Context {P D : Type} `{QPeer P} `{Peer D} `{Platform}.
Implicit Types (s : Server P D) (ps : list (proc (P := P) (D := D))).

(** A request arrives, or the request with this number takes a step. *)
Definition event : Type := call + nat.

Definition schedule1 (e : event) (sp : pool (P := P) (D := D)) : pool :=
  let '(s, ps) := sp in
  match e with
  | inl c => (s, ps ++ [handler c])
  | inr i =>
      match ps !! i with
      | Some p => match stepProc p s with Some (p', s') => (s', <[i := p']> ps) | None => sp end
      | None => sp
      end
  end.

Definition schedule (es : list event) (sp : pool (P := P) (D := D)) : pool :=
  foldl (λ sp e, schedule1 e sp) sp es.

Lemma schedule_steps es sp : rtc pool_step sp (schedule es sp).
Proof.
  revert sp. induction es as [|e es IH]; intros [s ps]; [done|].
  etrans; [|apply IH]. destruct e as [c|i]; simpl.
  - apply rtc_once, step_call.
  - destruct (ps !! i) as [p|] eqn:Hp; [|done].
    destruct (stepProc p s) as [[p' s']|] eqn:Hs; [|done]. apply rtc_once. by eapply step_run.
Qed.
End schedules.

(** The server over the repository's mock target and mock debug agent. *)
#[export] Instance mockPlatform : Platform := {
  pf_fmt t _ := t;
  pf_isPrint _ := true;
  pf_setTermios _ _ := true;
  pf_chunks := 4
}.

Definition mockConfig : mcpConfig :=
  MkMcpConfig (str "127.0.0.1") 0 0 (str "127.0.0.1:8077") [] [] 0 [] [] 0.

Definition mockNet (k : nat) : QconnExec.network qsession :=
  QconnExec.MkNetwork (replicate k (Some (mockStream, replicate 300 0%nat, 0%nat))) [].

Definition mockDials (k : nat) : list (option (transport mock)) := replicate k (Some mock_transport).

Definition mockPool (es : list event) : pool (P := qsession) (D := mock) :=
  schedule es (New mockConfig (mockNet 5) (mockDials 5), []).

Lemma mockPool_reachable es :
  reachable mockConfig (mockNet 5) (mockDials 5) (fst (mockPool es), snd (mockPool es)).
Proof. rewrite <- surjective_pairing. apply schedule_steps. Qed.

Lemma mockPool_app es es' : mockPool (es ++ es') = schedule es' (mockPool es).
Proof. apply foldl_app. Qed.

Lemma all_done (ps : list (proc (P := qsession) (D := mock))) :
  forallb (λ p, if p is PDone _ then true else false) ps = true → ∀ p, p ∈ ps → ∃ r, p = PDone r.
Proof.
  intros Hall p Hp. rewrite forallb_forall in Hall. specialize (Hall p).
  rewrite <- list_elem_of_In in Hall. specialize (Hall Hp). destruct p as [r|]; [by exists r|done].
Qed.

(** Two attaches whose steps alternate. *)
Definition twoAttaches : list event :=
  [inl (CDebugAttach (MkAttachIn 77 0)); inl (CDebugAttach (MkAttachIn 88 0))] ++ concat (replicate 9 [inr 0%nat; inr 1%nat]).

(** ** Sessions *)

(** C13: Debug sessions stay apart under every interleaving of requests. In
    every reachable state each id in the registry is one the server has issued
    ([dbg-n] with n between 1 and the counter), it leads to a session with a
    client that exists, and two ids lead to two different sessions with two
    different clients: no request on one session can talk to the process
    debugged by another. *)
Theorem sessions_isolated {P D} `{QPeer P} `{Peer D} `{Platform} cfg net dials (s : Server P D) ps :
  reachable cfg net dials (s, ps) →
  (∀ id q, s_sessions s !! id = Some q →
     (∃ n, id = sessionId n ∧ 0 < n <= s_seq s) ∧
     ∃ ss d, s_heap s !! q = Some ss ∧ s_dbgs s !! qs_client ss = Some d) ∧
  (∀ id1 id2 q1 q2 ss1 ss2, id1 ≠ id2 →
     s_sessions s !! id1 = Some q1 → s_sessions s !! id2 = Some q2 →
     s_heap s !! q1 = Some ss1 → s_heap s !! q2 = Some ss2 →
     q1 ≠ q2 ∧ qs_client ss1 ≠ qs_client ss2).
Proof.
  intros (rs & _ & I)%reachable_inv. split.
  - intros id q Hq. destruct (inv_reg s rs I id q Hq) as [Hid Hlt]. split; [done|].
    apply lookup_lt_is_Some_2 in Hlt as [ss Hss]. destruct (inv_heap s rs I q ss Hss) as [Hc _].
    apply lookup_lt_is_Some_2 in Hc as [d Hd]. eauto.
  - intros id1 id2 q1 q2 ss1 ss2 Hne H1' H2' Hs1 Hs2.
    assert (q1 ≠ q2) as Hq by (intros ->; by apply Hne, (inv_inj s rs I _ _ q2)).
    split; [done|]. intros Hc. by apply Hq, (inv_private s rs I q1 q2 ss1 ss2).
Qed.

Lemma sessions_isolated_witness :
  let s := fst (mockPool twoAttaches) in
  s_sessions s !! str "dbg-1" = Some 0%nat ∧ s_sessions s !! str "dbg-2" = Some 1%nat ∧
  ∃ ss1 ss2, s_heap s !! 0%nat = Some ss1 ∧ s_heap s !! 1%nat = Some ss2 ∧
    qs_client ss1 ≠ qs_client ss2.
Proof.
  intros s.
  assert (s_sessions s !! str "dbg-1" = Some 0%nat) as E1 by (by vm_compute).
  assert (s_sessions s !! str "dbg-2" = Some 1%nat) as E2 by (by vm_compute).
  destruct (sessions_isolated _ _ _ _ _ (mockPool_reachable twoAttaches)) as [Hv Hd].
  destruct (Hv _ _ E1) as (_ & ss1 & d1 & Hs1 & _). destruct (Hv _ _ E2) as (_ & ss2 & d2 & Hs2 & _).
  split_and!; [done..|]. exists ss1, ss2. split_and!; [done..|].
  by eapply (Hd (str "dbg-1") (str "dbg-2") 0%nat 1%nat).
Defined.

(** C14: No debug connection is leaked. When no request is in flight, every
    DSMSG connection the server ever opened is closed or is the connection of a
    registered session, so it can still be detached, or closed by [Close]. The
    connections are those a client was made for ([s_dbgs]) and those given up
    while connecting, because the tty could not be configured or the handshake
    failed ([s_dropped]); the latter are closed at all times. *)
Theorem sessions_no_leak {P D} `{QPeer P} `{Peer D} `{Platform} cfg net dials (s : Server P D) ps :
  reachable cfg net dials (s, ps) →
  Forall (λ t, t_open t = false) (s_dropped s) ∧
  ((∀ p, p ∈ ps → ∃ r, p = PDone r) →
   ∀ c d, s_dbgs s !! c = Some d →
     closed d ∨ ∃ id q ss, s_sessions s !! id = Some q ∧ s_heap s !! q = Some ss ∧ qs_client ss = c).
Proof.
  intros (rs & Hf & I)%reachable_inv. split; [apply (inv_dropped s rs I)|]. intros Hdone c d Hd.
  destruct (inv_leak s rs I c d Hd) as [?|[(ss & (id & q & Hq & Hss) & Hc)|(i & r & Hi & Ho)]].
  - by left.
  - right. by exists id, q, ss.
  - destruct (Forall2_lookup_l _ _ _ _ _ Hf Hi) as (p & Hp & Hfp).
    destruct (Hdone p) as [x ->]; [by eapply list_elem_of_lookup_2|].
    by rewrite (follows_done r _ x Hfp eq_refl) in Ho.
Qed.

(** One agent answers, the next hangs up during the handshake. *)
Definition mixedDials : list (option (transport mock)) :=
  [Some mock_transport; Some (Transport mock_init [x7e] [] true)].

Definition mixedPool : pool (P := qsession) (D := mock) :=
  schedule twoAttaches (New mockConfig (mockNet 5) mixedDials, []).

Lemma sessions_no_leak_witness :
  length (s_dropped (fst mixedPool)) = 1%nat ∧ length (s_dbgs (fst mixedPool)) = 1%nat ∧
  Forall (λ t, t_open t = false) (s_dropped (fst mixedPool)) ∧
  ∃ d, s_dbgs (fst mixedPool) !! 0%nat = Some d ∧
  (closed d ∨ ∃ id q ss, s_sessions (fst mixedPool) !! id = Some q ∧ s_heap (fst mixedPool) !! q = Some ss ∧
     qs_client ss = 0%nat).
Proof.
  assert (reachable mockConfig (mockNet 5) mixedDials (fst mixedPool, snd mixedPool)) as Hr.
  { rewrite <- surjective_pairing. apply schedule_steps. }
  destruct (sessions_no_leak _ _ _ _ _ Hr) as [Hd Hc].
  split_and!; [by vm_compute..|exact Hd|].
  destruct (s_dbgs (fst mixedPool) !! 0%nat) as [d|] eqn:E; [|by vm_compute in E].
  exists d. split; [done|]. apply Hc; [|exact E].
  apply all_done. by vm_compute.
Defined.

(** C15: A session id keeps its meaning. Once an id denotes a session, it
    denotes that same session in every later state, or none: ids are never
    given out twice, so a client holding an old id cannot reach a session that
    was opened later. *)
Theorem session_id_stable {P D} `{QPeer P} `{Peer D} `{Platform} cfg net dials
    (s s' : Server P D) ps ps' id q :
  reachable cfg net dials (s, ps) → s_sessions s !! id = Some q →
  rtc pool_step (s, ps) (s', ps') →
  s_sessions s' !! id = None ∨ s_sessions s' !! id = Some q.
Proof.
  intros (rs & Hf & I)%reachable_inv Hq Hr.
  destruct (pool_steps_inv [RFound id q] s ps s' ps' rs) as (rs' & _ & I'); [done..|by apply inv_remember|].
  destruct (inv_seen s' _ I' 0%nat (RFound id q) id q eq_refl eq_refl) as (_ & _ & Hu).
  destruct (s_sessions s' !! id) as [q'|] eqn:E; [|by left]. right. by rewrite (Hu q' eq_refl).
Qed.

(** Detach the first session, attach again. *)
Definition detachAttach : list event :=
  [inl (CDebugDetach (MkSessionIn (str "dbg-1")))] ++ replicate 3 (inr 2%nat) ++
  [inl (CDebugAttach (MkAttachIn 99 0))] ++ replicate 9 (inr 3%nat).

Lemma session_id_stable_witness :
  let s := fst (mockPool twoAttaches) in
  let s' := fst (mockPool (twoAttaches ++ detachAttach)) in
  s_sessions s !! str "dbg-1" = Some 0%nat ∧
  (s_sessions s' !! str "dbg-1" = None ∨ s_sessions s' !! str "dbg-1" = Some 0%nat) ∧
  s_sessions s' !! str "dbg-3" = Some 2%nat.
Proof.
  intros s s'. split_and!; [by vm_compute| |by vm_compute].
  apply (session_id_stable _ _ _ s s' (snd (mockPool twoAttaches))
    (snd (mockPool (twoAttaches ++ detachAttach))) (str "dbg-1") 0%nat (mockPool_reachable twoAttaches)).
  - by vm_compute.
  - unfold s, s'. rewrite <- !surjective_pairing. rewrite mockPool_app. apply schedule_steps.
Defined.

(** C38: The type of disposition tables. In every reachable state a session
    either has no table yet or one of exactly 72 bytes, each 0 or 1. *)
Theorem session_table_type {P D} `{QPeer P} `{Peer D} `{Platform} cfg net dials (s : Server P D) ps q ss :
  reachable cfg net dials (s, ps) → s_heap s !! q = Some ss →
  qs_sigTable ss = None ∨
  ∃ tbl, qs_sigTable ss = Some tbl ∧ length tbl = 72%nat ∧ Forall (λ b, b = x00 ∨ b = x01) tbl.
Proof.
  intros (rs & _ & I)%reachable_inv Hq. destruct (inv_heap s rs I q ss Hq) as [_ Hok].
  destruct (qs_sigTable ss) as [tbl|] eqn:E; [|by left]. right. exists tbl.
  by destruct (Hok tbl E).
Qed.

Lemma session_table_type_witness :
  let s := fst (mockPool (twoAttaches ++
    [inl (CDebugHandleSignal (MkHandleSigIn (str "dbg-2") 5 false)); inr 2%nat; inr 2%nat])) in
  ∃ ss, s_heap s !! 1%nat = Some ss ∧ qs_sigTable ss ≠ None ∧
  (qs_sigTable ss = None ∨
   ∃ tbl, qs_sigTable ss = Some tbl ∧ length tbl = 72%nat ∧ Forall (λ b, b = x00 ∨ b = x01) tbl).
Proof.
  intros s. destruct (s_heap s !! 1%nat) as [ss|] eqn:E; [|by vm_compute in E].
  exists ss. split_and!; [done| |by apply (session_table_type _ _ _ s _ 1%nat ss (mockPool_reachable _))].
  vm_compute in E. by simplify_eq.
Defined.

(** ** What handlers are made of *)

Section steps.
Context {P D : Type} `{QPeer P} `{Peer D} `{Platform}.
Implicit Types s : Server P D.

(** The atomic actions of the server; the methods of the qconn side leave a
    closed connection closed, and close those they open. *)
Inductive basic : ∀ A, act (P := P) (D := D) A → Prop :=
  | ba_read A (f : Server P D → A) : basic A (λ s, (f s, s))
  | ba_client : basic _ client
  | ba_reset : basic _ resetClient
  | ba_onClient A ptr (m : M qerror (QconnClient.Client P) A) :
      keeps q_closed m → basic _ (onClient ptr m)
  | ba_onNet A (m : M qerror (QconnExec.network P) A) :
      (∀ u, keeps (releasing u) m) → basic _ (onNet m)
  | ba_getSession id : basic _ (getSession id)
  | ba_onDbg A ptr (m : M dbg_error (Client D) A) : basic _ (onDbg ptr m)
  | ba_onSession A q (m : Z → M dbg_error (Client D) A) : basic _ (onSession q m)
  | ba_signal q sig stop : basic _ (handleSignal q sig stop)
  | ba_connect conn : basic _ (connectDbg conn)
  | ba_seq : basic _ nextSeq
  | ba_register id c pid : basic _ (register id c pid)
  | ba_unregister id : basic _ (unregister id)
  | ba_closeSessions : basic _ closeSessions.

Inductive made : proc (P := P) (D := D) → Prop :=
  | made_done r : made (PDone r)
  | made_step A (m : act A) k : basic A m → (∀ a, made (k a)) → made (PStep A m k).

Lemma keeps_orError {E S A} (Q : S → Prop) (m : M E S (A * option E)) : keeps Q m → keeps Q (orError m).
Proof. intros Hm. unfold orError. keeps_auto. Qed.

Create HintDb made.
Hint Constructors basic made : made.

Lemma made_cli k : (∀ c, made (k c)) → made (cli k).
Proof. intros Hk. constructor; [constructor|]. intros [e|c]; auto 6 with made. Qed.

Lemma made_callClient {A} (m : M qerror (QconnClient.Client P) A) out : keeps q_closed m → made (callClient m out).
Proof. intros Hm. apply made_cli. intros c. unfold result. auto 6 with made. Qed.

Lemma made_callNet {A} (m : M qerror (QconnExec.network P) A) out :
  (∀ u, keeps (releasing u) m) → made (callNet m out).
Proof. intros Hm. apply made_cli. intros c. unfold result. auto 6 with made. Qed.

Lemma made_withSession id k : (∀ q, made (k q)) → made (withSession id k).
Proof. intros Hk. constructor; [constructor|]. intros [q|]; auto with made. Qed.

Lemma made_callSession {A} id (m : Z → M dbg_error (Client D) A) out : made (callSession id m out).
Proof. apply made_withSession. auto 6 with made. Qed.

Lemma made_dialPdebug port k : (∀ c, made (k c)) → made (dialPdebug port k).
Proof.
  intros Hk. constructor; [apply ba_read|]. intros cfg. case_decide.
  - constructor; [constructor|]. intros [e|c]; auto with made.
  - constructor; [apply ba_read|]. intros [m|]; [|constructor].
    constructor; [constructor; apply releasing_SpawnPdebug|]. intros [e|x]; [constructor|].
    constructor; [constructor|]. intros [e'|c]; auto with made.
Qed.

Hint Resolve made_withSession made_callSession : made.

(** Every handler is made of them. *)
Lemma handler_made c : made (handler c).
Proof.
  destruct c; cbn [handler];
    try solve [apply made_callSession | apply made_callNet; intros u; auto 1 with keeps
      | apply made_callClient; auto 2 with keeps | apply made_callClient, keeps_orError; auto 1 with keeps].
  - (* system_info *) constructor; [apply ba_read|]. intros cfg. apply made_callClient. apply closed_Info.
  - (* write_memory *) unfold write_memory. case_match; [constructor|].
    apply made_callClient, keeps_orError, closed_WriteMemory.
  - (* kill *) apply made_callClient, closed_Signal.
  - (* write_file *) unfold write_file. case_match; [|constructor].
    apply made_callClient, keeps_orError, closed_WriteFile.
  - (* debug_attach *) apply made_cli. intros _. apply made_dialPdebug. intros d.
    constructor; [constructor|]. intros [e|x]; auto 12 with made.
  - (* debug_launch *) apply made_cli. intros _. apply made_dialPdebug. intros d.
    constructor; [constructor|]. intros [e|x]; auto 12 with made.
  - unfold debug_write_memory. case_match; auto with made.
  - unfold debug_write_registers. case_match; auto with made.
  - unfold debug_handle_signal. case_match; [constructor|]. apply made_withSession. auto 6 with made.
  - apply made_withSession. auto 8 with made.
  - unfold closeServer. auto 8 with made.
Qed.

(** *** The qconn side *)

(** What the steps of the debug side leave alone. *)
Definition qside s := (s_cfg s, s_conn s, s_clients s, s_net s).

Lemma qside_onDbg {A} ptr (m : M dbg_error (Client D) A) s : qside (snd (onDbg ptr m s)) = qside s.
Proof. unfold onDbg. destruct (s_dbgs s !! ptr) as [d|]; [|done]. by destruct (m d). Qed.

Lemma qside_onSession {A} q (m : Z → M dbg_error (Client D) A) s : qside (snd (onSession q m s)) = qside s.
Proof. unfold onSession. destruct (s_heap s !! q); [apply qside_onDbg|done]. Qed.

Lemma qside_handleSignal q sig stop s : qside (snd (handleSignal q sig stop s)) = qside s.
Proof. unfold handleSignal. destruct (s_heap s !! q); [|done]. by rewrite qside_onDbg. Qed.

Lemma qside_connectDbg conn s : qside (snd (connectDbg conn s)) = qside s.
Proof.
  unfold connectDbg, nextDial. destruct (s_dials s) as [|d ds]; by destruct (conn _) as [[e o]|c].
Qed.

Lemma qside_closeSessions s : qside (snd (closeSessions s)) = qside s.
Proof.
  unfold closeSessions. cbn [snd]. change (qside (set_sessions ∅ ?t)) with (qside t).
  induction (snd <$> map_to_list (s_sessions s)) as [|q qs IH]; [done|]. simpl. by rewrite qside_onSession.
Qed.

Lemma onClient_rest {A} ptr (m : M qerror (QconnClient.Client P) A) s :
  s_cfg (snd (onClient ptr m s)) = s_cfg s ∧ s_conn (snd (onClient ptr m s)) = s_conn s ∧
  s_net (snd (onClient ptr m s)) = s_net s.
Proof. unfold onClient. destruct (s_clients s !! ptr) as [c|]; [|done]. by destruct (m c). Qed.

(** No action changes the configuration. *)
Lemma basic_cfg A (m : act A) s : basic A m → s_cfg (snd (m s)) = s_cfg s.
Proof.
  intros Hm. destruct Hm; try done; try apply onClient_rest.
  - unfold client. destruct (s_conn s); [done|]. destruct (QconnExec.dial (s_net s)) as [[e|[[t fills] z]] net]; [done|].
    by destruct (QconnClient.dialed t fills) as [[e|u] q].
  - unfold resetClient. destruct (s_conn s) as [q|]; [|done]. apply (onClient_rest q QconnClient.Close s).
  - unfold onNet. by destruct (m (s_net s)).
  - by injection (qside_onDbg ptr m s).
  - by injection (qside_onSession q m s).
  - by injection (qside_handleSignal q sig stop s).
  - by injection (qside_connectDbg conn s).
  - by injection (qside_closeSessions s).
Qed.

(** Every connection to the daemon opened since [u] is closed, but for that of
    the client in use. *)
Record qinv (u : list (frameConn P)) s : Prop := {
  qi_used : releasing u (s_net s);
  qi_clients i c : s_clients s !! i = Some c → q_closed c ∨ s_conn s = Some i
}.

Lemma qinv_qside u s s' : qside s' = qside s → qinv u s → qinv u s'.
Proof. intros [= _ Ec El En] [Hu Hc]. split; rewrite ?Ec, ?El, ?En; done. Qed.

(** A method of a client keeps it closed; [Close] allows to forget it. *)
Lemma onClient_clients {A} ptr (m : M qerror (QconnClient.Client P) A) s i c :
  keeps q_closed m → s_clients (snd (onClient ptr m s)) !! i = Some c →
  ∃ c0, s_clients s !! i = Some c0 ∧ (q_closed c0 → q_closed c) ∧ (i = ptr → c = snd (m c0)).
Proof.
  intros Hm. unfold onClient. destruct (s_clients s !! ptr) as [c1|] eqn:E1; cbn [snd].
  - specialize (Hm c1). destruct (m c1) as [r c2] eqn:E2. cbn [snd s_clients set_clients] in *.
    intros [(<- & -> & _)|[Hne Hi]]%list_lookup_insert_Some; [|by exists c].
    exists c1. rewrite E2. by split_and!.
  - intros Hi. exists c. split_and!; [done..|]. intros ->. congruence.
Qed.

(** Only the network changes. *)
Lemma qinv_set_net u s net : qinv u s → releasing u net → qinv u (set_net net s).
Proof. intros [_ Hc] Hn. by split. Qed.

Lemma qinv_client u s : qinv u s → qinv u (snd (client s)).
Proof.
  intros I. unfold client. destruct (s_conn s) as [p|] eqn:Es; [done|].
  pose proof (releasing_dial u (s_net s) (qi_used u s I)) as Hd.
  destruct (QconnExec.dial (s_net s)) as [[e|[[t fills] late]] net]; cbn [snd] in *; [by apply qinv_set_net|].
  destruct (QconnClient.dialed t fills) as [[e|x] c] eqn:Ed; cbn [snd].
  - apply qinv_set_net; [done|]. destruct Hd as (fs & E & Hfs). exists (fs ++ [QconnClient.q_fc c]).
    simpl. rewrite E, app_assoc. split; [done|]. apply Forall_app. split; [done|].
    constructor; [by eapply dialed_closes|done].
  - split; [done|]. simpl. intros i c' [[_ Hi]|[-> _]]%lookup_snoc_Some; [|by right]. left.
    destruct (qi_clients u s I i c' Hi); [done|congruence].
Qed.

Lemma qinv_reset u s : qinv u s → qinv u (snd (resetClient s)).
Proof.
  intros I. unfold resetClient. destruct (s_conn s) as [p|] eqn:Es; [|done]. destruct I as [Hu Hc].
  destruct (onClient_rest p QconnClient.Close s) as (_ & _ & En). split; simpl; rewrite ?En; [done|].
  intros i c Hi. left. destruct (onClient_clients _ _ _ _ _ closed_Close Hi) as (c0 & Hi0 & Hcl & Hp).
  destruct (Hc i c0 Hi0) as [?|?]; [auto|]. rewrite Hp by congruence. apply closes_Close.
Qed.

Lemma basic_qinv u A (m : act A) s : basic A m → qinv u s → qinv u (snd (m s)).
Proof.
  intros Hm. destruct Hm as [|  | |A ptr m Hm|A m Hm| | | | | | | | |]; intros I; try done.
  - by apply qinv_client.
  - by apply qinv_reset.
  - destruct I as [Hu Hc]. destruct (onClient_rest ptr m s) as (_ & Es & En). split; rewrite ?Es, ?En; [done|].
    intros i c Hi. destruct (onClient_clients _ _ _ _ _ Hm Hi) as (c0 & Hi0 & Hcl & _).
    destruct (Hc i c0 Hi0); auto.
  - destruct I as [Hu Hc]. specialize (Hm u _ Hu). unfold onNet. by destruct (m (s_net s)).
  - eapply qinv_qside; [apply qside_onDbg|done].
  - eapply qinv_qside; [apply qside_onSession|done].
  - eapply qinv_qside; [apply qside_handleSignal|done].
  - eapply qinv_qside; [apply qside_connectDbg|done].
  - eapply qinv_qside; [|done]; done.
  - eapply qinv_qside; [|done]; done.
  - eapply qinv_qside; [|done]; done.
  - eapply qinv_qside; [apply qside_closeSessions|done].
Qed.

Lemma qinv_New cfg net dials : qinv (QconnExec.n_used net) (New cfg net dials).
Proof. split; [|done]. exists []. by rewrite app_nil_r. Qed.

(** One step of a request. *)
Lemma made_step_inv p s p' s' : made p → stepProc p s = Some (p', s') →
  made p' ∧ s_cfg s' = s_cfg s ∧ ∀ u, qinv u s → qinv u s'.
Proof.
  intros Hp Hs. destruct Hp as [r|A m k Hm Hk]; [done|]. cbn [stepProc] in Hs.
  pose proof (basic_cfg A m s Hm) as Hc. pose proof (λ u, basic_qinv u A m s Hm) as Hq.
  destruct (m s) as [a s1]. by simplify_eq/=.
Qed.
End steps.

(** ** Shutdown *)

(** What [Close] leaves when nobody owns a client. *)
Lemma closeServer_inv {P D} `{QPeer P} `{Peer D} `{Platform} (s : Server P D) rs :
  inv s rs → (∀ i r, rs !! i = Some r → owned r = None) →
  let '(r, s') := run closeServer s in
  r = ROut done_ok ∧ s_sessions s' = ∅ ∧ s_conn s' = None ∧
  (∀ c d, s_dbgs s' !! c = Some d → closed d) ∧ Forall (λ t, t_open t = false) (s_dropped s').
Proof.
  intros I Hdone. unfold closeServer. cbn [run]. apply inv_shutdown in I as I1.
  assert (s_sessions (snd (closeSessions s)) = ∅) as Em by done.
  destruct (closeSessions s) as [u1 s1]. cbn [snd] in *.
  pose proof (quiet_resetClient s1) as (Ed & _ & Es & _ & Ep).
  destruct (resetClient s1) as [u s2] eqn:E2. cbn [snd] in *.
  split_and!; [done|congruence| | |rewrite Ep; by eapply inv_dropped].
  - unfold resetClient in E2. by destruct (s_conn s1) eqn:Ec1; simplify_eq/=.
  - intros c d Hd. rewrite Ed in Hd.
    destruct (inv_leak s1 rs I1 c d Hd) as [?|[(ss & (id & q & Hq & _) & _)|(i & r & Hi & Ho)]].
    + done.
    + by rewrite Em, lookup_empty in Hq.
    + by rewrite (Hdone i r Hi) in Ho.
Qed.

(** ... and of the connections to the daemon. *)
Lemma closeServer_qinv {P D} `{QPeer P} `{Peer D} `{Platform} u (s : Server P D) :
  qinv u s → qinv u (snd (run closeServer s)).
Proof.
  intros I. unfold closeServer. cbn [run].
  apply (basic_qinv u _ _ s ba_closeSessions) in I. destruct (closeSessions s) as [u1 s1].
  apply (qinv_reset u s1) in I. by destruct (resetClient s1).
Qed.

Lemma reachable_qinv {P D} `{QPeer P} `{Peer D} `{Platform} cfg net dials (s : Server P D) ps :
  reachable cfg net dials (s, ps) → qinv (QconnExec.n_used net) s ∧ Forall made ps.
Proof.
  intros Hr.
  apply (rtc_ind_r (λ sp : pool (P := P) (D := D), qinv (QconnExec.n_used net) (fst sp) ∧ Forall made (snd sp)) _) in Hr;
    [done|split; [apply qinv_New|constructor]|].
  intros [s1 ps1] [s2 ps2] _ Hst [I Hm]. cbn [fst snd] in *.
  inversion Hst as [s3 ps3 c|s3 ps3 i p p' s4 Hp Hs]; subst.
  - split; [done|]. apply Forall_app. split; [done|]. repeat constructor. apply handler_made.
  - rewrite Forall_forall in Hm.
    destruct (made_step_inv p s1 p' s2) as (Hm' & _ & Hq); [by eapply Hm, list_elem_of_lookup_2|done|].
    split; [auto|]. apply Forall_insert; [by rewrite Forall_forall|done].
Qed.

(** Everything is released: there is no session, no client of the daemon, and
    every connection the server opened is closed: to debug agents, those with
    a client and those given up while connecting; to the daemon, those of the
    clients it used, and those of single commands and of failed handshakes,
    which are the ones used since [u]. *)
Definition released {P D} (u : list (frameConn P)) (s : Server P D) : Prop :=
  s_sessions s = ∅ ∧ s_conn s = None ∧
  (∀ c d, s_dbgs s !! c = Some d → closed d) ∧ Forall (λ t, t_open t = false) (s_dropped s) ∧
  (∀ i q, s_clients s !! i = Some q → t_open (f_conn (QconnClient.q_fc q)) = false) ∧
  ∃ fs, QconnExec.n_used (s_net s) = u ++ fs ∧ Forall (λ f, t_open (f_conn f) = false) fs.

Lemma closeServer_releases {P D} `{QPeer P} `{Peer D} `{Platform} u (s : Server P D) rs :
  inv s rs → (∀ i r, rs !! i = Some r → owned r = None) → qinv u s →
  fst (run closeServer s) = ROut done_ok ∧ released u (snd (run closeServer s)).
Proof.
  intros I Hdone Hq. pose proof (closeServer_inv s rs I Hdone) as Hc. apply closeServer_qinv in Hq as [Hu Hcl].
  destruct (run closeServer s) as [r s']. destruct Hc as (Hr & Hs & Hn & Hd & Hp). cbn [fst snd] in *.
  split; [done|]. split_and!; try done. intros i q Hi. destruct (Hcl i q Hi) as [?|?]; [done|congruence].
Qed.

(** [Close] releases everything. Run when no request is in flight, from any
    reachable state, it reports success and leaves the server released. *)
Theorem Close_releases {P D} `{QPeer P} `{Peer D} `{Platform} cfg net dials (s : Server P D) ps :
  reachable cfg net dials (s, ps) → (∀ p, p ∈ ps → ∃ r, p = PDone r) →
  fst (run closeServer s) = ROut done_ok ∧ released (QconnExec.n_used net) (snd (run closeServer s)).
Proof.
  intros Hr Hdone. pose proof (reachable_qinv _ _ _ _ _ Hr) as [Hq _].
  apply reachable_inv in Hr as (rs & Hf & I). apply (closeServer_releases _ s rs I); [|done]. intros i r Hi.
  destruct (Forall2_lookup_l _ _ _ _ _ Hf Hi) as (p & Hp & Hfp).
  destruct (Hdone p) as [x ->]; [by eapply list_elem_of_lookup_2|]. by eapply follows_done.
Qed.

Lemma Close_releases_witness :
  let s := fst (mockPool twoAttaches) in
  s_conn s = Some 0%nat ∧ length (s_dbgs s) = 2%nat ∧ length (QconnExec.n_used (s_net s)) = 2%nat ∧
  fst (run closeServer s) = ROut done_ok ∧ released [] (snd (run closeServer s)).
Proof.
  intros s. split_and!; [by vm_compute..| |];
    apply (Close_releases _ _ _ s (snd (mockPool twoAttaches)) (mockPool_reachable twoAttaches));
    (apply all_done; by vm_compute).
Defined.
