(* ===== verification/McpTools.v ===== *)
(** * What the tools of the MCP server do

    Requests that run alone, and the race between two of them. *)

From stdpp Require Import base list numbers strings gmap relations.
From Stdlib Require Import ZArith Lia Strings.Byte.
From S2P Require Import Prelude GoStrconv GoStrings GoEncoding Transport.
From S2P Require Import Dsmsg DsmsgClient DsmsgLink DsmsgCommands DsmsgClosed MockDsmsg DsmsgE2E.
From S2P Require Import QconnFraming QconnClient QconnFile QconnFileFacts QconnTransfer MockServer MockFiles QconnE2E.
From S2P Require Import Pdebug McpText McpTypes McpServer McpSessions McpFacts.
From S2P Require QconnExec QconnClosed.

Local Open Scope Z_scope.

(** ** The file tools *)

Section files.
Context {P D : Type} `{FileDaemon P} `{Peer D} `{Platform}.
Implicit Types s : Server P D.

(** A lone request on an established connection is one call of the client. *)
Lemma run_callClient {A} s ptr c (m : M qerror (Client P) A) out r c' :
  s_conn s = Some ptr → s_clients s !! ptr = Some c → m c = (r, c') →
  run (callClient m out) s =
    (match r with inr a => ROut (out a) | inl e => RErr (TQconn e) end,
     set_clients (<[ptr := c']> (s_clients s)) s).
Proof.
  intros Hs Hc Hm. unfold callClient, cli. cbn [run]. unfold McpServer.client. rewrite Hs.
  cbn [run]. unfold onClient. rewrite Hc, Hm. done.
Qed.

Lemma orError_ok {E S A} (m : M E S (A * option E)) x a x' :
  m x = (inr (a, None), x') → orError m x = (inr a, x').
Proof. intros Hm. unfold orError. by step_ok Hm. Qed.
End files.

(** C18: The file tools round trip. Over any daemon with a conforming file
    service that lets the file be created, [qconn_write_file] of base64 content
    to a new path reports the number of bytes, and [qconn_read_file] then
    returns the same base64 and the size. It returns the text as well exactly
    when the content is at most a mebibyte and free of control characters other
    than white space (tab, line feed, vertical tab, form feed, carriage return);
    the encoding plays no part, so bytes that are not UTF-8 come back as text
    too. *)
Theorem file_tools_roundtrip {P D} `{FileDaemon P} `{Peer D} `{Platform}
    (s : Server P D) ptr c path data text mode :
  s_conn s = Some ptr → s_clients s !! ptr = Some c → qidle c → agrees c →
  cleanPath path → 0 <= mode → 1 < fd_room (q_peer c) →
  fd_may (q_peer c) path writeFlags → fd_files (q_peer c) path = None →
  Z.of_nat (length data) < 2 ^ 62 →
  (Z.to_nat (Z.of_nat (length data) / maxReadChunk) + 1 < pf_chunks)%nat →
  data ≠ [] ∨ text = [] →
  ∃ s1 s2 out,
    run (write_file (MkWriteFileIn path (base64Encode data) text mode)) s =
      (ROut (OWriteFile (MkWriteFileOut (Z.of_nat (length data)))), s1) ∧
    run (read_file (MkReadFileIn path)) s1 =
      (ROut (OReadFile (MkReadFileOut path (Z.of_nat (length data)) (base64Encode data) out)), s2) ∧
    (inlinable data → out = data) ∧ (¬ inlinable data → out = []).
Proof.
  intros Hs Hc Hi Ha Hp Hm Hroom Hmay Hnew Hlen Hfuel Htext.
  destruct (WriteFile_daemon c path data mode Hi Ha Hp Hm) as (c1 & E1 & Hin1 & Hc1 & Hm1 & Hr1 & _); [lia|done..|].
  destruct (inFile_idle c1 Hin1) as [Hi1 Ha1].
  destruct (ReadFile_daemon c1 path pf_chunks Hi1 Ha1 Hp) as (c2 & E2 & _); [lia|done|by rewrite Hc1|by rewrite Hc1|].
  rewrite Hc1 in E2.
  eexists _, _, (if isPrintable data then data else []). split; [|split; [|by rewrite <- isPrintable_spec; destruct (isPrintable data)]].
  - unfold write_file. cbn [wfi_Path wfi_Base64 wfi_Text wfi_Mode]. replace (if decide (base64Encode data = []) then Some text else _) with (Some data).
    + apply (run_callClient s ptr c _ (λ n, OWriteFile (MkWriteFileOut n)) (inr (Z.of_nat (length data))) c1);
        [done..|by apply orError_ok].
    + case_decide as Hd; [|by rewrite base64_roundtrip].
      pose proof (base64_roundtrip data) as E. rewrite Hd in E. change (Some [] = Some data) in E.
      destruct Htext; congruence.
  - unfold read_file. rewrite (run_callClient _ ptr c1 _ _ (inr data) c2).
    + done.
    + done.
    + simpl. apply list_lookup_insert_eq. by eapply lookup_lt_Some.
    + by apply orError_ok.
Qed.

(** The server with a connection to the mock target. *)
Definition mockServer : Server qsession mock :=
  set_conn (Some 0%nat) (Some (MkManager [] [])) (set_clients [mockClient] (New mockConfig (mockNet 0) [])).

(** The text of a UTF-8 file. *)
Definition noteText : list byte := str "gr" ++ [xc3; xbc] ++ str "n <qconn-file>" ++ [x0d; x0a].

Lemma file_tools_roundtrip_witness :
  ∃ s1 s2 out,
    run (write_file (MkWriteFileIn (str "/tmp/x") (base64Encode noteText) [] 0)) mockServer =
      (ROut (OWriteFile (MkWriteFileOut 20)), s1) ∧
    run (read_file (MkReadFileIn (str "/tmp/x"))) s1 =
      (ROut (OReadFile (MkReadFileOut (str "/tmp/x") 20 (base64Encode noteText) out)), s2) ∧
    out = noteText.
Proof.
  destruct mockClient_ready as (Hi & Ha & Hp).
  destruct (file_tools_roundtrip mockServer 0 mockClient (str "/tmp/x") noteText [] 0
    eq_refl eq_refl Hi Ha) as (s1 & s2 & out & E1 & E2 & Hout & _).
  - split_and!; [done| |done]. repeat constructor; intros Hin; rewrite list_elem_of_In in Hin; simpl in Hin;
      repeat destruct Hin as [Hin|Hin]; done.
  - lia.
  - rewrite Hp. reflexivity.
  - exact I.
  - rewrite Hp. reflexivity.
  - reflexivity.
  - vm_compute. lia.
  - by right.
  - exists s1, s2, out. split; [exact E1|]. split; [exact E2|]. apply Hout, isPrintable_spec. reflexivity.
Defined.

(** Content that is no UTF-8 is taken for text. *)
Lemma inlinable_not_utf8 : inlinable [xff; x0a] ∧ decodeRune [xff; x0a] = None.
Proof. split; [by apply isPrintable_spec|done]. Qed.

(** ** The shared connection *)

Section sticky.
Context {P D : Type} `{QPeer P} `{Peer D} `{Platform}.
Implicit Types (s : Server P D) (p : proc (P := P) (D := D)).

(** Requests one after the other. *)
Fixpoint serve (cs : list call) s : list tool_result * Server P D :=
  match cs with
  | [] => ([], s)
  | c :: cs => let '(r, s1) := run (handler c) s in let '(rs, s2) := serve cs s1 in (r :: rs, s2)
  end.

Definition sticks (c : nat) p : Prop := ∀ s, s_conn s = Some c → s_conn (snd (run p s)) = Some c.

Definition same_conn {A} (m : act (P := P) (D := D) A) : Prop := ∀ s, s_conn (snd (m s)) = s_conn s.

Lemma sticks_done c r : sticks c (PDone r).
Proof. by intros s. Qed.

Lemma sticks_step c A (m : act A) k : same_conn m → (∀ a, sticks c (k a)) → sticks c (PStep A m k).
Proof.
  intros Hm Hk s Hs. cbn [run]. specialize (Hm s). destruct (m s) as [a s']. apply Hk.
  by rewrite <- Hs.
Qed.

Lemma sticks_cli c k : (∀ c', sticks c (k c')) → sticks c (cli k).
Proof. intros Hk s Hs. unfold cli. cbn [run]. unfold McpServer.client. rewrite Hs. by apply Hk. Qed.

Lemma conn_onClient {A} ptr (m : M qerror (Client P) A) : same_conn (onClient ptr m).
Proof. intros s. unfold onClient. destruct (s_clients s !! ptr) as [c|]; [|done]. by destruct (m c). Qed.

Lemma conn_onNet {A} (m : M qerror (QconnExec.network P) A) : same_conn (onNet m).
Proof. intros s. unfold onNet. by destruct (m (s_net s)). Qed.

Lemma conn_onDbg {A} ptr (m : M dbg_error (DsmsgClient.Client D) A) : same_conn (onDbg ptr m).
Proof. intros s. unfold onDbg. destruct (s_dbgs s !! ptr) as [d|]; [|done]. by destruct (m d). Qed.

Lemma conn_onSession {A} q (m : Z → M dbg_error (DsmsgClient.Client D) A) : same_conn (onSession q m).
Proof. intros s. unfold onSession. destruct (s_heap s !! q); [apply conn_onDbg|done]. Qed.

Lemma conn_handleSignal q sig stop : same_conn (handleSignal q sig stop).
Proof.
  intros s. unfold handleSignal. destruct (s_heap s !! q); [|done]. by rewrite conn_onDbg.
Qed.

Lemma conn_connectDbg conn : same_conn (connectDbg conn).
Proof.
  intros s. unfold connectDbg, nextDial. destruct (s_dials s) as [|d ds]; by destruct (conn _) as [[e o]|c].
Qed.

Lemma conn_read {A} (f : Server P D → A) : same_conn (λ s, (f s, s)).
Proof. done. Qed.

Create HintDb conn.
Hint Resolve conn_onClient conn_onNet conn_onDbg conn_onSession conn_handleSignal conn_connectDbg : conn.

Lemma sticks_callClient {A} c (m : M qerror (Client P) A) out : sticks c (callClient m out).
Proof. apply sticks_cli. intros c'. apply sticks_step; [auto with conn|]. intros a. apply sticks_done. Qed.

Lemma sticks_callNet {A} c (m : M qerror (QconnExec.network P) A) out : sticks c (callNet m out).
Proof. apply sticks_cli. intros c'. apply sticks_step; [auto with conn|]. intros a. apply sticks_done. Qed.

Lemma sticks_withSession c id k : (∀ q, sticks c (k q)) → sticks c (withSession id k).
Proof. intros Hk. apply sticks_step; [done|]. intros [q|]; [done|apply sticks_done]. Qed.

Lemma sticks_callSession {A} c id (m : Z → M dbg_error (DsmsgClient.Client D) A) out :
  sticks c (callSession id m out).
Proof.
  apply sticks_withSession. intros q. apply sticks_step; [auto with conn|]. intros a. apply sticks_done.
Qed.

Lemma sticks_dialPdebug c port k : (∀ d, sticks c (k d)) → sticks c (dialPdebug port k).
Proof.
  intros Hk. apply sticks_step; [apply conn_read|]. intros cfg. case_decide.
  - apply sticks_step; [auto with conn|]. intros [e|d]; [apply sticks_done|done].
  - apply sticks_step; [apply conn_read|]. intros [m|]; [|apply sticks_done].
    apply sticks_step; [auto with conn|]. intros [e|u]; [apply sticks_done|].
    apply sticks_step; [auto with conn|]. intros [e|d]; [apply sticks_done|done].
Qed.

Lemma sticks_failed c d e : sticks c (PStep _ (onDbg d DsmsgClient.Close) (λ _, PDone e)).
Proof. apply sticks_step; [auto with conn|]. intros ?. apply sticks_done. Qed.

Lemma sticks_enter c d pid tid pid' out :
  sticks c (PStep _ (onDbg d (Select pid tid)) (λ _, PStep _ nextSeq (λ n,
    PStep _ (register (sessionId n) d pid') (λ _, PDone (out n))))).
Proof.
  apply sticks_step; [auto with conn|]. intros ?. apply sticks_step; [done|]. intros n.
  apply sticks_step; [done|]. intros ?. apply sticks_done.
Qed.

Lemma sticks_attach c i : sticks c (debug_attach i).
Proof.
  apply sticks_cli. intros ?. apply sticks_dialPdebug. intros d.
  apply sticks_step; [auto with conn|]. intros [e|u]; [apply sticks_failed|].
  apply (sticks_enter c d _ 1 _ (λ n, ROut (OAttach (MkAttachOut (sessionId n) (ai_PID i) [])))).
Qed.

Lemma sticks_launch c i : sticks c (debug_launch i).
Proof.
  apply sticks_cli. intros ?. apply sticks_dialPdebug. intros d.
  apply sticks_step; [auto with conn|]. intros [e|l]; [apply sticks_failed|].
  apply (sticks_enter c d _ _ _ (λ n, ROut (OLaunch (MkLaunchOut (sessionId n) (lr_pid l) (lr_tid l) launchNote)))).
Qed.

Lemma sticks_detach c i : sticks c (debug_detach i).
Proof.
  apply sticks_withSession. intros q. apply sticks_step; [auto with conn|]. intros ?.
  apply sticks_step; [done|]. intros ?. apply sticks_done.
Qed.

Lemma sticks_handle_signal c i : sticks c (debug_handle_signal i).
Proof.
  unfold debug_handle_signal. case_match; [apply sticks_done|].
  apply sticks_withSession. intros q. apply sticks_step; [auto with conn|]. intros ?. apply sticks_done.
Qed.

Lemma handler_sticks c req : req ≠ CClose → sticks c (handler req).
Proof.
  intros Hreq. destruct req; cbn [handler]; try done;
    try solve [apply sticks_callClient | apply sticks_callNet | apply sticks_callSession
              | apply sticks_attach | apply sticks_launch | apply sticks_detach | apply sticks_handle_signal].
  - apply sticks_step; [apply conn_read|]. intros cfg. apply sticks_callClient.
  - unfold write_memory. case_match; [apply sticks_done|apply sticks_callClient].
  - unfold write_file. case_match; [apply sticks_callClient|apply sticks_done].
  - unfold debug_write_memory. case_match; [apply sticks_done|apply sticks_callSession].
  - unfold debug_write_registers. case_match; [apply sticks_done|apply sticks_callSession].
Qed.
End sticky.

(** An established connection to qconn is never dropped. Whatever requests
    are served, short of [Close], and whatever errors they meet (a daemon that
    has gone away included), the server goes on using the connection it has:
    no failed operation ever makes a later call dial again. *)
Theorem conn_never_redialled {P D} `{QPeer P} `{Peer D} `{Platform} (s : Server P D) c reqs :
  s_conn s = Some c → CClose ∉ reqs → s_conn (snd (serve reqs s)) = Some c.
Proof.
  revert s. induction reqs as [|req reqs IH]; intros s Hs Hn; [done|].
  apply not_elem_of_cons in Hn as [Hreq Hn]. cbn [serve].
  pose proof (handler_sticks c req ltac:(congruence) s Hs) as H1'.
  destruct (run (handler req) s) as [r s1]. specialize (IH s1 H1' Hn).
  by destruct (serve reqs s1).
Qed.

(** The mock target quits; two requests on the dead connection. *)
Definition deadServer : Server qsession mock :=
  set_conn (Some 0%nat) (Some (MkManager [] []))
    (set_clients [snd (QconnClient.Close mockClient)] (New mockConfig (mockNet 3) [])).

Lemma conn_never_redialled_witness :
  let '(rs, s) := serve [CStat (MkPathIn (str "/tmp")); CListServices; CKill (MkPidIn 7)] deadServer in
  rs = replicate 3 (RErr (TQconn QIO)) ∧ s_conn s = Some 0%nat.
Proof.
  assert (fst (serve [CStat (MkPathIn (str "/tmp")); CListServices; CKill (MkPidIn 7)] deadServer) =
    replicate 3 (RErr (TQconn QIO))) as E by (by vm_compute).
  assert (CClose ∉ [CStat (MkPathIn (str "/tmp")); CListServices; CKill (MkPidIn 7)]) as Hn.
  { rewrite !not_elem_of_cons, list_elem_of_In. by split_and!; [..|intros []]. }
  pose proof (conn_never_redialled deadServer 0 _ eq_refl Hn) as Hc.
  destruct (serve _ deadServer) as [rs s]. by split.
Defined.

(** ** A failed dial against a good one *)

(** The failing request dials, the attach dials, the failing request resets,
    the attach goes on. *)
Definition resetRace (pid port : Z) : list event :=
  [inl CListServices; inl (CDebugAttach (MkAttachIn pid port));
   inr 0%nat; inr 1%nat; inr 0%nat; inr 1%nat; inr 1%nat].

(** C39: A failed dial can destroy another request's connection. Two requests
    arrive at a server without a connection; the dial of the first fails, the
    second then dials successfully, and only then the first resets the client:
    it closes the second's healthy connection and clears the manager, and the
    attach of the second follows the cleared manager, a nil dereference. *)
Theorem reset_race {P D} `{QPeer P} `{Peer D} `{Platform} cfg ds t fills late
    (dials : list (option (transport D))) (c : Client P) (pid port : Z) :
  mc_DebugSerial cfg = [] → dialed t fills = (inr (), c) →
  let net := QconnExec.MkNetwork (None :: Some (t, fills, late) :: ds) [] in
  let '(s, ps) := schedule (resetRace pid port) (New cfg net dials, []) in
  reachable cfg net dials (s, ps) ∧
  ps = [PDone (RErr (TQconn QDial)); PDone (RErr TPanic)] ∧
  s_conn s = None ∧ ∃ c', s_clients s = [c'] ∧ t_open (f_conn (q_fc c')) = false.
Proof.
  intros Hser Hd net.
  pose proof (schedule_steps (resetRace pid port) (New cfg net dials, [])) as Hr.
  destruct (schedule (resetRace pid port) (New cfg net dials, [])) as [s ps] eqn:E.
  split; [done|]. clear Hr.
  pose proof (QconnClosed.closes_Close c) as Ho.
  cbn in E. rewrite Hd in E. cbn in E. destruct (Close c) as [r c'].
  cbn in E. rewrite (decide_False (P := mc_DebugSerial cfg ≠ [])) in E by (by intros Hn).
  cbn in E. injection E as <- <-. split_and!; [done..|]. by exists c'.
Qed.

Lemma reset_race_witness :
  let net := QconnExec.MkNetwork [None; Some (mockStream, replicate 100 0%nat, 0%nat)] [] in
  let '(s, ps) := schedule (resetRace 77 0) (New mockConfig net (mockDials 1), []) in
  reachable mockConfig net (mockDials 1) (s, ps) ∧
  ps = [PDone (RErr (TQconn QDial)); PDone (RErr TPanic)] ∧
  s_conn s = None ∧ ∃ c', s_clients s = [c'] ∧ t_open (f_conn (q_fc c')) = false.
Proof.
  apply (reset_race mockConfig [] mockStream (replicate 100 0%nat) 0 (mockDials 1) mockClient 77 0).
  - done.
  - unfold mockClient. destruct (dialed_mock (replicate 100 0%nat)) as (c & E & _). by rewrite E.
Defined.

(** ** Signal dispositions *)

(** What the last of a sequence of requests says about signal [k]; signals
    nobody mentioned are intercepted. *)
Definition disposition (reqs : list (Z * bool)) (k : Z) : bool :=
  default true (snd <$> last (filter (λ r, fst r = k) reqs)).

Lemma disposition_snoc reqs sig stop k :
  disposition (reqs ++ [(sig, stop)]) k = if decide (k = sig) then stop else disposition reqs k.
Proof.
  unfold disposition. rewrite filter_app. destruct (decide (k = sig)) as [->|Hne].
  - rewrite (filter_cons_True _ (sig, stop)) by done. by rewrite filter_nil, last_snoc.
  - rewrite (filter_cons_False _ (sig, stop)) by (simpl; congruence). by rewrite filter_nil, app_nil_r.
Qed.

(** Session [q] of the server has dispositions [f]. *)
Definition disposes {P D} (s : Server P D) (id : list byte) (q : nat) (f : Z → bool) : Prop :=
  s_sessions s !! id = Some q ∧
  ∃ ss d, s_heap s !! q = Some ss ∧ s_dbgs s !! qs_client ss = Some d ∧
    length (signalTable ss) = NumSignals ∧
    ∀ k, 1 <= k <= 72 → signalTable ss !! Z.to_nat (k - 1) = Some (if f k then x01 else x00).

(** The table a request leaves and the reply it gives. *)
Lemma run_handle_signal {P D} `{QPeer P} `{Peer D} `{Platform} (s : Server P D) id q ss d (sig : Z) (stop : bool) :
  1 <= sig <= 72 → s_sessions s !! id = Some q → s_heap s !! q = Some ss →
  s_dbgs s !! qs_client ss = Some d →
  let tbl := <[Z.to_nat (sig - 1) := if stop then x01 else x00]> (signalTable ss) in
  let '(r, d') := HandleSig tbl d in
  run (debug_handle_signal (MkHandleSigIn id sig stop)) s =
    (match r with inr _ => ROut done_ok | inl e => RErr (TDbg e) end,
     set_dbgs (<[qs_client ss := d']> (s_dbgs s))
       (set_heap (<[q := MkQnxSession (qs_client ss) (qs_pid ss) (Some tbl)]> (s_heap s)) s)).
Proof.
  intros Hsig Hq Hss Hd tbl. destruct (HandleSig tbl d) as [r d'] eqn:E.
  unfold debug_handle_signal. cbn [hsi_SessionID hsi_Signal hsi_Stop]. replace ((sig <? 1) || (Z.of_nat NumSignals <? sig)) with false
    by (unfold NumSignals; destruct (Z.ltb_spec sig 1), (Z.ltb_spec (Z.of_nat 72) sig); simpl; lia).
  unfold withSession. cbn [run]. unfold getSession. rewrite Hq. cbn [run].
  unfold handleSignal. rewrite Hss. fold tbl. unfold onDbg. simpl. rewrite Hd, E. done.
Qed.

Lemma disposes_step {P D} `{QPeer P} `{Peer D} `{Platform} (s : Server P D) id q f (sig : Z) (stop : bool) :
  1 <= sig <= 72 → disposes s id q f →
  disposes (snd (run (debug_handle_signal (MkHandleSigIn id sig stop)) s)) id q (λ k, if decide (k = sig) then stop else f k).
Proof.
  intros Hsig (Hq & ss & d & Hss & Hd & Hlen & Hf).
  pose proof (run_handle_signal s id q ss d sig stop Hsig Hq Hss Hd) as E. cbv zeta in E.
  destruct (HandleSig _ d) as [r d']. rewrite E. split; [done|]. simpl.
  eexists _, d'. split; [apply list_lookup_insert_eq; by eapply lookup_lt_Some|]. simpl.
  split; [apply list_lookup_insert_eq; by eapply lookup_lt_Some|].
  unfold signalTable at 1 3. simpl. split; [by rewrite length_insert|]. intros k Hk.
  case_decide as Hkd.
  - subst k. apply list_lookup_insert_eq. rewrite Hlen. unfold NumSignals. lia.
  - rewrite list_lookup_insert_ne by lia. auto.
Qed.

Lemma serve_snoc {P D} `{QPeer P} `{Peer D} `{Platform} cs c (s : Server P D) :
  snd (serve (cs ++ [c]) s) = snd (run (handler c) (snd (serve cs s))).
Proof.
  revert s. induction cs as [|c' cs IH]; intros s; simpl.
  - by destruct (run (handler c) s).
  - destruct (run (handler c') s) as [r s1]. specialize (IH s1).
    destruct (serve (cs ++ [c]) s1), (serve cs s1). done.
Qed.

Lemma disposes_serve {P D} `{QPeer P} `{Peer D} `{Platform} (s : Server P D) id q (reqs : list (Z * bool)) :
  disposes s id q (λ _, true) → Forall (λ r, 1 <= fst r <= 72) reqs →
  disposes (snd (serve ((λ r, CDebugHandleSignal (MkHandleSigIn id (fst r) (snd r))) <$> reqs) s)) id q (disposition reqs).
Proof.
  intros Hs. induction reqs as [|[sig stop] reqs IH] using rev_ind; intros Hr; [done|].
  apply Forall_app in Hr as [Hr [Hsig _]%Forall_cons]. rewrite fmap_app.
  change (_ <$> [(sig, stop)]) with [CDebugHandleSignal (MkHandleSigIn id sig stop)]. rewrite serve_snoc. cbn [handler].
  apply (disposes_step _ id q _ sig stop Hsig) in IH; [|done].
  destruct IH as (Hq & ss & d & Hss & Hd & Hlen & Hf). split; [done|].
  exists ss, d. split_and!; [done..|]. intros k Hk. by rewrite disposition_snoc, <- Hf.
Qed.

(** [qconn_debug_handle_signal], over any debug agent. After any sequence
    of requests for a session, the disposition table of the session says for
    each of the 72 signals what the last request about it said, and intercept
    for those nobody mentioned (also when the agent refused some requests);
    and every further request sends that table, with its own change, as the
    whole body of the message. *)
Theorem handle_signal_last_wins {P D} `{QPeer P} `{Peer D} `{Platform} (s : Server P D) id q ss d reqs sig stop :
  s_sessions s !! id = Some q → s_heap s !! q = Some ss → s_dbgs s !! qs_client ss = Some d →
  qs_sigTable ss = None → Forall (λ r, 1 <= fst r <= 72) (reqs ++ [(sig, stop)]) →
  let s1 := snd (serve ((λ r, CDebugHandleSignal (MkHandleSigIn id (fst r) (snd r))) <$> reqs) s) in
  ∃ ss1 d1 tbl,
    s_heap s1 !! q = Some ss1 ∧ s_dbgs s1 !! qs_client ss1 = Some d1 ∧
    length tbl = 72%nat ∧
    (∀ k, 1 <= k <= 72 →
       tbl !! Z.to_nat (k - 1) = Some (if disposition (reqs ++ [(sig, stop)]) k then x01 else x00)) ∧
    fst (run (debug_handle_signal (MkHandleSigIn id sig stop)) s1) =
      match fst (link_transactSub cmdHandlesig x00 tbl d1) with
      | inl e => RErr (TDbg e)
      | inr p => if decide (respCode p = respErr) then RErr (TDbg (EHandleSig (errnoString (respBody p)))) else ROut done_ok
      end.
Proof.
  intros Hq Hss Hd Hnone Hr s1. apply Forall_app in Hr as [Hr [Hsig _]%Forall_cons]. simpl in Hsig.
  assert (disposes s id q (λ _, true)) as Hs.
  { split; [done|]. exists ss, d. unfold signalTable. rewrite Hnone. split_and!; [done..|].
    intros k Hk. apply lookup_replicate_2. unfold NumSignals. lia. }
  pose proof (disposes_serve s id q reqs Hs Hr) as H1'. fold s1 in H1'. clearbody s1.
  destruct H1' as (Hq1 & ss1 & d1 & Hss1 & Hd1 & Hlen & Hf).
  pose proof (run_handle_signal s1 id q ss1 d1 sig stop Hsig Hq1 Hss1 Hd1) as E. cbv zeta in E.
  set (tbl := <[Z.to_nat (sig - 1) := _]> (signalTable ss1)) in *.
  assert (length tbl = NumSignals) as Ht by (unfold tbl; by rewrite length_insert).
  exists ss1, d1, tbl. split_and!; [done..| |].
  - intros k Hk. rewrite disposition_snoc. unfold tbl. case_decide as Hkd.
    + subst k. apply list_lookup_insert_eq. rewrite Hlen. unfold NumSignals. lia.
    + rewrite list_lookup_insert_ne by lia. auto.
  - destruct (HandleSig tbl d1) as [r d'] eqn:Eh. rewrite E. cbn [fst].
    unfold HandleSig, handleSigBody in Eh.
    rewrite take_ge, Ht, Nat.sub_diag, app_nil_r in Eh by lia.
    unfold mbind, M_bind, orTargetError in Eh.
    destruct (link_transactSub cmdHandlesig x00 tbl d1) as [[e|p] d2]; [by injection Eh as <- <-|].
    simpl. case_decide; by injection Eh as <- <-.
Qed.

Lemma handle_signal_last_wins_witness :
  let s := fst (mockPool twoAttaches) in
  let s1 := snd (serve [CDebugHandleSignal (MkHandleSigIn (str "dbg-1") 5 false); CDebugHandleSignal (MkHandleSigIn (str "dbg-1") 11 false)] s) in
  ∃ ss1 d1 tbl,
    s_heap s1 !! 0%nat = Some ss1 ∧ s_dbgs s1 !! qs_client ss1 = Some d1 ∧
    length tbl = 72%nat ∧
    (∀ k, 1 <= k <= 72 →
       tbl !! Z.to_nat (k - 1) = Some (if disposition [(5, false); (11, false); (5, true)] k then x01 else x00)) ∧
    fst (run (debug_handle_signal (MkHandleSigIn (str "dbg-1") 5 true)) s1) =
      match fst (link_transactSub cmdHandlesig x00 tbl d1) with
      | inl e => RErr (TDbg e)
      | inr p => if decide (respCode p = respErr) then RErr (TDbg (EHandleSig (errnoString (respBody p)))) else ROut done_ok
      end.
Proof.
  intros s.
  assert (match s_heap s !! 0%nat with
    | Some ss => match s_dbgs s !! qs_client ss with Some _ => qs_sigTable ss = None | None => False end
    | None => False
    end) as Hs by (by vm_compute).
  assert (s_sessions s !! str "dbg-1" = Some 0%nat) as Hid by (by vm_compute).
  clearbody s. destruct (s_heap s !! 0%nat) as [ss|] eqn:Ess; [|done].
  destruct (s_dbgs s !! qs_client ss) as [d|] eqn:Ed; [|done].
  apply (handle_signal_last_wins s (str "dbg-1") 0 ss d [(5, false); (11, false)] 5 true); try done.
  repeat constructor; done.
Defined.
