(* ===== verification/McpDebug.v ===== *)
(** * The debug tools, abstractly

    What the debug tools of the server promise: a finite map from ids to
    message-level sessions, each with its target behind it, and one atomic
    action of that map per request. The server of [McpServer] (registry,
    session objects, clients reached through pointers, byte streams) refines
    it, request after request. *)

From stdpp Require Import base list numbers strings gmap relations.
From Stdlib Require Import ZArith Lia Strings.Byte.
From S2P Require Import Prelude GoStrconv GoStrings GoEncoding Transport QconnFraming.
From S2P Require Import Dsmsg DsmsgClient DsmsgLink DsmsgCommands DsmsgCommandFacts DsmsgClosed DsmsgMemory DsmsgConnect.
From S2P Require Import Pdebug McpText McpTypes McpServer McpSessions McpFacts McpTools.
From S2P Require QconnClient QconnExec.

Local Open Scope Z_scope.

(** ** The specification *)

(** A debug session: the process, the signal table once it was used, and the
    conversation with the agent. *)
Record dsession (D : Type) : Type := DSession {
  ds_pid : Z;
  ds_table : option (list byte);
  ds_link : session D
}.
Arguments DSession {D}.
Arguments ds_pid {D}.
Arguments ds_table {D}.
Arguments ds_link {D}.

(** All sessions, the number of the last one, the agents that further dials
    will reach, and whether they are reached over a serial line. *)
Record debugger (D : Type) : Type := Debugger {
  db_serial : bool;
  db_sessions : gmap (list byte) (dsession D);
  db_seq : Z;
  db_dials : list (option (endpoint D))
}.
Arguments Debugger {D}.
Arguments db_serial {D}.
Arguments db_sessions {D}.
Arguments db_seq {D}.
Arguments db_dials {D}.

Section spec.
Context {D : Type} `{DsmsgTarget D}.
Implicit Types w : debugger D.

Definition db_set (m : gmap (list byte) (dsession D)) w : debugger D :=
  Debugger (db_serial w) m (db_seq w) (db_dials w).

(** A command on the session [id]; the others are not touched. *)
Definition on_link {A} (id : list byte) (m : Z → M dbg_error (session D) A) (out : A → tool_out) w
  : tool_result * debugger D :=
  match db_sessions w !! id with
  | None => (RErr (TUnknownSession id), w)
  | Some ds =>
      let '(r, l) := m (ds_pid ds) (ds_link ds) in
      (match r with inr a => ROut (out a) | inl e => RErr (TDbg e) end,
       db_set (<[id := DSession (ds_pid ds) (ds_table ds) l]> (db_sessions w)) w)
  end.

(** ... with data given in hex. *)
Definition with_hex (hex : list byte) (f : list byte → debugger D → tool_result * debugger D) w
  : tool_result * debugger D :=
  match hexDecodeString hex with
  | inl e => (RFail (BadHex e), w)
  | inr data => f data w
  end.

Definition spec_handle_signal (i : handleSigIn) w : tool_result * debugger D :=
  if (hsi_Signal i <? 1) || (72 <? hsi_Signal i) then (RFail (SignalRange (hsi_Signal i)), w)
  else
    match db_sessions w !! hsi_SessionID i with
    | None => (RErr (TUnknownSession (hsi_SessionID i)), w)
    | Some ds =>
        let tbl := <[Z.to_nat (hsi_Signal i - 1) := if hsi_Stop i then x01 else x00]>
                     (default (replicate 72 x01) (ds_table ds)) in
        let '(r, l) := HandleSig tbl (ds_link ds) in
        (match r with inr _ => ROut done_ok | inl e => RErr (TDbg e) end,
         db_set (<[hsi_SessionID i := DSession (ds_pid ds) (Some tbl) l]> (db_sessions w)) w)
    end.

(** A session that is detached from is gone. *)
Definition spec_detach (id : list byte) w : tool_result * debugger D :=
  match db_sessions w !! id with
  | None => (RErr (TUnknownSession id), w)
  | Some _ => (ROut done_ok, db_set (delete id (db_sessions w)) w)
  end.

(** The requests on existing sessions. *)
Definition session_tool (c : call) : option (debugger D → tool_result * debugger D) :=
  match c with
  | CDebugReadRegisters i => Some (on_link (se_SessionID i) (λ _, ReadRegisters 0 0x110) (λ b,
      ORegs (MkRegsOut (hex_of_bytes b) (decodeAArch64 b))))
  | CDebugReadMemory i => Some (on_link (dri_SessionID i) (λ _, orError (ReadMemory (dri_Addr i) (dri_Length i))) (λ b,
      OHex (MkDbgReadMemOut (hex_of_bytes b))))
  | CDebugWriteMemory i => Some (with_hex (dwi_HexData i) (λ data,
      on_link (dwi_SessionID i) (λ _, orError (WriteMemory (dwi_Addr i) data)) (λ _, done_ok)))
  | CDebugContinue i => Some (on_link (se_SessionID i) (λ _, Continue) (λ st, OStop (MkStopOut st)))
  | CDebugStep i => Some (on_link (se_SessionID i) (λ _, Step 1) (λ st, OStop (MkStopOut st)))
  | CDebugBreakSet i => Some (on_link (bi_SessionID i) (λ _, SetBreakpoint (bi_Addr i) 0) (λ _, done_ok))
  | CDebugBreakClear i => Some (on_link (bi_SessionID i) (λ _, ClearBreakpoint (bi_Addr i)) (λ _, done_ok))
  | CDebugWriteRegisters i => Some (with_hex (rwi_HexData i) (λ data,
      on_link (rwi_SessionID i) (λ _, WriteRegisters (rwi_Offset i) data) (λ _, done_ok)))
  | CDebugSelectThread i => Some (on_link (sti_SessionID i) (λ pid, Select pid (sti_TID i)) (λ _, done_ok))
  | CDebugMapInfo i => Some (on_link (se_SessionID i) MapInfo (λ raw,
      OMapInfo (MkMapInfoOut (ParseMapInfo raw) (hex_of_bytes raw))))
  | CDebugHandleSignal i => Some (spec_handle_signal i)
  | CDebugTargetInfo i => Some (on_link (se_SessionID i) (λ _, CPUInfo) (λ b,
      ORawInfo (MkRawInfoOut (hex_of_bytes b) (printableStrings b))))
  | CDebugThreads i => Some (on_link (se_SessionID i) threadsQuery OThreads)
  | CDebugDetach i => Some (spec_detach (se_SessionID i))
  | _ => None
  end.

(** The next dial. *)
Definition db_dial w : option (endpoint D) * debugger D :=
  match db_dials w with
  | [] => (None, w)
  | d :: ds => (d, Debugger (db_serial w) (db_sessions w) (db_seq w) ds)
  end.

(** A session with a new number. *)
Definition db_enter (pid : Z) (l : session D) w : debugger D :=
  Debugger (db_serial w) (<[sessionId (db_seq w + 1) := DSession pid None l]> (db_sessions w))
    (db_seq w + 1) (db_dials w).

(** Connect to the agent a dial reached. *)
Definition spec_dialed (d : option (endpoint D)) : connect_err + session D :=
  match d with None => inl CDial | Some e => msg_connect e end.

(** ... the one the next dial reaches, and go on. *)
Definition spec_connect (k : session D → debugger D → tool_result * debugger D) w : tool_result * debugger D :=
  let '(d, w) := db_dial w in
  match spec_dialed d with
  | inl err => (RErr (TPdebug err), w)
  | inr l => k l w
  end.

Definition spec_attachSession (i : attachIn) (l : session D) w : tool_result * debugger D :=
  match Attach (ai_PID i) l with
  | (inl e, _) => (RErr (TDbg e), w)
  | (inr _, l) =>
      (ROut (OAttach (MkAttachOut (sessionId (db_seq w + 1)) (ai_PID i) [])),
       db_enter (ai_PID i) (snd (Select (ai_PID i) 1 l)) w)
  end.

Definition spec_launchSession (i : launchIn) (l : session D) w : tool_result * debugger D :=
  match Launch (li_Path i) (li_Args i) None l with
  | (inl e, _) => (RErr (TDbg e), w)
  | (inr res, l) =>
      (ROut (OLaunch (MkLaunchOut (sessionId (db_seq w + 1)) (lr_pid res) (lr_tid res) launchNote)),
       db_enter (lr_pid res) (snd (Select (lr_pid res) (lr_tid res) l)) w)
  end.

(** The requests that open a session. *)
Definition opening_tool (c : call) : option (debugger D → tool_result * debugger D) :=
  match c with
  | CDebugAttach i => Some (spec_connect (spec_attachSession i))
  | CDebugLaunch i => Some (spec_connect (spec_launchSession i))
  | _ => None
  end.

(** One request. Opening a session may also fail on the qconn side, or because
    of the serial line; requests that do not debug leave everything. *)
Inductive debugger_step : call → tool_result → debugger D → debugger D → Prop :=
  | db_session c f r w w' :
      session_tool c = Some f → f w = (r, w') → debugger_step c r w w'
  | db_open c f r w w' :
      opening_tool c = Some f → f w = (r, w') → debugger_step c r w w'
  | db_refused c f e w :
      opening_tool c = Some f → debugger_step c (RErr e) w w
  | db_line_lost c f e w :
      opening_tool c = Some f → db_serial w = true →
      debugger_step c (RErr (TPdebug e)) w (snd (db_dial w))
  | db_other c r w :
      session_tool c = None → opening_tool c = None → c ≠ CClose → debugger_step c r w w
  | db_close r w : debugger_step CClose r w (db_set ∅ w).

(** Requests one after the other. *)
Inductive debugger_run : list call → list tool_result → debugger D → debugger D → Prop :=
  | run_nil w : debugger_run [] [] w w
  | run_cons c cs r rs w w' w'' :
      debugger_step c r w w' → debugger_run cs rs w' w'' →
      debugger_run (c :: cs) (r :: rs) w w''.
End spec.

(** ** Representation *)

Section refinement.
Context {P D : Type} `{QPeer P} `{DsmsgTarget D} `{Platform}.
Implicit Types (s : Server P D) (w : debugger D) (p : proc (P := P) (D := D)).

(** The object behind a pointer of the registry is the session [ds]. *)
Definition holds s (q : nat) (ds : dsession D) : Prop :=
  ∃ ss, s_heap s !! q = Some ss ∧ qs_pid ss = ds_pid ds ∧ qs_sigTable ss = ds_table ds ∧
    s_dbgs s !! qs_client ss = Some (client_of (ds_link ds)) ∧ tgt_ready (s_peer (ds_link ds)).

Record mirrors s w : Prop := {
  mir_serial : bool_decide (mc_DebugSerial (s_cfg s) ≠ []) = db_serial w;
  mir_seq : s_seq s = db_seq w;
  mir_dials : s_dials s = fmap (M := option) wire_of <$> db_dials w;
  mir_ready : Forall (λ d, ∀ e, d = Some e → tgt_ready (fst e)) (db_dials w);
  mir_sessions id : option_Forall2 (holds s) (s_sessions s !! id) (db_sessions w !! id)
}.

(** The server stands for the debugger. *)
Definition represents s w : Prop := (∃ rs, inv s rs) ∧ mirrors s w.

(** The part of the server the debug tools work on. *)
Definition dbg_side s := (s_cfg s, s_dbgs s, s_heap s, s_sessions s, s_seq s, s_dials s).

Lemma mirrors_side s s' w : dbg_side s' = dbg_side s → mirrors s w → mirrors s' w.
Proof.
  intros [= Ec Ed Eh Em Eq El] []. split; unfold holds in *; by rewrite ?Ec, ?Ed, ?Eh, ?Em, ?Eq, ?El.
Qed.

(** *** Running keeps the invariant *)

Lemma follows_run r p s rs i :
  follows r p → inv s rs → rs !! i = Some r →
  ∃ r', owned r' = None ∧ inv (snd (run p s)) (<[i := r']> rs).
Proof.
  revert r s rs. induction p as [x|A m k IH]; intros r s rs Hf I Hi.
  { exists r. split; [by eapply follows_done|]. by rewrite list_insert_id. }
  destruct (follows_step r (PStep A m k) s (k (fst (m s))) (snd (m s)) rs i) as (r1 & Hf1 & I1);
    [done..|simpl; by destruct (m s)|].
  destruct (IH (fst (m s)) r1 (snd (m s)) _ Hf1 I1) as (r2 & Ho & I2).
  { apply list_lookup_insert_eq. by eapply lookup_lt_Some. }
  exists r2. split; [done|]. rewrite list_insert_insert_eq in I2. cbn [run]. by destruct (m s).
Qed.

(** When all requests have finished, nobody owns a client. *)
Definition settled (rs : list res) : Prop := Forall (λ r, owned r = None) rs.

Lemma handler_settled c s rs :
  inv s rs → settled rs → ∃ rs', inv (snd (run (handler c) s)) rs' ∧ settled rs'.
Proof.
  intros I Hs. destruct (follows_run RNone (handler c) s (rs ++ [RNone]) (length rs)) as (r & Ho & I').
  - apply handler_follows.
  - by apply inv_call.
  - by rewrite lookup_app_r, Nat.sub_diag by lia.
  - eexists. split; [exact I'|]. rewrite insert_app_r_alt, Nat.sub_diag by lia.
    apply Forall_app. split; [done|]. by constructor.
Qed.

Lemma handler_inv c s rs : inv s rs → ∃ rs', inv (snd (run (handler c) s)) rs'.
Proof.
  intros I. destruct (follows_run RNone (handler c) s (rs ++ [RNone]) (length rs)) as (r & _ & I').
  - apply handler_follows.
  - by apply inv_call.
  - by rewrite lookup_app_r, Nat.sub_diag by lia.
  - by eexists.
Qed.

(** *** Requests that do not debug *)

Definition aside p : Prop := ∀ s, dbg_side (snd (run p s)) = dbg_side s.

Lemma aside_done r : aside (PDone r).
Proof. by intros s. Qed.

Lemma aside_step A (m : act A) k :
  (∀ s, dbg_side (snd (m s)) = dbg_side s) → (∀ a, aside (k a)) → aside (PStep A m k).
Proof. intros Hm Hk s. cbn [run]. specialize (Hm s). destruct (m s) as [a s']. by rewrite Hk. Qed.

Lemma side_onClient {A} ptr (m : M qerror (QconnClient.Client P) A) s :
  dbg_side (snd (onClient ptr m s)) = dbg_side s.
Proof. unfold onClient. destruct (s_clients s !! ptr) as [c|]; [|done]. by destruct (m c). Qed.

Lemma side_onNet {A} (m : M qerror (QconnExec.network P) A) s :
  dbg_side (snd (onNet m s)) = dbg_side s.
Proof. unfold onNet. by destruct (m (s_net s)). Qed.

Lemma side_client s : dbg_side (snd (client s)) = dbg_side s.
Proof.
  unfold client. destruct (s_conn s); [done|].
  destruct (QconnExec.dial (s_net s)) as [[e|[[t fills] z]] net]; [done|].
  by destruct (QconnClient.dialed t fills) as [[e|u] c].
Qed.

Lemma side_resetClient s : dbg_side (snd (resetClient s)) = dbg_side s.
Proof.
  unfold resetClient. destruct (s_conn s) as [c|]; [|done].
  apply (side_onClient c QconnClient.Close s).
Qed.

Lemma aside_callClient {A} (m : M qerror (QconnClient.Client P) A) out : aside (callClient m out).
Proof.
  apply aside_step; [apply side_client|]. intros [e|c].
  - apply aside_step; [apply side_resetClient|]. intros ?. apply aside_done.
  - apply aside_step; [apply side_onClient|]. intros ?. apply aside_done.
Qed.

Lemma aside_callNet {A} (m : M qerror (QconnExec.network P) A) out : aside (callNet m out).
Proof.
  apply aside_step; [apply side_client|]. intros [e|c].
  - apply aside_step; [apply side_resetClient|]. intros ?. apply aside_done.
  - apply aside_step; [apply side_onNet|]. intros ?. apply aside_done.
Qed.

Lemma other_aside c :
  session_tool (D := D) c = None → opening_tool (D := D) c = None → c ≠ CClose → aside (handler c).
Proof.
  intros Hs Ho Hc. destruct c; try discriminate Hs; try discriminate Ho; try done; cbn [handler];
    try solve [apply aside_callClient | apply aside_callNet].
  - apply aside_step; [done|]. intros ?. apply aside_callClient.
  - unfold write_memory. case_match; [apply aside_done|apply aside_callClient].
  - unfold write_file. case_match; [apply aside_callClient|apply aside_done].
Qed.

(** *** Requests on a session *)

(** Two ids lead to two objects with a client each. *)
Lemma inv_apart s rs id id' q q' ss ss' :
  inv s rs → id' ≠ id → s_sessions s !! id = Some q → s_sessions s !! id' = Some q' →
  s_heap s !! q = Some ss → s_heap s !! q' = Some ss' → q' ≠ q ∧ qs_client ss' ≠ qs_client ss.
Proof.
  intros I Hne Hq Hq' Hss Hss'.
  assert (q' ≠ q) as Hqq by (intros ->; by apply Hne, (inv_inj s rs I _ _ q)).
  split; [done|]. intros E. by eapply (inv_private s rs I q' q ss' ss) in E.
Qed.

(** One session changes its state; the others have objects of their own. *)
Lemma mirrors_update s rs w id q ss ss' l :
  inv s rs → mirrors s w → s_sessions s !! id = Some q → s_heap s !! q = Some ss →
  qs_client ss' = qs_client ss → is_Some (s_dbgs s !! qs_client ss) → tgt_ready (s_peer l) →
  mirrors (set_dbgs (<[qs_client ss := client_of l]> (s_dbgs s)) (set_heap (<[q := ss']> (s_heap s)) s))
    (db_set (<[id := DSession (qs_pid ss') (qs_sigTable ss') l]> (db_sessions w)) w).
Proof.
  intros I [Eser Eseq Edials Hready Hses] Hq Hss Ec Hd Hr. split; [done..|]. intros id'. simpl.
  destruct (decide (id' = id)) as [->|Hne].
  - rewrite Hq, lookup_insert_eq. constructor. exists ss'. simpl. rewrite Ec.
    split_and!; [|done..| |done]; apply list_lookup_insert_eq.
    + by eapply lookup_lt_Some.
    + destruct Hd as [d Hd]. by eapply lookup_lt_Some.
  - rewrite lookup_insert_ne by done. specialize (Hses id').
    destruct (s_sessions s !! id') as [q'|] eqn:Hq'; inversion Hses as [? ds' Hh|]; [|constructor].
    destruct Hh as (t & Ht & ? & ? & Hl & ?). constructor. exists t. simpl.
    destruct (inv_apart s rs id id' q q' ss t) as [? ?]; [done..|].
    by rewrite !list_lookup_insert_ne by done.
Qed.

Lemma sim_callSession {A} id (m : Z → M dbg_error (Client D) A) am out s rs w :
  (∀ pid, refines (m pid) (am pid)) → inv s rs → mirrors s w →
  fst (run (callSession id m out) s) = fst (on_link id am out w) ∧
  mirrors (snd (run (callSession id m out) s)) (snd (on_link id am out w)).
Proof.
  intros Hm I M. unfold callSession, withSession, on_link. cbn [run getSession].
  pose proof (mir_sessions s w M id) as Hs.
  destruct (s_sessions s !! id) as [q|] eqn:Hq; inversion Hs as [? ds Hh E1 E2|]; [|done].
  destruct Hh as (ss & Hss & Epid & Etab & Hd & Hr). cbn [run]. unfold onSession, onDbg.
  rewrite Hss, Hd, Epid. destruct (Hm (ds_pid ds) (ds_link ds) Hr) as [-> Hr'].
  destruct (am (ds_pid ds) (ds_link ds)) as [r l] eqn:Em. simpl. split; [done|].
  rewrite <- Epid, <- Etab.
  replace (set_dbgs _ s) with
    (set_dbgs (<[qs_client ss := client_of l]> (s_dbgs s)) (set_heap (<[q := ss]> (s_heap s)) s))
    by (rewrite (list_insert_id (s_heap s)) by done; by destruct s).
  by eapply mirrors_update.
Qed.

Lemma sim_handle_signal i s rs w :
  inv s rs → mirrors s w →
  fst (run (debug_handle_signal i) s) = fst (spec_handle_signal i w) ∧
  mirrors (snd (run (debug_handle_signal i) s)) (snd (spec_handle_signal i w)).
Proof.
  intros I M. unfold debug_handle_signal, spec_handle_signal. change (Z.of_nat NumSignals) with 72.
  destruct (_ || _); [done|]. unfold withSession. cbn [run getSession].
  pose proof (mir_sessions s w M (hsi_SessionID i)) as Hs.
  destruct (s_sessions s !! _) as [q|] eqn:Hq; inversion Hs as [? ds Hh E1 E2|]; [|done].
  destruct Hh as (ss & Hss & Epid & Etab & Hd & Hr). cbn [run]. unfold handleSignal, onDbg.
  rewrite Hss. simpl. rewrite Hd. unfold signalTable. rewrite Etab. unfold NumSignals.
  set (tbl := <[Z.to_nat (hsi_Signal i - 1) := _]> _).
  destruct (refines_HandleSig tbl (ds_link ds) Hr) as [-> Hr'].
  destruct (HandleSig tbl (ds_link ds)) as [r l] eqn:Em. simpl. split; [done|].
  rewrite <- Epid.
  by eapply (mirrors_update s rs w _ q ss (MkQnxSession (qs_client ss) (qs_pid ss) (Some tbl)) l).
Qed.

Lemma sim_detach i s rs w :
  inv s rs → mirrors s w →
  fst (run (debug_detach i) s) = fst (spec_detach (se_SessionID i) w) ∧
  mirrors (snd (run (debug_detach i) s)) (snd (spec_detach (se_SessionID i) w)).
Proof.
  intros I M. unfold debug_detach, spec_detach, withSession. cbn [run getSession].
  destruct M as [Eser Eseq Edials Hready Hses]. pose proof (Hses (se_SessionID i)) as Hs.
  destruct (s_sessions s !! _) as [q|] eqn:Hq; inversion Hs as [? ds Hh E1 E2|]; [|done].
  destruct Hh as (ss & Hss & Epid & Etab & Hd & Hr). cbn [run]. unfold onSession, onDbg. rewrite Hss, Hd.
  destruct ((attempt (Detach (qs_pid ss)) ≫= λ _, Close) (client_of (ds_link ds))) as [r d]. simpl.
  split; [done|]. split; [done..|]. intros id'. simpl.
  destruct (decide (id' = se_SessionID i)) as [->|Hne]; [rewrite !lookup_delete_eq; constructor|].
  rewrite !lookup_delete_ne by done. specialize (Hses id').
  destruct (s_sessions s !! id') as [q'|] eqn:Hq'; inversion Hses as [? ds' Hh'|]; [|constructor].
  destruct Hh' as (t & Ht & ? & ? & Hl & ?). constructor. exists t. simpl.
  destruct (inv_apart s rs (se_SessionID i) id' q q' ss t) as [? ?]; [done..|].
  by rewrite list_lookup_insert_ne by done.
Qed.
Lemma refines_orError {A} (m : M dbg_error (Client D) (A * option dbg_error)) am :
  refines m am → refines (orError m) (orError am).
Proof. intros Hm. apply refines_bind; [done|]. intros [a [e|]]; auto with dsmsg_refine. Qed.

Lemma refines_threadsQuery pid : refines (P := D) (threadsQuery pid) (threadsQuery pid).
Proof.
  unfold threadsQuery. apply refines_bind; [apply refines_attempt; auto with dsmsg_refine|]. intros ?.
  apply refines_bind; [apply refines_attempt; auto with dsmsg_refine|]. intros ?. apply refines_ret.
Qed.

#[local] Hint Resolve refines_orError refines_threadsQuery : dsmsg_refine.

Lemma sim_session c f s rs w :
  session_tool c = Some f → inv s rs → mirrors s w →
  fst (run (handler c) s) = fst (f w) ∧ mirrors (snd (run (handler c) s)) (snd (f w)).
Proof.
  intros Hc I M. destruct c; try discriminate Hc; injection Hc as <-; cbn [handler];
    lazymatch goal with
    | |- fst _ = fst (on_link _ _ _ _) ∧ _ => eapply sim_callSession; [intros; auto with dsmsg_refine|done..]
    | _ => idtac
    end.
  - unfold debug_write_memory, with_hex. case_match; [done|].
    eapply sim_callSession; [intros; auto with dsmsg_refine|done..].
  - unfold debug_write_registers, with_hex. case_match; [done|].
    eapply sim_callSession; [intros; auto with dsmsg_refine|done..].
  - by eapply sim_handle_signal.
  - by eapply sim_detach.
Qed.

(** *** Opening a session *)

(** Taking the next dial. *)
Lemma mirrors_nextDial s w :
  mirrors s w →
  fst (nextDial s) = fmap (M := option) wire_of (fst (db_dial w)) ∧
  mirrors (snd (nextDial s)) (snd (db_dial w)) ∧
  (∀ e, fst (db_dial w) = Some e → tgt_ready (fst e)).
Proof.
  intros M. destruct M as [Eser Eseq Edials Hready Hses]. unfold nextDial, db_dial. rewrite Edials.
  destruct (db_dials w) as [|d ds] eqn:E; simpl.
  - split_and!; [done| |done]. split; [done..|by rewrite Edials, E|by rewrite E|done].
  - apply Forall_cons in Hready as [Hd Hds]. by split_and!.
Qed.

(** Giving a connection up is no affair of the sessions. *)
Lemma mirrors_drop s w l : mirrors s w → mirrors (set_dropped l s) w.
Proof. intros [Eser Eseq Edials Hready Hses]. by split. Qed.

(** Connecting a client over TCP. *)
Lemma run_connect k s w :
  mirrors s w →
  match spec_dialed (fst (db_dial w)) with
  | inl e => ∃ s', run (PStep _ (connectDbg Connect) k) s = run (k (inl e)) s' ∧ mirrors s' (snd (db_dial w))
  | inr l => ∃ s', run (PStep _ (connectDbg Connect) k) s =
        run (k (inr (length (s_dbgs s')))) (set_dbgs (s_dbgs s' ++ [client_of l]) s') ∧
      mirrors s' (snd (db_dial w)) ∧ tgt_ready (s_peer l)
  end.
Proof.
  intros M. destruct (mirrors_nextDial s w M) as (Ed & M' & Hr). cbn [run]. unfold connectDbg.
  destruct (nextDial s) as [d s'] eqn:En. cbn [fst snd] in *. subst d.
  destruct (fst (db_dial w)) as [ep|]; cbn [fmap option_fmap option_map Connect spec_dialed].
  - pose proof (clientOn_refines ep (Hr ep eq_refl)) as Href.
    destruct (msg_connect ep) as [e|l].
    + destruct Href as (t & -> & _). eexists. split; [done|by apply mirrors_drop].
    + destruct Href as [-> Hl]. by exists s'.
  - eexists. split; [done|by apply mirrors_drop].
Qed.

(** Over a serial line the tty may fail where a dial would not. *)
Lemma run_connectSerial dev baud k s w :
  mirrors s w →
  let conn := λ d, ConnectSerial (λ _, d) pf_setTermios dev baud in
  (∃ e s', run (PStep _ (connectDbg conn) k) s = run (k (inl e)) s' ∧ mirrors s' (snd (db_dial w))) ∨
  run (PStep _ (connectDbg conn) k) s = run (PStep _ (connectDbg Connect) k) s.
Proof.
  intros M conn. destruct (mirrors_nextDial s w M) as (_ & M' & _). cbn [run]. unfold connectDbg, conn.
  destruct (nextDial s) as [d s'] eqn:En. cbn [snd] in M'.
  destruct (ConnectSerial_cases (λ _, d) pf_setTermios dev baud) as [(e & o & -> & _)|(t & -> & ->)]; [left|by right].
  do 2 eexists. split; [done|by apply mirrors_drop].
Qed.

(** What a request makes of its new client is its own affair until the session
    is entered. *)
Lemma mirrors_append s w d : mirrors s w → mirrors (set_dbgs (s_dbgs s ++ [d]) s) w.
Proof.
  intros [Eser Eseq Edials Hready Hses]. split; [done..|]. intros id. simpl. specialize (Hses id).
  destruct Hses as [q ds (ss & ? & ? & ? & ? & ?)|]; constructor. exists ss. simpl.
  split_and!; [done..| |done]. by apply lookup_app_l_Some.
Qed.

Lemma mirrors_enter s w pid l :
  mirrors s w → tgt_ready (s_peer l) →
  mirrors (set_sessions (<[sessionId (s_seq s + 1) := length (s_heap s)]> (s_sessions s))
    (set_heap (s_heap s ++ [MkQnxSession (length (s_dbgs s)) pid None])
       (set_seq (s_seq s + 1) (set_dbgs (s_dbgs s ++ [client_of l]) s))))
    (db_enter pid l w).
Proof.
  intros [Eser Eseq Edials Hready Hses] Hl. split; [done|simpl; congruence|done..|]. intros id. simpl.
  rewrite <- Eseq. destruct (decide (id = sessionId (s_seq s + 1))) as [->|Hne].
  - rewrite !lookup_insert_eq. constructor. exists (MkQnxSession (length (s_dbgs s)) pid None). simpl.
    split_and!; [|done..| |done]; by rewrite lookup_app_r, Nat.sub_diag by lia.
  - rewrite !lookup_insert_ne by done. specialize (Hses id).
    destruct Hses as [q ds (ss & ? & ? & ? & ? & ?)|]; constructor. exists ss. simpl.
    split_and!; [|done..| |done]; by apply lookup_app_l_Some.
Qed.

Lemma onDbg_fresh {A} (m : M dbg_error (Client D) A) s c :
  onDbg (length (s_dbgs s)) m (set_dbgs (s_dbgs s ++ [c]) s) =
    (fst (m c), set_dbgs (s_dbgs s ++ [snd (m c)]) s).
Proof.
  unfold onDbg. simpl. rewrite lookup_app_r, Nat.sub_diag by lia. simpl. destruct (m c) as [r c'].
  by rewrite insert_app_r_alt, Nat.sub_diag by lia.
Qed.

(** A request that closes its client again. *)
Lemma run_failed s w c e :
  mirrors s w →
  let '(r, s') := run (PStep _ (onDbg (length (s_dbgs s)) Close) (λ _, PDone (RErr (TDbg e))))
                    (set_dbgs (s_dbgs s ++ [c]) s) in
  r = RErr (TDbg e) ∧ mirrors s' w.
Proof. intros M. cbn [run]. rewrite onDbg_fresh. split; [done|]. by apply mirrors_append. Qed.

(** ... and one that enters a session. *)
Lemma run_entered s w l pid tid out :
  mirrors s w → tgt_ready (s_peer l) →
  let '(r, s') := run (PStep _ (onDbg (length (s_dbgs s)) (Select pid tid)) (λ _,
      PStep _ nextSeq (λ n, PStep _ (register (sessionId n) (length (s_dbgs s)) pid) (λ _, PDone (out n)))))
    (set_dbgs (s_dbgs s ++ [client_of l]) s) in
  r = out (db_seq w + 1) ∧ mirrors s' (db_enter pid (snd (Select pid tid l)) w).
Proof.
  intros M Hl. cbn [run]. rewrite onDbg_fresh. destruct (refines_Select pid tid l Hl) as [-> Hl'].
  cbn [snd run nextSeq register]. split; [by rewrite <- (mir_seq s w M)|].
  by apply (mirrors_enter s w pid (snd (Select pid tid l)) M).
Qed.
(** The client or why there is none, before the debug side is touched. *)
Lemma run_cli k s :
  (∃ e s', run (cli k) s = (RErr e, s') ∧ dbg_side s' = dbg_side s) ∨
  (∃ c s', run (cli k) s = run (k c) s' ∧ dbg_side s' = dbg_side s).
Proof.
  unfold cli. cbn [run]. pose proof (side_client s) as E1. destruct (client s) as [[e|c] s1]; cbn [snd] in E1.
  - left. cbn [run]. pose proof (side_resetClient s1) as E2. destruct (resetClient s1) as [u s2].
    exists (TQconn e), s2. split; [done|]. by etrans.
  - right. by exists c, s1.
Qed.

(** A request that opens a session with [k] does what [sk] specifies. *)
Definition opens (k : nat → proc (P := P) (D := D)) (sk : session D → debugger D → tool_result * debugger D) : Prop :=
  ∀ s w l, mirrors s w → tgt_ready (s_peer l) →
    let '(r, s') := run (k (length (s_dbgs s))) (set_dbgs (s_dbgs s ++ [client_of l]) s) in
    r = fst (sk l w) ∧ mirrors s' (snd (sk l w)).

(** The end of [dialPdebug]. *)
Definition dialled (k : nat → proc (P := P) (D := D)) (r : connect_err + nat) : proc :=
  match r with inr c => k c | inl e => PDone (RErr (TPdebug e)) end.

Lemma sim_connect k sk s w :
  opens k sk → mirrors s w →
  let '(r, s') := run (PStep _ (connectDbg Connect) (dialled k)) s in
  r = fst (spec_connect sk w) ∧ mirrors s' (snd (spec_connect sk w)).
Proof.
  intros Hk M. pose proof (run_connect (dialled k) s w M) as Hrun. unfold spec_connect.
  destruct (db_dial w) as [d w1]. cbn [fst snd] in *. destruct (spec_dialed d) as [e|l].
  - destruct Hrun as (s' & -> & M2). by split.
  - destruct Hrun as (s' & -> & M2 & Hl). exact (Hk _ w1 l M2 Hl).
Qed.

Lemma sim_opening c port k sk s w :
  opening_tool c = Some (spec_connect sk) → handler c = cli (λ _, dialPdebug port k) →
  opens k sk → mirrors s w →
  ∃ w', debugger_step c (fst (run (handler c) s)) w w' ∧ mirrors (snd (run (handler c) s)) w'.
Proof.
  intros Hc -> Hk M.
  assert (∀ s1, mirrors s1 w → ∃ w',
    debugger_step c (fst (run (PStep _ (connectDbg Connect) (dialled k)) s1)) w w' ∧
    mirrors (snd (run (PStep _ (connectDbg Connect) (dialled k)) s1)) w') as Hconn.
  { intros s1 M1. pose proof (sim_connect k sk s1 w Hk M1) as Hs. destruct (run _ s1) as [r s2].
    destruct Hs as [-> M2]. eexists. split; [|exact M2]. eapply db_open; [done|]. by destruct (spec_connect sk w). }
  destruct (run_cli (λ _, dialPdebug port k) s) as [(e & s1 & -> & E)|(c0 & s1 & -> & E)];
    apply (mirrors_side _ _ w) in E as M1; [by exists w; split; [eapply db_refused|]|done| |done].
  unfold dialPdebug. fold (dialled k). cbn [run]. case_decide as Hser.
  - destruct (run_connectSerial (mc_DebugSerial (s_cfg s1)) (mc_DebugBaud (s_cfg s1)) (dialled k) s1 w M1)
      as [(e & s2 & -> & M2)| ->]; [|by apply Hconn].
    exists (snd (db_dial w)). split; [|done]. eapply db_line_lost; [done|].
    rewrite <- (mir_serial s1 w M1). by apply bool_decide_eq_true.
  - cbn [run]. destruct (s_mgr s1) as [m|]; [|by exists w; split; [eapply db_refused|]].
    cbn [run]. set (m1 := SpawnPdebug _ _ _). pose proof (side_onNet m1 s1) as E2.
    destruct (onNet m1 s1) as [[e|u] s2]; apply (mirrors_side _ _ w) in E2 as M2; [|done| |done].
    + exists w. split; [by eapply db_refused|done].
    + by apply Hconn.
Qed.

Lemma opens_attach i : opens (attachSession i) (spec_attachSession i).
Proof.
  intros s1 w1 l M1 Hl. unfold attachSession, spec_attachSession. cbn [run]. rewrite onDbg_fresh.
  destruct (refines_Attach (ai_PID i) l Hl) as [-> Hl']. destruct (Attach (ai_PID i) l) as [[e|u] l'].
  - by apply run_failed.
  - by apply (run_entered s1 w1 l' (ai_PID i) 1 (λ n, ROut (OAttach (MkAttachOut (sessionId n) (ai_PID i) [])))).
Qed.

Lemma opens_launch i : opens (launchSession i) (spec_launchSession i).
Proof.
  intros s1 w1 l M1 Hl. unfold launchSession, spec_launchSession. cbn [run]. rewrite onDbg_fresh.
  destruct (refines_Launch (li_Path i) (li_Args i) None l Hl) as [-> Hl'].
  destruct (Launch (li_Path i) (li_Args i) None l) as [[e|res] l'].
  - by apply run_failed.
  - by apply (run_entered s1 w1 l' (lr_pid res) (lr_tid res) (λ n, ROut (OLaunch
      (MkLaunchOut (sessionId n) (lr_pid res) (lr_tid res) launchNote)))).
Qed.

Lemma sim_open c f s w :
  opening_tool c = Some f → mirrors s w →
  ∃ w', debugger_step c (fst (run (handler c) s)) w w' ∧ mirrors (snd (run (handler c) s)) w'.
Proof.
  intros Hc M. destruct c; try discriminate Hc; clear f Hc.
  - eapply sim_opening; [done|reflexivity|apply opens_attach|done].
  - eapply sim_opening; [done|reflexivity|apply opens_launch|done].
Qed.

(** *** Closing the server *)

Lemma sim_close s w : mirrors s w → mirrors (snd (run closeServer s)) (db_set ∅ w).
Proof.
  intros M. unfold closeServer. cbn [run].
  assert (mirrors (snd (closeSessions s)) (db_set ∅ w)) as M1.
  { unfold closeSessions. cbn [snd].
    destruct (close_all_touches (snd <$> map_to_list (s_sessions s)) s) as [(_ & _ & _ & Eq & _) _].
    assert (∀ qs, s_cfg (foldr (λ q s, snd (onSession q (λ _, Close) s)) s qs) = s_cfg s ∧
      s_dials (foldr (λ q s, snd (onSession q (λ _, Close) s)) s qs) = s_dials s) as Hsame.
    { induction qs as [|q qs IH]; [done|]. simpl. set (s1 := foldr _ s qs) in *.
      unfold onSession, onDbg. destruct (s_heap s1 !! q) as [ss|]; [|done].
      by destruct (s_dbgs s1 !! qs_client ss). }
    destruct (Hsame (snd <$> map_to_list (s_sessions s))) as [Ec Ed]. destruct M.
    split; simpl; rewrite ?Eq, ?Ec, ?Ed; [done..|]. intros id. rewrite !lookup_empty. constructor. }
  destruct (closeSessions s) as [u s1]. cbn [snd] in M1. pose proof (side_resetClient s1) as E.
  destruct (resetClient s1) as [u2 s2]. by apply (mirrors_side s1).
Qed.

(** *** One request *)

Lemma represents_step c s w :
  represents s w →
  ∃ w', debugger_step c (fst (run (handler c) s)) w w' ∧ represents (snd (run (handler c) s)) w'.
Proof.
  intros [[rs I] M]. pose proof (handler_inv c s rs I) as I'.
  destruct (session_tool (D := D) c) as [f|] eqn:Es.
  { destruct (sim_session c f s rs w Es I M) as [Er M']. exists (snd (f w)). split; [|done].
    rewrite Er. eapply db_session; [done|]. apply surjective_pairing. }
  destruct (opening_tool (D := D) c) as [f|] eqn:Eo.
  { destruct (sim_open c f s w Eo M) as (w' & Hst & M'). by exists w'. }
  assert (c = CClose ∨ c ≠ CClose) as [->|Hc] by (destruct c; first [by left|by right]).
  - exists (db_set ∅ w). split; [constructor|]. split; [done|]. by apply sim_close.
  - exists w. split; [by constructor|]. split; [done|]. by eapply mirrors_side; [apply other_aside|].
Qed.

Lemma represents_New cfg (net : QconnExec.network P) (eps : list (option (endpoint D))) :
  Forall (λ d, ∀ e, d = Some e → tgt_ready (fst e)) eps →
  represents (New cfg net (fmap (M := option) wire_of <$> eps))
    (Debugger (bool_decide (mc_DebugSerial cfg ≠ [])) ∅ 0 eps).
Proof.
  intros Hr. split; [eexists; apply inv_New|]. split; [done..|].
  intros id. cbn [New s_sessions db_sessions]. rewrite !lookup_empty. constructor.
Qed.

Lemma represents_run reqs s w :
  represents s w →
  let '(rs, s') := serve reqs s in ∃ w', debugger_run reqs rs w w' ∧ represents s' w'.
Proof.
  revert s w. induction reqs as [|c reqs IH]; intros s w Hs.
  { exists w. split; [constructor|done]. }
  cbn [serve]. destruct (represents_step c s w Hs) as (w1 & Hst & Hs1).
  destruct (run (handler c) s) as [r s1]. cbn [fst snd] in *. specialize (IH s1 w1 Hs1).
  destruct (serve reqs s1) as [rs s2]. destruct IH as (w2 & Hrun & Hs2).
  exists w2. split; [by econstructor|done].
Qed.
End refinement.

(** C5: The debug tools implement the abstract debugger. Whatever requests are
    served one after the other, of all tools, over agents that speak DSMSG,
    the results are those of a run of the specification: a request on a session
    does exactly the message-level command on that session and nothing to any
    other, attaching enters a new session under a new number, detaching
    removes it; and the server's registry, session objects and byte streams
    stand for the state of that run. *)
Theorem debug_tools_refine {P D} `{QPeer P} `{DsmsgTarget D} `{Platform} cfg
    (net : QconnExec.network P) (eps : list (option (endpoint D))) reqs :
  Forall (λ d, ∀ e, d = Some e → tgt_ready (fst e)) eps →
  let '(rs, s) := serve reqs (New cfg net (fmap (M := option) wire_of <$> eps)) in
  ∃ w, debugger_run reqs rs (Debugger (bool_decide (mc_DebugSerial cfg ≠ [])) ∅ 0 eps) w ∧ represents s w.
Proof. intros Hr. by apply represents_run, represents_New. Qed.
