(* ===== verification/McpAttach.v ===== *)
(** * Attaching, end to end

    A fresh server asked to attach: it dials qconn, starts the debug agent
    through the launcher, connects to it, attaches and enters the session;
    what is then read through the tools is the memory of the process. Over any
    daemon with a launcher and any agent that accepts a debugger. *)

From stdpp Require Import base list numbers strings gmap.
From Stdlib Require Import ZArith Lia Strings.Byte.
From S2P Require Import Prelude GoStrconv GoStrings GoEncoding Transport QconnFraming QconnExec.
From S2P Require Import Dsmsg DsmsgClient DsmsgLink DsmsgCommands DsmsgCommandFacts DsmsgMemory DsmsgConnect.
From S2P Require Import Pdebug McpText McpTypes McpServer McpSessions McpFacts McpTools McpDebug.
From S2P Require Import MockDsmsg DsmsgE2E MockRsp MockServer MockShell PdebugFacts.
From S2P Require QconnClient.

Local Open Scope Z_scope.

Section attach.
Context {P D : Type} `{!Peer P, !QPeer P, !QconnClient.QconnDaemon P, !LauncherDaemon P}.
Context `{!Peer D, !DsmsgTarget D, !ReadableTarget D, !DebugAgent D} `{!Platform}.
Implicit Types (s : Server P D) (w : debugger D).

(** The first request of a fresh server dials qconn. *)
Lemma client_dials cfg (net : network P) dials t fills late ds p :
  n_dials net = Some (t, fills, late) :: ds → greeted p t →
  ∃ c s, client (D := D) (New cfg net dials) = (inr c, s) ∧ dbg_side s = dbg_side (New cfg net dials) ∧
    s_net s = MkNetwork ds (n_used net) ∧
    s_mgr s = Some (MkManager (mc_QconnHost cfg)
                      (if decide (mc_PdebugCmd cfg = []) then defaultPdebugCmd else mc_PdebugCmd cfg)).
Proof.
  intros Hd Hg. destruct (dialed_greeted p t fills Hg) as (c & E & _).
  pose proof (side_client (New cfg net dials)) as Hs.
  unfold client in *. cbn [New s_conn s_net] in *. unfold dial in *. rewrite Hd, E in *.
  eexists _, _. by split_and!.
Qed.

(** The message-level part of an attach. *)
Lemma spec_attach_accepted i w agent eps :
  db_dials w = Some (agent, [da_reset]) :: eps → tgt_ready agent → da_admits agent (ai_PID i) →
  ∃ l, resting agent l ∧
    spec_connect (spec_attachSession i) w = (ROut (OAttach (MkAttachOut (sessionId (db_seq w + 1)) (ai_PID i) [])),
      db_enter (ai_PID i) l (snd (db_dial w))).
Proof.
  intros Hd Hr Hadm. destruct (msg_connect_accepted agent Hr) as (l0 & E0 & R0).
  destruct (Attach_accepted _ (ai_PID i) l0 Hadm R0) as (l1 & E1 & R1).
  destruct (Select_accepted _ (ai_PID i) 1 l1 Hadm R1) as (l2 & E2 & R2).
  exists l2. split; [done|]. unfold spec_connect, db_dial. rewrite Hd.
  cbn [spec_dialed]. rewrite E0. unfold spec_attachSession. by rewrite E1, E2.
Qed.

(** A request that debugs does not use the network to qconn any more once the
    agent runs. *)
Lemma connect_net k s :
  (∀ c s, s_net (snd (run (k c) s)) = s_net s) →
  s_net (snd (run (PStep _ (connectDbg Connect) (dialled k)) s)) = s_net s.
Proof.
  intros Hk. cbn [run]. unfold connectDbg, nextDial.
  destruct (s_dials s) as [|d ds]; destruct (Connect _) as [[e o]|c]; cbn [run dialled snd s_net set_dials]; try done;
    by rewrite Hk.
Qed.

Lemma onDbg_net {A} c (m : M dbg_error (Client D) A) s : s_net (snd (onDbg c m s)) = s_net s.
Proof. unfold onDbg. destruct (s_dbgs s !! c) as [d|]; [|done]. by destruct (m d). Qed.

Lemma attach_net i c s : s_net (snd (run (attachSession i c) s)) = s_net s.
Proof.
  unfold attachSession. cbn [run]. pose proof (onDbg_net c (Attach (ai_PID i)) s) as E1. destruct (onDbg c _ s) as [[e|u] s1]; cbn [run].
  - pose proof (onDbg_net c Close s1) as E2. destruct (onDbg c Close s1). cbn [run snd] in *. congruence.
  - pose proof (onDbg_net c (Select (ai_PID i) 1) s1) as E2. destruct (onDbg c _ s1).
    cbn [run nextSeq register snd s_net set_sessions set_heap set_seq] in *. congruence.
Qed.

(** Attaching from a state whose client is at hand. *)
Lemma attach_ok i s s0 w c m t fills late ds p agent eps :
  mirrors s w → client s = (inr c, s0) → dbg_side s0 = dbg_side s → s_mgr s0 = Some m →
  mc_DebugSerial (s_cfg s) = [] → n_dials (s_net s0) = Some (t, fills, late) :: ds → greeted p t →
  db_dials w = Some (agent, [da_reset]) :: eps → da_admits agent (ai_PID i) →
  ∃ s1 f l, run (debug_attach i) s =
      (ROut (OAttach (MkAttachOut (sessionId (s_seq s + 1)) (ai_PID i) [])), s1) ∧
    mirrors s1 (db_enter (ai_PID i) l (snd (db_dial w))) ∧ resting agent l ∧
    s_net s1 = MkNetwork ds (n_used (s_net s0) ++ [f]) ∧
    last (t_tx (f_conn f)) =
      Some (spawnLine pf_fmt m (if ai_DebugPort i =? 0 then mc_DebugPort (s_cfg s) else ai_DebugPort i) ++ [x0a]).
Proof.
  intros M Ec Es Em Hser Hd Hg Hdial Hadm. pose proof (mirrors_side _ _ _ Es M) as M0.
  assert (s_cfg s0 = s_cfg s) as Ecfg by (by injection Es).
  set (port := if ai_DebugPort i =? 0 then mc_DebugPort (s_cfg s) else ai_DebugPort i).
  destruct (SpawnPdebug_sent pf_fmt m port (s_net s0) ds t fills late p Hd Hg) as (f & Esp & _ & Hf & _).
  set (s2 := set_net (MkNetwork ds (n_used (s_net s0) ++ [f])) s0).
  assert (mirrors s2 w) as M2 by (by apply (mirrors_side s0)).
  destruct (spec_attach_accepted i w agent eps Hdial) as (l & Hl & Espec); [|done|].
  { destruct M as [_ _ _ Hr _]. rewrite Hdial in Hr. apply Forall_cons in Hr as [Hr _]. by apply (Hr (agent, [da_reset])). }
  assert (run (debug_attach i) s = run (PStep _ (connectDbg Connect) (dialled (attachSession i))) s2) as Erun.
  { unfold debug_attach, cli. cbn [run]. rewrite Ec. unfold dialPdebug. cbn [run].
    rewrite Ecfg, decide_False by (rewrite Hser; by intros []). cbn [run]. rewrite Em. cbn [run].
    unfold onNet. fold port. by rewrite Esp. }
  pose proof (connect_net (attachSession i) s2 (attach_net i)) as Enet.
  pose proof (sim_connect _ _ s2 w (opens_attach i) M2) as Hs. rewrite Espec in Hs.
  rewrite Erun. destruct (run _ s2) as [r s1]. destruct Hs as [-> M1]. cbn [fst snd] in *.
  exists s1, f, l. rewrite (mir_seq s w M). by split_and!.
Qed.
End attach.

(** The message-level read of a session at rest. *)
Lemma ReadMemory_resting {D} `{ReadableTarget D} (l : session D) addr n :
  idle l → 0 <= n →
  ∃ l', ReadMemory addr n l = (inr (mem_range (rt_mem (s_peer l)) addr n, None), l') ∧
    idle l' ∧ s_peer l' = s_peer l.
Proof.
  intros Hl Hn. pose proof (chunks_nonneg n Hn).
  destruct (ReadMemory_loop_exact (Z.to_nat (n / maxChunk) + 2) addr n 0 l) as (l' & E & Hi & Hp & _);
    [done|lia|rewrite Z.sub_0_r; lia|lia|].
  exists l'. split; [|done]. exact E.
Qed.

(** C8: Attaching works, end to end. Over any qconn daemon with a launcher and
    any agent that admits a debugger to the process, a fresh server asked to
    attach to it succeeds with the session id dbg-1; the last connection it made to
    qconn sent the command that starts the agent on the port of the request, or
    the configured one, as its last line; and [qconn_debug_read_memory] with
    that id then returns, in hex, exactly the bytes of the agent's memory. *)
Theorem attach_then_read {P D} `{LauncherDaemon P} `{DebugAgent D} `{Platform} cfg (net : network P)
    t0 fills0 late0 t fills late ds p0 p agent eps pid port addr n :
  mc_DebugSerial cfg = [] →
  n_dials net = Some (t0, fills0, late0) :: Some (t, fills, late) :: ds → greeted p0 t0 → greeted p t →
  tgt_ready agent → da_admits agent pid → Forall (λ d, ∀ e, d = Some e → tgt_ready (fst e)) eps → 0 <= n →
  let dials := fmap (M := option) wire_of <$> Some (agent, [da_reset]) :: eps in
  ∃ s1 s2 f,
    run (debug_attach (MkAttachIn pid port)) (New cfg net dials) =
      (ROut (OAttach (MkAttachOut (str "dbg-1") pid [])), s1) ∧
    s_net s1 = MkNetwork ds (n_used net ++ [f]) ∧
    last (t_tx (f_conn f)) = Some (startLine (
      Sprintf pf_fmt (if decide (mc_PdebugCmd cfg = []) then defaultPdebugCmd else mc_PdebugCmd cfg)
        (if port =? 0 then if mc_DebugPort cfg =? 0 then 8001 else mc_DebugPort cfg else port) ++
      str " >/dev/null 2>&1 & echo $!") ++ [x0a]) ∧
    run (debug_read_memory (MkDbgMemReadIn (str "dbg-1") addr n)) s1 =
      (ROut (OHex (MkDbgReadMemOut (hex_of_bytes (mem_range (rt_mem agent) addr n)))), s2).
Proof.
  intros Hser Hd Hg0 Hg Hr Hadm Heps Hn dials.
  destruct (represents_New (P := P) cfg net (Some (agent, [da_reset]) :: eps)) as [[rs I] M].
  { constructor; [|done]. by intros e [= <-]. }
  fold dials in I, M. set (w := Debugger _ ∅ 0 _) in M.
  destruct (client_dials cfg net dials t0 fills0 late0 _ p0 Hd Hg0) as (c & s0 & Ec & Es & Enet & Em).
  assert (n_dials (s_net s0) = Some (t, fills, late) :: ds) as Hd0 by (by rewrite Enet).
  destruct (attach_ok (MkAttachIn pid port) _ s0 w c _ t fills late ds p agent eps M Ec Es Em Hser Hd0 Hg eq_refl Hadm)
    as (s1 & f & l & Er & M1 & (Hl & Hm & _) & En & Hf).
  destruct (handler_inv (CDebugAttach (MkAttachIn pid port)) (New cfg net dials) rs I) as [rs1 I1].
  cbn [handler] in I1. rewrite Er in I1. cbn [snd] in I1.
  destruct (sim_session (CDebugReadMemory (MkDbgMemReadIn (str "dbg-1") addr n)) _ s1 rs1 _ eq_refl I1 M1)
    as [Eout _].
  exists s1, (snd (run (debug_read_memory (MkDbgMemReadIn (str "dbg-1") addr n)) s1)), f.
  split; [exact Er|]. split; [by rewrite En, Enet|]. split; [exact Hf|].
  rewrite (surjective_pairing (run _ s1)). f_equal. cbn [handler] in Eout. rewrite Eout.
  destruct (ReadMemory_resting l addr n Hl Hn) as (l' & El & _).
  unfold on_link. cbn [dri_SessionID dri_Addr dri_Length db_enter db_sessions].
  change (sessionId (db_seq (snd (db_dial w)) + 1)) with (str "dbg-1"). rewrite lookup_insert_eq.
  cbn [ds_link ds_pid]. rewrite (orError_ok _ _ _ _ El). by rewrite Hm.
Qed.

(** The mock agent admits a debugger to every process. *)
#[export, refine] Instance mock_agent : DebugAgent mock := { da_reset := [x00]; da_admits _ _ := True }.
Proof.
  - intros m _. by exists m.
  - intros m cmd mid body Hr Hw.
    destruct Hw; eexists _, _, _; (split; [reflexivity|by split]).
Defined.

Lemma mock_init_ready : tgt_ready mock_init.
Proof. by split. Qed.

Lemma mock_admits pid : da_admits mock_init pid.
Proof. exact I. Qed.

Lemma attach_then_read_witness :
  ∃ s1 s2 f,
    run (debug_attach (MkAttachIn 4242 0)) (New mockConfig (mockNet 2)
        (fmap (M := option) wire_of <$> [Some (mock_init, [[x00]])])) =
      (ROut (OAttach (MkAttachOut (str "dbg-1") 4242 [])), s1) ∧
    s_net s1 = MkNetwork [] [f] ∧
    last (t_tx (f_conn f)) = Some (startLine
      (str "on -d pdebug 8001 </dev/null >/dev/null 2>&1 >/dev/null 2>&1 & echo $!") ++ [x0a]) ∧
    run (debug_read_memory (MkDbgMemReadIn (str "dbg-1") 0x10fe 4)) s1 =
      (ROut (OHex (MkDbgReadMemOut (str "feff0001"))), s2).
Proof.
  destruct (attach_then_read mockConfig (mockNet 2) mockStream (replicate 300 0%nat) 0
    mockStream (replicate 300 0%nat) 0 [] Serve_init Serve_init mock_init [] 4242 0 0x10fe 4
    eq_refl eq_refl mockStream_greeted mockStream_greeted mock_init_ready (mock_admits 4242) (Forall_nil_2 _) ltac:(lia))
    as (s1 & s2 & f & E1 & E2 & E3 & E4).
  exists s1, s2, f. split; [exact E1|]. split; [exact E2|]. split.
  - rewrite E3. reflexivity.
  - rewrite E4. reflexivity.
Defined.

(** ** The specification on the mock *)

Definition mockRequests : list call :=
  [CDebugAttach (MkAttachIn 77 0); CDebugBreakSet (MkBreakIn (str "dbg-1") 0x4010);
   CDebugContinue (MkSessionIn (str "dbg-1")); CDebugDetach (MkSessionIn (str "dbg-1"));
   CDebugContinue (MkSessionIn (str "dbg-1"))].

Definition mockEndpoints : list (option (endpoint mock)) := [Some (mock_init, [[x00]])].

Lemma debug_tools_refine_witness :
  let '(rs, s) := serve mockRequests
    (New mockConfig (mockNet 3) (fmap (M := option) wire_of <$> mockEndpoints)) in
  rs !! 3%nat = Some (ROut done_ok) ∧ rs !! 4%nat = Some (RErr (TUnknownSession (str "dbg-1"))) ∧
  ∃ w, debugger_run mockRequests rs
    (Debugger (bool_decide (mc_DebugSerial mockConfig ≠ [])) ∅ 0 mockEndpoints) w ∧ represents s w.
Proof.
  set (s0 := New mockConfig (mockNet 3) _).
  assert (fst (serve mockRequests s0) !! 3%nat = Some (ROut done_ok)) as E3 by (by vm_compute).
  assert (fst (serve mockRequests s0) !! 4%nat = Some (RErr (TUnknownSession (str "dbg-1")))) as E4
    by (by vm_compute).
  pose proof (debug_tools_refine mockConfig (mockNet 3) mockEndpoints mockRequests) as Href. fold s0 in Href.
  destruct (serve mockRequests s0) as [rs s]. split; [exact E3|]. split; [exact E4|].
  apply Href. constructor; [|constructor]. intros e [= <-]. exact mock_init_ready.
Defined.

(** ** The debug port of the mock daemon *)

(** The debug tools cannot attach through the mock daemon. What the mock
    daemon starts when it is asked to run [pdebug] is the RSP stub; the debug
    tools speak DSMSG and wait for the agent's reset frame, which the stub never
    sends, so every attach to it ends with the handshake error, for every
    process, port and configuration without a serial line. *)
Theorem mock_stub_no_attach {P} `{LauncherDaemon P} `{Platform} cfg (net : network P)
    t0 fills0 late0 t fills late ds p0 p pid port :
  mc_DebugSerial cfg = [] →
  n_dials net = Some (t0, fills0, late0) :: Some (t, fills, late) :: ds → greeted p0 t0 → greeted p t →
  fst (run (debug_attach (MkAttachIn pid port)) (New cfg net [Some (stubStream (MkMockRsp [] false))])) =
    RErr (TPdebug (CHandshake (EHandshake HsReset EIO))).
Proof.
  intros Hser Hd Hg0 Hg. set (dials := [Some (stubStream (MkMockRsp [] false))]).
  destruct (client_dials cfg net dials t0 fills0 late0 _ p0 Hd Hg0) as (c & s0 & Ec & Es & Enet & Em).
  injection Es as Ecfg _ _ _ _ Edials.
  unfold debug_attach, cli. cbn [run]. rewrite Ec. unfold dialPdebug. cbn [run ai_DebugPort].
  rewrite Ecfg, decide_False by (cbn [New s_cfg withDefaults mc_DebugSerial]; rewrite Hser; by intros []).
  cbn [run]. rewrite Em. cbn [run]. unfold onNet.
  match goal with |- context [SpawnPdebug pf_fmt ?m ?port] =>
    destruct (SpawnPdebug_sent pf_fmt m port (s_net s0) ds t fills late p) as (f & Esp & _);
      [by rewrite Enet|done|] end.
  rewrite Esp. cbn [run]. unfold connectDbg, nextDial. cbn [set_net s_dials]. rewrite Edials. reflexivity.
Qed.

Lemma mock_stub_no_attach_witness :
  fst (run (debug_attach (MkAttachIn 8200 18001)) (New mockConfig (mockNet 2) [Some (stubStream (MkMockRsp [] false))])) =
    RErr (TPdebug (CHandshake (EHandshake HsReset EIO))).
Proof.
  apply (mock_stub_no_attach mockConfig (mockNet 2) mockStream (replicate 300 0%nat) 0
    mockStream (replicate 300 0%nat) 0 [] Serve_init Serve_init 8200 18001 eq_refl eq_refl
    mockStream_greeted mockStream_greeted).
Defined.
