(* ===== verification/QconnMcp.v ===== *)
(** * The program

    [cmd/qconn-mcp/main.go] and [Handler] of [internal/mcpserver/server.go]:
    the configuration is loaded, handed to the logger and the server, and HTTP
    requests are routed to the tools behind the bearer token. The program that
    results is a step relation: requests that arrive and return, the steps of
    the tools they run, and the way from a signal to the exit. *)

From stdpp Require Import base list numbers strings gmap relations.
From Stdlib Require Import ZArith Lia Strings.Byte.
From S2P Require Import Prelude GoStrconv GoStrings GoFlag Config Obs Transport DsmsgClient DsmsgClosed MockDsmsg QconnFraming MockServer.
From S2P Require Import McpText McpTypes McpServer McpSessions McpFacts.
From S2P Require QconnClient QconnExec.

Local Open Scope Z_scope.

Definition serverConfig (c : Config) : mcpConfig := {|
  mc_QconnHost := QconnHost c;
  mc_QconnPort := QconnPort c;
  mc_Timeout := Timeout c;
  mc_BindAddr := BindAddr c;
  mc_Path := Path c;
  mc_Token := Token c;
  mc_DebugPort := DebugPort c;
  mc_PdebugCmd := PdebugCmd c;
  mc_DebugSerial := DebugSerial c;
  mc_DebugBaud := DebugBaud c
|}.

Section main.
Context {P D : Type}.
Variable getenv : list byte → list byte.
Variable readFile : list byte → option (list byte).
Variable yamlUnmarshal : list byte → Config → Config * bool.
Variable parseDuration : list byte → Z * bool.

(** The exit code when the configuration does not load, or the configuration,
    the logger and the server that are built. *)
Definition start (args : list (list byte)) (net : QconnExec.network P) (dials : list (option (transport D)))
  : Z + Config * logger * Server P D :=
  match Load getenv readFile yamlUnmarshal parseDuration args with
  | (_, Some _) => inl 2
  | (cfg, None) =>
      inr (cfg, Setup (MkOptions (LogLevel cfg) (LogFormat cfg) (Config.Trace cfg)), New (serverConfig cfg) net dials)
  end.
End main.

(** ** Routing *)

(** A pattern of [http.ServeMux], with no method, host, wildcard or escape in
    it, and the path of a request, cleaned: a pattern that ends in a slash
    stands for the subtree. *)
Definition muxMatch (path pat : list byte) : bool :=
  if decide (last pat = Some x2f) then HasPrefix path pat else bool_decide (path = pat).

Inductive response := RespOK | RespMcp | RespUnauthorized | RespNotFound.

(** The patterns registered by [Handler], with what they lead to; the longest
    that matches is taken. *)
Definition patterns (path : list byte) : list (list byte * bool) :=
  [(str "/healthz", false); (path, true); (path ++ str "/", true)].

Fixpoint longest (best : option (list byte * bool)) (ps : list (list byte * bool)) : option (list byte * bool) :=
  match ps with
  | [] => best
  | p :: ps =>
      longest (match best with
               | Some q => if decide (length (fst q) < length (fst p))%nat then Some p else best
               | None => Some p
               end) ps
  end.

Definition Handler (cfg : mcpConfig) (path authorization : list byte) : response :=
  match longest None (filter (λ p, muxMatch path (fst p) = true) (patterns (mc_Path cfg))) with
  | None => RespNotFound
  | Some (_, false) => RespOK
  | Some (_, true) => if withAuth (mc_Token cfg) authorization then RespMcp else RespUnauthorized
  end.

Lemma withAuth_token token authorization :
  token ≠ [] → withAuth token authorization = true → authorization = str "Bearer " ++ token.
Proof.
  intros Ht. unfold withAuth. rewrite decide_False by done.
  by rewrite bool_decide_eq_true, ConstantTimeCompare_eq.
Qed.

Lemma Handler_token cfg path authorization :
  mc_Token cfg ≠ [] → Handler cfg path authorization = RespMcp → authorization = str "Bearer " ++ mc_Token cfg.
Proof.
  intros Ht. unfold Handler. destruct (longest _ _) as [[p []]|]; [|done..].
  destruct (withAuth _ authorization) eqn:Ea; [|done]. intros _. by apply withAuth_token.
Qed.

(** The token given on the command line is the one that is enforced. When
    the last [-token] flag names a token, whatever the file and the environment
    say, the server is built, a request reaches the tools only with exactly
    this token as its bearer, and with it is never refused; and the server has
    no connection and no session yet. *)
Theorem command_line_token {P D} getenv readFile yamlUnmarshal parseDuration ca (as_ : list setting) base
    token (net : QconnExec.network P) (dials : list (option (transport D))) :
  Forall (validSetting parseDuration) as_ →
  fileConfig readFile yamlUnmarshal
    (match ca with Some (_, path) => path | None => getenv (str "QCONN_CONFIG") end) = (base, None) →
  lastSetting FToken as_ = Some (VS token) → token ≠ [] →
  ∃ cfg lg s, start getenv readFile yamlUnmarshal parseDuration (configArgs ca ++ flagArgs as_) net dials =
      inr (cfg, lg, s) ∧
    s_conn s = None ∧ s_sessions s = ∅ ∧ s_seq s = 0 ∧
    (∀ path authorization, Handler (s_cfg s) path authorization = RespMcp →
       authorization = str "Bearer " ++ token) ∧
    (∀ path, Handler (s_cfg s) path (str "Bearer " ++ token) ≠ RespUnauthorized).
Proof.
  intros Has Hfile Htok Hne.
  destruct (Load_fields getenv readFile yamlUnmarshal parseDuration ca as_ base Has Hfile) as (cfg & E & Hf).
  assert (Token cfg = token) as Et.
  { specialize (Hf FToken). rewrite Htok in Hf. by injection Hf. }
  unfold start. rewrite E. eexists _, _, _. split; [done|]. split_and!; [done..| |].
  - intros path auth Hh. apply Handler_token in Hh; cbn in *; by rewrite ?Et in *.
  - intros path. unfold Handler. cbn [New s_cfg withDefaults serverConfig mc_Token]. rewrite Et.
    destruct (longest _ _) as [[p []]|]; [|done..].
    assert (withAuth token (str "Bearer " ++ token) = true) as ->; [|done].
    unfold withAuth. rewrite decide_False by done. by apply bool_decide_eq_true, ConstantTimeCompare_eq.
Qed.

Lemma command_line_token_witness :
  ∃ cfg lg (s : Server () ()), start (λ v, if decide (v = str "MCP_TOKEN") then str "env" else []) (λ _, None) (λ _ c, (c, true))
      (λ _, (0, false)) [str "-token"; str "s3cret"] (QconnExec.MkNetwork [] []) [] = inr (cfg, lg, s) ∧
    Handler (s_cfg s) (str "/mcp") (str "Bearer s3cret") = RespMcp ∧
    Handler (s_cfg s) (str "/mcp") (str "Bearer env") ≠ RespMcp ∧
    Handler (s_cfg s) (str "/healthz") [] = RespOK.
Proof.
  destruct (command_line_token (P := ()) (D := ()) (λ v, if decide (v = str "MCP_TOKEN") then str "env" else [])
    (λ _, None) (λ _ c, (c, true)) (λ _, (0, false)) None
    [MkSetting FToken Separate (str "s3cret") (VS (str "s3cret"))] Default (str "s3cret")
    (QconnExec.MkNetwork [] []) []) as (cfg & lg & s & E & _ & _ & _ & Hauth & _); [by repeat constructor|done|done|done|].
  exists cfg, lg, s. split; [exact E|].
  assert (start (λ v, if decide (v = str "MCP_TOKEN") then str "env" else []) (λ _, None) (λ _ c, (c, true))
    (λ _, (0, false)) [str "-token"; str "s3cret"] (QconnExec.MkNetwork [] []) [] = inr (cfg, lg, s)) as E' by exact E.
  vm_compute in E'. injection E' as <- <- <-. split_and!; [by vm_compute| |by vm_compute].
  intros Hr. by apply Hauth in Hr.
Defined.

(** ** The running program *)

(** What the handlers see of an HTTP request; [rq_call] is the tool call it
    carries, which the MCP library reads from its body, if it carries one. *)
Record request := MkRequest {
  rq_Method : list byte;
  rq_Path : list byte;
  rq_RemoteAddr : list byte;
  rq_Authorization : list byte;
  rq_call : option call
}.

(** The patterns that [mux.Handle] refuses by a panic: one without a slash,
    and one registered before. *)
Definition mountable (path : list byte) : bool :=
  bool_decide (x2f ∈ path) && negb (bool_decide (path = str "/healthz")).

Definition showBool (b : bool) : list byte := if b then str "true" else str "false".

Definition startEntry (cfg : Config) : list Attr :=
  [MkAttr (str "target") (QconnHost cfg); MkAttr (str "qconn_port") (fmt_d (QconnPort cfg));
   MkAttr (str "bind") (BindAddr cfg); MkAttr (str "path") (Path cfg);
   MkAttr (str "trace") (showBool (Config.Trace cfg))].

(** The logger of the server: [cfg.Logger.With("component", "mcp")]. *)
Definition mcpLog (lg : logger) (lv : Level) (msg : list byte) (as_ : list Attr) : list entry :=
  Log lg lv msg (MkAttr (str "component") (str "mcp") :: as_).

(** [withLogging]: before the request is served, and after [dur]. *)
Definition requestEntry (lg : logger) (rq : request) : list entry :=
  mcpLog lg LevelDebug (str "http request")
    [MkAttr (str "method") (rq_Method rq); MkAttr (str "path") (rq_Path rq); MkAttr (str "remote") (rq_RemoteAddr rq)].

Definition doneEntry (lg : logger) (rq : request) (dur : list byte) : list entry :=
  mcpLog lg LevelDebug (str "http done") [MkAttr (str "path") (rq_Path rq); MkAttr (str "dur") dur].

Definition unauthorizedEntry (lg : logger) (rq : request) : list entry :=
  mcpLog lg LevelWarn (str "unauthorized request") [MkAttr (str "remote") (rq_RemoteAddr rq)].

Section program.
Context {P D : Type} `{QPeer P} `{Peer D} `{Platform}.

(** A request that reached the tools, what is left of its tool, and whether
    its response has been sent. *)
Record flight := MkFlight { ft_req : request; ft_proc : proc (P := P) (D := D); ft_returned : bool }.

Inductive status :=
  | Serving                                      (* waiting for a signal *)
  | Stopping                                     (* a signal came *)
  | Draining                                     (* in [Shutdown]: nothing is accepted any more *)
  | Closing (p : proc (P := P) (D := D))         (* what is left of the deferred [Close] *)
  | Exited (code : Z).

Record program := MkProgram {
  pg_cfg : Config;
  pg_logger : logger;
  pg_entries : list entry;
  pg_server : Server P D;
  pg_flights : list flight;
  pg_listening : bool;
  pg_status : status
}.

Definition note (es : list entry) (pg : program) : program :=
  MkProgram (pg_cfg pg) (pg_logger pg) (pg_entries pg ++ es) (pg_server pg) (pg_flights pg) (pg_listening pg) (pg_status pg).
Definition set_server (s : Server P D) (pg : program) : program :=
  MkProgram (pg_cfg pg) (pg_logger pg) (pg_entries pg) s (pg_flights pg) (pg_listening pg) (pg_status pg).
Definition set_flights (fs : list flight) (pg : program) : program :=
  MkProgram (pg_cfg pg) (pg_logger pg) (pg_entries pg) (pg_server pg) fs (pg_listening pg) (pg_status pg).
Definition set_status (st : status) (pg : program) : program :=
  MkProgram (pg_cfg pg) (pg_logger pg) (pg_entries pg) (pg_server pg) (pg_flights pg) (pg_listening pg) st.
Definition set_listening (pg : program) : program :=
  MkProgram (pg_cfg pg) (pg_logger pg) (pg_entries pg) (pg_server pg) (pg_flights pg) true (pg_status pg).

(** [withLogging] around the routes: a tool call is put in flight, everything
    else is answered at once. *)
Definition ServeHTTP (rq : request) (dur : list byte) (pg : program) : program :=
  let lg := pg_logger pg in
  let pg := note (requestEntry lg rq) pg in
  match Handler (s_cfg (pg_server pg)) (rq_Path rq) (rq_Authorization rq) with
  | RespMcp =>
      match rq_call rq with
      | Some c => set_flights (pg_flights pg ++ [MkFlight rq (handler c) false]) pg
      | None => note (doneEntry lg rq dur) pg
      end
  | RespUnauthorized => note (unauthorizedEntry lg rq ++ doneEntry lg rq dur) pg
  | RespOK | RespNotFound => note (doneEntry lg rq dur) pg
  end.

Definition exited (st : status) : bool := match st with Exited _ => true | _ => false end.
Definition accepting (st : status) : bool := match st with Serving | Stopping => true | _ => false end.

Inductive program_step : program → program → Prop :=
  | pg_listen pg :                                      (* the goroutine of [ListenAndServe] starts *)
      exited (pg_status pg) = false → pg_listening pg = false →
      program_step pg (set_listening (note (Log (pg_logger pg) LevelInfo (str "MCP Streamable HTTP listening")
        [MkAttr (str "url") (str "http://" ++ BindAddr (pg_cfg pg) ++ Path (pg_cfg pg))]) pg))
  | pg_request pg rq dur :
      accepting (pg_status pg) = true → pg_listening pg = true → rq_call rq ≠ Some CClose →
      program_step pg (ServeHTTP rq dur pg)
  | pg_tool pg i f p s :                                (* a tool takes a step *)
      exited (pg_status pg) = false → pg_flights pg !! i = Some f →
      stepProc (ft_proc f) (pg_server pg) = Some (p, s) →
      program_step pg (set_server s (set_flights (<[i := MkFlight (ft_req f) p (ft_returned f)]> (pg_flights pg)) pg))
  | pg_return pg i f dur :                              (* the tool is done, or its client is gone *)
      exited (pg_status pg) = false → pg_flights pg !! i = Some f → ft_returned f = false →
      program_step pg (note (doneEntry (pg_logger pg) (ft_req f) dur)
        (set_flights (<[i := MkFlight (ft_req f) (ft_proc f) true]> (pg_flights pg)) pg))
  | pg_signal pg :                                      (* SIGINT or SIGTERM *)
      pg_status pg = Serving →
      program_step pg (set_status Stopping (note (Log (pg_logger pg) LevelInfo (str "shutting down") []) pg))
  | pg_shutdown pg : pg_status pg = Stopping → program_step pg (set_status Draining pg)
  | pg_drained pg :                                     (* all have returned, or five seconds have passed *)
      pg_status pg = Draining → program_step pg (set_status (Closing closeServer) pg)
  | pg_close pg p p' s :
      pg_status pg = Closing p → stepProc p (pg_server pg) = Some (p', s) →
      program_step pg (set_server s (set_status (Closing p') pg))
  | pg_exit pg r : pg_status pg = Closing (PDone r) → program_step pg (set_status (Exited 0) pg)
  | pg_fail pg err :                                    (* [os.Exit] runs no deferred call *)
      accepting (pg_status pg) = true → pg_listening pg = true →
      program_step pg (set_status (Exited 1)
        (note (Log (pg_logger pg) LevelError (str "http server failed") [MkAttr (str "err") err]) pg)).

(** [main]: the exit code when the configuration does not load or the panic of
    [Handler] ends it, or the program that runs. *)
Definition main getenv readFile yamlUnmarshal parseDuration (args : list (list byte))
    (net : QconnExec.network P) (dials : list (option (transport D))) : Z + program :=
  match start getenv readFile yamlUnmarshal parseDuration args net dials with
  | inl code => inl code
  | inr (cfg, lg, srv) =>
      if mountable (mc_Path (s_cfg srv))
      then inr (MkProgram cfg lg (Log lg LevelInfo (str "starting qconn-mcp") (startEntry cfg)) srv [] false Serving)
      else inl 2
  end.
End program.
Arguments program : clear implicits.

(** *** What holds while it runs *)

Section running.
Context {P D : Type} `{QPeer P} `{Peer D} `{Platform}.
Implicit Types pg : program P D.

Definition finished (p : proc (P := P) (D := D)) : Prop := ∃ r, p = PDone r.

(** The configuration is that of the start; the requests in flight got past
    the token; no connection to the daemon is open but that in use; until [Close] starts the tools have left the server in a state
    they can reach. *)
Record running cfg net dials pg : Prop := {
  rn_pg : pg_cfg pg = cfg;
  rn_cfg : s_cfg (pg_server pg) = s_cfg (New (P := P) (D := D) (serverConfig cfg) net dials);
  rn_flights f : f ∈ pg_flights pg →
    made (ft_proc f) ∧ Handler (s_cfg (pg_server pg)) (rq_Path (ft_req f)) (rq_Authorization (ft_req f)) = RespMcp;
  rn_close p : pg_status pg = Closing p → made p;
  rn_qconn : qinv (QconnExec.n_used net) (pg_server pg);
  rn_reach : match pg_status pg with
    | Serving | Stopping | Draining => reachable (serverConfig cfg) net dials (pg_server pg, ft_proc <$> pg_flights pg)
    | _ => True
    end
}.

Lemma main_running getenv readFile yamlUnmarshal parseDuration args net dials pg :
  main getenv readFile yamlUnmarshal parseDuration args net dials = inr pg →
  running (pg_cfg pg) net dials pg ∧ pg_status pg = Serving ∧ pg_flights pg = [] ∧ pg_server pg = New (serverConfig (pg_cfg pg)) net dials.
Proof.
  unfold main, start. destruct (Load _ _ _ _ _) as [cfg [e|]]; [done|].
  destruct (mountable _); [|done]. intros [= <-]. split; [|done]. split; try done; simpl; [by intros f ?%elem_of_nil|apply qinv_New|].
  apply rtc_refl.
Qed.

Lemma ServeHTTP_keeps rq dur pg :
  pg_cfg (ServeHTTP rq dur pg) = pg_cfg pg ∧ pg_server (ServeHTTP rq dur pg) = pg_server pg ∧
  pg_status (ServeHTTP rq dur pg) = pg_status pg.
Proof. unfold ServeHTTP. destruct (Handler _ _ _), (rq_call rq); done. Qed.

Lemma ServeHTTP_flights rq dur pg :
  pg_flights (ServeHTTP rq dur pg) = pg_flights pg ∨
  ∃ c, rq_call rq = Some c ∧ Handler (s_cfg (pg_server pg)) (rq_Path rq) (rq_Authorization rq) = RespMcp ∧
    pg_flights (ServeHTTP rq dur pg) = pg_flights pg ++ [MkFlight rq (handler c) false].
Proof.
  unfold ServeHTTP. change (pg_server (note _ pg)) with (pg_server pg).
  destruct (Handler _ _ _); [by left| |by left..]. destruct (rq_call rq) as [c|]; [right; by exists c|by left].
Qed.

Lemma step_running cfg net dials pg pg' :
  program_step pg pg' → running cfg net dials pg → running cfg net dials pg'.
Proof.
  intros Hs [Hpg Hc Hf Hcl Hqi Hr].
  destruct Hs as [pg He Hl|pg rq dur Ha Hl Hq|pg i f p s He Hi Hst|pg i f dur He Hi Hn|pg He|pg He|pg He
    |pg p p' s He Hst|pg r He|pg err Ha Hl].
  - by split.
  - destruct (ServeHTTP_keeps rq dur pg) as (E1 & E2 & E3).
    destruct (ServeHTTP_flights rq dur pg) as [Ef|(c & Hcall & Hh & Ef)]; split; rewrite ?E1, ?E2, ?E3, ?Ef; try done.
    + intros f [Hin| ->%list_elem_of_singleton]%elem_of_app; [by apply Hf|]. split; [apply handler_made|done].
    + destruct (pg_status pg); try done; rewrite fmap_app; simpl; (eapply rtc_r; [exact Hr|constructor]).
  - destruct (Hf f) as [Hm Hh]; [by eapply list_elem_of_lookup_2|].
    destruct (made_step_inv _ _ _ _ Hm Hst) as (Hm' & Ec & Hqs). split; simpl; rewrite ?Ec; auto; try done.
    + intros f' [j Hj]%list_elem_of_lookup. apply list_lookup_insert_Some in Hj as [(<- & <- & _)|[_ Hj]]; [done|].
      apply Hf. by eapply list_elem_of_lookup_2.
    + destruct (pg_status pg); try done; rewrite list_fmap_insert; simpl;
        (eapply rtc_r; [exact Hr|]; eapply step_run; [|exact Hst]; by rewrite list_lookup_fmap, Hi).
  - destruct (Hf f) as [Hm Hh]; [by eapply list_elem_of_lookup_2|]. split; simpl; try done.
    + intros f' [j Hj]%list_elem_of_lookup. apply list_lookup_insert_Some in Hj as [(<- & <- & _)|[_ Hj]]; [done|].
      apply Hf. by eapply list_elem_of_lookup_2.
    + rewrite list_fmap_insert. simpl. rewrite list_insert_id; [done|]. by rewrite list_lookup_fmap, Hi.
  - rewrite He in Hr. by split.
  - rewrite He in Hr. by split.
  - split; try done. simpl. intros p [= <-]. apply (handler_made CClose).
  - destruct (made_step_inv _ _ _ _ (Hcl p He) Hst) as (Hm' & Ec & Hqs). split; simpl; rewrite ?Ec; auto; try done.
    by intros ? [= <-].
  - by split.
  - by split.
Qed.

Lemma steps_running cfg net dials pg pg' :
  rtc program_step pg pg' → running cfg net dials pg → running cfg net dials pg'.
Proof. induction 1; eauto using step_running. Qed.
End running.

(** *** From a signal to the exit *)

Section stopping.
Context {P D : Type} `{QPeer P} `{Peer D} `{Platform}.
Implicit Types pg : program P D.

(** Where the program is, between [Shutdown] and the exit, when the tools are
    done and the server was [s0]. *)
Definition stopping (s0 : Server P D) pg : Prop :=
  (∀ f, f ∈ pg_flights pg → finished (ft_proc f)) ∧
  match pg_status pg with
  | Draining => pg_server pg = s0
  | Closing p => run p (pg_server pg) = run closeServer s0
  | Exited code => code = 0 ∧ pg_server pg = snd (run closeServer s0)
  | _ => False
  end.

Lemma step_stopping s0 pg pg' : program_step pg pg' → stopping s0 pg → stopping s0 pg'.
Proof.
  intros Hs [Hf Hst].
  destruct Hs as [pg He Hl|pg rq dur Ha Hl Hq|pg i f p s He Hi Hs|pg i f dur He Hi Hn|pg He|pg He|pg He
    |pg p p' s He Hs|pg r He|pg err Ha Hl].
  - by split.
  - by destruct (pg_status pg).
  - destruct (Hf f) as [r Er]; [by eapply list_elem_of_lookup_2|]. by rewrite Er in Hs.
  - split; [|done]. simpl. intros f' [j Hj]%list_elem_of_lookup.
    apply list_lookup_insert_Some in Hj as [(<- & <- & _)|[_ Hj]]; [apply (Hf f)|apply Hf]; by eapply list_elem_of_lookup_2.
  - by rewrite He in Hst.
  - by rewrite He in Hst.
  - rewrite He in Hst. split; [done|]. simpl. by rewrite Hst.
  - rewrite He in Hst. split; [done|]. simpl. destruct p as [r|A m k]; [done|].
    cbn [stepProc run] in *. destruct (m (pg_server pg)) as [a s1]. injection Hs as <- <-. exact Hst.
  - rewrite He in Hst. split; [done|]. split; [done|]. exact (f_equal snd Hst).
  - by destruct (pg_status pg).
Qed.

Lemma steps_stopping s0 pg pg' : rtc program_step pg pg' → stopping s0 pg → stopping s0 pg'.
Proof. induction 1; eauto using step_stopping. Qed.

Lemma drained_released cfg net dials pg pg' code :
  running cfg net dials pg → pg_status pg = Draining → (∀ f, f ∈ pg_flights pg → finished (ft_proc f)) →
  rtc program_step pg pg' → pg_status pg' = Exited code →
  code = 0 ∧ released (QconnExec.n_used net) (pg_server pg').
Proof.
  intros [_ _ _ _ Hq Hr] Hd Hf Hs He. rewrite Hd in Hr.
  assert (stopping (pg_server pg) pg) as Hst by (split; [done|by rewrite Hd]).
  apply (steps_stopping _ _ _ Hs) in Hst as [_ Hst]. rewrite He in Hst. destruct Hst as [-> ->].
  apply reachable_inv in Hr as (rs & Hfo & I).
  split; [done|]. apply (closeServer_releases _ (pg_server pg) rs I); [|done].
  intros i r' Hi. destruct (Forall2_lookup_l _ _ _ _ _ Hfo Hi) as (p & Hp & Hfp).
  apply list_lookup_fmap_Some in Hp as (f & -> & Hp).
  destruct (Hf f) as [x Ex]; [by eapply list_elem_of_lookup_2|]. by eapply follows_done.
Qed.

(** The tool of a request can always finish. *)
Lemma finish_flight pg i f :
  exited (pg_status pg) = false → pg_flights pg !! i = Some f →
  ∃ s r, rtc program_step pg
    (set_server s (set_flights (<[i := MkFlight (ft_req f) (PDone r) (ft_returned f)]> (pg_flights pg)) pg)).
Proof.
  destruct f as [rq p ret]. cbn [ft_req ft_returned]. revert pg.
  induction p as [r|A m k IH]; intros pg He Hi.
  { exists (pg_server pg), r. rewrite list_insert_id by done. by destruct pg. }
  destruct (m (pg_server pg)) as [a s] eqn:Em.
  set (pg1 := set_server s (set_flights (<[i := MkFlight rq (k a) ret]> (pg_flights pg)) pg)).
  destruct (IH a pg1) as (s' & r & Hr); [done|..].
  { apply list_lookup_insert_eq. by eapply lookup_lt_Some. }
  exists s', r. eapply rtc_l; [|cbn in Hr; rewrite list_insert_insert_eq in Hr; exact Hr].
  apply (pg_tool pg i _ (k a) s He Hi). cbn. by rewrite Em.
Qed.

Lemma finish_flights n pg :
  exited (pg_status pg) = false → (∀ i f, pg_flights pg !! i = Some f → (n <= i)%nat → finished (ft_proc f)) →
  ∃ pg', rtc program_step pg pg' ∧ pg_status pg' = pg_status pg ∧ ∀ f, f ∈ pg_flights pg' → finished (ft_proc f).
Proof.
  revert pg. induction n as [|n IH]; intros pg He Hn.
  { exists pg. split_and!; [done..|]. intros f [i Hi]%list_elem_of_lookup. eapply Hn; [done|lia]. }
  destruct (pg_flights pg !! n) as [f|] eqn:Hi.
  - destruct (finish_flight pg n f He Hi) as (s & r & Hr).
    edestruct (IH (set_server s (set_flights (<[n := MkFlight (ft_req f) (PDone r) (ft_returned f)]> (pg_flights pg)) pg)))
      as (pg' & Hr' & Es & Hf); [done| |exists pg'; split_and!; [by etrans|done..]].
    intros j f' Hj Hle. simpl in Hj.
    apply list_lookup_insert_Some in Hj as [(<- & <- & _)|[Hne Hj]]; [by exists r|]. apply (Hn j f' Hj). lia.
  - apply IH; [done|]. intros j f Hj Hle. apply (Hn j f Hj). destruct (decide (j = n)); [congruence|lia].
Qed.

Lemma close_runs p pg :
  pg_status pg = Closing p → ∃ pg', rtc program_step pg pg' ∧ pg_status pg' = Exited 0.
Proof.
  revert pg. induction p as [r|A m k IH]; intros pg Hp.
  { eexists. split; [by eapply rtc_once, pg_exit|done]. }
  destruct (m (pg_server pg)) as [a s] eqn:Em.
  destruct (IH a (set_server s (set_status (Closing (k a)) pg))) as (pg' & Hr & He); [done|].
  exists pg'. split; [|done]. eapply rtc_l; [|exact Hr]. eapply pg_close; [done|]. cbn. by rewrite Em.
Qed.
End stopping.

(** C16: The program shuts down cleanly. Take any run, with any requests
    interleaved in any way, up to a moment in [Shutdown] when the tools have
    finished: however it goes on, if it exits then with code 0, and everything
    is released: no session and no qconn client is left, and every connection
    opened since the start is closed. These are the connections to debug
    agents, also those given up while connecting, the connections of the qconn
    clients, also those replaced by another, the connections [Exec] opens for
    single commands, which start [pdebug] too, and those on which the qconn
    handshake failed. And it can exit: from every state in which it serves,
    whatever tools are in flight, some run ends like this. *)
Theorem main_shutdown {P D} `{QPeer P} `{Peer D} `{Platform} getenv readFile yamlUnmarshal parseDuration args
    net dials (pg0 pg : program P D) :
  main getenv readFile yamlUnmarshal parseDuration args net dials = inr pg0 → rtc program_step pg0 pg →
  (∀ pg' code, pg_status pg = Draining → (∀ f, f ∈ pg_flights pg → finished (ft_proc f)) →
     rtc program_step pg pg' → pg_status pg' = Exited code →
     code = 0 ∧ released (QconnExec.n_used net) (pg_server pg')) ∧
  (pg_status pg = Serving →
     ∃ pg', rtc program_step pg pg' ∧ pg_status pg' = Exited 0 ∧ released (QconnExec.n_used net) (pg_server pg')).
Proof.
  intros Hm Hr. apply main_running in Hm as (Hrun & _). apply (steps_running _ _ _ _ _ Hr) in Hrun.
  split; [by eauto using drained_released|]. intros Hs.
  set (pg1 := set_status Draining (set_status Stopping (note (Log (pg_logger pg) LevelInfo (str "shutting down") []) pg))).
  assert (rtc program_step pg pg1) as Hto1.
  { eapply rtc_l; [by apply pg_signal|]. by apply rtc_once, pg_shutdown. }
  destruct (finish_flights (length (pg_flights pg1)) pg1) as (pg2 & Hto2 & E2 & Hf); [done|..].
  { intros i f Hi%lookup_lt_Some. lia. }
  destruct (close_runs closeServer (set_status (Closing closeServer) pg2)) as (pg3 & Hto3 & E3); [done|].
  assert (rtc program_step pg2 pg3) as Hto23 by (eapply rtc_l; [by apply pg_drained|done]).
  exists pg3. split; [by do 2 (etrans; [eassumption|])|]. split; [done|].
  eapply (drained_released _ _ _ pg2 pg3 0); [|done..].
  eapply steps_running; [|exact Hrun]. by etrans.
Qed.

(** C17: No tool runs without the token. In every state the program can reach,
    when a token is configured every request in flight has sent exactly this
    token as its bearer; a request that has not leaves the server and the
    requests in flight as they are and, on a path where the token would have
    let it through, a warning with its address, unless only errors are logged. *)
Theorem main_token {P D} `{QPeer P} `{Peer D} `{Platform} getenv readFile yamlUnmarshal parseDuration args
    net dials (pg0 pg : program P D) :
  main getenv readFile yamlUnmarshal parseDuration args net dials = inr pg0 → rtc program_step pg0 pg →
  Token (pg_cfg pg0) ≠ [] →
  let bearer := str "Bearer " ++ Token (pg_cfg pg0) in
  (∀ f, f ∈ pg_flights pg → rq_Authorization (ft_req f) = bearer) ∧
  (∀ rq dur, rq_Authorization rq ≠ bearer →
     let pg' := ServeHTTP rq dur pg in
     pg_server pg' = pg_server pg ∧ pg_flights pg' = pg_flights pg ∧
     (Handler (s_cfg (pg_server pg)) (rq_Path rq) bearer = RespMcp → lg_level (pg_logger pg) ≠ LevelError →
      MkEntry LevelWarn (str "unauthorized request")
        [MkAttr (str "component") (str "mcp"); MkAttr (str "remote") (rq_RemoteAddr rq)] ∈ pg_entries pg')).
Proof.
  intros Hm Hr Hne bearer. apply main_running in Hm as (Hrun & _). apply (steps_running _ _ _ _ _ Hr) in Hrun.
  destruct Hrun as [_ Hc Hf _ _ _].
  assert (∀ path auth, Handler (s_cfg (pg_server pg)) path auth = RespMcp → auth = bearer) as Htok.
  { intros path auth. rewrite Hc. apply Handler_token, Hne. }
  split; [intros f Hin; by eapply Htok, Hf|]. intros rq dur Hb pg'.
  split_and!; [by apply ServeHTTP_keeps|..].
  - unfold pg'. by destruct (ServeHTTP_flights rq dur pg) as [->|(c & _ & Hh%Htok & _)].
  - intros Hh Hlv. assert (Handler (s_cfg (pg_server pg)) (rq_Path rq) (rq_Authorization rq) = RespUnauthorized) as E.
    { pose proof (Htok (rq_Path rq) (rq_Authorization rq)) as Hn. revert Hh Hn. unfold Handler.
      destruct (longest _ _) as [[p []]|]; [|done..]. destruct (withAuth _ (rq_Authorization rq)); [|done].
      intros _ Hn. by destruct Hb, Hn. }
    unfold pg', ServeHTTP. change (pg_server (note _ pg)) with (pg_server pg). rewrite E. cbn [note pg_entries].
    apply elem_of_app. right. apply elem_of_app. left. unfold unauthorizedEntry, mcpLog, Log, Enabled.
    rewrite (proj2 (Z.leb_le _ _)) by (destruct (lg_level (pg_logger pg)); done). by apply list_elem_of_singleton.
Qed.

(** *** Runs in steps *)

Inductive programEvent :=
  | EvListen | EvRequest (rq : request) | EvTool (i : nat) | EvSignal | EvShutdown | EvDrained | EvClose | EvExit.

Section replay.
Context {P D : Type} `{QPeer P} `{Peer D} `{Platform}.

(** What an event does, if it can happen. *)
Definition program_replay1 (pg : program P D) (e : programEvent) : program P D :=
  match e with
  | EvListen =>
      if exited (pg_status pg) || pg_listening pg then pg
      else set_listening (note (Log (pg_logger pg) LevelInfo (str "MCP Streamable HTTP listening")
        [MkAttr (str "url") (str "http://" ++ BindAddr (pg_cfg pg) ++ Path (pg_cfg pg))]) pg)
  | EvRequest rq =>
      if accepting (pg_status pg) && pg_listening pg && (if rq_call rq is Some CClose then false else true)
      then ServeHTTP rq (str "1ms") pg else pg
  | EvTool i =>
      match pg_flights pg !! i with
      | Some f =>
          if exited (pg_status pg) then pg
          else match stepProc (ft_proc f) (pg_server pg) with
               | Some (p, s) =>
                   set_server s (set_flights (<[i := MkFlight (ft_req f) p (ft_returned f)]> (pg_flights pg)) pg)
               | None => pg
               end
      | None => pg
      end
  | EvSignal =>
      if pg_status pg is Serving
      then set_status Stopping (note (Log (pg_logger pg) LevelInfo (str "shutting down") []) pg) else pg
  | EvShutdown => if pg_status pg is Stopping then set_status Draining pg else pg
  | EvDrained => if pg_status pg is Draining then set_status (Closing closeServer) pg else pg
  | EvClose =>
      match pg_status pg with
      | Closing p =>
          match stepProc p (pg_server pg) with
          | Some (p', s) => set_server s (set_status (Closing p') pg)
          | None => pg
          end
      | _ => pg
      end
  | EvExit => match pg_status pg with Closing (PDone _) => set_status (Exited 0) pg | _ => pg end
  end.

Lemma program_replay1_step pg e : rtc program_step pg (program_replay1 pg e).
Proof.
  destruct e as [|rq|i| | | | |]; cbn [program_replay1].
  - destruct (exited _) eqn:?, (pg_listening pg) eqn:?; try done. by apply rtc_once, pg_listen.
  - destruct (accepting _) eqn:?, (pg_listening pg) eqn:?; try done.
    destruct (rq_call rq) as [[]|] eqn:?; try done; apply rtc_once, pg_request; congruence.
  - destruct (pg_flights pg !! i) as [f|] eqn:?; [|done]. destruct (exited _) eqn:?; [done|].
    destruct (stepProc _ _) as [[p s]|] eqn:?; [|done]. by eapply rtc_once, pg_tool.
  - destruct (pg_status pg) eqn:?; try done. by apply rtc_once, pg_signal.
  - destruct (pg_status pg) eqn:?; try done. by apply rtc_once, pg_shutdown.
  - destruct (pg_status pg) eqn:?; try done. by apply rtc_once, pg_drained.
  - destruct (pg_status pg) as [| | |p|] eqn:?; try done.
    destruct (stepProc _ _) as [[p' s]|] eqn:?; [|done]. by eapply rtc_once, pg_close.
  - destruct (pg_status pg) as [| | |[r|]|] eqn:?; try done. by eapply rtc_once, pg_exit.
Qed.

Lemma program_replay_steps es pg : rtc program_step pg (foldl program_replay1 pg es).
Proof.
  revert pg. induction es as [|e es IH]; intros pg; [done|]. etrans; [apply program_replay1_step|apply IH].
Qed.
End replay.

(** The program with a token on its command line, over the mock target and the
    mock debug agent. *)
Definition mockMain : Z + program qsession mock :=
  main (λ _, []) (λ _, None) (λ _ c, (c, true)) (λ _, (0, false)) [str "-token"; str "s3cret"] (mockNet 5) (mockDials 5).

Definition attachRequest (token : list byte) : request :=
  MkRequest (str "POST") (str "/mcp") (str "10.0.0.9:4711") (str "Bearer " ++ token)
    (Some (CDebugAttach (MkAttachIn 77 0))).

(** An attach runs, one with a wrong token arrives, a signal follows. *)
Definition attachStop : list programEvent :=
  [EvListen; EvRequest (attachRequest (str "s3cret")); EvRequest (attachRequest (str "guess"))] ++
  replicate 9 (EvTool 0) ++ [EvSignal; EvShutdown].

Lemma main_shutdown_witness :
  match mockMain with
  | inr pg0 =>
      let pg := foldl program_replay1 pg0 attachStop in
      let pg' := foldl program_replay1 pg [EvDrained; EvClose; EvClose; EvExit] in
      size (s_sessions (pg_server pg)) = 1%nat ∧ length (QconnExec.n_used (s_net (pg_server pg'))) = 1%nat ∧
      released [] (pg_server pg')
  | inl _ => False
  end.
Proof.
  destruct mockMain as [code|pg0] eqn:E; [by vm_compute in E|].
  pose proof (program_replay_steps attachStop pg0) as Hr. pose proof E as E'. vm_compute in E'.
  pose proof (program_replay_steps [EvDrained; EvClose; EvClose; EvExit] (foldl program_replay1 pg0 attachStop)) as Hr'.
  intros pg pg'. split; [unfold pg; injection E' as <-; by vm_compute|].
  split; [unfold pg', pg; injection E' as <-; by vm_compute|].
  apply (main_shutdown _ _ _ _ _ _ _ pg0 pg E Hr) with (pg' := pg') (code := 0); try done.
  - unfold pg. injection E' as <-. by vm_compute.
  - unfold pg. injection E' as <-. vm_compute. intros f ->%list_elem_of_singleton. by eexists.
  - unfold pg', pg. injection E' as <-. by vm_compute.
Defined.

Lemma main_token_witness :
  match mockMain with
  | inr pg0 =>
      let pg := foldl program_replay1 pg0 attachStop in
      length (pg_flights pg) = 1%nat ∧
      (∀ f, f ∈ pg_flights pg → rq_Authorization (ft_req f) = str "Bearer s3cret") ∧
      pg_server (ServeHTTP (attachRequest (str "guess")) (str "1ms") pg) = pg_server pg
  | inl _ => False
  end.
Proof.
  destruct mockMain as [code|pg0] eqn:E; [by vm_compute in E|].
  pose proof (program_replay_steps attachStop pg0) as Hr. pose proof E as E'. vm_compute in E'.
  assert (Token (pg_cfg pg0) = str "s3cret") as Et by (by injection E' as <-).
  intros pg. split; [unfold pg; injection E' as <-; by vm_compute|].
  destruct (main_token _ _ _ _ _ _ _ pg0 pg E Hr) as [Hf Hs]; [by rewrite Et|]. rewrite Et in Hf, Hs.
  split; [exact Hf|]. by apply Hs.
Defined.
