(* ===== verification/Commands.v ===== *)
(** * The development commands

    [cmd/mock-qconn], [cmd/qconn-proxy], [cmd/dsmsg-proxy] and the flags of
    [cmd/dbgprobe], with [Run] of [internal/proxy/proxy.go]: flags, exit codes,
    what is written before a connection is accepted, and the accept loops. What the operating system
    answers is an argument: whether the address could be bound or the file
    opened, and the outcomes of [Accept], each the address of a client or an
    error. An exit code [None] stands for a program that still runs. *)

From stdpp Require Import base list numbers strings gmap relations.
From Stdlib Require Import ZArith Lia Strings.Byte.
From S2P Require Import Prelude GoStrconv GoStrings GoFlag GoNet Obs DsmsgDecode Proxy ProxySessions.
From S2P Require Import Transport DsmsgClient.
From S2P Require MockServer MockTarget Dbgprobe.

Local Open Scope Z_scope.

(** ** cmd/qconn-proxy *)

Module QconnProxy.

Record Proxy := MkProxy { Listen : list byte; Target : list byte; Logger : logger }.

(** [Run]: what it logs, the sessions it starts, and its error. *)
Definition Run (p : Proxy) (bind : option (list byte)) (accepts : list (list byte + list byte))
  : list entry * list (handling entry (list byte * list proxyEntry)) * option (list byte) :=
  match bind with
  | Some e => ([], [], Some e)
  | None =>
      let '(ss, e) := acceptLoop (λ id, handling_init (proxyLines (Logger p) (Target p) id)) accepts in
      (Log (Logger p) LevelInfo (str "proxy listening")
         [MkAttr (str "listen") (Listen p); MkAttr (str "target") (Target p)], ss, e)
  end.

Record proxyFlags := MkFlags { listen : list byte; target : list byte; logFormat : list byte; logLevel : list byte }.

Definition proxyDefaults : proxyFlags := MkFlags (str "127.0.0.1:8000") [] (str "text") (str "info").

Definition proxyFormal : list (list byte * (list byte → proxyFlags → proxyFlags)) :=
  [(str "listen", λ v f, MkFlags v (target f) (logFormat f) (logLevel f));
   (str "target", λ v f, MkFlags (listen f) v (logFormat f) (logLevel f));
   (str "log-format", λ v f, MkFlags (listen f) (target f) v (logLevel f));
   (str "log-level", λ v f, MkFlags (listen f) (target f) (logFormat f) v)].

Definition proxyMain (args : list (list byte)) (bind : option (list byte)) (accepts : list (list byte + list byte))
  : option Z * list entry * list (handling entry (list byte * list proxyEntry)) :=
  match parseOrExit (stringFlags proxyFormal) args proxyDefaults with
  | inl code => (Some code, [], [])
  | inr f =>
      if decide (target f = []) then (Some 2, [], [])
      else
        let log := Setup (MkOptions (logLevel f) (logFormat f) false) in
        match Run (MkProxy (listen f) (target f) log) bind accepts with
        | (es, ss, Some e) => (Some 1, es ++ Log log LevelError (str "proxy exited") [MkAttr (str "err") e], ss)
        | (es, ss, None) => (None, es, ss)
        end
  end.

(** The variables after flags as they are written. *)
Definition written_flags (ws : list written) : proxyFlags :=
  MkFlags (lastWritten (str "listen") ws (listen proxyDefaults)) (lastWritten (str "target") ws (target proxyDefaults))
    (lastWritten (str "log-format") ws (logFormat proxyDefaults)) (lastWritten (str "log-level") ws (logLevel proxyDefaults)).

Lemma formal_names : Forall flagName (fst <$> proxyFormal).
Proof. repeat constructor; done. Qed.

Lemma parse_written ws :
  Forall (λ w, wr_name w ∈ fst <$> proxyFormal) ws →
  parseOrExit (stringFlags proxyFormal) (writtenArgs ws) proxyDefaults = inr (written_flags ws).
Proof.
  intros Hws. rewrite parseOrExit_written by (done || apply formal_names). f_equal.
  unfold written_flags, lastWritten. generalize proxyDefaults as f.
  induction Hws as [|[fm n v] ws Hw Hws IH]; intros f; [by destruct f|].
  cbn [foldl wr_name wr_value]. rewrite IH. clear -Hw. cbn [wr_name] in Hw.
  unfold proxyFormal in Hw. cbn [fmap list_fmap fst] in Hw. rewrite !elem_of_cons, elem_of_nil in Hw.
  by destruct Hw as [->|[->|[->|[->|[]]]]].
Qed.
End QconnProxy.

(** C23: The qconn proxy runs for a target and until its listener fails. With
    its flags written in any order, form and number, each variable is the last
    value written or its default. Without a target it exits with 2 and accepts
    nothing. With one it exits with 1 when the address cannot be bound, and
    otherwise serves every client accepted before the first error of [Accept],
    in order, and no other, before it exits with 1 as well: a session starts
    for each of them, towards this target, and nothing ends those before. *)
Theorem qconn_proxy_main ws bind clients (e : list byte) (rest : list (list byte + list byte)) :
  Forall (λ w, wr_name w ∈ [str "listen"; str "target"; str "log-format"; str "log-level"]) ws →
  let '(code, es, sessions) := QconnProxy.proxyMain (writtenArgs ws) bind ((inr <$> clients) ++ inl e :: rest) in
  let target := lastWritten (str "target") ws [] in
  let lg := Setup (MkOptions (lastWritten (str "log-level") ws (str "info"))
                             (lastWritten (str "log-format") ws (str "text")) false) in
  if decide (target = []) then code = Some 2 ∧ es = [] ∧ sessions = []
  else code = Some 1 ∧
    match bind with
    | Some e => es = Log lg LevelError (str "proxy exited") [MkAttr (str "err") e] ∧ sessions = []
    | None =>
        es = Log lg LevelInfo (str "proxy listening")
               [MkAttr (str "listen") (lastWritten (str "listen") ws (str "127.0.0.1:8000")); MkAttr (str "target") target] ++
             Log lg LevelError (str "proxy exited") [MkAttr (str "err") e] ∧
        sessions = (λ id, handling_init (proxyLines lg target id)) <$> clients
    end.
Proof.
  intros Hws. unfold QconnProxy.proxyMain. rewrite QconnProxy.parse_written by done.
  cbn [QconnProxy.written_flags QconnProxy.target QconnProxy.listen QconnProxy.logFormat QconnProxy.logLevel
       QconnProxy.proxyDefaults]. case_decide as Ht; [done|].
  unfold QconnProxy.Run. destruct bind as [e'|]; [done|]. by rewrite acceptLoop_served.
Qed.

Lemma qconn_proxy_main_witness :
  let '(code, es, sessions) := QconnProxy.proxyMain
    [str "-target=old:1"; str "-target"; str "qnx:8000"; str "-log-level"; str "error"] None
    [inr (str "10.0.0.9:1"); inr (str "10.0.0.9:2"); inl (str "closed"); inr (str "10.0.0.9:3")] in
  code = Some 1 ∧
  es = [MkEntry LevelError (str "proxy exited") [MkAttr (str "err") (str "closed")]] ∧
  length sessions = 2%nat.
Proof.
  pose proof (qconn_proxy_main
    [MkWritten Joined (str "target") (str "old:1"); MkWritten Separate (str "target") (str "qnx:8000");
     MkWritten Separate (str "log-level") (str "error")] None [str "10.0.0.9:1"; str "10.0.0.9:2"] (str "closed")
    [inr (str "10.0.0.9:3")]) as Hm.
  change (writtenArgs _) with [str "-target=old:1"; str "-target"; str "qnx:8000"; str "-log-level"; str "error"] in Hm.
  change ((inr <$> [str "10.0.0.9:1"; str "10.0.0.9:2"]) ++ inl (str "closed") :: [inr (str "10.0.0.9:3")])
    with [inr (str "10.0.0.9:1"); inr (str "10.0.0.9:2"); inl (str "closed"); inr (str "10.0.0.9:3")] in Hm.
  destruct (QconnProxy.proxyMain _ _ _) as [[code es] sessions]. destruct Hm as (-> & -> & ->).
  { apply Forall_forall. intros w Hw. rewrite !elem_of_cons in *. rewrite elem_of_nil in Hw.
    destruct Hw as [->|[->|[->|[]]]]; vm_compute; auto. }
  by split_and!.
Defined.

(** ** cmd/dsmsg-proxy *)

Module DsmsgProxy.

Record dsmsgFlags := MkFlags { listen : list byte; target : list byte; logfile : list byte }.

Definition dsmsgDefaults : dsmsgFlags := MkFlags (str "0.0.0.0:8001") (str "192.168.2.10:8001") [].

Definition dsmsgFormal : list (list byte * (list byte → dsmsgFlags → dsmsgFlags)) :=
  [(str "listen", λ v f, MkFlags v (target f) (logfile f));
   (str "target", λ v f, MkFlags (listen f) v (logfile f));
   (str "log", λ v f, MkFlags (listen f) (target f) v)].

Definition portOf (addr : list byte) : list byte :=
  match SplitHostPort addr with inr (_, p) => p | inl _ => addr end.

(** [logf] at time [now]. *)
Definition logf (now line : list byte) : list byte := now ++ str " " ++ line ++ [x0a].

Definition banner (f : dsmsgFlags) : list (list byte) :=
  [str "dsmsg-proxy listening on " ++ listen f ++ str " -> " ++ target f ++ [x0a];
   str "point gdb at this host's IP:" ++ portOf (listen f) ++ str " (target qnx <ip>:" ++ portOf (listen f) ++ str ")" ++ [x0a]].

(** The accept loop: an error is reported and the loop goes on. *)
Fixpoint acceptAll (target : list byte) (accepts : list (list byte + list byte))
  : list (list byte) * list (handling (list byte) dsmsgLog) :=
  match accepts with
  | [] => ([], [])
  | inl e :: accepts => let '(l, ss) := acceptAll target accepts in ((str "accept: " ++ e) :: l, ss)
  | inr id :: accepts => let '(l, ss) := acceptAll target accepts in (l, handling_init (dsmsgLines target id) :: ss)
  end.

(** The exit code, what is written to [out], what the [log] package writes,
    and the sessions. *)
Definition dsmsgMain (args : list (list byte)) (openLog bind : option (list byte)) (accepts : list (list byte + list byte))
  : option Z * list (list byte) * list (list byte) * list (handling (list byte) dsmsgLog) :=
  match parseOrExit (stringFlags dsmsgFormal) args dsmsgDefaults with
  | inl code => (Some code, [], [], [])
  | inr f =>
      match (if decide (logfile f = []) then None else openLog) with
      | Some e => (Some 1, [], [str "open log: " ++ e], [])
      | None =>
          match bind with
          | Some e => (Some 1, [], [str "listen " ++ listen f ++ str ": " ++ e], [])
          | None => let '(l, ss) := acceptAll (target f) accepts in (None, banner f, l, ss)
          end
      end
  end.

(** Errors of [Accept] never stop it: a session for every client accepted. *)
Lemma acceptAll_serves tgt accepts :
  snd (acceptAll tgt accepts) =
    (λ id, handling_init (dsmsgLines tgt id)) <$> omap (λ a, match a with inr id => Some id | inl _ => None end) accepts.
Proof.
  induction accepts as [|[e|id] accepts IH]; [done|..]; cbn [acceptAll];
    destruct (acceptAll tgt accepts) as [l ss]; cbn [snd] in *; by rewrite IH.
Qed.

(** The port that is announced is the one that is listened on. *)
Lemma portOf_Join h p : x5b ∉ h → x5d ∉ h → portOf (JoinHostPort h p) = fmt_d p.
Proof. intros Ho Hc. unfold portOf. by rewrite SplitHostPort_Join. Qed.
End DsmsgProxy.

(** ** cmd/mock-qconn *)

Module MockQconn.

Definition mockQconnFormal : list (list byte * (list byte → list byte → list byte)) := [(str "addr", λ v _, v)].

(** The exit code, what is logged, and the connections served. *)
Definition mockQconnMain (args : list (list byte)) (bind : option (list byte)) (accepts : list (list byte + ()))
  : option Z * list (list byte) * list MockServer.qsession :=
  match parseOrExit (stringFlags mockQconnFormal) args (str "127.0.0.1:8000") with
  | inl code => (Some code, [], [])
  | inr addr =>
      let hello := str "mock-qconn listening on " ++ addr in
      match MockTarget.ListenAndServe bind accepts with
      | (conns, Some e) => (Some 1, [hello; str "mock-qconn: " ++ e], conns)
      | (conns, None) => (None, [hello], conns)
      end
  end.
End MockQconn.

(** ** cmd/dbgprobe *)

Module Probe.

Record probeFlags := MkFlags { addr : list byte; trace : bool; opts : Dbgprobe.options }.

Definition probeDefaults : probeFlags :=
  MkFlags (str "192.168.2.10:8001") false (Dbgprobe.MkOptions 0 (str "0") false (str "0") [] (str "0")).

Definition withOpts (f : Dbgprobe.options → Dbgprobe.options) (p : probeFlags) : probeFlags :=
  MkFlags (addr p) (trace p) (f (opts p)).

(** [flag.Bool] and [flag.Int], which store what they have read even when
    they report an error. *)
Definition boolFlag {A} (set : bool → A → A) : flagDef A :=
  MkFlag true (λ v a, match ParseBool v with Some b => (set b a, true) | None => (set false a, false) end).

Definition intFlag {A} (set : Z → A → A) : flagDef A :=
  MkFlag false (λ v a, let '(z, e) := ParseInt0 v in (set z a, bool_decide (e = None))).

Import Dbgprobe.

Definition probeFormal (name : list byte) : option (flagDef probeFlags) :=
  if decide (name = str "pid") then
    Some (intFlag (λ z, withOpts (λ o, MkOptions z (o_rd o) (o_exec o) (o_brk o) (o_launch o) (o_main o))))
  else if decide (name = str "trace") then Some (boolFlag (λ b p, MkFlags (addr p) b (opts p)))
  else if decide (name = str "exec") then
    Some (boolFlag (λ b, withOpts (λ o, MkOptions (o_pid o) (o_rd o) b (o_brk o) (o_launch o) (o_main o))))
  else stringFlags
    [(str "addr", λ v p, MkFlags v (trace p) (opts p));
     (str "rd", λ v, withOpts (λ o, MkOptions (o_pid o) v (o_exec o) (o_brk o) (o_launch o) (o_main o)));
     (str "brk", λ v, withOpts (λ o, MkOptions (o_pid o) (o_rd o) (o_exec o) v (o_launch o) (o_main o)));
     (str "launch", λ v, withOpts (λ o, MkOptions (o_pid o) (o_rd o) (o_exec o) (o_brk o) v (o_main o)));
     (str "main", λ v, withOpts (λ o, MkOptions (o_pid o) (o_rd o) (o_exec o) (o_brk o) (o_launch o) v))] name.

(** The logger of either run. *)
Definition probeLogger (p : probeFlags) : logger :=
  Setup (Obs.MkOptions (if trace p then str "debug" else str "info") [] (trace p)).

(** The program, given the outcome of dialling each address. *)
Definition probeMain {D} `{Peer D} (args : list (list byte)) (dial : list byte → option (transport D))
  : Z * option (Client D) * list pevent :=
  match parseOrExit probeFormal args probeDefaults with
  | inl code => (code, None, [])
  | inr p => Dbgprobe.main (opts p) (dial (addr p))
  end.

(** With [-trace] the probe writes the wire dumps: here, unlike in the server,
    the flag raises the level as well. *)
Lemma probe_trace_visible p where_ dir b as_ :
  trace p = true → Trace (probeLogger p) where_ dir b = Some as_ →
  Log (probeLogger p) LevelDebug (str "wire") as_ = [MkEntry LevelDebug (str "wire") (emitted as_)].
Proof. unfold probeLogger. by intros ->. Qed.
End Probe.
